(** * Snap Hero: the annotation editing core

    A shallow embedding of the editor modules of the Snap Hero screenshot
    extension (editor/modules/annotations.js, state.js, history.js,
    toolbar.js, tools/tool-manager.js, tools/text-tool.js and the event
    wiring of editor/editor.js), and the properties of the annotation
    model, the hit test, the commit thresholds and the undo history.

    Conventions of the embedding.

    - A JavaScript number is an exact rational ([Q]); rounding and overflow
      of IEEE doubles are outside the model.  [Math.sqrt (v) < c] with
      [0 < c] is written [v < c * c], and likewise for [>].  Module
      [JSNum] adds the non-finite values, with the overflow to an infinity
      and the underflow to zero of doubles, to study the proportional
      rescale.
    - The [{x, y}] objects of a stroke are shared between the live stroke
      and the history entries that contain it, so they live in an explicit
      store ([Heap]) and a stroke holds their addresses.  A draft holds the
      points by value, and restoring it makes new objects of them.
    - Every other annotation object is referenced from one slot of one list
      (and, while selected, from [state.selectedAnnotation], which is set
      and cleared together with [selectedType] and [selectedIndex]); it is
      kept by value in its list, and a write through the selection is a
      write to that slot.
    - Drawing on the canvas does not change the editor state; only
      [drawStroke] is modelled, as the list of drawing commands it issues. *)

From Stdlib Require Import QArith Qminmax Qabs Qround ZArith Lia Lqa String Ascii.
From stdpp Require Import base list option.

Local Open Scope Q_scope.

(** ** Numbers *)

Definition Qltb (a b : Q) : bool := negb (Qle_bool b a).

(** ** constants.js *)

Inductive Tool : Type :=
  | SELECT | PEN | TEXT | RECTANGLE | CIRCLE | ARROW | BLUR.

Definition Tool_eqb (a b : Tool) : bool :=
  match a, b with
  | SELECT, SELECT | PEN, PEN | TEXT, TEXT | RECTANGLE, RECTANGLE
  | CIRCLE, CIRCLE | ARROW, ARROW | BLUR, BLUR => true
  | _, _ => false
  end.

Module SELECTION.
Definition handleSize : Q := 8.
Definition hitTolerance : Q := 10.
End SELECTION.

Module DEFAULTS.
Definition color : string := "#ef4444".
Definition lineWidth : Q := 4.
Definition fontSize : Q := 24.
Definition filled : bool := false.
End DEFAULTS.

Module HISTORY.
Definition maxEntries : nat := 20.
End HISTORY.

Module CANVAS.
Definition minStrokeLength : Q := 5.
Definition minShapeSize : Q := 10.
Definition minArrowLength : Q := 5.
Definition textBaselineRatio : Q := 8 # 10.
End CANVAS.

(** ** annotations.js *)

Record Point : Type := mkPoint { p_x : Q; p_y : Q }.

(** The store of point objects: an address is the allocation rank. *)
Abbreviation loc := nat (only parsing).
Abbreviation Heap := (list Point) (only parsing).

Definition alloc (h : Heap) (p : Point) : Heap * loc :=
  (h ++ [p], length h).

Record Bounds : Type :=
  mkBounds { b_x : Q; b_y : Q; b_width : Q; b_height : Q }.

Record Stroke : Type := mkStroke {
  stroke_points : list loc;
  stroke_color : string;
  stroke_lineWidth : Q
}.

Record Arrow : Type := mkArrow {
  arrow_startX : Q; arrow_startY : Q;
  arrow_endX : Q; arrow_endY : Q;
  arrow_color : string;
  arrow_lineWidth : Q
}.

Record TextAnnotation : Type := mkText {
  text_x : Q; text_y : Q;
  text_text : string;
  text_fontSize : Q;
  text_color : string
}.

Record Rectangle : Type := mkRectangle {
  rect_x : Q; rect_y : Q;
  rect_width : Q; rect_height : Q;
  rect_color : string;
  rect_lineWidth : Q;
  rect_filled : bool
}.

Record Ellipse : Type := mkEllipse {
  ell_startX : Q; ell_startY : Q;
  ell_centerX : Q; ell_centerY : Q;
  ell_radiusX : Q; ell_radiusY : Q;
  ell_color : string;
  ell_lineWidth : Q;
  ell_filled : bool
}.

Record BlurRegion : Type := mkBlur {
  blur_x : Q; blur_y : Q;
  blur_width : Q; blur_height : Q
}.

(** The 2D context, as far as the model reads it: the advance width of a
    text in [bold <fontSize>px Arial, sans-serif]. *)
Record Ctx : Type := mkCtx { measureText : Q -> string -> Q }.

Module StrokeM.
(** [new Stroke(color, lineWidth)] *)
Definition new (color : string) (lineWidth : Q) : Stroke :=
  mkStroke [] color lineWidth.

(** [addPoint]: a new [{x, y}] object is pushed on [points]. *)
Definition addPoint (h : Heap) (s : Stroke) (x y : Q) : Heap * Stroke :=
  let '(h', l) := alloc h (mkPoint x y) in
  (h', mkStroke (stroke_points s ++ [l]) (stroke_color s) (stroke_lineWidth s)).

(** The point objects of the stroke, read through the store. *)
Definition points (h : Heap) (s : Stroke) : list Point :=
  omap (fun l => h !! l) (stroke_points s).

(** The running minimum and maximum of [getBounds]. *)
Definition extend (acc : Q * Q * Q * Q) (p : Point) : Q * Q * Q * Q :=
  let '(minX, minY, maxX, maxY) := acc in
  (Qmin minX (p_x p), Qmin minY (p_y p), Qmax maxX (p_x p), Qmax maxY (p_y p)).

(** [getBounds]: [null] without points.  The source starts the fold at
    plus and minus [Infinity]; after the first point the accumulator is
    that point, which is where the fold starts here. *)
Definition getBounds (h : Heap) (s : Stroke) : option Bounds :=
  match points h s with
  | [] => None
  | p :: ps =>
      let '(minX, minY, maxX, maxY) :=
        foldl extend (p_x p, p_y p, p_x p, p_y p) ps in
      Some (mkBounds minX minY (maxX - minX) (maxY - minY))
  end.
End StrokeM.

Module ArrowM.
Definition new (startX startY : Q) (color : string) (lineWidth : Q) : Arrow :=
  mkArrow startX startY startX startY color lineWidth.

Definition setEnd (a : Arrow) (x y : Q) : Arrow :=
  mkArrow (arrow_startX a) (arrow_startY a) x y (arrow_color a) (arrow_lineWidth a).

Definition getBounds (a : Arrow) : Bounds :=
  mkBounds (Qmin (arrow_startX a) (arrow_endX a))
           (Qmin (arrow_startY a) (arrow_endY a))
           (Qabs (arrow_endX a - arrow_startX a))
           (Qabs (arrow_endY a - arrow_startY a)).
End ArrowM.

Module TextM.
Definition new (x y : Q) (text : string) (fontSize : Q) (color : string)
  : TextAnnotation := mkText x y text fontSize color.

Definition getBounds (ctx : Ctx) (t : TextAnnotation) : Bounds :=
  let width := measureText ctx (text_fontSize t) (text_text t) + 8 in
  let height := text_fontSize t + 8 in
  mkBounds (text_x t - 4) (text_y t - text_fontSize t) width height.
End TextM.

Module RectangleM.
Definition new (x y : Q) (color : string) (lineWidth : Q) (filled : bool)
  : Rectangle := mkRectangle x y 0 0 color lineWidth filled.

Definition setEnd (r : Rectangle) (endX endY : Q) : Rectangle :=
  mkRectangle (rect_x r) (rect_y r) (endX - rect_x r) (endY - rect_y r)
              (rect_color r) (rect_lineWidth r) (rect_filled r).

Definition getBounds (r : Rectangle) : Bounds :=
  mkBounds (if Qle_bool 0 (rect_width r) then rect_x r else rect_x r + rect_width r)
           (if Qle_bool 0 (rect_height r) then rect_y r else rect_y r + rect_height r)
           (Qabs (rect_width r))
           (Qabs (rect_height r)).
End RectangleM.

Module EllipseM.
Definition new (x y : Q) (color : string) (lineWidth : Q) (filled : bool)
  : Ellipse := mkEllipse x y x y 0 0 color lineWidth filled.

Definition setEnd (e : Ellipse) (endX endY : Q) : Ellipse :=
  mkEllipse (ell_startX e) (ell_startY e)
            ((ell_startX e + endX) / 2) ((ell_startY e + endY) / 2)
            (Qabs (endX - ell_startX e) / 2) (Qabs (endY - ell_startY e) / 2)
            (ell_color e) (ell_lineWidth e) (ell_filled e).

Definition getBounds (e : Ellipse) : Bounds :=
  mkBounds (ell_centerX e - ell_radiusX e) (ell_centerY e - ell_radiusY e)
           (ell_radiusX e * 2) (ell_radiusY e * 2).
End EllipseM.

Module BlurRegionM.
Definition new (x y : Q) : BlurRegion := mkBlur x y 0 0.

Definition setEnd (b : BlurRegion) (endX endY : Q) : BlurRegion :=
  mkBlur (blur_x b) (blur_y b) (endX - blur_x b) (endY - blur_y b).

Definition getBounds (b : BlurRegion) : Bounds :=
  mkBounds (if Qle_bool 0 (blur_width b) then blur_x b else blur_x b + blur_width b)
           (if Qle_bool 0 (blur_height b) then blur_y b else blur_y b + blur_height b)
           (Qabs (blur_width b))
           (Qabs (blur_height b)).
End BlurRegionM.

(** ** state.js *)

Inductive AnnType : Type :=
  | TStroke | TArrow | TRectangle | TEllipse | TText | TBlur.

(** An annotation object; the constructor is its [type] field. *)
Inductive Annotation : Type :=
  | AStroke (s : Stroke)
  | AArrow (a : Arrow)
  | ARectangle (r : Rectangle)
  | AEllipse (e : Ellipse)
  | AText (t : TextAnnotation)
  | ABlur (b : BlurRegion).

Definition typeOf (a : Annotation) : AnnType :=
  match a with
  | AStroke _ => TStroke | AArrow _ => TArrow | ARectangle _ => TRectangle
  | AEllipse _ => TEllipse | AText _ => TText | ABlur _ => TBlur
  end.

Inductive DragMode : Type :=
  | Move | ResizeNW | ResizeNE | ResizeSW | ResizeSE.

(** The string the source stores in [state.dragMode]. *)
Definition modeName (m : DragMode) : string :=
  match m with
  | Move => "move"
  | ResizeNW => "resize-nw"
  | ResizeNE => "resize-ne"
  | ResizeSW => "resize-sw"
  | ResizeSE => "resize-se"
  end.

(** Canvas coordinates of a pointer event, as [getCanvasCoords] returns
    them ([screenX] and [screenY] only position the text input). *)
Record Coords : Type := mkCoords { c_x : Q; c_y : Q }.

Record PendingText : Type := mkPendingText {
  pending_x : Q; pending_y : Q;
  pending_fontSize : Q;
  pending_color : string
}.

Record HistoryEntry : Type := mkEntry {
  entry_strokes : list Stroke;
  entry_arrows : list Arrow;
  entry_rectangles : list Rectangle;
  entry_ellipses : list Ellipse;
  entry_blurs : list BlurRegion;
  entry_texts : list TextAnnotation
}.

Record State : Type := mkState {
  ctx : Ctx;
  heap : Heap;  (* the {x, y} objects of all strokes *)
  currentTool : Tool;
  color : string;
  lineWidth : Q;
  fontSize : Q;
  filled : bool;
  isDrawing : bool;
  strokes : list Stroke;
  currentStroke : option Stroke;
  arrows : list Arrow;
  currentArrow : option Arrow;
  rectangles : list Rectangle;
  currentRectangle : option Rectangle;
  ellipses : list Ellipse;
  currentEllipse : option Ellipse;
  blurs : list BlurRegion;
  currentBlur : option BlurRegion;
  texts : list TextAnnotation;
  isEditingText : bool;
  pendingText : option PendingText;
  selectedType : option AnnType;  (* selectedAnnotation is the slot (selectedType, selectedIndex) *)
  selectedIndex : option nat;
  dragMode : option DragMode;
  dragStartX : Q;
  dragStartY : Q;
  originalBounds : option Bounds;
  history : list HistoryEntry;
  historyIndex : Z;
  rafId : bool;  (* tool-manager.js: a shape preview callback is scheduled *)
  pendingCoords : option Coords;  (* tool-manager.js *)
  textInputValue : string  (* the value of the #textInput element *)
}.

Definition setHeap (v : Heap) (s : State) : State :=
  mkState (ctx s) v (currentTool s) (color s) (lineWidth s) (fontSize s)
    (filled s) (isDrawing s) (strokes s) (currentStroke s) (arrows s)
    (currentArrow s) (rectangles s) (currentRectangle s) (ellipses s)
    (currentEllipse s) (blurs s) (currentBlur s) (texts s) (isEditingText s)
    (pendingText s) (selectedType s) (selectedIndex s) (dragMode s)
    (dragStartX s) (dragStartY s) (originalBounds s) (history s)
    (historyIndex s) (rafId s) (pendingCoords s) (textInputValue s).

Definition setCurrentTool (v : Tool) (s : State) : State :=
  mkState (ctx s) (heap s) v (color s) (lineWidth s) (fontSize s) (filled s)
    (isDrawing s) (strokes s) (currentStroke s) (arrows s) (currentArrow s)
    (rectangles s) (currentRectangle s) (ellipses s) (currentEllipse s)
    (blurs s) (currentBlur s) (texts s) (isEditingText s) (pendingText s)
    (selectedType s) (selectedIndex s) (dragMode s) (dragStartX s)
    (dragStartY s) (originalBounds s) (history s) (historyIndex s) (rafId s)
    (pendingCoords s) (textInputValue s).

Definition setIsDrawing (v : bool) (s : State) : State :=
  mkState (ctx s) (heap s) (currentTool s) (color s) (lineWidth s)
    (fontSize s) (filled s) v (strokes s) (currentStroke s) (arrows s)
    (currentArrow s) (rectangles s) (currentRectangle s) (ellipses s)
    (currentEllipse s) (blurs s) (currentBlur s) (texts s) (isEditingText s)
    (pendingText s) (selectedType s) (selectedIndex s) (dragMode s)
    (dragStartX s) (dragStartY s) (originalBounds s) (history s)
    (historyIndex s) (rafId s) (pendingCoords s) (textInputValue s).

Definition setStrokes (v : list Stroke) (s : State) : State :=
  mkState (ctx s) (heap s) (currentTool s) (color s) (lineWidth s)
    (fontSize s) (filled s) (isDrawing s) v (currentStroke s) (arrows s)
    (currentArrow s) (rectangles s) (currentRectangle s) (ellipses s)
    (currentEllipse s) (blurs s) (currentBlur s) (texts s) (isEditingText s)
    (pendingText s) (selectedType s) (selectedIndex s) (dragMode s)
    (dragStartX s) (dragStartY s) (originalBounds s) (history s)
    (historyIndex s) (rafId s) (pendingCoords s) (textInputValue s).

Definition setCurrentStroke (v : option Stroke) (s : State) : State :=
  mkState (ctx s) (heap s) (currentTool s) (color s) (lineWidth s)
    (fontSize s) (filled s) (isDrawing s) (strokes s) v (arrows s)
    (currentArrow s) (rectangles s) (currentRectangle s) (ellipses s)
    (currentEllipse s) (blurs s) (currentBlur s) (texts s) (isEditingText s)
    (pendingText s) (selectedType s) (selectedIndex s) (dragMode s)
    (dragStartX s) (dragStartY s) (originalBounds s) (history s)
    (historyIndex s) (rafId s) (pendingCoords s) (textInputValue s).

Definition setArrows (v : list Arrow) (s : State) : State :=
  mkState (ctx s) (heap s) (currentTool s) (color s) (lineWidth s)
    (fontSize s) (filled s) (isDrawing s) (strokes s) (currentStroke s) v
    (currentArrow s) (rectangles s) (currentRectangle s) (ellipses s)
    (currentEllipse s) (blurs s) (currentBlur s) (texts s) (isEditingText s)
    (pendingText s) (selectedType s) (selectedIndex s) (dragMode s)
    (dragStartX s) (dragStartY s) (originalBounds s) (history s)
    (historyIndex s) (rafId s) (pendingCoords s) (textInputValue s).

Definition setCurrentArrow (v : option Arrow) (s : State) : State :=
  mkState (ctx s) (heap s) (currentTool s) (color s) (lineWidth s)
    (fontSize s) (filled s) (isDrawing s) (strokes s) (currentStroke s)
    (arrows s) v (rectangles s) (currentRectangle s) (ellipses s)
    (currentEllipse s) (blurs s) (currentBlur s) (texts s) (isEditingText s)
    (pendingText s) (selectedType s) (selectedIndex s) (dragMode s)
    (dragStartX s) (dragStartY s) (originalBounds s) (history s)
    (historyIndex s) (rafId s) (pendingCoords s) (textInputValue s).

Definition setRectangles (v : list Rectangle) (s : State) : State :=
  mkState (ctx s) (heap s) (currentTool s) (color s) (lineWidth s)
    (fontSize s) (filled s) (isDrawing s) (strokes s) (currentStroke s)
    (arrows s) (currentArrow s) v (currentRectangle s) (ellipses s)
    (currentEllipse s) (blurs s) (currentBlur s) (texts s) (isEditingText s)
    (pendingText s) (selectedType s) (selectedIndex s) (dragMode s)
    (dragStartX s) (dragStartY s) (originalBounds s) (history s)
    (historyIndex s) (rafId s) (pendingCoords s) (textInputValue s).

Definition setCurrentRectangle (v : option Rectangle) (s : State) : State :=
  mkState (ctx s) (heap s) (currentTool s) (color s) (lineWidth s)
    (fontSize s) (filled s) (isDrawing s) (strokes s) (currentStroke s)
    (arrows s) (currentArrow s) (rectangles s) v (ellipses s)
    (currentEllipse s) (blurs s) (currentBlur s) (texts s) (isEditingText s)
    (pendingText s) (selectedType s) (selectedIndex s) (dragMode s)
    (dragStartX s) (dragStartY s) (originalBounds s) (history s)
    (historyIndex s) (rafId s) (pendingCoords s) (textInputValue s).

Definition setEllipses (v : list Ellipse) (s : State) : State :=
  mkState (ctx s) (heap s) (currentTool s) (color s) (lineWidth s)
    (fontSize s) (filled s) (isDrawing s) (strokes s) (currentStroke s)
    (arrows s) (currentArrow s) (rectangles s) (currentRectangle s) v
    (currentEllipse s) (blurs s) (currentBlur s) (texts s) (isEditingText s)
    (pendingText s) (selectedType s) (selectedIndex s) (dragMode s)
    (dragStartX s) (dragStartY s) (originalBounds s) (history s)
    (historyIndex s) (rafId s) (pendingCoords s) (textInputValue s).

Definition setCurrentEllipse (v : option Ellipse) (s : State) : State :=
  mkState (ctx s) (heap s) (currentTool s) (color s) (lineWidth s)
    (fontSize s) (filled s) (isDrawing s) (strokes s) (currentStroke s)
    (arrows s) (currentArrow s) (rectangles s) (currentRectangle s)
    (ellipses s) v (blurs s) (currentBlur s) (texts s) (isEditingText s)
    (pendingText s) (selectedType s) (selectedIndex s) (dragMode s)
    (dragStartX s) (dragStartY s) (originalBounds s) (history s)
    (historyIndex s) (rafId s) (pendingCoords s) (textInputValue s).

Definition setBlurs (v : list BlurRegion) (s : State) : State :=
  mkState (ctx s) (heap s) (currentTool s) (color s) (lineWidth s)
    (fontSize s) (filled s) (isDrawing s) (strokes s) (currentStroke s)
    (arrows s) (currentArrow s) (rectangles s) (currentRectangle s)
    (ellipses s) (currentEllipse s) v (currentBlur s) (texts s)
    (isEditingText s) (pendingText s) (selectedType s) (selectedIndex s)
    (dragMode s) (dragStartX s) (dragStartY s) (originalBounds s) (history s)
    (historyIndex s) (rafId s) (pendingCoords s) (textInputValue s).

Definition setCurrentBlur (v : option BlurRegion) (s : State) : State :=
  mkState (ctx s) (heap s) (currentTool s) (color s) (lineWidth s)
    (fontSize s) (filled s) (isDrawing s) (strokes s) (currentStroke s)
    (arrows s) (currentArrow s) (rectangles s) (currentRectangle s)
    (ellipses s) (currentEllipse s) (blurs s) v (texts s) (isEditingText s)
    (pendingText s) (selectedType s) (selectedIndex s) (dragMode s)
    (dragStartX s) (dragStartY s) (originalBounds s) (history s)
    (historyIndex s) (rafId s) (pendingCoords s) (textInputValue s).

Definition setTexts (v : list TextAnnotation) (s : State) : State :=
  mkState (ctx s) (heap s) (currentTool s) (color s) (lineWidth s)
    (fontSize s) (filled s) (isDrawing s) (strokes s) (currentStroke s)
    (arrows s) (currentArrow s) (rectangles s) (currentRectangle s)
    (ellipses s) (currentEllipse s) (blurs s) (currentBlur s) v
    (isEditingText s) (pendingText s) (selectedType s) (selectedIndex s)
    (dragMode s) (dragStartX s) (dragStartY s) (originalBounds s) (history s)
    (historyIndex s) (rafId s) (pendingCoords s) (textInputValue s).

Definition setIsEditingText (v : bool) (s : State) : State :=
  mkState (ctx s) (heap s) (currentTool s) (color s) (lineWidth s)
    (fontSize s) (filled s) (isDrawing s) (strokes s) (currentStroke s)
    (arrows s) (currentArrow s) (rectangles s) (currentRectangle s)
    (ellipses s) (currentEllipse s) (blurs s) (currentBlur s) (texts s) v
    (pendingText s) (selectedType s) (selectedIndex s) (dragMode s)
    (dragStartX s) (dragStartY s) (originalBounds s) (history s)
    (historyIndex s) (rafId s) (pendingCoords s) (textInputValue s).

Definition setPendingText (v : option PendingText) (s : State) : State :=
  mkState (ctx s) (heap s) (currentTool s) (color s) (lineWidth s)
    (fontSize s) (filled s) (isDrawing s) (strokes s) (currentStroke s)
    (arrows s) (currentArrow s) (rectangles s) (currentRectangle s)
    (ellipses s) (currentEllipse s) (blurs s) (currentBlur s) (texts s)
    (isEditingText s) v (selectedType s) (selectedIndex s) (dragMode s)
    (dragStartX s) (dragStartY s) (originalBounds s) (history s)
    (historyIndex s) (rafId s) (pendingCoords s) (textInputValue s).

Definition setSelectedType (v : option AnnType) (s : State) : State :=
  mkState (ctx s) (heap s) (currentTool s) (color s) (lineWidth s)
    (fontSize s) (filled s) (isDrawing s) (strokes s) (currentStroke s)
    (arrows s) (currentArrow s) (rectangles s) (currentRectangle s)
    (ellipses s) (currentEllipse s) (blurs s) (currentBlur s) (texts s)
    (isEditingText s) (pendingText s) v (selectedIndex s) (dragMode s)
    (dragStartX s) (dragStartY s) (originalBounds s) (history s)
    (historyIndex s) (rafId s) (pendingCoords s) (textInputValue s).

Definition setSelectedIndex (v : option nat) (s : State) : State :=
  mkState (ctx s) (heap s) (currentTool s) (color s) (lineWidth s)
    (fontSize s) (filled s) (isDrawing s) (strokes s) (currentStroke s)
    (arrows s) (currentArrow s) (rectangles s) (currentRectangle s)
    (ellipses s) (currentEllipse s) (blurs s) (currentBlur s) (texts s)
    (isEditingText s) (pendingText s) (selectedType s) v (dragMode s)
    (dragStartX s) (dragStartY s) (originalBounds s) (history s)
    (historyIndex s) (rafId s) (pendingCoords s) (textInputValue s).

Definition setDragMode (v : option DragMode) (s : State) : State :=
  mkState (ctx s) (heap s) (currentTool s) (color s) (lineWidth s)
    (fontSize s) (filled s) (isDrawing s) (strokes s) (currentStroke s)
    (arrows s) (currentArrow s) (rectangles s) (currentRectangle s)
    (ellipses s) (currentEllipse s) (blurs s) (currentBlur s) (texts s)
    (isEditingText s) (pendingText s) (selectedType s) (selectedIndex s) v
    (dragStartX s) (dragStartY s) (originalBounds s) (history s)
    (historyIndex s) (rafId s) (pendingCoords s) (textInputValue s).

Definition setDragStartX (v : Q) (s : State) : State :=
  mkState (ctx s) (heap s) (currentTool s) (color s) (lineWidth s)
    (fontSize s) (filled s) (isDrawing s) (strokes s) (currentStroke s)
    (arrows s) (currentArrow s) (rectangles s) (currentRectangle s)
    (ellipses s) (currentEllipse s) (blurs s) (currentBlur s) (texts s)
    (isEditingText s) (pendingText s) (selectedType s) (selectedIndex s)
    (dragMode s) v (dragStartY s) (originalBounds s) (history s)
    (historyIndex s) (rafId s) (pendingCoords s) (textInputValue s).

Definition setDragStartY (v : Q) (s : State) : State :=
  mkState (ctx s) (heap s) (currentTool s) (color s) (lineWidth s)
    (fontSize s) (filled s) (isDrawing s) (strokes s) (currentStroke s)
    (arrows s) (currentArrow s) (rectangles s) (currentRectangle s)
    (ellipses s) (currentEllipse s) (blurs s) (currentBlur s) (texts s)
    (isEditingText s) (pendingText s) (selectedType s) (selectedIndex s)
    (dragMode s) (dragStartX s) v (originalBounds s) (history s)
    (historyIndex s) (rafId s) (pendingCoords s) (textInputValue s).

Definition setOriginalBounds (v : option Bounds) (s : State) : State :=
  mkState (ctx s) (heap s) (currentTool s) (color s) (lineWidth s)
    (fontSize s) (filled s) (isDrawing s) (strokes s) (currentStroke s)
    (arrows s) (currentArrow s) (rectangles s) (currentRectangle s)
    (ellipses s) (currentEllipse s) (blurs s) (currentBlur s) (texts s)
    (isEditingText s) (pendingText s) (selectedType s) (selectedIndex s)
    (dragMode s) (dragStartX s) (dragStartY s) v (history s) (historyIndex s)
    (rafId s) (pendingCoords s) (textInputValue s).

Definition setHistory (v : list HistoryEntry) (s : State) : State :=
  mkState (ctx s) (heap s) (currentTool s) (color s) (lineWidth s)
    (fontSize s) (filled s) (isDrawing s) (strokes s) (currentStroke s)
    (arrows s) (currentArrow s) (rectangles s) (currentRectangle s)
    (ellipses s) (currentEllipse s) (blurs s) (currentBlur s) (texts s)
    (isEditingText s) (pendingText s) (selectedType s) (selectedIndex s)
    (dragMode s) (dragStartX s) (dragStartY s) (originalBounds s) v
    (historyIndex s) (rafId s) (pendingCoords s) (textInputValue s).

Definition setHistoryIndex (v : Z) (s : State) : State :=
  mkState (ctx s) (heap s) (currentTool s) (color s) (lineWidth s)
    (fontSize s) (filled s) (isDrawing s) (strokes s) (currentStroke s)
    (arrows s) (currentArrow s) (rectangles s) (currentRectangle s)
    (ellipses s) (currentEllipse s) (blurs s) (currentBlur s) (texts s)
    (isEditingText s) (pendingText s) (selectedType s) (selectedIndex s)
    (dragMode s) (dragStartX s) (dragStartY s) (originalBounds s) (history s)
    v (rafId s) (pendingCoords s) (textInputValue s).

Definition setRafId (v : bool) (s : State) : State :=
  mkState (ctx s) (heap s) (currentTool s) (color s) (lineWidth s)
    (fontSize s) (filled s) (isDrawing s) (strokes s) (currentStroke s)
    (arrows s) (currentArrow s) (rectangles s) (currentRectangle s)
    (ellipses s) (currentEllipse s) (blurs s) (currentBlur s) (texts s)
    (isEditingText s) (pendingText s) (selectedType s) (selectedIndex s)
    (dragMode s) (dragStartX s) (dragStartY s) (originalBounds s) (history s)
    (historyIndex s) v (pendingCoords s) (textInputValue s).

Definition setPendingCoords (v : option Coords) (s : State) : State :=
  mkState (ctx s) (heap s) (currentTool s) (color s) (lineWidth s)
    (fontSize s) (filled s) (isDrawing s) (strokes s) (currentStroke s)
    (arrows s) (currentArrow s) (rectangles s) (currentRectangle s)
    (ellipses s) (currentEllipse s) (blurs s) (currentBlur s) (texts s)
    (isEditingText s) (pendingText s) (selectedType s) (selectedIndex s)
    (dragMode s) (dragStartX s) (dragStartY s) (originalBounds s) (history s)
    (historyIndex s) (rafId s) v (textInputValue s).

Definition setTextInputValue (v : string) (s : State) : State :=
  mkState (ctx s) (heap s) (currentTool s) (color s) (lineWidth s)
    (fontSize s) (filled s) (isDrawing s) (strokes s) (currentStroke s)
    (arrows s) (currentArrow s) (rectangles s) (currentRectangle s)
    (ellipses s) (currentEllipse s) (blurs s) (currentBlur s) (texts s)
    (isEditingText s) (pendingText s) (selectedType s) (selectedIndex s)
    (dragMode s) (dragStartX s) (dragStartY s) (originalBounds s) (history s)
    (historyIndex s) (rafId s) (pendingCoords s) v.

(** [clearSelection] *)
Definition clearSelection (s : State) : State :=
  setOriginalBounds None
    (setDragMode None
      (setSelectedIndex None
        (setSelectedType None s))).

(** The state of a fresh editor page. *)
Definition initialState (c : Ctx) : State :=
  mkState c [] SELECT DEFAULTS.color DEFAULTS.lineWidth DEFAULTS.fontSize
    DEFAULTS.filled false [] None [] None [] None [] None [] None [] false
    None None None None 0 0 None [] (-1)%Z false None "".

(** The annotation in slot [i] of the list of type [ty]. *)
Definition annotationAt (s : State) (ty : AnnType) (i : nat) : option Annotation :=
  match ty with
  | TStroke => AStroke <$> strokes s !! i
  | TArrow => AArrow <$> arrows s !! i
  | TRectangle => ARectangle <$> rectangles s !! i
  | TEllipse => AEllipse <$> ellipses s !! i
  | TText => AText <$> texts s !! i
  | TBlur => ABlur <$> blurs s !! i
  end.

(** [state.selectedAnnotation] *)
Definition selectedAnnotation (s : State) : option Annotation :=
  match selectedType s, selectedIndex s with
  | Some ty, Some i => annotationAt s ty i
  | _, _ => None
  end.

(** The write-back of an annotation changed through the selection. *)
Definition storeAnnotation (i : nat) (a : Annotation) (s : State) : State :=
  match a with
  | AStroke st => setStrokes (<[i := st]> (strokes s)) s
  | AArrow ar => setArrows (<[i := ar]> (arrows s)) s
  | ARectangle r => setRectangles (<[i := r]> (rectangles s)) s
  | AEllipse e => setEllipses (<[i := e]> (ellipses s)) s
  | AText t => setTexts (<[i := t]> (texts s)) s
  | ABlur b => setBlurs (<[i := b]> (blurs s)) s
  end.

(** [annotation.getBounds(state.ctx)] *)
Definition getBounds (c : Ctx) (h : Heap) (a : Annotation) : option Bounds :=
  match a with
  | AStroke st => StrokeM.getBounds h st
  | AArrow ar => Some (ArrowM.getBounds ar)
  | ARectangle r => Some (RectangleM.getBounds r)
  | AEllipse e => Some (EllipseM.getBounds e)
  | AText t => Some (TextM.getBounds c t)
  | ABlur b => Some (BlurRegionM.getBounds b)
  end.

(** ** JavaScript array and string primitives *)

(** [l.slice(0, e)] *)
Definition slice0 {A} (e : Z) (l : list A) : list A :=
  if (e <? 0)%Z then take (length l - Z.to_nat (- e)) l
  else take (Z.to_nat e) l.

(** [l[i]], [undefined] out of range *)
Definition index {A} (l : list A) (i : Z) : option A :=
  if (i <? 0)%Z then None else l !! Z.to_nat i.

(** Whitespace removed by [trim], within ASCII. *)
Definition isSpace (c : ascii) : bool :=
  let n := nat_of_ascii c in
  ((9 <=? n)%nat && (n <=? 13)%nat) || (n =? 32)%nat.

Fixpoint trimStart (s : string) : string :=
  match s with
  | EmptyString => EmptyString
  | String c r => if isSpace c then trimStart r else s
  end.

Fixpoint trimEnd (s : string) : string :=
  match s with
  | EmptyString => EmptyString
  | String c r =>
      match trimEnd r with
      | EmptyString => if isSpace c then EmptyString else String c EmptyString
      | r' => String c r'
      end
  end.

Definition trim (s : string) : string := trimEnd (trimStart s).

(** Truthiness of a string. *)
Definition nonEmpty (s : string) : bool :=
  match s with EmptyString => false | _ => true end.

(** [mode.includes(c)] for a one-character [c] *)
Definition includes (m : DragMode) (c : ascii) : bool :=
  existsb (Ascii.eqb c) (list_ascii_of_string (modeName m)).

(** ** history.js *)

Definition copyStroke (stroke : Stroke) : Stroke :=
  let copy := StrokeM.new (stroke_color stroke) (stroke_lineWidth stroke) in
  (* copy.points = [...stroke.points]: a new array of the same objects *)
  mkStroke (stroke_points stroke) (stroke_color copy) (stroke_lineWidth copy).

Definition copyArrow (arrow : Arrow) : Arrow :=
  let copy := ArrowM.new (arrow_startX arrow) (arrow_startY arrow)
                         (arrow_color arrow) (arrow_lineWidth arrow) in
  mkArrow (arrow_startX copy) (arrow_startY copy)
          (arrow_endX arrow) (arrow_endY arrow)
          (arrow_color copy) (arrow_lineWidth copy).

Definition copyRectangle (rect : Rectangle) : Rectangle :=
  let copy := RectangleM.new (rect_x rect) (rect_y rect) (rect_color rect)
                             (rect_lineWidth rect) (rect_filled rect) in
  mkRectangle (rect_x copy) (rect_y copy) (rect_width rect) (rect_height rect)
              (rect_color copy) (rect_lineWidth copy) (rect_filled copy).

Definition copyEllipse (ellipse : Ellipse) : Ellipse :=
  let copy := EllipseM.new (ell_startX ellipse) (ell_startY ellipse)
                (ell_color ellipse) (ell_lineWidth ellipse) (ell_filled ellipse) in
  mkEllipse (ell_startX copy) (ell_startY copy)
            (ell_centerX ellipse) (ell_centerY ellipse)
            (ell_radiusX ellipse) (ell_radiusY ellipse)
            (ell_color copy) (ell_lineWidth copy) (ell_filled copy).

Definition copyBlur (blur : BlurRegion) : BlurRegion :=
  let copy := BlurRegionM.new (blur_x blur) (blur_y blur) in
  mkBlur (blur_x copy) (blur_y copy) (blur_width blur) (blur_height blur).

Definition copyText (text : TextAnnotation) : TextAnnotation :=
  TextM.new (text_x text) (text_y text) (text_text text)
            (text_fontSize text) (text_color text).

(** The entry [saveToHistory] builds from the live lists. *)
Definition snapshot (s : State) : HistoryEntry :=
  mkEntry (map copyStroke (strokes s))
          (map copyArrow (arrows s))
          (map copyRectangle (rectangles s))
          (map copyEllipse (ellipses s))
          (map copyBlur (blurs s))
          (map copyText (texts s)).

(** [saveToHistory] (the draft save it schedules is the persistence
    collaborator's and reads the state only). *)
Definition saveToHistory (s : State) : State :=
  let history1 :=
    if (historyIndex s <? Z.of_nat (length (history s)) - 1)%Z
    then slice0 (historyIndex s + 1) (history s)
    else history s in
  let historyEntry := snapshot s in
  let history2 := history1 ++ [historyEntry] in
  let historyIndex2 := (Z.of_nat (length history2) - 1)%Z in
  if (HISTORY.maxEntries <? length history2)%nat
  then setHistoryIndex (historyIndex2 - 1) (setHistory (tail history2) s)
  else setHistoryIndex historyIndex2 (setHistory history2 s).

(** [restoreFromHistory]; [None] is the TypeError of reading a list of an
    [undefined] entry. *)
Definition restoreFromHistory (s : State) : option State :=
  let s := clearSelection s in
  match index (history s) (historyIndex s) with
  | None => None
  | Some entry =>
      Some (setTexts (map copyText (entry_texts entry))
           (setBlurs (map copyBlur (entry_blurs entry))
           (setEllipses (map copyEllipse (entry_ellipses entry))
           (setRectangles (map copyRectangle (entry_rectangles entry))
           (setArrows (map copyArrow (entry_arrows entry))
           (setStrokes (map copyStroke (entry_strokes entry)) s))))))
  end.

Definition undo (s : State) : option State :=
  if (0 <? historyIndex s)%Z
  then restoreFromHistory (setHistoryIndex (historyIndex s - 1) s)
  else Some s.

Definition redo (s : State) : option State :=
  if (historyIndex s <? Z.of_nat (length (history s)) - 1)%Z
  then restoreFromHistory (setHistoryIndex (historyIndex s + 1) s)
  else Some s.

(** ** tools/text-tool.js *)

Definition showTextInput (coords : Coords) (s : State) : State :=
  setPendingText
    (Some (mkPendingText (c_x coords)
             (c_y coords + fontSize s * CANVAS.textBaselineRatio)
             (fontSize s) (color s)))
    (setIsEditingText true
      (setTextInputValue "" s)).

Definition hideTextInput (s : State) : State :=
  setPendingText None
    (setIsEditingText false
      (setTextInputValue "" s)).

Definition confirmTextInput (s : State) : State :=
  let text := trim (textInputValue s) in
  let s1 :=
    match pendingText s with
    | Some pending =>
        if nonEmpty text then
          let textAnnotation :=
            TextM.new (pending_x pending) (pending_y pending) text
                      (pending_fontSize pending) (pending_color pending) in
          saveToHistory (setTexts (texts s ++ [textAnnotation]) s)
        else s
    | None => s
    end in
  hideTextInput s1.

Definition cancelTextInput (s : State) : State := hideTextInput s.

(** ** tools/tool-manager.js: hit detection *)

Definition pointInBounds (x y : Q) (bounds : Bounds) : bool :=
  Qle_bool (b_x bounds) x && Qle_bool x (b_x bounds + b_width bounds) &&
  Qle_bool (b_y bounds) y && Qle_bool y (b_y bounds + b_height bounds).

(** The square of [distanceToLine]. *)
Definition distanceToLineSq (px py x1 y1 x2 y2 : Q) : Q :=
  let A := px - x1 in
  let B := py - y1 in
  let C := x2 - x1 in
  let D := y2 - y1 in
  let dot := A * C + B * D in
  let lenSq := C * C + D * D in
  let t := if Qeq_bool lenSq 0 then - (1) else dot / lenSq in
  let t := Qmax 0 (Qmin 1 t) in
  let nearX := x1 + t * C in
  let nearY := y1 + t * D in
  (px - nearX) * (px - nearX) + (py - nearY) * (py - nearY).

(** [distanceToLine(...) < tolerance] *)
Definition nearLine (px py x1 y1 x2 y2 tolerance : Q) : bool :=
  Qltb (distanceToLineSq px py x1 y1 x2 y2) (tolerance * tolerance).

(** [for (let i = n - 1; i >= 0; i--) if (test(l[i])) return i] *)
Fixpoint findLast {A} (test : A -> bool) (l : list A) (n : nat) : option nat :=
  match n with
  | O => None
  | S i =>
      match l !! i with
      | Some a => if test a then Some i else findLast test l i
      | None => findLast test l i
      end
  end.

(** [for (let j = 1; j < points.length; j++)] over the segments
    [points[j-1], points[j]] *)
Fixpoint anySegment (test : Point -> Point -> bool) (points : list Point) : bool :=
  match points with
  | p1 :: ((p2 :: _) as rest) => test p1 p2 || anySegment test rest
  | _ => false
  end.

Record Hit : Type := mkHit {
  hit_type : AnnType;
  hit_index : nat
}.

Definition hitText (s : State) (x y : Q) (t : TextAnnotation) : bool :=
  pointInBounds x y (TextM.getBounds (ctx s) t).

Definition hitEllipse (x y : Q) (e : Ellipse) : bool :=
  pointInBounds x y (EllipseM.getBounds e).

Definition hitRectangle (x y : Q) (r : Rectangle) : bool :=
  pointInBounds x y (RectangleM.getBounds r).

Definition hitArrow (x y : Q) (arrow : Arrow) : bool :=
  nearLine x y (arrow_startX arrow) (arrow_startY arrow)
           (arrow_endX arrow) (arrow_endY arrow) SELECTION.hitTolerance.

Definition hitStroke (h : Heap) (x y : Q) (stroke : Stroke) : bool :=
  anySegment
    (fun p1 p2 => nearLine x y (p_x p1) (p_y p1) (p_x p2) (p_y p2)
                           SELECTION.hitTolerance)
    (StrokeM.points h stroke).

Definition hitBlur (x y : Q) (b : BlurRegion) : bool :=
  pointInBounds x y (BlurRegionM.getBounds b).

(** [findAnnotationAtPoint]; the [annotation] of the result is the one in
    slot [index] of the list of [type]. *)
Definition findAnnotationAtPoint (s : State) (x y : Q) : option Hit :=
  match findLast (hitText s x y) (texts s) (length (texts s)) with
  | Some i => Some (mkHit TText i)
  | None =>
  match findLast (hitEllipse x y) (ellipses s) (length (ellipses s)) with
  | Some i => Some (mkHit TEllipse i)
  | None =>
  match findLast (hitRectangle x y) (rectangles s) (length (rectangles s)) with
  | Some i => Some (mkHit TRectangle i)
  | None =>
  match findLast (hitArrow x y) (arrows s) (length (arrows s)) with
  | Some i => Some (mkHit TArrow i)
  | None =>
  match findLast (hitStroke (heap s) x y) (strokes s) (length (strokes s)) with
  | Some i => Some (mkHit TStroke i)
  | None =>
  match findLast (hitBlur x y) (blurs s) (length (blurs s)) with
  | Some i => Some (mkHit TBlur i)
  | None => None
  end end end end end end.

Definition handleAt (x y : Q) (hx hy : Q) : bool :=
  Qle_bool (Qabs (x - hx)) SELECTION.handleSize &&
  Qle_bool (Qabs (y - hy)) SELECTION.handleSize.

Definition getHandleAtPoint (x y : Q) (bounds : Bounds) : option DragMode :=
  if handleAt x y (b_x bounds) (b_y bounds) then Some ResizeNW
  else if handleAt x y (b_x bounds + b_width bounds) (b_y bounds) then Some ResizeNE
  else if handleAt x y (b_x bounds) (b_y bounds + b_height bounds) then Some ResizeSW
  else if handleAt x y (b_x bounds + b_width bounds) (b_y bounds + b_height bounds)
       then Some ResizeSE
  else None.

(** ** tools/tool-manager.js: move and resize *)

Definition movePoint (dx dy : Q) (p : Point) : Point :=
  mkPoint (p_x p + dx) (p_y p + dy).

(** [points.forEach(f)]: every point object is updated in place. *)
Definition forEachPoint (f : Point -> Point) (points : list loc) (h : Heap) : Heap :=
  foldl (fun h l => alter f l h) h points.

(** [moveAnnotation]; its [type] argument is the [type] of [annotation]. *)
Definition moveAnnotation (h : Heap) (annotation : Annotation) (dx dy : Q)
  : Heap * Annotation :=
  match annotation with
  | AStroke st => (forEachPoint (movePoint dx dy) (stroke_points st) h, AStroke st)
  | AArrow a =>
      (h, AArrow (mkArrow (arrow_startX a + dx) (arrow_startY a + dy)
                          (arrow_endX a + dx) (arrow_endY a + dy)
                          (arrow_color a) (arrow_lineWidth a)))
  | ARectangle r =>
      (h, ARectangle (mkRectangle (rect_x r + dx) (rect_y r + dy)
                        (rect_width r) (rect_height r)
                        (rect_color r) (rect_lineWidth r) (rect_filled r)))
  | ABlur b =>
      (h, ABlur (mkBlur (blur_x b + dx) (blur_y b + dy) (blur_width b) (blur_height b)))
  | AEllipse e =>
      (h, AEllipse (mkEllipse (ell_startX e + dx) (ell_startY e + dy)
                      (ell_centerX e + dx) (ell_centerY e + dy)
                      (ell_radiusX e) (ell_radiusY e)
                      (ell_color e) (ell_lineWidth e) (ell_filled e)))
  | AText t =>
      (h, AText (mkText (text_x t + dx) (text_y t + dy) (text_text t)
                        (text_fontSize t) (text_color t)))
  end.

(** [v || 1] *)
Definition orOne (v : Q) : Q := if Qeq_bool v 0 then 1 else v.

(** One coordinate of the proportional rescale of arrows and strokes:
    [newOrigin + (v - origin) * (newDim / (dim || 1))]. *)
Definition rescale (v newOrigin newDim origin dim : Q) : Q :=
  let scale := newDim / orOne dim in
  newOrigin + (v - origin) * scale.

Definition rescalePoint (newBounds original : Bounds) (p : Point) : Point :=
  mkPoint
    (rescale (p_x p) (b_x newBounds) (b_width newBounds) (b_x original) (b_width original))
    (rescale (p_y p) (b_y newBounds) (b_height newBounds) (b_y original) (b_height original)).

Definition applyBoundsToAnnotation (h : Heap) (annotation : Annotation)
    (newBounds original : Bounds) : Heap * Annotation :=
  match annotation with
  | ARectangle r =>
      (h, ARectangle (mkRectangle (b_x newBounds) (b_y newBounds)
                        (b_width newBounds) (b_height newBounds)
                        (rect_color r) (rect_lineWidth r) (rect_filled r)))
  | ABlur _ =>
      (h, ABlur (mkBlur (b_x newBounds) (b_y newBounds)
                        (b_width newBounds) (b_height newBounds)))
  | AEllipse e =>
      (h, AEllipse (mkEllipse (b_x newBounds) (b_y newBounds)
                      (b_x newBounds + b_width newBounds / 2)
                      (b_y newBounds + b_height newBounds / 2)
                      (b_width newBounds / 2) (b_height newBounds / 2)
                      (ell_color e) (ell_lineWidth e) (ell_filled e)))
  | AArrow a =>
      (h, AArrow (mkArrow
           (rescale (arrow_startX a) (b_x newBounds) (b_width newBounds)
                    (b_x original) (b_width original))
           (rescale (arrow_startY a) (b_y newBounds) (b_height newBounds)
                    (b_y original) (b_height original))
           (rescale (arrow_endX a) (b_x newBounds) (b_width newBounds)
                    (b_x original) (b_width original))
           (rescale (arrow_endY a) (b_y newBounds) (b_height newBounds)
                    (b_y original) (b_height original))
           (arrow_color a) (arrow_lineWidth a)))
  | AStroke st =>
      (forEachPoint (rescalePoint newBounds original) (stroke_points st) h, AStroke st)
  | AText t =>
      (h, AText (mkText (b_x newBounds + 4) (b_y newBounds + text_fontSize t)
                        (text_text t) (text_fontSize t) (text_color t)))
  end.

(** The bounds [resizeAnnotation] computes from the dragged handle. *)
Definition resizedBounds (mode : DragMode) (dx dy : Q) (original : Bounds) : Bounds :=
  let nb := original in
  let nb := if includes mode "w"
            then mkBounds (b_x nb + dx) (b_y nb) (b_width nb - dx) (b_height nb)
            else nb in
  let nb := if includes mode "e"
            then mkBounds (b_x nb) (b_y nb) (b_width nb + dx) (b_height nb)
            else nb in
  let nb := if includes mode "n"
            then mkBounds (b_x nb) (b_y nb + dy) (b_width nb) (b_height nb - dy)
            else nb in
  let nb := if includes mode "s"
            then mkBounds (b_x nb) (b_y nb) (b_width nb) (b_height nb + dy)
            else nb in
  let nb := if Qltb (b_width nb) 10
            then mkBounds (b_x nb) (b_y nb) 10 (b_height nb) else nb in
  let nb := if Qltb (b_height nb) 10
            then mkBounds (b_x nb) (b_y nb) (b_width nb) 10 else nb in
  nb.

Definition resizeAnnotation (h : Heap) (annotation : Annotation) (mode : DragMode)
    (dx dy : Q) (original : Bounds) : Heap * Annotation :=
  applyBoundsToAnnotation h annotation (resizedBounds mode dx dy original) original.

(** ** tools/tool-manager.js: preview throttling *)

Definition scheduleShapeRedraw (coords : Coords) (s : State) : State :=
  let s := setPendingCoords (Some coords) s in
  if rafId s then s else setRafId true s.

(** The callback given to [requestAnimationFrame]. *)
Definition shapeRedraw (s : State) : State :=
  let s1 :=
    match pendingCoords s with
    | Some pc =>
        if isDrawing s then
          match currentTool s, currentArrow s, currentRectangle s,
                currentEllipse s, currentBlur s with
          | ARROW, Some a, _, _, _ =>
              setCurrentArrow (Some (ArrowM.setEnd a (c_x pc) (c_y pc))) s
          | RECTANGLE, _, Some r, _, _ =>
              setCurrentRectangle (Some (RectangleM.setEnd r (c_x pc) (c_y pc))) s
          | CIRCLE, _, _, Some e, _ =>
              setCurrentEllipse (Some (EllipseM.setEnd e (c_x pc) (c_y pc))) s
          | BLUR, _, _, _, Some b =>
              setCurrentBlur (Some (BlurRegionM.setEnd b (c_x pc) (c_y pc))) s
          | _, _, _, _, _ => s
          end
        else s
    | None => s
    end in
  setPendingCoords None (setRafId false s1).

(** ** tools/tool-manager.js: the select tool *)

Definition startDrag (mode : DragMode) (coords : Coords) (bounds : option Bounds)
    (s : State) : State :=
  setOriginalBounds bounds
    (setDragStartY (c_y coords)
      (setDragStartX (c_x coords)
        (setDragMode (Some mode) s))).

Definition handleSelectMouseDown (coords : Coords) (s : State) : State :=
  let handle :=
    match selectedAnnotation s with
    | Some sel =>
        match getBounds (ctx s) (heap s) sel with
        | Some bounds =>
            match getHandleAtPoint (c_x coords) (c_y coords) bounds with
            | Some handle => Some (handle, bounds)
            | None => None
            end
        | None => None
        end
    | None => None
    end in
  match handle with
  | Some (handle, bounds) =>
      saveToHistory (startDrag handle coords (Some bounds) s)
  | None =>
      match findAnnotationAtPoint s (c_x coords) (c_y coords) with
      | Some hit =>
          let s1 := setSelectedIndex (Some (hit_index hit))
                      (setSelectedType (Some (hit_type hit)) s) in
          let bounds :=
            match annotationAt s (hit_type hit) (hit_index hit) with
            | Some a => getBounds (ctx s) (heap s) a
            | None => None
            end in
          saveToHistory (startDrag Move coords bounds s1)
      | None => clearSelection s
      end
  end.

Definition handleSelectMouseMove (coords : Coords) (s : State) : State :=
  match selectedAnnotation s, selectedIndex s with
  | Some sel, Some i =>
      let dx := c_x coords - dragStartX s in
      let dy := c_y coords - dragStartY s in
      match dragMode s with
      | Some Move =>
          let '(h, a) := moveAnnotation (heap s) sel dx dy in
          setDragStartY (c_y coords)
            (setDragStartX (c_x coords)
              (storeAnnotation i a (setHeap h s)))
      | Some mode =>
          match originalBounds s with
          | Some original =>
              let '(h, a) := resizeAnnotation (heap s) sel mode dx dy original in
              storeAnnotation i a (setHeap h s)
          | None => s
          end
      | None => s
      end
  | _, _ => s
  end.

(** ** tools/tool-manager.js: pointer handlers *)

Definition handleMouseDown (coords : Coords) (s : State) : State :=
  if isEditingText s then confirmTextInput s
  else
    match currentTool s with
    | SELECT => handleSelectMouseDown coords s
    | TEXT => showTextInput coords s
    | PEN =>
        let s := setIsDrawing true s in
        let stroke := StrokeM.new (color s) (lineWidth s) in
        let '(h, stroke) := StrokeM.addPoint (heap s) stroke (c_x coords) (c_y coords) in
        setCurrentStroke (Some stroke) (setHeap h s)
    | ARROW =>
        let s := setIsDrawing true s in
        setCurrentArrow
          (Some (ArrowM.new (c_x coords) (c_y coords) (color s) (lineWidth s))) s
    | RECTANGLE =>
        let s := setIsDrawing true s in
        setCurrentRectangle
          (Some (RectangleM.new (c_x coords) (c_y coords) (color s) (lineWidth s)
                                (filled s))) s
    | CIRCLE =>
        let s := setIsDrawing true s in
        setCurrentEllipse
          (Some (EllipseM.new (c_x coords) (c_y coords) (color s) (lineWidth s)
                              (filled s))) s
    | BLUR =>
        let s := setIsDrawing true s in
        setCurrentBlur (Some (BlurRegionM.new (c_x coords) (c_y coords))) s
    end.

Definition isSome {A} (o : option A) : bool :=
  match o with Some _ => true | None => false end.

Definition handleMouseMove (coords : Coords) (s : State) : State :=
  if Tool_eqb (currentTool s) SELECT && isSome (dragMode s)
     && isSome (selectedAnnotation s)
  then handleSelectMouseMove coords s
  else if negb (isDrawing s) then s
  else
    match currentTool s, currentStroke s with
    | PEN, Some stroke =>
        let '(h, stroke) := StrokeM.addPoint (heap s) stroke (c_x coords) (c_y coords) in
        setCurrentStroke (Some stroke) (setHeap h s)
    | _, _ => scheduleShapeRedraw coords s
    end.

(** [Math.sqrt(dx * dx + dy * dy)], squared *)
Definition arrowLengthSq (a : Arrow) : Q :=
  let dx := arrow_endX a - arrow_startX a in
  let dy := arrow_endY a - arrow_startY a in
  dx * dx + dy * dy.

Definition handleMouseUp (s : State) : State :=
  match currentTool s with
  | SELECT => setDragMode None s
  | _ =>
    if negb (isDrawing s) then s
    else
      let s := if rafId s then setPendingCoords None (setRafId false s) else s in
      let s := setIsDrawing false s in
      match currentTool s, currentStroke s, currentArrow s, currentRectangle s,
            currentEllipse s, currentBlur s with
      | PEN, Some stroke, _, _, _, _ =>
          let s1 :=
            if (0 <? length (stroke_points stroke))%nat
            then saveToHistory (setStrokes (strokes s ++ [stroke]) s)
            else s in
          setCurrentStroke None s1
      | ARROW, _, Some arrow, _, _, _ =>
          let s1 :=
            if Qltb (CANVAS.minArrowLength * CANVAS.minArrowLength) (arrowLengthSq arrow)
            then saveToHistory (setArrows (arrows s ++ [arrow]) s)
            else s in
          setCurrentArrow None s1
      | RECTANGLE, _, _, Some rect, _, _ =>
          let size := Qabs (rect_width rect) + Qabs (rect_height rect) in
          let s1 :=
            if Qltb CANVAS.minShapeSize size
            then saveToHistory (setRectangles (rectangles s ++ [rect]) s)
            else s in
          setCurrentRectangle None s1
      | CIRCLE, _, _, _, Some ellipse, _ =>
          let size := ell_radiusX ellipse + ell_radiusY ellipse in
          let s1 :=
            if Qltb CANVAS.minArrowLength size
            then saveToHistory (setEllipses (ellipses s ++ [ellipse]) s)
            else s in
          setCurrentEllipse None s1
      | BLUR, _, _, _, _, Some blur =>
          let size := Qabs (blur_width blur) + Qabs (blur_height blur) in
          let s1 :=
            if Qltb CANVAS.minShapeSize size
            then saveToHistory (setBlurs (blurs s ++ [blur]) s)
            else s in
          setCurrentBlur None s1
      | _, _, _, _, _, _ => s
      end
  end.

(** ** toolbar.js *)

Inductive ToolButton : Type :=
  | BtnUndo | BtnRedo | BtnTool (tool : Tool).

(** The click handler of a [data-tool] button. *)
Definition toolbarClick (btn : ToolButton) (s : State) : option State :=
  match btn with
  | BtnUndo => undo s
  | BtnRedo => redo s
  | BtnTool tool =>
      let s := if isEditingText s then cancelTextInput s else s in
      let s := if Tool_eqb (currentTool s) SELECT && negb (Tool_eqb tool SELECT)
               then clearSelection s else s in
      Some (setCurrentTool tool s)
  end.

Definition selectTool (tool : Tool) (s : State) : option State :=
  toolbarClick (BtnTool tool) s.

(** ** editor.js: the event wiring *)

Inductive Event : Type :=
  | MouseDown (coords : Coords)
  | MouseMove (coords : Coords)
  | MouseUp
  | MouseLeave
  | TouchStart (coords : Coords)
  | TouchMove (coords : Coords)
  | TouchEnd
  | AnimationFrame
  | ToolbarClick (btn : ToolButton)
  | KeyUndo
  | KeyRedo
  | KeyTool (tool : Tool)
  | TextTyped (value : string)
  | TextEnter
  | TextEscape
  | TextBlurTimeout.

(** The handler registered for each event ([setupCanvasEvents],
    [setupKeyboardShortcuts], [setupToolbar], [setupTextInput]). *)
Definition dispatch (e : Event) (s : State) : option State :=
  match e with
  | MouseDown coords => Some (handleMouseDown coords s)
  | MouseMove coords => Some (handleMouseMove coords s)
  | MouseUp => Some (handleMouseUp s)
  | MouseLeave => Some (handleMouseUp s)
  | TouchStart coords => Some (handleMouseDown coords s)
  | TouchMove coords => Some (handleMouseMove coords s)
  | TouchEnd => Some (handleMouseUp s)
  | AnimationFrame => Some (if rafId s then shapeRedraw s else s)
  | ToolbarClick btn => toolbarClick btn s
  | KeyUndo => if isEditingText s then Some s else undo s
  | KeyRedo => if isEditingText s then Some s else redo s
  | KeyTool tool => if isEditingText s then Some s else selectTool tool s
  | TextTyped value =>
      Some (if isEditingText s then setTextInputValue value s else s)
  | TextEnter => Some (confirmTextInput s)
  | TextEscape => Some (cancelTextInput s)
  | TextBlurTimeout => Some (if isEditingText s then confirmTextInput s else s)
  end.

Fixpoint run (events : list Event) (s : State) : option State :=
  match events with
  | [] => Some s
  | e :: rest =>
      match dispatch e s with
      | Some s' => run rest s'
      | None => None
      end
  end.

(** The editor after the image has loaded: [init] saves the empty scene. *)
Definition loaded (c : Ctx) : State := saveToHistory (initialState c).

(** ** canvas-renderer.js: [drawStroke] *)

Inductive DrawCmd : Type :=
  | FillCircle (x y radius : Q) (fillStyle : string)
  | StrokePolyline (points : list Point) (strokeStyle : string) (lineWidth : Q).

Definition drawStroke (h : Heap) (stroke : option Stroke) : list DrawCmd :=
  match stroke with
  | None => []
  | Some st =>
      if (length (stroke_points st) <? 2)%nat then
        if (length (stroke_points st) =? 1)%nat then
          match StrokeM.points h st with
          | point :: _ =>
              [FillCircle (p_x point) (p_y point) (stroke_lineWidth st / 2)
                          (stroke_color st)]
          | [] => []
          end
        else []
      else [StrokePolyline (StrokeM.points h st) (stroke_color st) (stroke_lineWidth st)]
  end.

(** ** Vocabulary of the statements *)

(** The six annotation lists. *)
Definition scene (s : State) :=
  (strokes s, arrows s, rectangles s, ellipses s, blurs s, texts s).

(** [n] consecutive calls of [saveToHistory]. *)
Fixpoint saves (n : nat) (s : State) : State :=
  match n with
  | O => s
  | S k => saveToHistory (saves k s)
  end.

(** The six lists of the editor, as [scene] gives them. *)
Definition Scene : Type :=
  (list Stroke * list Arrow * list Rectangle * list Ellipse * list BlurRegion
   * list TextAnnotation)%type.

(** The six lists replaced by those of [sc]: what the edits between two
    saves come to. *)
Definition withScene (sc : Scene) (s : State) : State :=
  let '(st, ar, re, el, bl, te) := sc in
  setTexts te (setBlurs bl (setEllipses el (setRectangles re (setArrows ar
    (setStrokes st s))))).

(** One call of [saveToHistory] for each scene of [scs], made the live one
    before the call. *)
Definition savesOf (scs : list Scene) (s : State) : State :=
  foldl (fun s sc => saveToHistory (withScene sc s)) s scs.

(** A scene with one rectangle of the given width. *)
Definition sceneOf (width : Z) : Scene :=
  ([], [], [mkRectangle 0 0 (inject_Z width) 20 DEFAULTS.color DEFAULTS.lineWidth false],
   [], [], []).

(** The annotation a drawing gesture of the current tool has in progress. *)
Definition inProgress (s : State) : option Annotation :=
  match currentTool s with
  | PEN => AStroke <$> currentStroke s
  | ARROW => AArrow <$> currentArrow s
  | RECTANGLE => ARectangle <$> currentRectangle s
  | CIRCLE => AEllipse <$> currentEllipse s
  | BLUR => ABlur <$> currentBlur s
  | SELECT | TEXT => None
  end.

(** The commit thresholds, in the spec's words and on the fields of the
    annotation: a stroke with at least one point; an arrow of length above
    5, that is with [(endX - startX)^2 + (endY - startY)^2] above 25; a
    rectangle or pixelation region with [|width| + |height|] above 10; an
    ellipse with [radiusX + radiusY] above 5. *)
Definition crossesThreshold (a : Annotation) : Prop :=
  match a with
  | AStroke st => (1 <= length (stroke_points st))%nat
  | AArrow ar =>
      25 < (arrow_endX ar - arrow_startX ar) * (arrow_endX ar - arrow_startX ar)
           + (arrow_endY ar - arrow_startY ar) * (arrow_endY ar - arrow_startY ar)
  | ARectangle r => 10 < Qabs (rect_width r) + Qabs (rect_height r)
  | ABlur b => 10 < Qabs (blur_width b) + Qabs (blur_height b)
  | AEllipse e => 5 < ell_radiusX e + ell_radiusY e
  | AText _ => False
  end.

(** The annotation pushed into the list of its type. *)
Definition push (a : Annotation) (s : State) : State :=
  match a with
  | AStroke st => setStrokes (strokes s ++ [st]) s
  | AArrow ar => setArrows (arrows s ++ [ar]) s
  | ARectangle r => setRectangles (rectangles s ++ [r]) s
  | AEllipse e => setEllipses (ellipses s ++ [e]) s
  | AText t => setTexts (texts s ++ [t]) s
  | ABlur b => setBlurs (blurs s ++ [b]) s
  end.

(** From [s] to [s'], [a] was pushed and the history saved once. *)
Definition committedOnce (a : Annotation) (s s' : State) : Prop :=
  scene s' = scene (push a s) /\
  history s' = history (saveToHistory (push a s)) /\
  historyIndex s' = historyIndex (saveToHistory (push a s)).

(** From [s] to [s'], no list and no history entry changed. *)
Definition untouched (s s' : State) : Prop :=
  scene s' = scene s /\
  history s' = history s /\
  historyIndex s' = historyIndex s.

(** A text-measuring context for the examples: 0.6 em per character. *)
Definition ctx0 : Ctx :=
  mkCtx (fun fontSize text =>
           fontSize * (6 # 10) * inject_Z (Z.of_nat (String.length text))).

Definition at_ (x y : Q) : Coords := mkCoords x y.

(** The events of a drag with [tool] from [(x0, y0)] to [(x1, y1)], the
    preview frame included, up to the release. *)
Definition drag (tool : Tool) (x0 y0 x1 y1 : Q) : list Event :=
  [KeyTool tool; MouseDown (at_ x0 y0); MouseMove (at_ x1 y1); AnimationFrame].

Definition arrowTo (x y : Q) : Arrow :=
  mkArrow 0 0 x y DEFAULTS.color DEFAULTS.lineWidth.

(** An arrow dragged from the origin to [(x, y)] and not yet released. *)
Definition drawingArrow (x y : Q) : State :=
  setCurrentArrow (Some (arrowTo x y))
    (setIsDrawing true (setCurrentTool ARROW (loaded ctx0))).

(** The text tool with [value] typed at [(10, 10)] and not yet confirmed. *)
Definition typing (value : string) : State :=
  setTextInputValue value
    (showTextInput (at_ 10 10) (setCurrentTool TEXT (loaded ctx0))).

(** The text annotation [confirmTextInput] builds. *)
Definition pendingAnnotation (s : State) (p : PendingText) : Annotation :=
  AText (mkText (pending_x p) (pending_y p) (trim (textInputValue s))
                (pending_fontSize p) (pending_color p)).

(** The point [(x, y)] lies in the box [b], borders included. *)
Definition inside (x y : Q) (b : Bounds) : Prop :=
  b_x b <= x /\ x <= b_x b + b_width b /\
  b_y b <= y /\ y <= b_y b + b_height b.

(** The squared distance from [(x, y)] to [p]. *)
Definition sqDist (x y : Q) (p : Point) : Q :=
  (x - p_x p) * (x - p_x p) + (y - p_y p) * (y - p_y p).

(** The point at [t] of the way from [p1] to [p2]. *)
Definition onSegment (p1 p2 : Point) (t : Q) : Point :=
  mkPoint (p_x p1 + t * (p_x p2 - p_x p1)) (p_y p1 + t * (p_y p2 - p_y p1)).

Definition clamp01 (t : Q) : Q := Qmax 0 (Qmin 1 t).

(** The point [(x, y)] is less than [hitTolerance] away from the segment
    from [p1] to [p2]: from some point of it. *)
Definition withinTolerance (x y : Q) (p1 p2 : Point) : Prop :=
  exists t, 0 <= t <= 1 /\ sqDist x y (onSegment p1 p2 t) < 10 * 10.

(** The annotation in slot [i] of the list of type [ty] matches the point:
    bounding-box containment for texts, ellipses, rectangles and
    pixelation regions, distance to the line for arrows, distance to some
    segment for strokes. *)
Definition matches (s : State) (x y : Q) (ty : AnnType) (i : nat) : Prop :=
  match ty with
  | TText => exists t, texts s !! i = Some t /\ inside x y (TextM.getBounds (ctx s) t)
  | TEllipse => exists e, ellipses s !! i = Some e /\ inside x y (EllipseM.getBounds e)
  | TRectangle =>
      exists r, rectangles s !! i = Some r /\ inside x y (RectangleM.getBounds r)
  | TArrow =>
      exists a, arrows s !! i = Some a /\
        withinTolerance x y (mkPoint (arrow_startX a) (arrow_startY a))
                            (mkPoint (arrow_endX a) (arrow_endY a))
  | TStroke =>
      exists st, strokes s !! i = Some st /\
        exists j p1 p2, StrokeM.points (heap s) st !! j = Some p1 /\
                        StrokeM.points (heap s) st !! S j = Some p2 /\
                        withinTolerance x y p1 p2
  | TBlur => exists b, blurs s !! i = Some b /\ inside x y (BlurRegionM.getBounds b)
  end.

(** The rank of a type in the hit test: text first, pixelation last. *)
Definition priority (ty : AnnType) : nat :=
  match ty with
  | TText => 0 | TEllipse => 1 | TRectangle => 2
  | TArrow => 3 | TStroke => 4 | TBlur => 5
  end.

(** The boolean form of [matches], from the tests of the source. *)
Definition hitsAt (s : State) (x y : Q) (ty : AnnType) (i : nat) : bool :=
  match ty with
  | TText => from_option (hitText s x y) false (texts s !! i)
  | TEllipse => from_option (hitEllipse x y) false (ellipses s !! i)
  | TRectangle => from_option (hitRectangle x y) false (rectangles s !! i)
  | TArrow => from_option (hitArrow x y) false (arrows s !! i)
  | TStroke => from_option (hitStroke (heap s) x y) false (strokes s !! i)
  | TBlur => from_option (hitBlur x y) false (blurs s !! i)
  end.

(** The result of the hit test is a topmost match of the first type that
    has one. *)
Definition firstMatch (s : State) (x y : Q) (ty : AnnType) (i : nat) : Prop :=
  hitsAt s x y ty i = true /\
  (forall j, (i < j)%nat -> hitsAt s x y ty j = false) /\
  (forall ty' j, (priority ty' < priority ty)%nat -> hitsAt s x y ty' j = false).

(** A selected stroke is in the list and has at least two points. *)
Definition dotFree (s : State) : Prop :=
  forall i, selectedType s = Some TStroke -> selectedIndex s = Some i ->
    exists st, strokes s !! i = Some st /\ (2 <= length (stroke_points st))%nat.

(** A scene to test the hit test on: two crossing arrows, a rectangle away
    from them, and a stroke. *)
Definition crossing : State :=
  setStrokes [mkStroke [0%nat; 1%nat] DEFAULTS.color DEFAULTS.lineWidth]
    (setHeap [mkPoint 300 300; mkPoint 400 300]
      (setRectangles [mkRectangle 200 0 50 50 DEFAULTS.color DEFAULTS.lineWidth false]
        (setArrows [arrowTo 100 100;
                    mkArrow 0 100 100 0 DEFAULTS.color DEFAULTS.lineWidth]
          (loaded ctx0)))).

(** Equality of numbers is [==]; two boxes, or two points, are equal when
    their coordinates are. *)
Definition Bounds_eq (a b : Bounds) : Prop :=
  b_x a == b_x b /\ b_y a == b_y b /\
  b_width a == b_width b /\ b_height a == b_height b.

Definition Point_eq (p q : Point) : Prop :=
  p_x p == p_x q /\ p_y p == p_y q.

(** The computed bounds of a moved or resized annotation. *)
Definition boundsAfter (c : Ctx) (r : list Point * Annotation) : option Bounds :=
  getBounds c (fst r) (snd r).

(** The computed bounds exist and equal [B]. *)
Definition hasBounds (o : option Bounds) (B : Bounds) : Prop :=
  match o with
  | Some B' => Bounds_eq B' B
  | None => False
  end.

(** A committed rectangle of 8 by 8. *)
Definition smallRect : Rectangle :=
  mkRectangle 0 0 8 8 DEFAULTS.color DEFAULTS.lineWidth false.

(** ** JavaScript numbers with their non-finite values

    The arithmetic of the proportional rescale, on numbers that are a
    rational, an infinity or [NaN], with the IEEE rules for the special
    values (a zero counts as positive).  A finite result is computed
    exactly and then made a double by [round]: it overflows to an infinity
    and underflows to zero as a double does; the rounding of the results
    between the two is not modelled. *)
Module JSNum.
Inductive t : Type :=
  | Fin (q : Q)
  | PInf
  | NInf
  | NaN.

(** The magnitude from which a result rounds to an infinity:
    [2^1024 - 2^970], half a unit in the last place above
    [Number.MAX_VALUE]. *)
Definition overflowAt : Q := inject_Z (2 ^ 1024 - 2 ^ 970).

(** The magnitude up to which a result rounds to zero: [2^-1075], half of
    [Number.MIN_VALUE]. *)
Definition underflowAt : Q := 1 # (2 ^ 1075).

(** [Number.MIN_VALUE], [2^-1074], printed [5e-324]. *)
Definition MIN_VALUE : Q := 1 # (2 ^ 1074).

Definition round (q : Q) : t :=
  if Qle_bool overflowAt q then PInf
  else if Qle_bool q (- overflowAt) then NInf
  else if Qle_bool (Qabs q) underflowAt then Fin 0
  else Fin q.

Definition neg (x : t) : t :=
  match x with
  | Fin q => Fin (- q)
  | PInf => NInf
  | NInf => PInf
  | NaN => NaN
  end.

Definition add (x y : t) : t :=
  match x, y with
  | NaN, _ | _, NaN => NaN
  | Fin a, Fin b => round (a + b)
  | PInf, NInf | NInf, PInf => NaN
  | PInf, _ | _, PInf => PInf
  | NInf, _ | _, NInf => NInf
  end.

Definition sub (x y : t) : t := add x (neg y).

(** The infinity of the sign of [q], [NaN] for zero. *)
Definition infOfSign (q : Q) : t :=
  if Qeq_bool q 0 then NaN else if Qltb 0 q then PInf else NInf.

Definition mul (x y : t) : t :=
  match x, y with
  | NaN, _ | _, NaN => NaN
  | Fin a, Fin b => round (a * b)
  | PInf, Fin q | Fin q, PInf => infOfSign q
  | NInf, Fin q | Fin q, NInf => neg (infOfSign q)
  | PInf, PInf | NInf, NInf => PInf
  | PInf, NInf | NInf, PInf => NInf
  end.

Definition div (x y : t) : t :=
  match x, y with
  | NaN, _ | _, NaN => NaN
  | Fin a, Fin b => if Qeq_bool b 0 then infOfSign a else round (a / b)
  | Fin _, (PInf | NInf) => Fin 0
  | PInf, Fin q => if Qltb q 0 then NInf else PInf
  | NInf, Fin q => if Qltb q 0 then PInf else NInf
  | (PInf | NInf), (PInf | NInf) => NaN
  end.

(** [v || 1]: zero and [NaN] are falsy. *)
Definition orOne (v : t) : t :=
  match v with
  | Fin q => if Qeq_bool q 0 then Fin 1 else v
  | NaN => Fin 1
  | _ => v
  end.

(** [newOrigin + (v - origin) * (newDim / (dim || 1))], as in
    [applyBoundsToAnnotation]. *)
Definition rescale (v newOrigin newDim origin dim : t) : t :=
  let scale := div newDim (orOne dim) in
  add newOrigin (mul (sub v origin) scale).

(** The same without the guard of the divisor. *)
Definition rescaleUnguarded (v newOrigin newDim origin dim : t) : t :=
  let scale := div newDim dim in
  add newOrigin (mul (sub v origin) scale).

(** The four coordinates of a resized arrow. *)
Definition resizeArrow (a : Arrow) (newBounds original : Bounds) : t * t * t * t :=
  (rescale (Fin (arrow_startX a)) (Fin (b_x newBounds)) (Fin (b_width newBounds))
           (Fin (b_x original)) (Fin (b_width original)),
   rescale (Fin (arrow_startY a)) (Fin (b_y newBounds)) (Fin (b_height newBounds))
           (Fin (b_y original)) (Fin (b_height original)),
   rescale (Fin (arrow_endX a)) (Fin (b_x newBounds)) (Fin (b_width newBounds))
           (Fin (b_x original)) (Fin (b_width original)),
   rescale (Fin (arrow_endY a)) (Fin (b_y newBounds)) (Fin (b_height newBounds))
           (Fin (b_y original)) (Fin (b_height original))).

(** The two coordinates of a resized point of a stroke. *)
Definition resizePoint (p : Point) (newBounds original : Bounds) : t * t :=
  (rescale (Fin (p_x p)) (Fin (b_x newBounds)) (Fin (b_width newBounds))
           (Fin (b_x original)) (Fin (b_width original)),
   rescale (Fin (p_y p)) (Fin (b_y newBounds)) (Fin (b_height newBounds))
           (Fin (b_y original)) (Fin (b_height original))).

(** The exact result is kept: it neither overflows nor underflows. *)
Definition inRange (q : Q) : Prop :=
  q == 0 \/ (underflowAt < Qabs q /\ Qabs q < overflowAt).

(** A magnitude of at most [2^300]. *)
Definition moderate (q : Q) : Prop := Qabs q <= inject_Z (2 ^ 300).

(** A width or height that is zero or of at least [2^-300]. *)
Definition zeroOrSizable (q : Q) : Prop := q == 0 \/ 1 # (2 ^ 300) <= Qabs q.

(** The coordinates of the arrow and the fields of the two bounds are
    [moderate], and the original width and height [zeroOrSizable]. *)
Definition moderateBounds (newBounds original : Bounds) : Prop :=
  moderate (b_x newBounds) /\ moderate (b_y newBounds) /\
  moderate (b_width newBounds) /\ moderate (b_height newBounds) /\
  moderate (b_x original) /\ moderate (b_y original) /\
  zeroOrSizable (b_width original) /\ zeroOrSizable (b_height original).

(** One more move of a resize drag: the coordinate the previous move
    computed is rescaled again, against the bounds taken at the press. *)
Definition rescaleAgain (newOrigin newDim origin dim : Q) (v : t) : t :=
  rescale v (Fin newOrigin) (Fin newDim) (Fin origin) (Fin dim).
End JSNum.

(** The points of the strokes of a history entry, read through the store. *)
Definition entryPoints (h : list Point) (e : HistoryEntry) : list (list Point) :=
  map (StrokeM.points h) (entry_strokes e).

(** A stroke from [(10, 10)] to [(60, 10)] is drawn, then picked with the
    select tool. *)
Definition strokePicked : list Event :=
  [KeyTool PEN; MouseDown (at_ 10 10); MouseMove (at_ 60 10); MouseUp;
   KeyTool SELECT; MouseDown (at_ 30 10)].

(** A rectangle from [(100, 100)] to [(300, 250)] is drawn, then dragged by
    [(10, 20)] with the select tool. *)
Definition rectangleMoved : list Event :=
  drag RECTANGLE 100 100 300 250 ++
  [MouseUp; KeyTool SELECT; MouseDown (at_ 200 200); MouseMove (at_ 210 220); MouseUp].

Definition rectangleAt (x y : Q) : Rectangle :=
  mkRectangle x y 200 150 DEFAULTS.color DEFAULTS.lineWidth false.

(** ** Vocabulary of the further properties *)

(** The history is in range: between one and [maxEntries] entries, and
    [historyIndex] designates one of them. *)
Definition histOK (s : State) : Prop :=
  (1 <= length (history s) <= HISTORY.maxEntries)%nat /\
  (0 <= historyIndex s < Z.of_nat (length (history s)))%Z.

(** The precondition of a save: also met before the first save. *)
Definition histRange (s : State) : Prop :=
  (-1 <= historyIndex s < Z.of_nat (length (history s)))%Z /\
  (length (history s) <= HISTORY.maxEntries)%nat.

(** From [s] to [s'] the history was left alone, or saved once. *)
Definition histStep (s s' : State) : Prop :=
  (history s' = history s /\ historyIndex s' = historyIndex s) \/
  (exists t, history t = history s /\ historyIndex t = historyIndex s /\
             history s' = history (saveToHistory t) /\
             historyIndex s' = historyIndex (saveToHistory t)).

(** The entry at [historyIndex] is the snapshot of the live lists. *)
Definition synced (s : State) : Prop :=
  index (history s) (historyIndex s) = Some (snapshot s).

(** The six lists of a history entry. *)
Definition entryScene (e : HistoryEntry) :=
  (entry_strokes e, entry_arrows e, entry_rectangles e,
   entry_ellipses e, entry_blurs e, entry_texts e).

(** The box spanned by the two corners of a drag. *)
Definition dragBox (x0 y0 x1 y1 : Q) : Bounds :=
  mkBounds (Qmin x0 x1) (Qmin y0 y1) (Qabs (x1 - x0)) (Qabs (y1 - y0)).

(** The box [B] moved by [(dx, dy)]. *)
Definition translate (dx dy : Q) (B : Bounds) : Bounds :=
  mkBounds (b_x B + dx) (b_y B + dy) (b_width B) (b_height B).

(** The point objects of a stroke are distinct, as [addPoint] makes them. *)
Definition distinctPoints (a : Annotation) : Prop :=
  match a with
  | AStroke st => NoDup (stroke_points st)
  | _ => True
  end.

(** The last position of the pointer in a series of moves that started
    at [(x0, y0)]. *)
Definition lastCoords (x0 y0 : Q) (cs : list Coords) : Coords :=
  List.last cs (mkCoords x0 y0).

(** The select tool is dragging its selection to move it. *)
Definition movingSelection (s : State) (a : Annotation) : Prop :=
  currentTool s = SELECT /\ dragMode s = Some Move /\
  selectedAnnotation s = Some a.

(** The editor after [strokePicked]: the stroke is selected and the pointer
    is down on it. *)
Definition strokeHeld : State :=
  match run strokePicked (loaded ctx0) with
  | Some s => s
  | None => loaded ctx0
  end.

(** The box a drag of [(dx, dy)] on the handle [mode] asks for, before the
    minimum size is applied ([resizeAnnotation] is never called with
    [Move]). *)
Definition handleBox (mode : DragMode) (dx dy : Q) (B : Bounds) : Bounds :=
  match mode with
  | ResizeSE => mkBounds (b_x B) (b_y B) (b_width B + dx) (b_height B + dy)
  | ResizeNE => mkBounds (b_x B) (b_y B + dy) (b_width B + dx) (b_height B)
  | ResizeSW => mkBounds (b_x B + dx) (b_y B) (b_width B) (b_height B + dy)
  | ResizeNW => mkBounds (b_x B + dx) (b_y B + dy) (b_width B) (b_height B)
  | Move => mkBounds (b_x B) (b_y B) (b_width B + dx) (b_height B)
  end.

(** The box [B] with its width and height raised to 10. *)
Definition atLeast10 (B : Bounds) : Bounds :=
  mkBounds (b_x B) (b_y B) (Qmax 10 (b_width B)) (Qmax 10 (b_height B)).

(** The box [A] after the proportional rescale from [original] to
    [newBounds]: its corner is rescaled, its width and height are
    multiplied by the two scale factors. *)
Definition scaledBox (newBounds original A : Bounds) : Bounds :=
  mkBounds
    (rescale (b_x A) (b_x newBounds) (b_width newBounds) (b_x original) (b_width original))
    (rescale (b_y A) (b_y newBounds) (b_height newBounds) (b_y original) (b_height original))
    (b_width A * (b_width newBounds / orOne (b_width original)))
    (b_height A * (b_height newBounds / orOne (b_height original))).

(** Arrows and strokes, which are resized proportionally. *)
Definition proportional (a : Annotation) : Prop :=
  match a with
  | AArrow _ | AStroke _ => True
  | _ => False
  end.

(** The select tool is dragging the handle [mode] of its selection, with
    [ob] the bounds recorded when the drag started. *)
Definition resizingSelection (s : State) (a : Annotation) (mode : DragMode)
    (ob : Bounds) : Prop :=
  currentTool s = SELECT /\ dragMode s = Some mode /\ mode <> Move /\
  selectedAnnotation s = Some a /\ originalBounds s = Some ob.

(** Rectangles, ellipses and pixelation regions, which a resize sets to the
    computed box. *)
Definition boxShaped (a : Annotation) : Prop :=
  match a with
  | ARectangle _ | AEllipse _ | ABlur _ => True
  | _ => False
  end.

(** The box [A] rescaled once for every pointer position of [cs], each
    time from the original bounds [ob] to the box computed from the
    handle [mode] for that position; [(x0, y0)] is the drag start. *)
Definition rescaledAlong (mode : DragMode) (ob : Bounds) (x0 y0 : Q)
    (cs : list Coords) (A : Bounds) : Bounds :=
  foldl (fun A c => scaledBox (resizedBounds mode (c_x c - x0) (c_y c - y0) ob) ob A)
        A cs.

(** A rectangle from [(100, 100)] to [(300, 250)] is drawn and selected,
    then the pointer goes down on its south-east handle. *)
Definition rectangleGrabbed : State :=
  match run (drag RECTANGLE 100 100 300 250 ++
             [MouseUp; KeyTool SELECT; MouseDown (at_ 200 200); MouseUp;
              MouseDown (at_ 302 249)]) (loaded ctx0) with
  | Some s => s
  | None => loaded ctx0
  end.

(** An arrow from [(0, 0)] to [(40, 20)] is drawn and selected, then the
    pointer goes down on its south-east handle. *)
Definition arrowGrabbed : State :=
  match run (drag ARROW 0 0 40 20 ++
             [MouseUp; KeyTool SELECT; MouseDown (at_ 20 10); MouseUp;
              MouseDown (at_ 40 20)]) (loaded ctx0) with
  | Some s => s
  | None => loaded ctx0
  end.

(** The pointer [(x, y)] is within the handle size of the corner of [B]
    that the handle [mode] sits on. *)
Definition nearCorner (x y : Q) (mode : DragMode) (B : Bounds) : Prop :=
  match mode with
  | ResizeNW =>
      Qabs (x - b_x B) <= SELECTION.handleSize /\
      Qabs (y - b_y B) <= SELECTION.handleSize
  | ResizeNE =>
      Qabs (x - (b_x B + b_width B)) <= SELECTION.handleSize /\
      Qabs (y - b_y B) <= SELECTION.handleSize
  | ResizeSW =>
      Qabs (x - b_x B) <= SELECTION.handleSize /\
      Qabs (y - (b_y B + b_height B)) <= SELECTION.handleSize
  | ResizeSE =>
      Qabs (x - (b_x B + b_width B)) <= SELECTION.handleSize /\
      Qabs (y - (b_y B + b_height B)) <= SELECTION.handleSize
  | Move => False
  end.

(** A shape (arrow, rectangle, ellipse or pixelation region) is being
    drawn: the pointer is down and the tool previews through
    [scheduleShapeRedraw]. *)
Definition drawingShape (s : State) : Prop :=
  isDrawing s = true /\ currentTool s <> SELECT /\ currentTool s <> PEN.

(** The point object [addPoint] makes of a pointer position. *)
Definition coordsPoint (c : Coords) : Point := mkPoint (c_x c) (c_y c).

(** The stroke of [n] points the pen allocates from the state [s] on. *)
Definition penStroke (s : State) (n : nat) : Stroke :=
  mkStroke (seq (length (heap s)) n) (color s) (lineWidth s).

(** The text annotation a click at [c] and the typed [value] produce. *)
Definition typedText (s : State) (c : Coords) (value : string) : TextAnnotation :=
  mkText (c_x c) (c_y c + fontSize s * CANVAS.textBaselineRatio) (trim value)
         (fontSize s) (color s).

(** A rectangle from [(100, 100)] to [(300, 250)] is drawn, then the
    select tool is taken. *)
Definition rectangleDrawn : State :=
  match run (drag RECTANGLE 100 100 300 250 ++ [MouseUp; KeyTool SELECT])
            (loaded ctx0) with
  | Some s => s
  | None => loaded ctx0
  end.

(** The rectangle of [rectangleDrawn] is dragged by [(10, 20)], then a
    click on the empty canvas drops the selection: the release of the
    move saved nothing, so the entry at [historyIndex] still has the
    rectangle where it was drawn. *)
Definition rectangleNudged : State :=
  match run [MouseDown (at_ 200 200); MouseMove (at_ 210 220); MouseUp;
             MouseDown (at_ 5 5); MouseUp] rectangleDrawn with
  | Some s => s
  | None => rectangleDrawn
  end.

(** ** draft.js *)

(** The plain object of a stroke as the storage holds it: the [{x, y}]
    objects of [points] by value. *)
Record DraftStroke : Type := mkDraftStroke {
  ds_points : list Point;
  ds_color : string;
  ds_lineWidth : Q
}.

(** The annotations of a draft: plain objects with the fields of the
    annotations; a list may be missing from a stored draft. *)
Record DraftAnnotations : Type := mkDraft {
  draft_strokes : option (list DraftStroke);
  draft_arrows : option (list Arrow);
  draft_rectangles : option (list Rectangle);
  draft_ellipses : option (list Ellipse);
  draft_blurs : option (list BlurRegion);
  draft_texts : option (list TextAnnotation)
}.

(** [list || []] *)
Definition orEmpty {A} (l : option (list A)) : list A :=
  match l with
  | Some l => l
  | None => []
  end.

(** [points: [...stroke.points]] is a new array of the point objects of
    the stroke; [saveDraft] hands the result to the storage at once, which
    keeps the coordinates the objects have then: the draft is the stored
    one. *)
Definition serializeAnnotations (s : State) : DraftAnnotations :=
  mkDraft
    (Some (map (fun stroke =>
                  mkDraftStroke (StrokeM.points (heap s) stroke) (stroke_color stroke)
                                (stroke_lineWidth stroke))
               (strokes s)))
    (Some (map (fun arrow =>
                  mkArrow (arrow_startX arrow) (arrow_startY arrow)
                          (arrow_endX arrow) (arrow_endY arrow)
                          (arrow_color arrow) (arrow_lineWidth arrow))
               (arrows s)))
    (Some (map (fun rect =>
                  mkRectangle (rect_x rect) (rect_y rect)
                              (rect_width rect) (rect_height rect)
                              (rect_color rect) (rect_lineWidth rect) (rect_filled rect))
               (rectangles s)))
    (Some (map (fun ellipse =>
                  mkEllipse (ell_startX ellipse) (ell_startY ellipse)
                            (ell_centerX ellipse) (ell_centerY ellipse)
                            (ell_radiusX ellipse) (ell_radiusY ellipse)
                            (ell_color ellipse) (ell_lineWidth ellipse)
                            (ell_filled ellipse))
               (ellipses s)))
    (Some (map (fun blur =>
                  mkBlur (blur_x blur) (blur_y blur) (blur_width blur) (blur_height blur))
               (blurs s)))
    (Some (map (fun text =>
                  mkText (text_x text) (text_y text) (text_text text)
                         (text_fontSize text) (text_color text))
               (texts s))).

(** A stroke of a draft read from the storage: its [{x, y}] objects are
    objects of their own, later in the store than every other, and
    [stroke.points = [...data.points]] is the array of them. *)
Definition restoreStroke (h : Heap) (data : DraftStroke) : Heap * Stroke :=
  let stroke := StrokeM.new (ds_color data) (ds_lineWidth data) in
  (h ++ ds_points data,
   mkStroke (seq (length h) (length (ds_points data)))
            (stroke_color stroke) (stroke_lineWidth stroke)).

Fixpoint restoreStrokes (h : Heap) (strokes : list DraftStroke) : Heap * list Stroke :=
  match strokes with
  | [] => (h, [])
  | data :: rest =>
      let '(h, stroke) := restoreStroke h data in
      let '(h, strokes) := restoreStrokes h rest in
      (h, stroke :: strokes)
  end.

(** [restoreAnnotations]: class instances are built from the plain
    objects, as in [restoreFromHistory]; the history, the selection and
    the gesture in progress are not touched. *)
Definition restoreAnnotations (annotations : DraftAnnotations) (s : State) : State :=
  let '(h, strokes) := restoreStrokes (heap s) (orEmpty (draft_strokes annotations)) in
  let s := setStrokes strokes (setHeap h s) in
  let s :=
    setArrows
      (map (fun data =>
              let arrow := ArrowM.new (arrow_startX data) (arrow_startY data)
                                      (arrow_color data) (arrow_lineWidth data) in
              mkArrow (arrow_startX arrow) (arrow_startY arrow)
                      (arrow_endX data) (arrow_endY data)
                      (arrow_color arrow) (arrow_lineWidth arrow))
           (orEmpty (draft_arrows annotations))) s in
  let s :=
    setRectangles
      (map (fun data =>
              let rect := RectangleM.new (rect_x data) (rect_y data) (rect_color data)
                                         (rect_lineWidth data) (rect_filled data) in
              mkRectangle (rect_x rect) (rect_y rect)
                          (rect_width data) (rect_height data)
                          (rect_color rect) (rect_lineWidth rect) (rect_filled rect))
           (orEmpty (draft_rectangles annotations))) s in
  let s :=
    setEllipses
      (map (fun data =>
              let ellipse := EllipseM.new (ell_startX data) (ell_startY data)
                               (ell_color data) (ell_lineWidth data) (ell_filled data) in
              mkEllipse (ell_startX ellipse) (ell_startY ellipse)
                        (ell_centerX data) (ell_centerY data)
                        (ell_radiusX data) (ell_radiusY data)
                        (ell_color ellipse) (ell_lineWidth ellipse)
                        (ell_filled ellipse))
           (orEmpty (draft_ellipses annotations))) s in
  let s :=
    setBlurs
      (map (fun data =>
              let blur := BlurRegionM.new (blur_x data) (blur_y data) in
              mkBlur (blur_x blur) (blur_y blur) (blur_width data) (blur_height data))
           (orEmpty (draft_blurs annotations))) s in
  setTexts
    (map (fun data =>
            TextM.new (text_x data) (text_y data) (text_text data)
                      (text_fontSize data) (text_color data))
         (orEmpty (draft_texts annotations))) s.

(** editor.js, [init] with a draft and no new image: the image of the
    draft is loaded, its annotations are restored and the history is
    saved. *)
Definition loadedFromDraft (c : Ctx) (annotations : DraftAnnotations) : State :=
  saveToHistory (restoreAnnotations annotations (initialState c)).

(** The strokes by value: the points read through the store, the colour
    and the line width. *)
Definition strokeValues (h : list Point) (strokes : list Stroke) : list DraftStroke :=
  map (fun stroke =>
         mkDraftStroke (StrokeM.points h stroke) (stroke_color stroke)
                       (stroke_lineWidth stroke))
      strokes.

(** ** canvas-renderer.js: the pixelated region *)

(** The rectangle of pixels [drawBlur] reads and writes back, as
    [(x, y, width, height)] on a canvas of the given integer size; [None]
    where [drawBlur] returns before it touches the canvas.  [Math.floor]
    is [Qfloor]. *)
Definition blurArea (canvasWidth canvasHeight : Z) (blur : BlurRegion)
  : option (Z * Z * Z * Z) :=
  let x := blur_x blur in
  let y := blur_y blur in
  let width := blur_width blur in
  let height := blur_height blur in
  let '(x, width) := if Qltb width 0 then (x + width, Qabs width) else (x, width) in
  let '(y, height) := if Qltb height 0 then (y + height, Qabs height) else (y, height) in
  if Qltb width 1 || Qltb height 1 then None
  else
    let x := Z.max 0 (Qfloor x) in
    let y := Z.max 0 (Qfloor y) in
    let width := Z.min (Qfloor width) (canvasWidth - x) in
    let height := Z.min (Qfloor height) (canvasHeight - y) in
    if (width <? 1)%Z || (height <? 1)%Z then None
    else Some (x, y, width, height).

(** ** canvas-renderer.js: the mosaic of [drawBlur] *)

Module BLUR.
Definition pixelSize : nat := 8.
End BLUR.

(** The values [i] takes in [for (let i = 0; i < stop; i += step)]. *)
Definition steps (stop step : nat) : list nat :=
  (fun k => k * step)%nat <$> seq 0 ((stop + step - 1) / step).

(** The values [i] takes in
    [for (let i = 0; i < n && base + i < stop; i++)]. *)
Definition whileBoth (n base stop : nat) : list nat :=
  seq 0 (Nat.min n (stop - base)).

(** [data[i]] of the [Uint8ClampedArray] of an [ImageData]: a read out of
    range gives [undefined], which a write into the array stores as 0. *)
Definition byteAt (data : list nat) (i : nat) : nat :=
  match data !! i with
  | Some v => v
  | None => 0%nat
  end.

(** The loops of [drawBlur] over the image data of a region of [width] by
    [height] pixels, four bytes a pixel, row by row; a write out of range
    is ignored, as by the array. *)
Definition pixelate (width height : nat) (data : list nat) : list nat :=
  let pixelSize := BLUR.pixelSize in
  foldl (fun data py =>
    foldl (fun data px =>
      let sampleX := Nat.min (px + pixelSize / 2) (width - 1) in
      let sampleY := Nat.min (py + pixelSize / 2) (height - 1) in
      let idx := ((sampleY * width + sampleX) * 4)%nat in
      let r := byteAt data idx in
      let g := byteAt data (idx + 1) in
      let b := byteAt data (idx + 2) in
      let a := byteAt data (idx + 3) in
      foldl (fun data by_ =>
        foldl (fun data bx =>
          let i := (((py + by_) * width + (px + bx)) * 4)%nat in
          <[(i + 3)%nat := a]>
            (<[(i + 2)%nat := b]> (<[(i + 1)%nat := g]> (<[i := r]> data))))
          data (whileBoth pixelSize px width))
        data (whileBoth pixelSize py height))
      data (steps width pixelSize))
    data (steps height pixelSize).

(** The byte of channel [k] of the pixel [(x, y)] of an image [width]
    pixels wide. *)
Definition channel (width : nat) (data : list nat) (x y k : nat) : option nat :=
  data !! ((y * width + x) * 4 + k)%nat.

(** The pixel a block of the mosaic is sampled at: the centre of the block
    of [v], or the last pixel where the block is cut by the border. *)
Definition sampleOf (size v : nat) : nat :=
  Nat.min (v / BLUR.pixelSize * BLUR.pixelSize + BLUR.pixelSize / 2) (size - 1).

(** A colour: the four bytes of a pixel. *)
Definition Colour : Type := (nat * nat * nat * nat)%type.

Definition chan (c : Colour) (k : nat) : nat :=
  let '(r, g, b, a) := c in
  match k with
  | 0%nat => r
  | 1%nat => g
  | 2%nat => b
  | _ => a
  end.

(** The four writes of the innermost loop body. *)
Definition write4 (i : nat) (c : Colour) (data : list nat) : list nat :=
  let '(r, g, b, a) := c in
  <[(i + 3)%nat := a]> (<[(i + 2)%nat := b]> (<[(i + 1)%nat := g]> (<[i := r]> data))).

(** The four reads of the sample. *)
Definition read4 (data : list nat) (idx : nat) : Colour :=
  (byteAt data idx, byteAt data (idx + 1), byteAt data (idx + 2), byteAt data (idx + 3)).

(** The pixels of the block whose corner is [(px, py)], in the order the
    two inner loops visit them. *)
Definition cells (width height px py : nat) : list (nat * nat) :=
  by_ ← whileBoth BLUR.pixelSize py height;
  bx ← whileBoth BLUR.pixelSize px width;
  [((px + bx)%nat, (py + by_)%nat)].

(** The corners of the blocks, in the order the two outer loops visit
    them. *)
Definition blocks (width height : nat) : list (nat * nat) :=
  py ← steps height BLUR.pixelSize;
  px ← steps width BLUR.pixelSize;
  [(px, py)].

(** The pixels of [cs] painted with [c]. *)
Definition paint (width : nat) (c : Colour) (cs : list (nat * nat)) (data : list nat)
  : list nat :=
  foldl (fun data '(x, y) => write4 ((y * width + x) * 4) c data) data cs.

(** The body of the two outer loops for the block at [(px, py)]. *)
Definition mosaicStep (width height : nat) (data : list nat) (p : nat * nat)
  : list nat :=
  let '(px, py) := p in
  let sampleX := Nat.min (px + BLUR.pixelSize / 2) (width - 1) in
  let sampleY := Nat.min (py + BLUR.pixelSize / 2) (height - 1) in
  paint width (read4 data ((sampleY * width + sampleX) * 4))
        (cells width height px py) data.

(** The corner of the block of the coordinate [v]. *)
Definition blockOf (v : nat) : nat := (v / BLUR.pixelSize * BLUR.pixelSize)%nat.

(** ** canvas-renderer.js: shapes *)

(** What [drawEllipse] and [drawRectangle] ask of the 2D context: one
    outline or one filled shape. *)
Inductive ShapeCmd : Type :=
  | StrokeEllipse (centerX centerY radiusX radiusY : Q) (strokeStyle : string)
                  (lineWidth : Q)
  | FillEllipse (centerX centerY radiusX radiusY : Q) (fillStyle : string)
  | StrokeRect (x y width height : Q) (strokeStyle : string) (lineWidth : Q)
  | FillRect (x y width height : Q) (fillStyle : string).

Definition drawEllipse (ellipse : option Ellipse) : list ShapeCmd :=
  match ellipse with
  | None => []
  | Some e =>
      if Qltb (ell_radiusX e) 1 || Qltb (ell_radiusY e) 1 then []
      else if ell_filled e
      then [FillEllipse (ell_centerX e) (ell_centerY e) (ell_radiusX e) (ell_radiusY e)
                        (ell_color e)]
      else [StrokeEllipse (ell_centerX e) (ell_centerY e) (ell_radiusX e) (ell_radiusY e)
                          (ell_color e) (ell_lineWidth e)]
  end.

Definition drawRectangle (rect : option Rectangle) : list ShapeCmd :=
  match rect with
  | None => []
  | Some r =>
      if rect_filled r
      then [FillRect (rect_x r) (rect_y r) (rect_width r) (rect_height r) (rect_color r)]
      else [StrokeRect (rect_x r) (rect_y r) (rect_width r) (rect_height r)
                       (rect_color r) (rect_lineWidth r)]
  end.

(** The shape a drag of [tool] from [(x0, y0)] to [(x1, y1)] builds, with
    the style of the state [s]. *)
Definition dragged (tool : Tool) (s : State) (x0 y0 x1 y1 : Q) : option Annotation :=
  match tool with
  | ARROW =>
      Some (AArrow (ArrowM.setEnd (ArrowM.new x0 y0 (color s) (lineWidth s)) x1 y1))
  | RECTANGLE =>
      Some (ARectangle (RectangleM.setEnd
                          (RectangleM.new x0 y0 (color s) (lineWidth s) (filled s)) x1 y1))
  | CIRCLE =>
      Some (AEllipse (EllipseM.setEnd
                        (EllipseM.new x0 y0 (color s) (lineWidth s) (filled s)) x1 y1))
  | BLUR => Some (ABlur (BlurRegionM.setEnd (BlurRegionM.new x0 y0) x1 y1))
  | SELECT | PEN | TEXT => None
  end.

(** [setEnd] of the class of the annotation; a stroke and a text have
    none. *)
Definition setEndOf (a : Annotation) (x y : Q) : Annotation :=
  match a with
  | AArrow ar => AArrow (ArrowM.setEnd ar x y)
  | ARectangle r => ARectangle (RectangleM.setEnd r x y)
  | AEllipse e => AEllipse (EllipseM.setEnd e x y)
  | ABlur b => ABlur (BlurRegionM.setEnd b x y)
  | AStroke _ | AText _ => a
  end.

(** A mouse move or an animation frame. *)
Definition isPreview (e : Event) : Prop :=
  match e with
  | MouseMove _ | AnimationFrame => True
  | _ => False
  end.

(** A whole drawing gesture with a shape tool: the press at [(x0, y0)];
    any moves and animation frames; a move to [(x1, y1)] and the frame
    that renders it; further moves, the frame of which the release comes
    before; the release. *)
Definition gesture (tool : Tool) (x0 y0 : Q) (mid : list Event) (x1 y1 : Q)
    (late : list Coords) : list Event :=
  [KeyTool tool; MouseDown (at_ x0 y0)] ++ mid
  ++ [MouseMove (at_ x1 y1); AnimationFrame] ++ map MouseMove late ++ [MouseUp].

(** A gesture released before any animation frame. *)
Definition unrendered (tool : Tool) (x0 y0 : Q) (moves : list Coords) : list Event :=
  [KeyTool tool; MouseDown (at_ x0 y0)] ++ map MouseMove moves ++ [MouseUp].

(** During a gesture of [tool] pressed at [(x0, y0)] from the state [s]:
    the shape in progress has the anchor and the style of the press. *)
Definition previewing (tool : Tool) (s : State) (x0 y0 : Q) (t : State) : Prop :=
  drawingShape t /\ currentTool t = tool /\
  exists b, inProgress t = Some b /\
            forall x y, dragged tool s x0 y0 x y = Some (setEndOf b x y).

(** The test [findAnnotationAtPoint] applies to an annotation, by its
    type. *)
Definition hitBy (s : State) (h : list Point) (x y : Q) (a : Annotation) : bool :=
  match a with
  | AStroke st => hitStroke h x y st
  | AArrow ar => hitArrow x y ar
  | ARectangle r => hitRectangle x y r
  | AEllipse e => hitEllipse x y e
  | AText t => hitText s x y t
  | ABlur b => hitBlur x y b
  end.

(** * Properties *)

(** ** Numbers *)

Lemma Qltb_lt (a b : Q) : Qltb a b = true <-> a < b.
Proof.
  unfold Qltb. rewrite negb_true_iff.
  split.
  - intros H. apply Qnot_le_lt. intros Hle.
    apply Qle_bool_iff in Hle. congruence.
  - intros H. destruct (Qle_bool b a) eqn:E; [|reflexivity].
    apply Qle_bool_iff in E. lra.
Qed.

Lemma Qltb_ge (a b : Q) : Qltb a b = false <-> b <= a.
Proof.
  unfold Qltb. rewrite negb_false_iff. apply Qle_bool_iff.
Qed.

(** ** The history *)

Lemma saveToHistory_scene (s : State) : scene (saveToHistory s) = scene s.
Proof. unfold saveToHistory. repeat case_match; reflexivity. Qed.

Lemma saveToHistory_heap (s : State) : heap (saveToHistory s) = heap s.
Proof. unfold saveToHistory. repeat case_match; reflexivity. Qed.

Lemma snapshot_scene (s s' : State) : scene s = scene s' -> snapshot s = snapshot s'.
Proof. unfold scene, snapshot. intros H. injection H as -> -> -> -> -> ->. reflexivity. Qed.

(** At the newest entry and below the cap, a save appends. *)
Lemma saveToHistory_append (s : State) :
  historyIndex s = (Z.of_nat (length (history s)) - 1)%Z ->
  (length (history s) < HISTORY.maxEntries)%nat ->
  history (saveToHistory s) = history s ++ [snapshot s] /\
  historyIndex (saveToHistory s) = Z.of_nat (length (history s)).
Proof.
  intros Hidx Hlen. unfold saveToHistory.
  rewrite Hidx, Z.ltb_irrefl.
  rewrite length_app. cbn [length].
  destruct (Nat.ltb_spec HISTORY.maxEntries (length (history s) + 1)) as [H|H].
  - lia.
  - cbn. split; [reflexivity | lia].
Qed.

(** At the newest entry and at the cap, a save appends and drops the oldest. *)
Lemma saveToHistory_evict (s : State) :
  historyIndex s = (Z.of_nat (length (history s)) - 1)%Z ->
  length (history s) = HISTORY.maxEntries ->
  history (saveToHistory s) = tail (history s) ++ [snapshot s] /\
  historyIndex (saveToHistory s) = (Z.of_nat HISTORY.maxEntries - 1)%Z.
Proof.
  intros Hidx Hlen. unfold saveToHistory.
  rewrite Hidx, Z.ltb_irrefl.
  rewrite length_app. cbn [length]. rewrite Hlen.
  cbn. split; [|reflexivity].
  destruct (history s); [discriminate | reflexivity].
Qed.

Lemma saves_scene (n : nat) (s : State) :
  scene (saves n s) = scene s.
Proof.
  induction n as [|n IH]; [reflexivity|].
  cbn [saves]. rewrite saveToHistory_scene. exact IH.
Qed.

Lemma saves_history (n : nat) (s : State) :
  history s = [] -> historyIndex s = (-1)%Z ->
  (n <= HISTORY.maxEntries)%nat ->
  history (saves n s) = replicate n (snapshot s) /\
  historyIndex (saves n s) = (Z.of_nat n - 1)%Z.
Proof.
  intros Hh Hi. induction n as [|n IH]; intros Hn.
  - cbn. rewrite Hh, Hi. split; reflexivity.
  - destruct IH as [IHh IHi]; [lia|].
    cbn [saves].
    destruct (saveToHistory_append (saves n s)) as [E1 E2].
    + rewrite IHh, IHi, length_replicate. reflexivity.
    + rewrite IHh, length_replicate. lia.
    + rewrite E1, E2, IHh, length_replicate.
      rewrite (snapshot_scene _ s (saves_scene n s)).
      split; [|lia].
      change [snapshot s] with (replicate 1 (snapshot s)).
      rewrite <- replicate_add. f_equal. lia.
Qed.

(** ** Commit thresholds *)

(** The history after a save is determined by the history before and the
    scene. *)
Lemma saveToHistory_ext (s1 s2 : State) :
  history s1 = history s2 -> historyIndex s1 = historyIndex s2 ->
  scene s1 = scene s2 ->
  history (saveToHistory s1) = history (saveToHistory s2) /\
  historyIndex (saveToHistory s1) = historyIndex (saveToHistory s2).
Proof.
  intros Hh Hi Hs. unfold saveToHistory.
  rewrite (snapshot_scene _ _ Hs), Hh, Hi.
  repeat case_match; split; reflexivity.
Qed.

Lemma scene_length (s1 s2 : State) :
  scene s1 = scene s2 ->
  (length (strokes s1) + length (arrows s1) + length (rectangles s1) +
   length (ellipses s1) + length (blurs s1) + length (texts s1) =
   length (strokes s2) + length (arrows s2) + length (rectangles s2) +
   length (ellipses s2) + length (blurs s2) + length (texts s2))%nat.
Proof. unfold scene. intros H. injection H as -> -> -> -> -> ->. reflexivity. Qed.

Lemma push_scene_neq (a : Annotation) (s : State) : scene (push a s) <> scene s.
Proof.
  intros H. apply scene_length in H.
  destruct a; cbn in H; rewrite length_app in H; cbn in H; lia.
Qed.

Lemma committedOnce_not_untouched (a : Annotation) (s s' : State) :
  committedOnce a s s' -> untouched s s' -> False.
Proof.
  intros (H1 & _) (H2 & _). apply (push_scene_neq a s). congruence.
Qed.

Lemma committedOnce_intro (a : Annotation) (s s0 s1 s2 : State) :
  untouched s s0 ->
  scene s1 = scene (push a s0) -> history s1 = history s0 ->
  historyIndex s1 = historyIndex s0 ->
  untouched (saveToHistory s1) s2 ->
  committedOnce a s s2.
Proof.
  intros (Hs & Hh & Hi) H1 H2 H3 (G1 & G2 & G3).
  assert (Hp : scene s1 = scene (push a s)).
  { rewrite H1. unfold scene in *. injection Hs as E1 E2 E3 E4 E5 E6.
    destruct a; cbn; congruence. }
  destruct (saveToHistory_ext s1 (push a s)) as [F1 F2].
  - rewrite H2, Hh. destruct a; reflexivity.
  - rewrite H3, Hi. destruct a; reflexivity.
  - exact Hp.
  - repeat split; [|congruence|congruence].
    rewrite G1, saveToHistory_scene. exact Hp.
Qed.

Lemma untouched_trans (s1 s2 s3 : State) :
  untouched s1 s2 -> untouched s2 s3 -> untouched s1 s3.
Proof. intros (A1 & A2 & A3) (B1 & B2 & B3). repeat split; congruence. Qed.

(** What a release does to a drawing gesture of the current tool. *)
Lemma handleMouseUp_release (s : State) (a : Annotation) :
  isDrawing s = true -> inProgress s = Some a ->
  (crossesThreshold a /\ committedOnce a s (handleMouseUp s)) \/
  (~ crossesThreshold a /\ untouched s (handleMouseUp s)).
Proof.
  intros Hd Hp. unfold inProgress in Hp. unfold handleMouseUp.
  set (s0 := setIsDrawing false
               (if rafId s then setPendingCoords None (setRafId false s) else s)).
  assert (Hdoc : untouched s s0)
    by (subst s0; destruct (rafId s); repeat split; reflexivity).
  assert (Hcur : currentTool s0 = currentTool s /\
                 currentStroke s0 = currentStroke s /\
                 currentArrow s0 = currentArrow s /\
                 currentRectangle s0 = currentRectangle s /\
                 currentEllipse s0 = currentEllipse s /\
                 currentBlur s0 = currentBlur s)
    by (subst s0; destruct (rafId s); repeat split; reflexivity).
  destruct Hcur as (C0 & C1 & C2 & C3 & C4 & C5).
  clearbody s0.
  destruct (currentTool s) eqn:Ht; try discriminate; rewrite Hd; cbn [negb];
    rewrite C0, ?C1, ?C2, ?C3, ?C4, ?C5.
  - (* pen *)
    destruct (currentStroke s) as [st|]; [|discriminate].
    injection Hp as <-. cbn [crossesThreshold].
    destruct (Nat.ltb_spec 0 (length (stroke_points st))) as [H|H].
    + left. split; [lia|].
      eapply (committedOnce_intro _ s s0); [exact Hdoc|..];
        [| | |repeat split; reflexivity]; reflexivity.
    + right. split; [lia|].
      eapply untouched_trans; [exact Hdoc|repeat split; reflexivity].
  - (* rectangle *)
    destruct (currentRectangle s) as [r|]; [|discriminate].
    injection Hp as <-. cbn [crossesThreshold].
    destruct (Qltb CANVAS.minShapeSize (Qabs (rect_width r) + Qabs (rect_height r))) eqn:E.
    + left. apply Qltb_lt in E. split; [exact E|].
      eapply (committedOnce_intro _ s s0); [exact Hdoc|..];
        [| | |repeat split; reflexivity]; reflexivity.
    + right. apply Qltb_ge in E. split; [unfold CANVAS.minShapeSize in E; lra|].
      eapply untouched_trans; [exact Hdoc|repeat split; reflexivity].
  - (* circle *)
    destruct (currentEllipse s) as [e|]; [|discriminate].
    injection Hp as <-. cbn [crossesThreshold].
    destruct (Qltb CANVAS.minArrowLength (ell_radiusX e + ell_radiusY e)) eqn:E.
    + left. apply Qltb_lt in E. split; [exact E|].
      eapply (committedOnce_intro _ s s0); [exact Hdoc|..];
        [| | |repeat split; reflexivity]; reflexivity.
    + right. apply Qltb_ge in E. split; [unfold CANVAS.minArrowLength in E; lra|].
      eapply untouched_trans; [exact Hdoc|repeat split; reflexivity].
  - (* arrow *)
    destruct (currentArrow s) as [ar|]; [|discriminate].
    injection Hp as <-. cbn [crossesThreshold].
    destruct (Qltb (CANVAS.minArrowLength * CANVAS.minArrowLength) (arrowLengthSq ar)) eqn:E.
    + left. apply Qltb_lt in E.
      unfold CANVAS.minArrowLength, arrowLengthSq in E. cbn zeta in E.
      split; [lra|].
      eapply (committedOnce_intro _ s s0); [exact Hdoc|..];
        [| | |repeat split; reflexivity]; reflexivity.
    + right. apply Qltb_ge in E.
      unfold CANVAS.minArrowLength, arrowLengthSq in E. cbn zeta in E.
      split; [lra|].
      eapply untouched_trans; [exact Hdoc|repeat split; reflexivity].
  - (* blur *)
    destruct (currentBlur s) as [b|]; [|discriminate].
    injection Hp as <-. cbn [crossesThreshold].
    destruct (Qltb CANVAS.minShapeSize (Qabs (blur_width b) + Qabs (blur_height b))) eqn:E.
    + left. apply Qltb_lt in E. split; [exact E|].
      eapply (committedOnce_intro _ s s0); [exact Hdoc|..];
        [| | |repeat split; reflexivity]; reflexivity.
    + right. apply Qltb_ge in E. split; [unfold CANVAS.minShapeSize in E; lra|].
      eapply untouched_trans; [exact Hdoc|repeat split; reflexivity].
Qed.

Lemma release_iff (s : State) (a : Annotation) :
  isDrawing s = true -> inProgress s = Some a ->
  (committedOnce a s (handleMouseUp s) <-> crossesThreshold a) /\
  (untouched s (handleMouseUp s) <-> ~ crossesThreshold a).
Proof.
  intros Hd Hp.
  destruct (handleMouseUp_release s a Hd Hp) as [[Hc Hm]|[Hc Hu]].
  - split; split; intros H; try assumption; try contradiction.
    exfalso. exact (committedOnce_not_untouched _ _ _ Hm H).
  - split; split; intros H; try assumption; try contradiction.
    exfalso. exact (committedOnce_not_untouched _ _ _ H Hu).
Qed.

(** An arrow dragged 4px is discarded, one dragged 6px is committed. *)
Example arrow_drag_4px_discarded (c : Ctx) :
  exists s, run (drag ARROW 0 0 4 0 ++ [MouseUp]) (loaded c) = Some s /\
            arrows s = [] /\ history s = history (loaded c).
Proof. eexists. split; [reflexivity|]. split; reflexivity. Qed.

Example arrow_drag_6px_committed (c : Ctx) :
  exists s, run (drag ARROW 0 0 6 0 ++ [MouseUp]) (loaded c) = Some s /\
            arrows s = [arrowTo 6 0] /\ length (history s) = 2%nat /\
            historyIndex s = 1%Z.
Proof. eexists. split; [reflexivity|]. repeat split; reflexivity. Qed.

(** The end point is the one of the last preview frame: a drag released
    before its frame has run is judged on the end point set before. *)
Example arrow_drag_released_before_frame (c : Ctx) :
  exists s, run [KeyTool ARROW; MouseDown (at_ 0 0); MouseMove (at_ 6 0); MouseUp]
                (loaded c) = Some s /\
            arrows s = [] /\ history s = history (loaded c).
Proof. eexists. split; [reflexivity|]. split; reflexivity. Qed.

(** ** The pointer leaving the canvas *)

(** C3, as stated, fails: an arrow dragged 100px and interrupted by the
    pointer leaving the canvas is pushed into the arrow list and saved. *)
Lemma mouseleave_commits_arrow :
  run (drag ARROW 0 0 100 0) (loaded ctx0) = Some (drawingArrow 100 0) /\
  isDrawing (drawingArrow 100 0) = true /\
  inProgress (drawingArrow 100 0) = Some (AArrow (arrowTo 100 0)) /\
  dispatch MouseLeave (drawingArrow 100 0) = Some (handleMouseUp (drawingArrow 100 0)) /\
  arrows (drawingArrow 100 0) = [] /\
  arrows (handleMouseUp (drawingArrow 100 0)) = [arrowTo 100 0] /\
  length (history (drawingArrow 100 0)) = 1%nat /\
  length (history (handleMouseUp (drawingArrow 100 0))) = 2%nat /\
  ~ untouched (drawingArrow 100 0) (handleMouseUp (drawingArrow 100 0)).
Proof.
  repeat split; try reflexivity.
  intros (H & _). vm_compute in H. discriminate H.
Qed.

(** C3, amended.  The pointer leaving the canvas is handled as a release:
    the annotation in progress is committed, with one history save, if and
    only if it crosses its commit threshold, and discarded otherwise. *)
Theorem mouseleave_is_release (s : State) (a : Annotation) :
  isDrawing s = true -> inProgress s = Some a ->
  exists s', dispatch MouseLeave s = Some s' /\
    (committedOnce a s s' <-> crossesThreshold a) /\
    (untouched s s' <-> ~ crossesThreshold a).
Proof.
  intros Hd Hp. exists (handleMouseUp s).
  split; [reflexivity|]. exact (release_iff s a Hd Hp).
Qed.

Lemma mouseleave_is_release_witness :
  isDrawing (drawingArrow 4 0) = true /\
  inProgress (drawingArrow 4 0) = Some (AArrow (arrowTo 4 0)) /\
  exists s', dispatch MouseLeave (drawingArrow 4 0) = Some s' /\
    (committedOnce (AArrow (arrowTo 4 0)) (drawingArrow 4 0) s' <->
       crossesThreshold (AArrow (arrowTo 4 0))) /\
    (untouched (drawingArrow 4 0) s' <-> ~ crossesThreshold (AArrow (arrowTo 4 0))).
Proof.
  split; [reflexivity|]. split; [reflexivity|].
  apply (mouseleave_is_release (drawingArrow 4 0) (AArrow (arrowTo 4 0)));
    reflexivity.
Defined.

(** ** Text entry and tool switching *)

Lemma hideTextInput_untouched (s : State) : untouched s (hideTextInput s).
Proof. repeat split; reflexivity. Qed.

Lemma confirmTextInput_commits (s : State) (p : PendingText) :
  pendingText s = Some p -> nonEmpty (trim (textInputValue s)) = true ->
  committedOnce (pendingAnnotation s p) s (confirmTextInput s).
Proof.
  intros Hp Ht. unfold confirmTextInput. rewrite Hp, Ht.
  eapply (committedOnce_intro _ s s); [repeat split; reflexivity|..|
    apply hideTextInput_untouched]; reflexivity.
Qed.

Lemma confirmTextInput_empty (s : State) :
  nonEmpty (trim (textInputValue s)) = false -> untouched s (confirmTextInput s).
Proof.
  intros Ht. unfold confirmTextInput. rewrite Ht.
  destruct (pendingText s); apply hideTextInput_untouched.
Qed.

(** C4, as stated, fails: with "hello" typed in the text entry, the click
    on the pen button makes the pen the current tool and commits nothing. *)
Lemma tool_switch_drops_text :
  run [KeyTool TEXT; MouseDown (at_ 10 10); TextTyped "hello"] (loaded ctx0)
    = Some (typing "hello") /\
  isEditingText (typing "hello") = true /\
  nonEmpty (trim (textInputValue (typing "hello"))) = true /\
  exists s', dispatch (ToolbarClick (BtnTool PEN)) (typing "hello") = Some s' /\
             currentTool s' = PEN /\
             texts s' = [] /\
             history s' = history (typing "hello") /\
             historyIndex s' = historyIndex (typing "hello").
Proof.
  split; [vm_compute; reflexivity|].
  split; [reflexivity|]. split; [reflexivity|].
  eexists. split; [reflexivity|].
  repeat split; vm_compute; reflexivity.
Qed.

(** C4, amended.  Switching tools while the text entry is open cancels the
    entry: no text annotation is committed and no history entry is saved,
    whatever was typed, and the new tool becomes active.  Enter, the
    delayed blur and a pointer-down on the canvas confirm the entry: with a
    non-empty trimmed text a text annotation is committed with one history
    save, with an empty one nothing changes; Escape cancels without
    mutation. *)
Theorem tool_switch_cancels_text (s : State) (tool : Tool) :
  isEditingText s = true ->
  (exists s', dispatch (ToolbarClick (BtnTool tool)) s = Some s' /\
              untouched s s' /\ currentTool s' = tool /\
              isEditingText s' = false /\ pendingText s' = None) /\
  (forall e, e = TextEnter \/ e = TextBlurTimeout \/ (exists c, e = MouseDown c) ->
     dispatch e s = Some (confirmTextInput s)) /\
  (forall p, pendingText s = Some p ->
     nonEmpty (trim (textInputValue s)) = true ->
     committedOnce (pendingAnnotation s p) s (confirmTextInput s)) /\
  (nonEmpty (trim (textInputValue s)) = false -> untouched s (confirmTextInput s)) /\
  (exists s', dispatch TextEscape s = Some s' /\ untouched s s').
Proof.
  intros He. split; [|split; [|split; [|split]]].
  - eexists. split; [reflexivity|].
    cbn [toolbarClick]. rewrite He.
    destruct (Tool_eqb (currentTool (cancelTextInput s)) SELECT && negb (Tool_eqb tool SELECT));
      repeat split; reflexivity.
  - intros e [->|[->|[c ->]]]; cbn [dispatch]; unfold handleMouseDown;
      rewrite ?He; reflexivity.
  - apply confirmTextInput_commits.
  - apply confirmTextInput_empty.
  - eexists. split; [reflexivity|]. apply hideTextInput_untouched.
Qed.

Lemma tool_switch_cancels_text_witness :
  isEditingText (typing "hello") = true /\
  exists s', dispatch (ToolbarClick (BtnTool PEN)) (typing "hello") = Some s' /\
             untouched (typing "hello") s' /\ currentTool s' = PEN /\
             isEditingText s' = false /\ pendingText s' = None.
Proof.
  split; [reflexivity|].
  apply (tool_switch_cancels_text (typing "hello") PEN). reflexivity.
Defined.

(** ** Hit test *)

Lemma findLast_Some {A} (test : A -> bool) (l : list A) (n i : nat) :
  findLast test l n = Some i <->
  (i < n)%nat /\ from_option test false (l !! i) = true /\
  forall j, (i < j < n)%nat -> from_option test false (l !! j) = false.
Proof.
  induction n as [|n IH]; cbn [findLast].
  - split; [discriminate | intros [H _]; lia].
  - destruct (l !! n) as [a|] eqn:E; [destruct (test a) eqn:T|].
    + split.
      * intros [= <-]. rewrite E. cbn. repeat split; [lia|exact T|intros j Hj; lia].
      * intros (Hi & Ht & Hmax).
        destruct (decide (i = n)) as [->|Hne]; [reflexivity|].
        specialize (Hmax n). rewrite E in Hmax. cbn in Hmax.
        rewrite Hmax in T by lia. discriminate.
    + rewrite IH. split.
      * intros (Hi & Ht & Hmax). repeat split; [lia|exact Ht|].
        intros j Hj. destruct (decide (j = n)) as [->|Hne].
        -- rewrite E. exact T.
        -- apply Hmax. lia.
      * intros (Hi & Ht & Hmax).
        assert (i <> n) by (intros ->; rewrite E in Ht; cbn in Ht; congruence).
        repeat split; [lia|exact Ht|]. intros j Hj. apply Hmax. lia.
    + rewrite IH. split.
      * intros (Hi & Ht & Hmax). repeat split; [lia|exact Ht|].
        intros j Hj. destruct (decide (j = n)) as [->|Hne].
        -- rewrite E. reflexivity.
        -- apply Hmax. lia.
      * intros (Hi & Ht & Hmax).
        assert (i <> n) by (intros ->; rewrite E in Ht; cbn in Ht; congruence).
        repeat split; [lia|exact Ht|]. intros j Hj. apply Hmax. lia.
Qed.

Lemma findLast_None {A} (test : A -> bool) (l : list A) (n : nat) :
  findLast test l n = None <->
  forall j, (j < n)%nat -> from_option test false (l !! j) = false.
Proof.
  induction n as [|n IH]; cbn [findLast].
  - split; [intros _ j Hj; lia | reflexivity].
  - destruct (l !! n) as [a|] eqn:E; [destruct (test a) eqn:T|].
    + split; [discriminate|]. intros H. specialize (H n). rewrite E in H.
      cbn in H. rewrite H in T by lia. discriminate.
    + rewrite IH. split; intros H j Hj.
      * destruct (decide (j = n)) as [->|Hne]; [rewrite E; exact T | apply H; lia].
      * apply H. lia.
    + rewrite IH. split; intros H j Hj.
      * destruct (decide (j = n)) as [->|Hne]; [rewrite E; reflexivity | apply H; lia].
      * apply H. lia.
Qed.

(** The backward loop over a whole list returns the highest matching index. *)
Lemma findLast_all_Some {A} (test : A -> bool) (l : list A) (i : nat) :
  findLast test l (length l) = Some i <->
  from_option test false (l !! i) = true /\
  forall j, (i < j)%nat -> from_option test false (l !! j) = false.
Proof.
  rewrite findLast_Some. split.
  - intros (Hi & Ht & Hmax). split; [exact Ht|]. intros j Hj.
    destruct (decide (j < length l)%nat) as [Hlt|Hge]; [apply Hmax; lia|].
    rewrite lookup_ge_None_2 by lia. reflexivity.
  - intros (Ht & Hmax). repeat split; [|exact Ht|intros j Hj; apply Hmax; lia].
    destruct (l !! i) eqn:E; [|discriminate].
    eapply lookup_lt_Some; exact E.
Qed.

Lemma findLast_all_None {A} (test : A -> bool) (l : list A) :
  findLast test l (length l) = None <->
  forall j, from_option test false (l !! j) = false.
Proof.
  rewrite findLast_None. split; intros H j; [|intros _; apply H].
  destruct (decide (j < length l)%nat) as [Hlt|Hge]; [apply H; lia|].
  rewrite lookup_ge_None_2 by lia. reflexivity.
Qed.

Lemma pointInBounds_inside (x y : Q) (b : Bounds) :
  pointInBounds x y b = true <-> inside x y b.
Proof.
  unfold pointInBounds, inside.
  rewrite !andb_true_iff, !Qle_bool_iff. tauto.
Qed.

Lemma anySegment_exists (test : Point -> Point -> bool) (points : list Point) :
  anySegment test points = true <->
  exists j p1 p2, points !! j = Some p1 /\ points !! S j = Some p2 /\
                  test p1 p2 = true.
Proof.
  induction points as [|p1 rest IH]; cbn [anySegment].
  - split; [discriminate | intros (j & q1 & q2 & H & _); discriminate].
  - destruct rest as [|p2 rest'].
    + split; [discriminate|]. intros (j & q1 & q2 & H1 & H2 & _).
      destruct j; discriminate.
    + rewrite orb_true_iff, IH. split.
      * intros [H|(j & q1 & q2 & H1 & H2 & H3)].
        -- exists 0%nat, p1, p2. repeat split; [reflexivity..|exact H].
        -- exists (S j), q1, q2. repeat split; assumption.
      * intros (j & q1 & q2 & H1 & H2 & H3). destruct j as [|j].
        -- left. cbn in H1, H2. congruence.
        -- right. exists j, q1, q2. repeat split; assumption.
Qed.

Lemma clamp01_cases (t : Q) :
  (t <= 0 /\ clamp01 t == 0) \/ (0 <= t <= 1 /\ clamp01 t == t) \/
  (1 <= t /\ clamp01 t == 1).
Proof.
  unfold clamp01.
  destruct (Q.min_spec_le 1 t) as [[H1 E1]|[H1 E1]];
  destruct (Q.max_spec_le 0 (Qmin 1 t)) as [[H2 E2]|[H2 E2]];
    rewrite E1 in *; rewrite E2.
  - right. right. split; [lra|reflexivity].
  - lra.
  - right. left. split; [lra|reflexivity].
  - left. split; [lra|reflexivity].
Qed.

Lemma Qsq_nonneg (a : Q) : 0 <= a * a.
Proof.
  destruct (Qlt_le_dec a 0) as [H|H].
  - setoid_replace (a * a) with ((- a) * (- a)) using relation Qeq by ring.
    apply Qmult_le_0_compat; lra.
  - apply Qmult_le_0_compat; exact H.
Qed.

Lemma sumsq_zero (c d : Q) : c * c + d * d == 0 -> c == 0 /\ d == 0.
Proof.
  intros H. pose proof (Qsq_nonneg c) as Hc. pose proof (Qsq_nonneg d) as Hd.
  assert (Ec : c * c == 0) by lra. assert (Ed : d * d == 0) by lra.
  split.
  - destruct (Qmult_integral _ _ Ec); assumption.
  - destruct (Qmult_integral _ _ Ed); assumption.
Qed.

Lemma distanceToLineSq_attained (x y x1 y1 x2 y2 : Q) :
  exists t, 0 <= t <= 1 /\
    distanceToLineSq x y x1 y1 x2 y2 == sqDist x y (onSegment (mkPoint x1 y1) (mkPoint x2 y2) t).
Proof.
  unfold distanceToLineSq. cbv zeta.
  set (t := Qmax 0 (Qmin 1 _)). exists t. split.
  - subst t. split; [apply Q.le_max_l|].
    apply Q.max_lub; [lra|apply Q.le_min_l].
  - unfold sqDist, onSegment. cbn [p_x p_y]. ring.
Qed.

Lemma distanceToLineSq_least (x y x1 y1 x2 y2 t : Q) :
  0 <= t <= 1 ->
  distanceToLineSq x y x1 y1 x2 y2 <= sqDist x y (onSegment (mkPoint x1 y1) (mkPoint x2 y2) t).
Proof.
  intros Ht. unfold distanceToLineSq, sqDist, onSegment. cbv zeta. cbn [p_x p_y].
  set (A := x - x1). set (B := y - y1). set (C := x2 - x1). set (D := y2 - y1).
  set (dot := A * C + B * D). set (lenSq := C * C + D * D).
  fold (clamp01 (if Qeq_bool lenSq 0 then - (1) else dot / lenSq)).
  set (t0 := clamp01 _).
  assert (E : forall u, (x - (x1 + u * C)) * (x - (x1 + u * C)) +
                        (y - (y1 + u * D)) * (y - (y1 + u * D))
                        == A * A + B * B - 2 * u * dot + u * u * lenSq).
  { intros u. subst A B dot lenSq. ring. }
  rewrite !E.
  destruct (Qeq_bool lenSq 0) eqn:Hz.
  - apply Qeq_bool_iff in Hz. destruct (sumsq_zero C D Hz) as [HC HD].
    assert (Hd : dot == 0) by (subst dot; rewrite HC, HD; ring).
    rewrite Hz, Hd. lra.
  - assert (Hpos : 0 < lenSq).
    { assert (0 <= lenSq).
      { subst lenSq. pose proof (Qsq_nonneg C). pose proof (Qsq_nonneg D). lra. }
      assert (~ lenSq == 0) by (intros H'; apply Qeq_bool_iff in H'; congruence).
      lra. }
    assert (Hdot : dot == (dot / lenSq) * lenSq) by (field; lra).
    subst t0.
    destruct (clamp01_cases (dot / lenSq)) as [[H1 H2]|[[H1 H2]|[H1 H2]]];
      rewrite H2.
    + assert (Hd : dot <= 0).
      { assert (dot / lenSq * lenSq <= 0 * lenSq) by (apply Qmult_le_compat_r; lra).
        lra. }
      assert (0 <= t * t * lenSq) by (apply Qmult_le_0_compat; [apply Qsq_nonneg|lra]).
      assert (0 <= t * (- dot)) by (apply Qmult_le_0_compat; lra).
      lra.
    + set (ts := dot / lenSq) in *.
      pose proof (Qsq_nonneg (t - ts)).
      assert (0 <= lenSq * ((t - ts) * (t - ts))) by (apply Qmult_le_0_compat; lra).
      assert (Hk : (A * A + B * B - 2 * t * dot + t * t * lenSq)
                   - (A * A + B * B - 2 * ts * dot + ts * ts * lenSq)
                   == lenSq * ((t - ts) * (t - ts))).
      { rewrite Hdot. ring. }
      lra.
    + assert (Hd : lenSq <= dot).
      { assert (1 * lenSq <= dot / lenSq * lenSq) by (apply Qmult_le_compat_r; lra).
        lra. }
      assert (0 <= (1 - t) * (dot - lenSq)) by (apply Qmult_le_0_compat; lra).
      assert (0 <= (1 - t) * (1 - t) * lenSq)
        by (apply Qmult_le_0_compat; [apply Qsq_nonneg|lra]).
      assert (Hk : (A * A + B * B - 2 * t * dot + t * t * lenSq)
                   - (A * A + B * B - 2 * 1 * dot + 1 * 1 * lenSq)
                   == 2 * ((1 - t) * (dot - lenSq)) + (1 - t) * (1 - t) * lenSq) by ring.
      lra.
Qed.

(** The test of the source is the distance test to the segment. *)
Lemma nearLine_withinTolerance (x y x1 y1 x2 y2 : Q) :
  nearLine x y x1 y1 x2 y2 SELECTION.hitTolerance = true <->
  withinTolerance x y (mkPoint x1 y1) (mkPoint x2 y2).
Proof.
  unfold nearLine, withinTolerance. rewrite Qltb_lt.
  change (SELECTION.hitTolerance * SELECTION.hitTolerance) with (10 * 10).
  split.
  - intros H. destruct (distanceToLineSq_attained x y x1 y1 x2 y2) as (t & Ht & E).
    exists t. split; [exact Ht|]. rewrite <- E. exact H.
  - intros (t & Ht & H).
    pose proof (distanceToLineSq_least x y x1 y1 x2 y2 t Ht). lra.
Qed.

Lemma hitsAt_matches (s : State) (x y : Q) (ty : AnnType) (i : nat) :
  hitsAt s x y ty i = true <-> matches s x y ty i.
Proof.
  destruct ty; cbn [hitsAt matches].
  - destruct (strokes s !! i) as [st|]; cbn.
    + unfold hitStroke. rewrite anySegment_exists. split.
      * intros (j & p1 & p2 & H1 & H2 & H3). exists st. split; [reflexivity|].
        exists j, p1, p2. split; [exact H1|]. split; [exact H2|].
        apply nearLine_withinTolerance in H3. destruct p1, p2. exact H3.
      * intros (st' & [= <-] & j & p1 & p2 & H1 & H2 & H3).
        exists j, p1, p2. split; [exact H1|]. split; [exact H2|].
        apply nearLine_withinTolerance. destruct p1, p2. exact H3.
    + split; [discriminate | intros (? & H & _); discriminate].
  - destruct (arrows s !! i) as [a|]; cbn.
    + unfold hitArrow. rewrite nearLine_withinTolerance. split.
      * intros H. exists a. split; [reflexivity | exact H].
      * intros (a' & [= <-] & H). exact H.
    + split; [discriminate | intros (? & H & _); discriminate].
  - destruct (rectangles s !! i) as [r|]; cbn.
    + unfold hitRectangle. rewrite pointInBounds_inside. split.
      * intros H. exists r. split; [reflexivity | exact H].
      * intros (r' & [= <-] & H). exact H.
    + split; [discriminate | intros (? & H & _); discriminate].
  - destruct (ellipses s !! i) as [e|]; cbn.
    + unfold hitEllipse. rewrite pointInBounds_inside. split.
      * intros H. exists e. split; [reflexivity | exact H].
      * intros (e' & [= <-] & H). exact H.
    + split; [discriminate | intros (? & H & _); discriminate].
  - destruct (texts s !! i) as [t|]; cbn.
    + unfold hitText. rewrite pointInBounds_inside. split.
      * intros H. exists t. split; [reflexivity | exact H].
      * intros (t' & [= <-] & H). exact H.
    + split; [discriminate | intros (? & H & _); discriminate].
  - destruct (blurs s !! i) as [b|]; cbn.
    + unfold hitBlur. rewrite pointInBounds_inside. split.
      * intros H. exists b. split; [reflexivity | exact H].
      * intros (b' & [= <-] & H). exact H.
    + split; [discriminate | intros (? & H & _); discriminate].
Qed.

Lemma findAnnotationAtPoint_sound (s : State) (x y : Q) :
  match findAnnotationAtPoint s x y with
  | Some hit => firstMatch s x y (hit_type hit) (hit_index hit)
  | None => forall ty j, hitsAt s x y ty j = false
  end.
Proof.
  unfold findAnnotationAtPoint, firstMatch.
  destruct (findLast (hitText s x y) _ _) as [i|] eqn:E1;
    [apply findLast_all_Some in E1 as [H1 H2]; cbn [hit_type hit_index];
     repeat split; [exact H1|exact H2|];
     intros [] j Hp; cbn in Hp; try lia
    |rewrite findLast_all_None in E1].
  destruct (findLast (hitEllipse x y) _ _) as [i|] eqn:E2;
    [apply findLast_all_Some in E2 as [H1 H2]; cbn [hit_type hit_index];
     repeat split; [exact H1|exact H2|];
     intros [] j Hp; cbn in Hp; try lia; cbn [hitsAt]; auto
    |rewrite findLast_all_None in E2].
  destruct (findLast (hitRectangle x y) _ _) as [i|] eqn:E3;
    [apply findLast_all_Some in E3 as [H1 H2]; cbn [hit_type hit_index];
     repeat split; [exact H1|exact H2|];
     intros [] j Hp; cbn in Hp; try lia; cbn [hitsAt]; auto
    |rewrite findLast_all_None in E3].
  destruct (findLast (hitArrow x y) _ _) as [i|] eqn:E4;
    [apply findLast_all_Some in E4 as [H1 H2]; cbn [hit_type hit_index];
     repeat split; [exact H1|exact H2|];
     intros [] j Hp; cbn in Hp; try lia; cbn [hitsAt]; auto
    |rewrite findLast_all_None in E4].
  destruct (findLast (hitStroke (heap s) x y) _ _) as [i|] eqn:E5;
    [apply findLast_all_Some in E5 as [H1 H2]; cbn [hit_type hit_index];
     repeat split; [exact H1|exact H2|];
     intros [] j Hp; cbn in Hp; try lia; cbn [hitsAt]; auto
    |rewrite findLast_all_None in E5].
  destruct (findLast (hitBlur x y) _ _) as [i|] eqn:E6;
    [apply findLast_all_Some in E6 as [H1 H2]; cbn [hit_type hit_index];
     repeat split; [exact H1|exact H2|];
     intros [] j Hp; cbn in Hp; try lia; cbn [hitsAt]; auto
    |rewrite findLast_all_None in E6].
  intros [] j; cbn [hitsAt]; auto.
Qed.

Lemma priority_inj (ty ty' : AnnType) : priority ty = priority ty' -> ty = ty'.
Proof. destruct ty, ty'; cbn; intros H; try reflexivity; discriminate. Qed.

Lemma firstMatch_unique (s : State) (x y : Q) (ty ty' : AnnType) (i i' : nat) :
  firstMatch s x y ty i -> firstMatch s x y ty' i' -> ty = ty' /\ i = i'.
Proof.
  intros (A1 & A2 & A3) (B1 & B2 & B3).
  assert (Hty : ty = ty').
  { apply priority_inj.
    destruct (Nat.lt_trichotomy (priority ty) (priority ty')) as [H|[H|H]].
    - rewrite (B3 ty i H) in A1. discriminate.
    - exact H.
    - rewrite (A3 ty' i' H) in B1. discriminate. }
  subst ty'. split; [reflexivity|].
  destruct (Nat.lt_trichotomy i i') as [H|[H|H]].
  - rewrite (A2 i' H) in B1. discriminate.
  - exact H.
  - rewrite (B2 i H) in A1. discriminate.
Qed.

Lemma findAnnotationAtPoint_firstMatch (s : State) (x y : Q) (ty : AnnType) (i : nat) :
  findAnnotationAtPoint s x y = Some (mkHit ty i) <-> firstMatch s x y ty i.
Proof.
  pose proof (findAnnotationAtPoint_sound s x y) as H.
  destruct (findAnnotationAtPoint s x y) as [[ty' i']|]; cbn in H.
  - split.
    + intros [= -> ->]. exact H.
    + intros H'. destruct (firstMatch_unique _ _ _ _ _ _ _ H H') as [-> ->].
      reflexivity.
  - split; [discriminate|]. intros (H' & _). rewrite H in H'. discriminate.
Qed.

Lemma not_matches_hitsAt (s : State) (x y : Q) (ty : AnnType) (i : nat) :
  ~ matches s x y ty i <-> hitsAt s x y ty i = false.
Proof.
  rewrite <- hitsAt_matches. destruct (hitsAt s x y ty i); split; intros H;
    congruence.
Qed.

(** C7.  [findAnnotationAtPoint] returns the first match in the order
    text, ellipse, rectangle (box containment), arrow, stroke (some point
    of the line, or of some segment, nearer than the tolerance of 10),
    pixelation region; within a
    type it returns the match of highest index; it returns nothing exactly
    when nothing matches; and a point within tolerance of an arrow and
    outside the box of every text, ellipse and rectangle returns an arrow:
    that one, unless a later arrow is within tolerance too. *)
Theorem findAnnotationAtPoint_priority (s : State) (x y : Q) :
  (forall ty i,
     findAnnotationAtPoint s x y = Some (mkHit ty i) <->
     matches s x y ty i /\
     (forall j, (i < j)%nat -> ~ matches s x y ty j) /\
     (forall ty' j, (priority ty' < priority ty)%nat -> ~ matches s x y ty' j)) /\
  (findAnnotationAtPoint s x y = None <-> forall ty i, ~ matches s x y ty i) /\
  (forall i,
     matches s x y TArrow i ->
     (forall j, ~ matches s x y TText j) ->
     (forall j, ~ matches s x y TEllipse j) ->
     (forall j, ~ matches s x y TRectangle j) ->
     exists k, findAnnotationAtPoint s x y = Some (mkHit TArrow k) /\
               (i <= k)%nat /\ matches s x y TArrow k /\
               ((forall j, (i < j)%nat -> ~ matches s x y TArrow j) -> k = i)).
Proof.
  assert (Hiff : forall ty i,
     findAnnotationAtPoint s x y = Some (mkHit ty i) <->
     matches s x y ty i /\
     (forall j, (i < j)%nat -> ~ matches s x y ty j) /\
     (forall ty' j, (priority ty' < priority ty)%nat -> ~ matches s x y ty' j)).
  { intros ty i. rewrite findAnnotationAtPoint_firstMatch. unfold firstMatch.
    rewrite hitsAt_matches.
    split; intros (H1 & H2 & H3); (split; [exact H1|split]).
    - intros j Hj. apply not_matches_hitsAt, H2, Hj.
    - intros ty' j Hp. apply not_matches_hitsAt, H3, Hp.
    - intros j Hj. apply not_matches_hitsAt, H2, Hj.
    - intros ty' j Hp. apply not_matches_hitsAt, H3, Hp. }
  split; [exact Hiff|]. split.
  - pose proof (findAnnotationAtPoint_sound s x y) as H.
    destruct (findAnnotationAtPoint s x y) as [[ty' i']|]; cbn in H.
    + split; [discriminate|]. intros Hno. destruct H as (H & _).
      apply hitsAt_matches in H. exfalso. exact (Hno _ _ H).
    + split; [|reflexivity]. intros _ ty i. apply not_matches_hitsAt, H.
  - intros i Hi Ht He Hr.
    pose proof (findAnnotationAtPoint_sound s x y) as H.
    destruct (findAnnotationAtPoint s x y) as [[ty k]|] eqn:E; cbn in H.
    + destruct H as (H1 & H2 & H3).
      assert (Hty : ty = TArrow).
      { destruct ty; try reflexivity.
        - apply hitsAt_matches in Hi. rewrite (H3 TArrow i) in Hi by (cbn; lia).
          discriminate.
        - apply hitsAt_matches in H1. exfalso. exact (Hr _ H1).
        - apply hitsAt_matches in H1. exfalso. exact (He _ H1).
        - apply hitsAt_matches in H1. exfalso. exact (Ht _ H1).
        - apply hitsAt_matches in Hi. rewrite (H3 TArrow i) in Hi by (cbn; lia).
          discriminate. }
      subst ty. exists k. split; [reflexivity|].
      assert (Hik : (i <= k)%nat).
      { destruct (le_lt_dec i k) as [Hle|Hlt]; [exact Hle|].
        apply hitsAt_matches in Hi. rewrite (H2 i Hlt) in Hi. discriminate. }
      split; [exact Hik|]. split; [apply hitsAt_matches; exact H1|].
      intros Hmax. destruct (decide (k = i)) as [->|Hne]; [reflexivity|].
      exfalso. apply (Hmax k); [lia|]. apply hitsAt_matches. exact H1.
    + apply hitsAt_matches in Hi. rewrite H in Hi. discriminate.
Qed.

Lemma findAnnotationAtPoint_priority_witness :
  matches crossing 50 52 TArrow 0 /\
  findAnnotationAtPoint crossing 50 52 = Some (mkHit TArrow 1) /\
  findAnnotationAtPoint crossing 20 22 = Some (mkHit TArrow 0) /\
  findAnnotationAtPoint crossing 210 10 = Some (mkHit TRectangle 0) /\
  findAnnotationAtPoint crossing 350 305 = Some (mkHit TStroke 0) /\
  findAnnotationAtPoint crossing 500 500 = None.
Proof.
  assert (H0 : matches crossing 50 52 TArrow 0).
  { apply hitsAt_matches. vm_compute. reflexivity. }
  split; [exact H0|].
  split.
  - destruct (findAnnotationAtPoint_priority crossing 50 52) as (_ & _ & H).
    destruct (H 0%nat H0) as (k & Hk & _).
    + intros j Hj. apply hitsAt_matches in Hj. destruct j; vm_compute in Hj; discriminate.
    + intros j Hj. apply hitsAt_matches in Hj. destruct j; vm_compute in Hj; discriminate.
    + intros j Hj. apply hitsAt_matches in Hj.
      destruct j as [|j]; [|destruct j]; vm_compute in Hj; discriminate.
    + vm_compute. reflexivity.
  - repeat split; vm_compute; reflexivity.
Defined.

(** ** Single-point strokes *)

Lemma points_length (h : Heap) (st : Stroke) :
  (length (StrokeM.points h st) <= length (stroke_points st))%nat.
Proof.
  unfold StrokeM.points. induction (stroke_points st) as [|l ls IH]; cbn; [lia|].
  destruct (h !! l); cbn; lia.
Qed.

(** A stroke the hit test returns has a segment, hence two points. *)
Lemma hit_stroke_two_points (s : State) (x y : Q) (i : nat) :
  findAnnotationAtPoint s x y = Some (mkHit TStroke i) ->
  exists st, strokes s !! i = Some st /\ (2 <= length (stroke_points st))%nat.
Proof.
  intros H. apply findAnnotationAtPoint_firstMatch in H as (H & _).
  apply hitsAt_matches in H as (st & Hst & j & p1 & p2 & _ & H2 & _).
  exists st. split; [exact Hst|].
  apply lookup_lt_Some in H2.
  pose proof (points_length (heap s) st). lia.
Qed.

Lemma saveToHistory_selection (s : State) :
  selectedType (saveToHistory s) = selectedType s /\
  selectedIndex (saveToHistory s) = selectedIndex s /\
  strokes (saveToHistory s) = strokes s.
Proof. unfold saveToHistory. repeat case_match; repeat split; reflexivity. Qed.

Lemma dotFree_same (s s' : State) :
  selectedType s' = selectedType s /\ selectedIndex s' = selectedIndex s /\
  strokes s' = strokes s -> dotFree s -> dotFree s'.
Proof. unfold dotFree. intros (-> & -> & ->). auto. Qed.

Lemma dotFree_push (s s' : State) (st : Stroke) :
  selectedType s' = selectedType s /\ selectedIndex s' = selectedIndex s /\
  strokes s' = strokes s ++ [st] -> dotFree s -> dotFree s'.
Proof.
  unfold dotFree. intros (-> & -> & ->) H i Ht Hi.
  destruct (H i Ht Hi) as (st' & Hl & Hn). exists st'. split; [|exact Hn].
  rewrite lookup_app_l; [exact Hl|]. eapply lookup_lt_Some; exact Hl.
Qed.

Lemma dotFree_unselected (s : State) : selectedType s = None -> dotFree s.
Proof. unfold dotFree. intros -> i H. discriminate. Qed.

Lemma confirmTextInput_selection (s : State) :
  selectedType (confirmTextInput s) = selectedType s /\
  selectedIndex (confirmTextInput s) = selectedIndex s /\
  strokes (confirmTextInput s) = strokes s.
Proof.
  unfold confirmTextInput.
  destruct (pendingText s); [destruct (nonEmpty _)|]; try (repeat split; reflexivity).
  destruct (saveToHistory_selection
              (setTexts (texts s ++ [TextM.new (pending_x p) (pending_y p)
                 (trim (textInputValue s)) (pending_fontSize p) (pending_color p)]) s))
    as (A & B & C).
  repeat split; cbn; [rewrite A|rewrite B|rewrite C]; reflexivity.
Qed.

Lemma handleSelectMouseDown_dotFree (c : Coords) (s : State) :
  dotFree s -> dotFree (handleSelectMouseDown c s).
Proof.
  intros H. unfold handleSelectMouseDown.
  match goal with |- dotFree (match ?h with _ => _ end) => destruct h as [[handle bounds]|] end.
  - eapply dotFree_same; [|exact H].
    destruct (saveToHistory_selection (startDrag handle c (Some bounds) s)) as (A & B & C).
    rewrite A, B, C. repeat split; reflexivity.
  - destruct (findAnnotationAtPoint s (c_x c) (c_y c)) as [[ty i]|] eqn:E.
    + cbn [hit_type hit_index].
      match goal with |- dotFree (saveToHistory ?t) =>
        destruct (saveToHistory_selection t) as (A & B & C) end.
      unfold dotFree. rewrite A, B, C. cbn. intros j [= ->] [= <-].
      apply (hit_stroke_two_points s _ _ _ E).
    + apply dotFree_unselected. reflexivity.
Qed.

Lemma storeAnnotation_selected (s : State) (h : Heap) (i : nat) (a a' : Annotation) :
  selectedAnnotation s = Some a -> selectedIndex s = Some i ->
  typeOf a' = typeOf a -> (forall st, a = AStroke st -> a' = a) ->
  selectedType (storeAnnotation i a' (setHeap h s)) = selectedType s /\
  selectedIndex (storeAnnotation i a' (setHeap h s)) = selectedIndex s /\
  strokes (storeAnnotation i a' (setHeap h s)) = strokes s.
Proof.
  intros Hsel Hi Hty Hst.
  destruct a' as [st'| | | | |]; cbn; repeat split; try reflexivity.
  destruct a as [st| | | | |]; try discriminate.
  specialize (Hst st eq_refl). injection Hst as ->.
  unfold selectedAnnotation in Hsel. rewrite Hi in Hsel.
  destruct (selectedType s) as [[]|]; try discriminate; cbn in Hsel;
    try (destruct (_ !! i); discriminate).
  destruct (strokes s !! i) eqn:E; [|discriminate]. injection Hsel as ->.
  apply list_insert_id. exact E.
Qed.

Lemma moveAnnotation_type (h : Heap) (a : Annotation) (dx dy : Q) :
  typeOf (snd (moveAnnotation h a dx dy)) = typeOf a /\
  forall st, a = AStroke st -> snd (moveAnnotation h a dx dy) = a.
Proof. destruct a; split; try reflexivity; intros; discriminate. Qed.

Lemma applyBoundsToAnnotation_type (h : Heap) (a : Annotation) (nb ob : Bounds) :
  typeOf (snd (applyBoundsToAnnotation h a nb ob)) = typeOf a /\
  forall st, a = AStroke st -> snd (applyBoundsToAnnotation h a nb ob) = a.
Proof. destruct a; split; try reflexivity; intros; discriminate. Qed.

Lemma handleSelectMouseMove_dotFree (c : Coords) (s : State) :
  dotFree s -> dotFree (handleSelectMouseMove c s).
Proof.
  intros H. unfold handleSelectMouseMove.
  destruct (selectedAnnotation s) as [sel|] eqn:Hsel; [|exact H].
  destruct (selectedIndex s) as [i|] eqn:Hi; [|exact H].
  destruct (dragMode s) as [mode|]; [|exact H].
  assert (Hmove : dotFree
    (let '(h, a) := moveAnnotation (heap s) sel (c_x c - dragStartX s)
                                   (c_y c - dragStartY s) in
     setDragStartY (c_y c) (setDragStartX (c_x c) (storeAnnotation i a (setHeap h s))))).
  { destruct (moveAnnotation_type (heap s) sel (c_x c - dragStartX s)
                                  (c_y c - dragStartY s)) as [T1 T2].
    destruct (moveAnnotation _ _ _ _) as [h a]. cbn [snd] in T1, T2.
    destruct (storeAnnotation_selected s h i sel a Hsel Hi T1 T2) as (A & B & C).
    eapply dotFree_same; [|exact H]. cbn. rewrite A, B, C, Hi. repeat split. }
  assert (Hresize : forall m, dotFree
    match originalBounds s with
    | Some original =>
        let '(h, a) := resizeAnnotation (heap s) sel m (c_x c - dragStartX s)
                                        (c_y c - dragStartY s) original in
        storeAnnotation i a (setHeap h s)
    | None => s
    end).
  { intros m. destruct (originalBounds s) as [ob|]; [|exact H].
    unfold resizeAnnotation.
    destruct (applyBoundsToAnnotation_type (heap s) sel
                (resizedBounds m (c_x c - dragStartX s) (c_y c - dragStartY s) ob) ob)
      as [T1 T2].
    destruct (applyBoundsToAnnotation _ _ _ _) as [h a]. cbn [snd] in T1, T2.
    destruct (storeAnnotation_selected s h i sel a Hsel Hi T1 T2) as (A & B & C).
    eapply dotFree_same; [|exact H]. rewrite A, B, C, Hi. repeat split. }
  destruct mode; [exact Hmove | apply Hresize..].
Qed.

Lemma handleMouseDown_dotFree (c : Coords) (s : State) :
  dotFree s -> dotFree (handleMouseDown c s).
Proof.
  intros H. unfold handleMouseDown.
  destruct (isEditingText s).
  - eapply dotFree_same; [apply confirmTextInput_selection | exact H].
  - destruct (currentTool s).
    + apply handleSelectMouseDown_dotFree, H.
    + eapply dotFree_same; [|exact H]. cbn. repeat split.
    + eapply dotFree_same; [|exact H]. repeat split.
    + eapply dotFree_same; [|exact H]. repeat split.
    + eapply dotFree_same; [|exact H]. repeat split.
    + eapply dotFree_same; [|exact H]. repeat split.
    + eapply dotFree_same; [|exact H]. repeat split.
Qed.

Lemma handleMouseMove_dotFree (c : Coords) (s : State) :
  dotFree s -> dotFree (handleMouseMove c s).
Proof.
  intros H. unfold handleMouseMove.
  destruct (_ && _); [apply handleSelectMouseMove_dotFree, H|].
  destruct (negb (isDrawing s)); [exact H|].
  eapply dotFree_same; [|exact H].
  destruct (currentTool s); try (unfold scheduleShapeRedraw; cbn;
    destruct (rafId s); repeat split; reflexivity).
  destruct (currentStroke s); [repeat split; reflexivity|].
  unfold scheduleShapeRedraw; cbn; destruct (rafId s); repeat split; reflexivity.
Qed.
Lemma handleMouseUp_dotFree (s : State) : dotFree s -> dotFree (handleMouseUp s).
Proof.
  intros H. unfold handleMouseUp.
  set (s0 := setIsDrawing false
               (if rafId s then setPendingCoords None (setRafId false s) else s)).
  assert (H0 : dotFree s0).
  { eapply dotFree_same; [|exact H]. subst s0. destruct (rafId s); repeat split. }
  assert (Hsame : dotFree
    match currentTool s0, currentStroke s0, currentArrow s0, currentRectangle s0,
          currentEllipse s0, currentBlur s0 with
    | PEN, Some stroke, _, _, _, _ =>
        setCurrentStroke None
          (if (0 <? length (stroke_points stroke))%nat
           then saveToHistory (setStrokes (strokes s0 ++ [stroke]) s0) else s0)
    | ARROW, _, Some arrow, _, _, _ =>
        setCurrentArrow None
          (if Qltb (CANVAS.minArrowLength * CANVAS.minArrowLength) (arrowLengthSq arrow)
           then saveToHistory (setArrows (arrows s0 ++ [arrow]) s0) else s0)
    | RECTANGLE, _, _, Some rect, _, _ =>
        setCurrentRectangle None
          (if Qltb CANVAS.minShapeSize (Qabs (rect_width rect) + Qabs (rect_height rect))
           then saveToHistory (setRectangles (rectangles s0 ++ [rect]) s0) else s0)
    | CIRCLE, _, _, _, Some ellipse, _ =>
        setCurrentEllipse None
          (if Qltb CANVAS.minArrowLength (ell_radiusX ellipse + ell_radiusY ellipse)
           then saveToHistory (setEllipses (ellipses s0 ++ [ellipse]) s0) else s0)
    | BLUR, _, _, _, _, Some blur =>
        setCurrentBlur None
          (if Qltb CANVAS.minShapeSize (Qabs (blur_width blur) + Qabs (blur_height blur))
           then saveToHistory (setBlurs (blurs s0 ++ [blur]) s0) else s0)
    | _, _, _, _, _, _ => s0
    end).
  { clearbody s0.
    destruct (currentTool s0); try exact H0.
    - destruct (currentStroke s0) as [st|]; [|exact H0].
      destruct (0 <? length (stroke_points st))%nat;
        [|eapply dotFree_same; [|exact H0]; repeat split].
      eapply (dotFree_push s0 _ st); [|exact H0].
      destruct (saveToHistory_selection (setStrokes (strokes s0 ++ [st]) s0))
        as (A & B & C).
      cbn. rewrite A, B, C. repeat split.
    - destruct (currentRectangle s0) as [r|]; [|exact H0].
      eapply dotFree_same; [|exact H0].
      destruct (Qltb _ _); [|repeat split].
      destruct (saveToHistory_selection (setRectangles (rectangles s0 ++ [r]) s0))
        as (A & B & C).
      cbn. rewrite A, B, C. repeat split.
    - destruct (currentEllipse s0) as [e|]; [|exact H0].
      eapply dotFree_same; [|exact H0].
      destruct (Qltb _ _); [|repeat split].
      destruct (saveToHistory_selection (setEllipses (ellipses s0 ++ [e]) s0))
        as (A & B & C).
      cbn. rewrite A, B, C. repeat split.
    - destruct (currentArrow s0) as [a|]; [|exact H0].
      eapply dotFree_same; [|exact H0].
      destruct (Qltb _ _); [|repeat split].
      destruct (saveToHistory_selection (setArrows (arrows s0 ++ [a]) s0))
        as (A & B & C).
      cbn. rewrite A, B, C. repeat split.
    - destruct (currentBlur s0) as [b|]; [|exact H0].
      eapply dotFree_same; [|exact H0].
      destruct (Qltb _ _); [|repeat split].
      destruct (saveToHistory_selection (setBlurs (blurs s0 ++ [b]) s0))
        as (A & B & C).
      cbn. rewrite A, B, C. repeat split. }
  destruct (currentTool s) eqn:Ht;
    [eapply dotFree_same; [|exact H]; repeat split | ..];
    (destruct (negb (isDrawing s)); [exact H | exact Hsame]).
Qed.

Lemma shapeRedraw_selection (s : State) :
  selectedType (shapeRedraw s) = selectedType s /\
  selectedIndex (shapeRedraw s) = selectedIndex s /\
  strokes (shapeRedraw s) = strokes s.
Proof.
  unfold shapeRedraw. repeat case_match; repeat split; reflexivity.
Qed.

Lemma restoreFromHistory_dotFree (s s' : State) :
  restoreFromHistory s = Some s' -> dotFree s'.
Proof.
  unfold restoreFromHistory. intros H.
  destruct (index _ _); [|discriminate]. injection H as <-.
  apply dotFree_unselected. reflexivity.
Qed.

Lemma undo_dotFree (s s' : State) : dotFree s -> undo s = Some s' -> dotFree s'.
Proof.
  unfold undo. intros H. destruct (0 <? historyIndex s)%Z.
  - apply restoreFromHistory_dotFree.
  - intros [= <-]. exact H.
Qed.

Lemma redo_dotFree (s s' : State) : dotFree s -> redo s = Some s' -> dotFree s'.
Proof.
  unfold redo. intros H. destruct (_ <? _)%Z.
  - apply restoreFromHistory_dotFree.
  - intros [= <-]. exact H.
Qed.

Lemma toolbarClick_dotFree (btn : ToolButton) (s s' : State) :
  dotFree s -> toolbarClick btn s = Some s' -> dotFree s'.
Proof.
  intros H. destruct btn as [| |tool]; cbn [toolbarClick].
  - apply undo_dotFree, H.
  - apply redo_dotFree, H.
  - intros [= <-].
    destruct (isEditingText s);
      (destruct (_ && _);
       [apply dotFree_unselected; reflexivity
       |eapply dotFree_same; [|exact H]; repeat split]).
Qed.

Lemma dispatch_dotFree (e : Event) (s s' : State) :
  dotFree s -> dispatch e s = Some s' -> dotFree s'.
Proof.
  intros H. destruct e; cbn [dispatch];
    try (intros [= <-];
         first [ apply handleMouseDown_dotFree, H
               | apply handleMouseMove_dotFree, H
               | apply handleMouseUp_dotFree, H ]).
  - intros [= <-]. destruct (rafId s); [|exact H].
    eapply dotFree_same; [apply shapeRedraw_selection | exact H].
  - apply toolbarClick_dotFree, H.
  - destruct (isEditingText s); [intros [= <-]; exact H | apply undo_dotFree, H].
  - destruct (isEditingText s); [intros [= <-]; exact H | apply redo_dotFree, H].
  - destruct (isEditingText s); [intros [= <-]; exact H|].
    apply toolbarClick_dotFree, H.
  - intros [= <-]. destruct (isEditingText s); [|exact H].
    eapply dotFree_same; [|exact H]. repeat split.
  - intros [= <-]. eapply dotFree_same; [apply confirmTextInput_selection | exact H].
  - intros [= <-]. eapply dotFree_same; [|exact H]. repeat split.
  - intros [= <-]. destruct (isEditingText s); [|exact H].
    eapply dotFree_same; [apply confirmTextInput_selection | exact H].
Qed.

Lemma run_dotFree (events : list Event) (s s' : State) :
  dotFree s -> run events s = Some s' -> dotFree s'.
Proof.
  revert s. induction events as [|e rest IH]; intros s H; cbn [run].
  - intros [= <-]. exact H.
  - destruct (dispatch e s) as [s1|] eqn:E; [|discriminate].
    apply IH. exact (dispatch_dotFree e s s1 H E).
Qed.

Lemma dot_points (h : list Point) (l : nat) (p : Point) (col : string) (lw : Q) :
  h !! l = Some p -> StrokeM.points h (mkStroke [l] col lw) = [p].
Proof.
  intros E. unfold StrokeM.points. cbn [stroke_points omap list_omap].
  rewrite E. reflexivity.
Qed.

Lemma drawStroke_dot (h : list Point) (l : nat) (p : Point) (col : string) (lw : Q) :
  h !! l = Some p ->
  drawStroke h (Some (mkStroke [l] col lw)) = [FillCircle (p_x p) (p_y p) (lw / 2) col].
Proof.
  intros E. unfold drawStroke. cbn [stroke_points length Nat.ltb Nat.leb Nat.eqb].
  rewrite (dot_points h l p col lw E). reflexivity.
Qed.

Lemma handleMouseUp_heap (s : State) : heap (handleMouseUp s) = heap s.
Proof.
  unfold handleMouseUp.
  set (s0 := setIsDrawing false
               (if rafId s then setPendingCoords None (setRafId false s) else s)).
  assert (H0 : heap s0 = heap s) by (subst s0; destruct (rafId s); reflexivity).
  destruct (currentTool s); [reflexivity|..];
    (destruct (negb (isDrawing s)); [reflexivity|]);
    rewrite <- H0; clearbody s0; clear H0;
    repeat case_match; try reflexivity;
    (match goal with |- context [saveToHistory ?t] =>
       exact (saveToHistory_heap t) end).
Qed.

(** A click with the pen commits a stroke of one point, drawn as a dot. *)
Lemma pen_click_commits_dot (c : Coords) (s : State) :
  currentTool s = PEN -> isEditingText s = false ->
  let s' := handleMouseUp (handleMouseDown c s) in
  let st := mkStroke [length (heap s)] (color s) (lineWidth s) in
  strokes s' = strokes s ++ [st] /\
  StrokeM.points (heap s') st = [mkPoint (c_x c) (c_y c)] /\
  drawStroke (heap s') (Some st) =
    [FillCircle (c_x c) (c_y c) (lineWidth s / 2) (color s)].
Proof.
  intros Ht He. cbn zeta.
  set (st := mkStroke [length (heap s)] (color s) (lineWidth s)).
  set (t := setCurrentStroke (Some st)
              (setHeap (heap s ++ [mkPoint (c_x c) (c_y c)]) (setIsDrawing true s))).
  assert (Hdown : handleMouseDown c s = t).
  { unfold handleMouseDown. rewrite He, Ht. reflexivity. }
  assert (E : (heap s ++ [mkPoint (c_x c) (c_y c)]) !! length (heap s)
              = Some (mkPoint (c_x c) (c_y c))).
  { rewrite lookup_app_r by lia. rewrite Nat.sub_diag. reflexivity. }
  rewrite Hdown, handleMouseUp_heap.
  destruct (handleMouseUp_release t (AStroke st)) as [(_ & Hc & _)|(Hn & _)].
  - reflexivity.
  - unfold inProgress. change (currentTool t) with (currentTool s). rewrite Ht.
    reflexivity.
  - split.
    + unfold scene in Hc. injection Hc as Hs _ _ _ _ _. exact Hs.
    + split; [apply dot_points, E | apply (drawStroke_dot _ _ _ _ _ E)].
  - exfalso. apply Hn. cbn. lia.
Qed.
Lemma forEachPoint_other (f : Point -> Point) (points : list nat) (h : list Point)
    (l : nat) :
  l ∉ points -> forEachPoint f points h !! l = h !! l.
Proof.
  unfold forEachPoint. revert h.
  induction points as [|l' ls IH]; intros h Hl; [reflexivity|].
  cbn [foldl]. rewrite IH.
  - apply list_lookup_alter_ne. intros ->. apply Hl. left.
  - intros Hin. apply Hl. right. exact Hin.
Qed.

(** A pointer move of the select tool leaves the stroke list as it is and
    changes the store at points of the selected stroke only. *)
Lemma handleSelectMouseMove_store (c : Coords) (s : State) (l : nat) :
  heap (handleSelectMouseMove c s) !! l <> heap s !! l ->
  exists i st, selectedType s = Some TStroke /\ selectedIndex s = Some i /\
               strokes s !! i = Some st /\ l ∈ stroke_points st.
Proof.
  unfold handleSelectMouseMove.
  destruct (selectedAnnotation s) as [sel|] eqn:Hsel; [|congruence].
  destruct (selectedIndex s) as [i|] eqn:Hi; [|congruence].
  assert (Hst : forall st, sel = AStroke st ->
            selectedType s = Some TStroke /\ strokes s !! i = Some st).
  { intros st ->. unfold selectedAnnotation in Hsel. rewrite Hi in Hsel.
    destruct (selectedType s) as [[]|]; try discriminate; cbn in Hsel;
      try (destruct (_ !! i); discriminate).
    destruct (strokes s !! i); [|discriminate]. injection Hsel as ->. auto. }
  destruct (dragMode s) as [mode|]; [|congruence].
  assert (Hmove : heap
    (let '(h, a) := moveAnnotation (heap s) sel (c_x c - dragStartX s)
                                   (c_y c - dragStartY s) in
     setDragStartY (c_y c) (setDragStartX (c_x c) (storeAnnotation i a (setHeap h s))))
    !! l <> heap s !! l ->
    exists i' st, selectedType s = Some TStroke /\ Some i = Some i' /\
                  strokes s !! i' = Some st /\ l ∈ stroke_points st).
  { destruct sel as [st| | | | |]; cbn; try congruence.
    intros H. destruct (Hst st eq_refl) as [A B].
    exists i, st. repeat split; try assumption.
    destruct (decide (l ∈ stroke_points st)) as [Hin|Hout]; [exact Hin|].
    exfalso. apply H. apply forEachPoint_other, Hout. }
  assert (Hresize : forall m, heap
    match originalBounds s with
    | Some original =>
        let '(h, a) := resizeAnnotation (heap s) sel m (c_x c - dragStartX s)
                                        (c_y c - dragStartY s) original in
        storeAnnotation i a (setHeap h s)
    | None => s
    end !! l <> heap s !! l ->
    exists i' st, selectedType s = Some TStroke /\ Some i = Some i' /\
                  strokes s !! i' = Some st /\ l ∈ stroke_points st).
  { intros m. destruct (originalBounds s) as [ob|]; [|congruence].
    destruct sel as [st| | | | |]; cbn; try congruence.
    intros H. destruct (Hst st eq_refl) as [A B].
    exists i, st. repeat split; try assumption.
    destruct (decide (l ∈ stroke_points st)) as [Hin|Hout]; [exact Hin|].
    exfalso. apply H. apply forEachPoint_other, Hout. }
  destruct mode; [exact Hmove | apply Hresize..].
Qed.

(** C9.  The hit test never returns a stroke with fewer than two points;
    yet a click with the pen commits a stroke of one point, which is drawn
    as a dot of radius [lineWidth / 2]; in every state reached from one
    without selection such a stroke is not the selection, so the select
    tool, which moves and resizes through the selection only, never
    changes it. *)
Theorem dot_stroke_unselectable :
  (forall s x y i st,
     strokes s !! i = Some st -> (length (stroke_points st) < 2)%nat ->
     findAnnotationAtPoint s x y <> Some (mkHit TStroke i)) /\
  (forall c s,
     currentTool s = PEN -> isEditingText s = false ->
     let s' := handleMouseUp (handleMouseDown c s) in
     let st := mkStroke [length (heap s)] (color s) (lineWidth s) in
     strokes s' = strokes s ++ [st] /\
     StrokeM.points (heap s') st = [mkPoint (c_x c) (c_y c)] /\
     drawStroke (heap s') (Some st) =
       [FillCircle (c_x c) (c_y c) (lineWidth s / 2) (color s)]) /\
  (forall events s0 s,
     selectedType s0 = None -> run events s0 = Some s ->
     forall i st,
       strokes s !! i = Some st -> (length (stroke_points st) < 2)%nat ->
       ~ (selectedType s = Some TStroke /\ selectedIndex s = Some i)) /\
  (forall c s l,
     heap (handleSelectMouseMove c s) !! l <> heap s !! l ->
     exists i st, selectedType s = Some TStroke /\ selectedIndex s = Some i /\
                  strokes s !! i = Some st /\ l ∈ stroke_points st).
Proof.
  split; [|split; [|split]].
  - intros s x y i st Hst Hlen H.
    destruct (hit_stroke_two_points s x y i H) as (st' & Hst' & Hlen').
    rewrite Hst in Hst'. injection Hst' as <-. lia.
  - intros c s. apply pen_click_commits_dot.
  - intros events s0 s Hs0 Hrun i st Hst Hlen [Hty Hidx].
    pose proof (run_dotFree events s0 s (dotFree_unselected s0 Hs0) Hrun) as Hinv.
    destruct (Hinv i Hty Hidx) as (st' & Hst' & Hlen').
    rewrite Hst in Hst'. injection Hst' as <-. lia.
  - intros c s l. apply handleSelectMouseMove_store.
Qed.

Lemma dot_stroke_unselectable_witness :
  let s := setCurrentTool PEN (loaded ctx0) in
  let s' := handleMouseUp (handleMouseDown (at_ 50 50) s) in
  let st := mkStroke [0%nat] DEFAULTS.color DEFAULTS.lineWidth in
  currentTool s = PEN /\ isEditingText s = false /\
  strokes s' = [st] /\
  drawStroke (heap s') (Some st) = [FillCircle 50 50 (4 / 2) DEFAULTS.color] /\
  findAnnotationAtPoint s' 50 50 <> Some (mkHit TStroke 0).
Proof.
  intros s s' st.
  destruct dot_stroke_unselectable as (H1 & H2 & _).
  destruct (H2 (at_ 50 50) s) as (A & _ & B); [reflexivity | reflexivity |].
  split; [reflexivity|]. split; [reflexivity|].
  split; [exact A|]. split; [exact B|].
  apply (H1 s' 50 50 0%nat st); [subst s'; rewrite A; reflexivity | cbn; lia].
Defined.

(** ** Resizing to the same bounds *)

Lemma Bounds_eq_refl (B : Bounds) : Bounds_eq B B.
Proof. repeat split; reflexivity. Qed.

Lemma orOne_zero (w : Q) : w == 0 -> orOne w = 1.
Proof.
  intros H. unfold orOne. apply Qeq_bool_iff in H. rewrite H. reflexivity.
Qed.

Lemma orOne_nonzero (w : Q) : ~ w == 0 -> orOne w = w.
Proof.
  intros H. unfold orOne. destruct (Qeq_bool w 0) eqn:E; [|reflexivity].
  apply Qeq_bool_iff in E. contradiction.
Qed.

(** A coordinate within the original extent is kept by a rescale to the
    same extent. *)
Lemma rescale_fixed (v lo w nlo nw : Q) :
  nlo == lo -> nw == w -> lo <= v -> v <= lo + w ->
  rescale v nlo nw lo w == v.
Proof.
  intros H1 H2 Hlo Hhi. unfold rescale. rewrite H1, H2.
  destruct (Qeq_dec w 0) as [Hz|Hnz].
  - rewrite (orOne_zero w Hz).
    assert (Hv : v == lo) by lra.
    rewrite Hz, Hv. field.
  - rewrite (orOne_nonzero w Hnz). field. exact Hnz.
Qed.
Lemma extent_min_abs (s e : Q) :
  Qmin s e <= s /\ s <= Qmin s e + Qabs (e - s) /\
  Qmin s e <= e /\ e <= Qmin s e + Qabs (e - s).
Proof.
  destruct (Q.min_spec_le s e) as [[H E]|[H E]]; rewrite E.
  - rewrite (Qabs_pos (e - s)) by lra. repeat split; lra.
  - rewrite (Qabs_neg (e - s)) by lra. repeat split; lra.
Qed.

Lemma ArrowM_getBounds_compat (a a' : Arrow) :
  arrow_startX a' == arrow_startX a -> arrow_startY a' == arrow_startY a ->
  arrow_endX a' == arrow_endX a -> arrow_endY a' == arrow_endY a ->
  Bounds_eq (ArrowM.getBounds a') (ArrowM.getBounds a).
Proof.
  intros H1 H2 H3 H4. unfold ArrowM.getBounds, Bounds_eq.
  cbn [b_x b_y b_width b_height].
  rewrite H1, H2, H3, H4. repeat split; reflexivity.
Qed.

Lemma applyBounds_same_arrow (c : Ctx) (h : list Point) (a : Arrow) (nb : Bounds) :
  Bounds_eq nb (ArrowM.getBounds a) ->
  hasBounds (boundsAfter c (applyBoundsToAnnotation h (AArrow a) nb (ArrowM.getBounds a)))
            (ArrowM.getBounds a).
Proof.
  intros (E1 & E2 & E3 & E4).
  cbn [b_x b_y b_width b_height fst snd boundsAfter getBounds
       applyBoundsToAnnotation hasBounds].
  cbn [ArrowM.getBounds b_x b_y b_width b_height] in *.
  destruct (extent_min_abs (arrow_startX a) (arrow_endX a)) as (X1 & X2 & X3 & X4).
  destruct (extent_min_abs (arrow_startY a) (arrow_endY a)) as (Y1 & Y2 & Y3 & Y4).
  apply ArrowM_getBounds_compat;
    cbn [arrow_startX arrow_startY arrow_endX arrow_endY];
    apply rescale_fixed; assumption.
Qed.

Lemma applyBounds_same_rectangle (c : Ctx) (h : list Point) (r : Rectangle) (nb : Bounds) :
  Bounds_eq nb (RectangleM.getBounds r) ->
  hasBounds (boundsAfter c (applyBoundsToAnnotation h (ARectangle r) nb
                              (RectangleM.getBounds r)))
            (RectangleM.getBounds r).
Proof.
  intros (E1 & E2 & E3 & E4). cbn in *.
  pose proof (Qabs_nonneg (rect_width r)) as Hw.
  pose proof (Qabs_nonneg (rect_height r)) as Hh.
  rewrite <- E3 in Hw. rewrite <- E4 in Hh.
  unfold RectangleM.getBounds at 1, Bounds_eq. cbn.
  apply Qle_bool_iff in Hw as Hw'. apply Qle_bool_iff in Hh as Hh'.
  rewrite Hw', Hh'.
  rewrite (Qabs_pos _ Hw), (Qabs_pos _ Hh).
  repeat split; assumption.
Qed.

Lemma applyBounds_same_blur (c : Ctx) (h : list Point) (b : BlurRegion) (nb : Bounds) :
  Bounds_eq nb (BlurRegionM.getBounds b) ->
  hasBounds (boundsAfter c (applyBoundsToAnnotation h (ABlur b) nb
                              (BlurRegionM.getBounds b)))
            (BlurRegionM.getBounds b).
Proof.
  intros (E1 & E2 & E3 & E4). cbn in *.
  pose proof (Qabs_nonneg (blur_width b)) as Hw.
  pose proof (Qabs_nonneg (blur_height b)) as Hh.
  rewrite <- E3 in Hw. rewrite <- E4 in Hh.
  unfold BlurRegionM.getBounds at 1, Bounds_eq. cbn.
  apply Qle_bool_iff in Hw as Hw'. apply Qle_bool_iff in Hh as Hh'.
  rewrite Hw', Hh'.
  rewrite (Qabs_pos _ Hw), (Qabs_pos _ Hh).
  repeat split; assumption.
Qed.

Lemma applyBounds_same_ellipse (c : Ctx) (h : list Point) (e : Ellipse) (nb : Bounds) :
  Bounds_eq nb (EllipseM.getBounds e) ->
  hasBounds (boundsAfter c (applyBoundsToAnnotation h (AEllipse e) nb
                              (EllipseM.getBounds e)))
            (EllipseM.getBounds e).
Proof.
  intros (E1 & E2 & E3 & E4). cbn in *. unfold Bounds_eq. cbn.
  rewrite E1, E2, E3, E4. repeat split; field.
Qed.

Lemma applyBounds_same_text (c : Ctx) (h : list Point) (t : TextAnnotation) (nb : Bounds) :
  Bounds_eq nb (TextM.getBounds c t) ->
  hasBounds (boundsAfter c (applyBoundsToAnnotation h (AText t) nb (TextM.getBounds c t)))
            (TextM.getBounds c t).
Proof.
  intros (E1 & E2 & E3 & E4). cbn in *. unfold Bounds_eq. cbn.
  rewrite E1, E2. repeat split; try reflexivity; ring.
Qed.
Lemma extend_compat (acc acc' : Q * Q * Q * Q) (p p' : Point) :
  (let '(a, b, c, d) := acc in let '(a', b', c', d') := acc' in
   a' == a /\ b' == b /\ c' == c /\ d' == d) ->
  Point_eq p' p ->
  let '(a, b, c, d) := StrokeM.extend acc p in
  let '(a', b', c', d') := StrokeM.extend acc' p' in
  a' == a /\ b' == b /\ c' == c /\ d' == d.
Proof.
  destruct acc as [[[a b] c] d], acc' as [[[a' b'] c'] d'].
  intros (H1 & H2 & H3 & H4) (P1 & P2). cbn [StrokeM.extend].
  rewrite H1, H2, H3, H4, P1, P2. repeat split; reflexivity.
Qed.

Lemma foldl_extend_compat (ps ps' : list Point) (acc acc' : Q * Q * Q * Q) :
  Forall2 Point_eq ps' ps ->
  (let '(a, b, c, d) := acc in let '(a', b', c', d') := acc' in
   a' == a /\ b' == b /\ c' == c /\ d' == d) ->
  let '(a, b, c, d) := foldl StrokeM.extend acc ps in
  let '(a', b', c', d') := foldl StrokeM.extend acc' ps' in
  a' == a /\ b' == b /\ c' == c /\ d' == d.
Proof.
  intros HF. revert acc acc'.
  induction HF as [|p' p ps' ps Hp HF IH]; intros acc acc' Hacc; cbn [foldl].
  - exact Hacc.
  - apply IH. apply extend_compat; assumption.
Qed.

Lemma foldl_extend_bounds (ps : list Point) (a0 b0 c0 d0 : Q) :
  let '(a, b, c, d) := foldl StrokeM.extend (a0, b0, c0, d0) ps in
  (a <= a0 /\ b <= b0 /\ c0 <= c /\ d0 <= d) /\
  forall p, p ∈ ps -> a <= p_x p /\ p_x p <= c /\ b <= p_y p /\ p_y p <= d.
Proof.
  revert a0 b0 c0 d0.
  induction ps as [|q ps IH]; intros a0 b0 c0 d0; cbn [foldl].
  - split; [repeat split; lra|]. intros p Hp. inversion Hp.
  - cbn [StrokeM.extend].
    specialize (IH (Qmin a0 (p_x q)) (Qmin b0 (p_y q)) (Qmax c0 (p_x q)) (Qmax d0 (p_y q))).
    destruct (foldl StrokeM.extend _ ps) as [[[a b] c] d].
    destruct IH as ((I1 & I2 & I3 & I4) & IH).
    pose proof (Q.le_min_l a0 (p_x q)). pose proof (Q.le_min_r a0 (p_x q)).
    pose proof (Q.le_min_l b0 (p_y q)). pose proof (Q.le_min_r b0 (p_y q)).
    pose proof (Q.le_max_l c0 (p_x q)). pose proof (Q.le_max_r c0 (p_x q)).
    pose proof (Q.le_max_l d0 (p_y q)). pose proof (Q.le_max_r d0 (p_y q)).
    split; [repeat split; lra|].
    intros p Hp. apply elem_of_cons in Hp as [->|Hp]; [repeat split; lra|].
    apply IH, Hp.
Qed.

(** Every point of a stroke lies in its bounds. *)
Lemma StrokeM_getBounds_inside (h : list Point) (st : Stroke) (B : Bounds) (p : Point) :
  StrokeM.getBounds h st = Some B -> p ∈ StrokeM.points h st ->
  inside (p_x p) (p_y p) B.
Proof.
  unfold StrokeM.getBounds. destruct (StrokeM.points h st) as [|q ps]; [discriminate|].
  pose proof (foldl_extend_bounds ps (p_x q) (p_y q) (p_x q) (p_y q)) as H.
  destruct (foldl StrokeM.extend _ ps) as [[[a b] c] d].
  destruct H as ((I1 & I2 & I3 & I4) & H).
  intros [= <-] Hp. unfold inside. cbn [b_x b_y b_width b_height].
  apply elem_of_cons in Hp as [->|Hp].
  - repeat split; lra.
  - destruct (H p Hp) as (? & ? & ? & ?). repeat split; lra.
Qed.

Lemma StrokeM_getBounds_compat (h h' : list Point) (st : Stroke) (B : Bounds) :
  Forall2 Point_eq (StrokeM.points h' st) (StrokeM.points h st) ->
  StrokeM.getBounds h st = Some B ->
  hasBounds (StrokeM.getBounds h' st) B.
Proof.
  unfold StrokeM.getBounds. intros HF.
  destruct HF as [|q' q ps' ps Hq HF]; [discriminate|].
  pose proof (foldl_extend_compat ps ps' (p_x q, p_y q, p_x q, p_y q)
                (p_x q', p_y q', p_x q', p_y q') HF) as H.
  destruct (foldl StrokeM.extend _ ps) as [[[a b] c] d].
  destruct (foldl StrokeM.extend _ ps') as [[[a' b'] c'] d'].
  destruct Hq as [Q1 Q2].
  destruct H as (H1 & H2 & H3 & H4); [repeat split; assumption|].
  intros [= <-]. unfold hasBounds, Bounds_eq. cbn [b_x b_y b_width b_height].
  rewrite H1, H2, H3, H4. repeat split; reflexivity.
Qed.

Lemma points_compat (h h' : list Point) (st : Stroke) :
  Forall2 Point_eq h' h ->
  Forall2 Point_eq (StrokeM.points h' st) (StrokeM.points h st).
Proof.
  intros HF. unfold StrokeM.points.
  induction (stroke_points st) as [|l ls IH]; cbn [omap list_omap]; [constructor|].
  destruct (h' !! l) as [p'|] eqn:E'; destruct (h !! l) as [p|] eqn:E.
  - constructor; [|exact IH]. exact (Forall2_lookup_lr _ _ _ _ _ _ HF E' E).
  - apply lookup_lt_Some in E'. apply lookup_ge_None in E.
    apply Forall2_length in HF. lia.
  - apply lookup_lt_Some in E. apply lookup_ge_None in E'.
    apply Forall2_length in HF. lia.
  - exact IH.
Qed.

Lemma inside_compat (p q : Point) (B : Bounds) :
  Point_eq p q -> inside (p_x q) (p_y q) B -> inside (p_x p) (p_y p) B.
Proof. intros [H1 H2]. unfold inside. rewrite H1, H2. tauto. Qed.

Lemma rescalePoint_fixed (nb B : Bounds) (p : Point) :
  Bounds_eq nb B -> inside (p_x p) (p_y p) B -> Point_eq (rescalePoint nb B p) p.
Proof.
  intros (E1 & E2 & E3 & E4) (I1 & I2 & I3 & I4).
  split; cbn [rescalePoint p_x p_y]; apply rescale_fixed; assumption.
Qed.

Lemma Point_eq_trans (p q r : Point) : Point_eq p q -> Point_eq q r -> Point_eq p r.
Proof. intros [A1 A2] [B1 B2]. split; [rewrite A1|rewrite A2]; assumption. Qed.

Lemma Heap_eq_refl (h : list Point) : Forall2 Point_eq h h.
Proof. apply Forall_Forall2_diag, Forall_forall. intros p _. split; reflexivity. Qed.

(** Updating points that the update fixes leaves an equal store. *)
Lemma forEachPoint_fixed (f : Point -> Point) (B : Bounds) (points : list nat)
    (h : list Point) :
  (forall p, inside (p_x p) (p_y p) B -> Point_eq (f p) p) ->
  (forall l p, l ∈ points -> h !! l = Some p -> inside (p_x p) (p_y p) B) ->
  Forall2 Point_eq (forEachPoint f points h) h.
Proof.
  intros Hf Hin. unfold forEachPoint.
  assert (G : forall h', Forall2 Point_eq h' h ->
            Forall2 Point_eq (foldl (fun h l => alter f l h) h' points) h).
  { induction points as [|l ls IH]; intros h' Hh'; cbn [foldl]; [exact Hh'|].
    apply IH.
    - intros l' p Hl'. apply Hin. right. exact Hl'.
    - apply Forall2_alter_l; [exact Hh'|].
      intros p' p E' E Hp. eapply Point_eq_trans; [|exact Hp].
      apply Hf. eapply inside_compat; [exact Hp|].
      eapply Hin; [left|exact E]. }
  apply G, Heap_eq_refl.
Qed.

Lemma applyBounds_same_stroke (c : Ctx) (h : list Point) (st : Stroke) (nb B : Bounds) :
  StrokeM.getBounds h st = Some B -> Bounds_eq nb B ->
  hasBounds (boundsAfter c (applyBoundsToAnnotation h (AStroke st) nb B)) B.
Proof.
  intros HB Hnb.
  cbn [applyBoundsToAnnotation boundsAfter fst snd getBounds].
  apply (StrokeM_getBounds_compat h); [|exact HB].
  apply points_compat, (forEachPoint_fixed _ B).
  - intros p Hp. apply rescalePoint_fixed; assumption.
  - intros l p Hl E. apply (StrokeM_getBounds_inside h st); [exact HB|].
    unfold StrokeM.points. apply list_elem_of_omap. exists l. split; assumption.
Qed.
Lemma resizedBounds_zero (mode : DragMode) (B : Bounds) :
  10 <= b_width B -> 10 <= b_height B ->
  Bounds_eq (resizedBounds mode 0 0 B) B.
Proof.
  intros Hw Hh. unfold resizedBounds.
  set (w := includes mode "w"). set (e := includes mode "e").
  set (n := includes mode "n"). set (s := includes mode "s").
  assert (Hclamp : forall nb, Bounds_eq nb B ->
            Bounds_eq
              (let nb := if Qltb (b_width nb) 10
                         then mkBounds (b_x nb) (b_y nb) 10 (b_height nb) else nb in
               let nb := if Qltb (b_height nb) 10
                         then mkBounds (b_x nb) (b_y nb) (b_width nb) 10 else nb in
               nb) B).
  { intros nb (E1 & E2 & E3 & E4). cbn zeta.
    destruct (Qltb (b_width nb) 10) eqn:F1; [apply Qltb_lt in F1; lra|].
    destruct (Qltb (b_height nb) 10) eqn:F2; [apply Qltb_lt in F2; lra|].
    repeat split; assumption. }
  apply Hclamp.
  destruct w, e, n, s; unfold Bounds_eq; cbn [b_x b_y b_width b_height];
    repeat split; ring.
Qed.

(** C8, as stated, fails below 10: a zero drag of the south-east handle
    of an 8 by 8 rectangle resizes it to 10 by 10. *)
Lemma resize_small_rectangle_grows :
  getBounds ctx0 [] (ARectangle smallRect) = Some (mkBounds 0 0 8 8) /\
  boundsAfter ctx0 (resizeAnnotation [] (ARectangle smallRect) ResizeSE 0 0
                                     (mkBounds 0 0 8 8))
    = Some (mkBounds 0 0 10 10) /\
  ~ hasBounds (boundsAfter ctx0 (resizeAnnotation [] (ARectangle smallRect) ResizeSE 0 0
                                                  (mkBounds 0 0 8 8)))
              (mkBounds 0 0 8 8) /\
  (exists s, run (drag RECTANGLE 0 0 8 8 ++
                  [MouseUp; KeyTool SELECT; MouseDown (at_ 4 4); MouseUp;
                   MouseDown (at_ 9 9); MouseMove (at_ 9 9)]) (loaded ctx0) = Some s /\
             dragMode s = Some ResizeSE /\
             originalBounds s = Some (mkBounds 0 0 8 8) /\
             (RectangleM.getBounds <$> rectangles s) = [mkBounds 0 0 10 10]).
Proof.
  split; [reflexivity|]. split; [reflexivity|]. split.
  - intros (_ & _ & H & _). vm_compute in H. discriminate H.
  - eexists. split; [vm_compute; reflexivity|]. repeat split.
Qed.

(** C8, amended.  For every annotation with computed bounds [B], applying
    [B] as new and as original bounds leaves the computed bounds equal to
    [B], also when [B] is narrower or lower than 10; a resize by a zero
    drag, which first raises the new width and height to 10, leaves them
    equal to [B] when the width and the height of [B] are at least 10. *)
Theorem resize_same_bounds (c : Ctx) (h : list Point) (a : Annotation) (B : Bounds) :
  getBounds c h a = Some B ->
  hasBounds (boundsAfter c (applyBoundsToAnnotation h a B B)) B /\
  (10 <= b_width B -> 10 <= b_height B ->
   forall mode, hasBounds (boundsAfter c (resizeAnnotation h a mode 0 0 B)) B).
Proof.
  intros HB.
  assert (G : forall nb, Bounds_eq nb B ->
            hasBounds (boundsAfter c (applyBoundsToAnnotation h a nb B)) B).
  { intros nb Hnb. destruct a as [st|ar|r|e|t|b]; cbn [getBounds] in HB.
    - apply applyBounds_same_stroke; assumption.
    - injection HB as <-. apply applyBounds_same_arrow, Hnb.
    - injection HB as <-. apply applyBounds_same_rectangle, Hnb.
    - injection HB as <-. apply applyBounds_same_ellipse, Hnb.
    - injection HB as <-. apply applyBounds_same_text, Hnb.
    - injection HB as <-. apply applyBounds_same_blur, Hnb. }
  split.
  - apply G, Bounds_eq_refl.
  - intros Hw Hh mode. unfold resizeAnnotation. apply G, resizedBounds_zero; assumption.
Qed.

Lemma resize_same_bounds_witness :
  getBounds ctx0 [] (AArrow (arrowTo 6 0)) = Some (mkBounds 0 0 6 0) /\
  hasBounds (boundsAfter ctx0
               (applyBoundsToAnnotation [] (AArrow (arrowTo 6 0))
                  (mkBounds 0 0 6 0) (mkBounds 0 0 6 0)))
            (mkBounds 0 0 6 0).
Proof.
  split; [reflexivity|].
  destruct (resize_same_bounds ctx0 [] (AArrow (arrowTo 6 0)) (mkBounds 0 0 6 0))
    as [H _]; [reflexivity | exact H].
Defined.

(** ** The divisions of the proportional rescale *)

Lemma orOne_not_zero (d : Q) : Qeq_bool (orOne d) 0 = false.
Proof.
  unfold orOne. destruct (Qeq_bool d 0) eqn:E; [reflexivity | exact E].
Qed.

Lemma JSNum_orOne_Fin (d : Q) : JSNum.orOne (JSNum.Fin d) = JSNum.Fin (orOne d).
Proof. unfold JSNum.orOne, orOne. destruct (Qeq_bool d 0); reflexivity. Qed.

Lemma overflowAt_pos : 0 < JSNum.overflowAt.
Proof. unfold Qlt. vm_compute. reflexivity. Qed.

Lemma underflowAt_pos : 0 < JSNum.underflowAt.
Proof. reflexivity. Qed.

(** A result below [overflowAt] in magnitude is a finite double. *)
Lemma round_bounded (q B : Q) :
  Qabs q <= B -> B < JSNum.overflowAt ->
  exists q', JSNum.round q = JSNum.Fin q' /\ Qabs q' <= B /\
             (q' = q \/ (q' = 0 /\ Qabs q <= JSNum.underflowAt)).
Proof.
  intros Hq HB. unfold JSNum.round.
  assert (H1 : q <= Qabs q) by apply Qle_Qabs.
  assert (H2 : - q <= Qabs q) by (rewrite <- Qabs_opp; apply Qle_Qabs).
  assert (H0 : 0 <= Qabs q) by apply Qabs_nonneg.
  destruct (Qle_bool JSNum.overflowAt q) eqn:E1;
    [apply Qle_bool_iff in E1; lra|].
  destruct (Qle_bool q (- JSNum.overflowAt)) eqn:E2;
    [apply Qle_bool_iff in E2; lra|].
  destruct (Qle_bool (Qabs q) JSNum.underflowAt) eqn:E3.
  - apply Qle_bool_iff in E3. exists 0. split; [reflexivity|].
    split; [change (Qabs 0) with 0; lra|]. right. split; [reflexivity | exact E3].
  - exists q. split; [reflexivity|]. split; [exact Hq|]. left. reflexivity.
Qed.

(** A result in range is the exact one. *)
Lemma round_inRange (q : Q) :
  JSNum.inRange q -> exists q', JSNum.round q = JSNum.Fin q' /\ q' == q.
Proof.
  intros H.
  assert (Hb : Qabs q < JSNum.overflowAt).
  { destruct H as [Hz|[_ Ho]]; [|exact Ho].
    rewrite Hz. change (Qabs 0) with 0. exact overflowAt_pos. }
  destruct (Qlt_le_dec (Qabs q) JSNum.overflowAt) as [_|Hc]; [|lra].
  destruct (round_bounded q (Qabs q) (Qle_refl _) Hb) as (q' & E & _ & [->|[-> Hu]]).
  - exists q. split; [exact E | reflexivity].
  - exists 0. split; [exact E|].
    destruct H as [Hz|[Hl _]]; [symmetry; exact Hz | lra].
Qed.

Lemma inRange_compat (q q' : Q) : q' == q -> JSNum.inRange q -> JSNum.inRange q'.
Proof. intros E H. unfold JSNum.inRange in *. rewrite E. exact H. Qed.

Lemma JSNum_sub_Fin (a b : Q) :
  JSNum.sub (JSNum.Fin a) (JSNum.Fin b) = JSNum.round (a + - b).
Proof. reflexivity. Qed.

(** The scale factor: the divisor [dim || 1] is not zero, so the
    quotient is the rounded exact one. *)
Lemma JSNum_scale_Fin (newDim dim : Q) :
  JSNum.div (JSNum.Fin newDim) (JSNum.orOne (JSNum.Fin dim))
  = JSNum.round (newDim / orOne dim).
Proof.
  rewrite JSNum_orOne_Fin. cbn [JSNum.div]. rewrite orOne_not_zero. reflexivity.
Qed.

Lemma round_not_NaN (q : Q) : JSNum.round q <> JSNum.NaN.
Proof. unfold JSNum.round. repeat case_match; discriminate. Qed.

(** With no overflow and no underflow the rescale is the exact one. *)
Lemma JSNum_rescale_exact (v newOrigin newDim origin dim : Q) :
  JSNum.inRange (newDim / orOne dim) ->
  JSNum.inRange (v - origin) ->
  JSNum.inRange ((v - origin) * (newDim / orOne dim)) ->
  JSNum.inRange (newOrigin + (v - origin) * (newDim / orOne dim)) ->
  exists q, JSNum.rescale (JSNum.Fin v) (JSNum.Fin newOrigin) (JSNum.Fin newDim)
                          (JSNum.Fin origin) (JSNum.Fin dim) = JSNum.Fin q /\
            q == rescale v newOrigin newDim origin dim.
Proof.
  intros H1 H2 H3 H4. unfold JSNum.rescale.
  rewrite JSNum_scale_Fin, JSNum_sub_Fin.
  destruct (round_inRange _ H1) as (sc & -> & Esc).
  destruct (round_inRange (v + - origin) H2) as (df & -> & Edf).
  cbn [JSNum.mul].
  assert (H3' : JSNum.inRange (df * sc)).
  { apply (inRange_compat ((v - origin) * (newDim / orOne dim))); [|exact H3].
    rewrite Edf, Esc. reflexivity. }
  destruct (round_inRange _ H3') as (p & -> & Ep).
  cbn [JSNum.add].
  assert (H4' : JSNum.inRange (newOrigin + p)).
  { apply (inRange_compat (newOrigin + (v - origin) * (newDim / orOne dim)));
      [|exact H4].
    rewrite Ep, Edf, Esc. reflexivity. }
  destruct (round_inRange _ H4') as (r & -> & Er).
  exists r. split; [reflexivity|].
  unfold rescale. rewrite Er, Ep, Edf, Esc. reflexivity.
Qed.

Lemma moderate_facts :
  let M := inject_Z (2 ^ 300) in
  0 < M /\ 1 <= M /\ M * (1 # 2 ^ 300) == 1 /\
  M + M < JSNum.overflowAt /\ M * M < JSNum.overflowAt /\
  (M + M) * (M * M) < JSNum.overflowAt /\
  M + (M + M) * (M * M) < JSNum.overflowAt.
Proof.
  cbn zeta. repeat split; unfold Qlt, Qle, Qeq; vm_compute; try reflexivity;
    discriminate.
Qed.

Lemma orOne_inv_moderate (d : Q) :
  JSNum.zeroOrSizable d -> Qabs (/ orOne d) <= inject_Z (2 ^ 300).
Proof.
  destruct moderate_facts as (M0 & M1 & Mm & _).
  set (M := inject_Z (2 ^ 300)) in *.
  intros [Hz|Hs].
  - rewrite (orOne_zero d Hz). change (Qabs (/ 1)) with 1. exact M1.
  - assert (Hm : 0 < 1 # 2 ^ 300) by reflexivity.
    assert (Hd : ~ d == 0).
    { intros E. rewrite E in Hs. change (Qabs 0) with 0 in Hs. lra. }
    rewrite (orOne_nonzero d Hd), Qabs_Qinv.
    apply Qle_shift_inv_r; [lra|].
    rewrite <- Mm. apply Qmult_le_l; [exact M0 | exact Hs].
Qed.

(** On moderate numbers the rescale is finite. *)
Lemma JSNum_rescale_moderate (v newOrigin newDim origin dim : Q) :
  JSNum.moderate v -> JSNum.moderate newOrigin -> JSNum.moderate newDim ->
  JSNum.moderate origin -> JSNum.zeroOrSizable dim ->
  exists q, JSNum.rescale (JSNum.Fin v) (JSNum.Fin newOrigin) (JSNum.Fin newDim)
                          (JSNum.Fin origin) (JSNum.Fin dim) = JSNum.Fin q.
Proof.
  unfold JSNum.moderate. intros Hv Hno Hnd Ho Hd.
  pose proof (orOne_inv_moderate dim Hd) as Hi.
  destruct moderate_facts as (M0 & M1 & _ & Mb1 & Mb2 & Mb3 & Mb).
  set (M := inject_Z (2 ^ 300)) in *.
  assert (MM : 0 <= M * M) by (apply Qmult_le_0_compat; lra).
  assert (MMM : 0 <= (M + M) * (M * M)) by (apply Qmult_le_0_compat; lra).
  unfold JSNum.rescale. rewrite JSNum_scale_Fin, JSNum_sub_Fin.
  destruct (round_bounded (newDim / orOne dim) (M * M)) as (sc & -> & Hsc & _).
  { unfold Qdiv. rewrite Qabs_Qmult.
    apply Qmult_le_compat_nonneg; split; try apply Qabs_nonneg; assumption. }
  { exact Mb2. }
  destruct (round_bounded (v + - origin) (M + M)) as (df & -> & Hdf & _).
  { eapply Qle_trans; [apply Qabs_triangle|]. rewrite Qabs_opp. lra. }
  { exact Mb1. }
  cbn [JSNum.mul].
  destruct (round_bounded (df * sc) ((M + M) * (M * M))) as (p & -> & Hp & _).
  { rewrite Qabs_Qmult.
    apply Qmult_le_compat_nonneg; split; try apply Qabs_nonneg; assumption. }
  { exact Mb3. }
  cbn [JSNum.add].
  destruct (round_bounded (newOrigin + p) (M + (M + M) * (M * M))) as (r & -> & _).
  { eapply Qle_trans; [apply Qabs_triangle|]. lra. }
  { exact Mb. }
  exists r. reflexivity.
Qed.

(** Without the guard a horizontal arrow would get [NaN] coordinates. *)
Example rescaleUnguarded_NaN :
  JSNum.rescaleUnguarded (JSNum.Fin 0) (JSNum.Fin 0) (JSNum.Fin 10)
                         (JSNum.Fin 0) (JSNum.Fin 0) = JSNum.NaN.
Proof. reflexivity. Qed.

(** C10.  In the proportional resize of arrows and strokes the divisor
    [dim || 1] is 1 for a zero width or height and is never zero or
    [NaN], so the scale factor is never [NaN] and no division is by zero.
    When no operation overflows or underflows, every resulting coordinate
    is finite and is the one of the exact model; this is so whenever the
    coordinates and the bounds are at most [2^300] in magnitude and the
    original width and height are zero or at least [2^-300]. *)
Theorem proportional_resize_guarded :
  (forall v, JSNum.orOne v <> JSNum.NaN /\
             forall q, JSNum.orOne v = JSNum.Fin q -> ~ q == 0) /\
  (forall d, exists q, JSNum.orOne (JSNum.Fin d) = JSNum.Fin q /\
                       (d == 0 -> q = 1) /\ (~ d == 0 -> q = d)) /\
  (forall newDim dim,
     JSNum.div (JSNum.Fin newDim) (JSNum.orOne (JSNum.Fin dim))
     = JSNum.round (newDim / orOne dim) /\
     JSNum.div (JSNum.Fin newDim) (JSNum.orOne (JSNum.Fin dim)) <> JSNum.NaN) /\
  (forall v newOrigin newDim origin dim,
     JSNum.inRange (newDim / orOne dim) ->
     JSNum.inRange (v - origin) ->
     JSNum.inRange ((v - origin) * (newDim / orOne dim)) ->
     JSNum.inRange (newOrigin + (v - origin) * (newDim / orOne dim)) ->
     exists q, JSNum.rescale (JSNum.Fin v) (JSNum.Fin newOrigin) (JSNum.Fin newDim)
                             (JSNum.Fin origin) (JSNum.Fin dim) = JSNum.Fin q /\
               q == rescale v newOrigin newDim origin dim) /\
  (forall v newOrigin newDim origin dim,
     JSNum.moderate v -> JSNum.moderate newOrigin -> JSNum.moderate newDim ->
     JSNum.moderate origin -> JSNum.zeroOrSizable dim ->
     exists q, JSNum.rescale (JSNum.Fin v) (JSNum.Fin newOrigin) (JSNum.Fin newDim)
                             (JSNum.Fin origin) (JSNum.Fin dim) = JSNum.Fin q) /\
  (forall a newBounds original,
     JSNum.moderate (arrow_startX a) -> JSNum.moderate (arrow_startY a) ->
     JSNum.moderate (arrow_endX a) -> JSNum.moderate (arrow_endY a) ->
     JSNum.moderateBounds newBounds original ->
     exists sx sy ex ey,
       JSNum.resizeArrow a newBounds original
       = (JSNum.Fin sx, JSNum.Fin sy, JSNum.Fin ex, JSNum.Fin ey)) /\
  (forall p newBounds original,
     JSNum.moderate (p_x p) -> JSNum.moderate (p_y p) ->
     JSNum.moderateBounds newBounds original ->
     exists x y, JSNum.resizePoint p newBounds original = (JSNum.Fin x, JSNum.Fin y)) /\
  (forall h a newBounds original,
     exists a',
       applyBoundsToAnnotation h (AArrow a) newBounds original = (h, AArrow a') /\
       arrow_startX a' == rescale (arrow_startX a) (b_x newBounds) (b_width newBounds)
                                  (b_x original) (b_width original) /\
       arrow_startY a' == rescale (arrow_startY a) (b_y newBounds) (b_height newBounds)
                                  (b_y original) (b_height original) /\
       arrow_endX a' == rescale (arrow_endX a) (b_x newBounds) (b_width newBounds)
                                (b_x original) (b_width original) /\
       arrow_endY a' == rescale (arrow_endY a) (b_y newBounds) (b_height newBounds)
                                (b_y original) (b_height original)) /\
  (forall h st newBounds original,
     length (fst (applyBoundsToAnnotation h (AStroke st) newBounds original)) = length h).
Proof.
  split; [|split; [|split; [|split; [|split; [|split; [|split; [|split]]]]]]].
  - intros v. split.
    + destruct v as [q| | |]; cbn; try discriminate.
      destruct (Qeq_bool q 0); discriminate.
    + intros q. destruct v as [d| | |]; cbn.
      * destruct (Qeq_bool d 0) eqn:E; intros H; injection H as <-; intros H.
        -- discriminate H.
        -- apply Qeq_bool_iff in H. congruence.
      * intros H. discriminate H.
      * intros H. discriminate H.
      * intros H. injection H as <-. intros H. discriminate H.
  - intros d. exists (orOne d). split; [apply JSNum_orOne_Fin|].
    split; [apply orOne_zero | apply orOne_nonzero].
  - intros nd d. rewrite JSNum_scale_Fin. split; [reflexivity | apply round_not_NaN].
  - exact JSNum_rescale_exact.
  - exact JSNum_rescale_moderate.
  - intros a nb ob H1 H2 H3 H4 (B1 & B2 & B3 & B4 & B5 & B6 & B7 & B8).
    unfold JSNum.resizeArrow.
    destruct (JSNum_rescale_moderate (arrow_startX a) _ _ _ _ H1 B1 B3 B5 B7) as [sx ->].
    destruct (JSNum_rescale_moderate (arrow_startY a) _ _ _ _ H2 B2 B4 B6 B8) as [sy ->].
    destruct (JSNum_rescale_moderate (arrow_endX a) _ _ _ _ H3 B1 B3 B5 B7) as [ex ->].
    destruct (JSNum_rescale_moderate (arrow_endY a) _ _ _ _ H4 B2 B4 B6 B8) as [ey ->].
    exists sx, sy, ex, ey. reflexivity.
  - intros p nb ob H1 H2 (B1 & B2 & B3 & B4 & B5 & B6 & B7 & B8).
    unfold JSNum.resizePoint.
    destruct (JSNum_rescale_moderate (p_x p) _ _ _ _ H1 B1 B3 B5 B7) as [x ->].
    destruct (JSNum_rescale_moderate (p_y p) _ _ _ _ H2 B2 B4 B6 B8) as [y ->].
    exists x, y. reflexivity.
  - intros h a nb ob. cbn [applyBoundsToAnnotation].
    eexists. split; [reflexivity|].
    cbn [arrow_startX arrow_startY arrow_endX arrow_endY].
    unfold rescale. repeat split; ring.
  - intros h st nb ob. cbn [applyBoundsToAnnotation fst].
    unfold forEachPoint.
    induction (stroke_points st) as [|l ls IH] using rev_ind; [reflexivity|].
    rewrite foldl_app. cbn [foldl]. rewrite length_alter. exact IH.
Qed.

Lemma proportional_resize_guarded_witness :
  (exists sx sy ex ey,
     JSNum.resizeArrow (mkArrow 10 20 110 20 DEFAULTS.color DEFAULTS.lineWidth)
                       (mkBounds 10 20 200 10) (mkBounds 10 20 100 0)
     = (JSNum.Fin sx, JSNum.Fin sy, JSNum.Fin ex, JSNum.Fin ey)) /\
  (exists q, JSNum.rescale (JSNum.Fin 110) (JSNum.Fin 10) (JSNum.Fin 200)
                           (JSNum.Fin 10) (JSNum.Fin 100) = JSNum.Fin q /\
             q == 210).
Proof.
  destruct proportional_resize_guarded as (_ & _ & _ & E & _ & A & _).
  split.
  - apply A; try (unfold JSNum.moderate, Qle; vm_compute; discriminate).
    unfold JSNum.moderateBounds, JSNum.moderate, JSNum.zeroOrSizable.
    cbn [b_x b_y b_width b_height].
    repeat split; try (unfold Qle; vm_compute; discriminate).
    + right. unfold Qle. vm_compute. discriminate.
    + left. reflexivity.
  - destruct (E 110 10 200 10 100) as (q & Hq & Eq).
    + right. split; [unfold Qlt | unfold Qlt]; vm_compute; reflexivity.
    + right. split; [unfold Qlt | unfold Qlt]; vm_compute; reflexivity.
    + right. split; [unfold Qlt | unfold Qlt]; vm_compute; reflexivity.
    + right. split; [unfold Qlt | unfold Qlt]; vm_compute; reflexivity.
    + exists q. split; [exact Hq|]. rewrite Eq. reflexivity.
Defined.

(** The resize overflows: with an original width of [Number.MIN_VALUE]
    the scale factor [10 / 5e-324] is [Infinity], the coordinate at the
    origin becomes [0 * Infinity], that is [NaN], and the others
    [Infinity]; and with ordinary numbers, since every move of a resize
    drag rescales the coordinates the previous move computed, an arrow 10
    wide stretched to 100 is at [Infinity] after 308 moves. *)
Lemma proportional_resize_overflows :
  JSNum.div (JSNum.Fin 10) (JSNum.orOne (JSNum.Fin JSNum.MIN_VALUE)) = JSNum.PInf /\
  JSNum.rescale (JSNum.Fin 0) (JSNum.Fin 0) (JSNum.Fin 10)
                (JSNum.Fin 0) (JSNum.Fin JSNum.MIN_VALUE) = JSNum.NaN /\
  JSNum.rescale (JSNum.Fin JSNum.MIN_VALUE) (JSNum.Fin 0) (JSNum.Fin 10)
                (JSNum.Fin 0) (JSNum.Fin JSNum.MIN_VALUE) = JSNum.PInf /\
  (let r := JSNum.resizeArrow
              (mkArrow 0 0 JSNum.MIN_VALUE 7 DEFAULTS.color DEFAULTS.lineWidth)
              (mkBounds 0 0 10 10) (mkBounds 0 0 JSNum.MIN_VALUE 7) in
   fst (fst (fst r)) = JSNum.NaN /\ snd (fst r) = JSNum.PInf) /\
  Nat.iter 308 (JSNum.rescaleAgain 0 100 0 10) (JSNum.Fin 10) = JSNum.PInf.
Proof. vm_compute. repeat split; reflexivity. Qed.

(** ** Snapshots and the point objects *)

(** The strokes of a snapshot hold the addresses of the live points. *)
Lemma snapshot_shares_points (s : State) :
  map stroke_points (entry_strokes (snapshot s)) = map stroke_points (strokes s).
Proof.
  unfold snapshot. cbn [entry_strokes]. rewrite map_map. reflexivity.
Qed.

(** C1 fails on strokes: the entries saved before a stroke is moved read,
    after the move, the moved points; undo then restores the moved stroke. *)
Theorem history_entry_changed_by_move :
  exists s s' s'',
    run strokePicked (loaded ctx0) = Some s /\
    dispatch (MouseMove (at_ 30 50)) s = Some s' /\
    run [MouseUp; KeyUndo] s' = Some s'' /\
    history s' = history s /\
    map (entryPoints (heap s)) (history s) =
      [ []; [[mkPoint 10 10; mkPoint 60 10]]; [[mkPoint 10 10; mkPoint 60 10]] ] /\
    map (entryPoints (heap s')) (history s') =
      [ []; [[mkPoint 10 50; mkPoint 60 50]]; [[mkPoint 10 50; mkPoint 60 50]] ] /\
    historyIndex s'' = 1%Z /\
    map (StrokeM.points (heap s'')) (strokes s'') = [[mkPoint 10 50; mkPoint 60 50]].
Proof.
  eexists _, _, _.
  split; [vm_compute; reflexivity|].
  split; [vm_compute; reflexivity|].
  split; [vm_compute; reflexivity|].
  repeat split; vm_compute; reflexivity.
Qed.

(** ** Undo and redo *)

Lemma copyStroke_id (x : Stroke) : copyStroke x = x.
Proof. destruct x; reflexivity. Qed.

Lemma copyArrow_id (x : Arrow) : copyArrow x = x.
Proof. destruct x; reflexivity. Qed.

Lemma copyRectangle_id (x : Rectangle) : copyRectangle x = x.
Proof. destruct x; reflexivity. Qed.

Lemma copyEllipse_id (x : Ellipse) : copyEllipse x = x.
Proof. destruct x; reflexivity. Qed.

Lemma copyBlur_id (x : BlurRegion) : copyBlur x = x.
Proof. destruct x; reflexivity. Qed.

Lemma copyText_id (x : TextAnnotation) : copyText x = x.
Proof. destruct x; reflexivity. Qed.

Lemma map_copy_id {A} (f : A -> A) (l : list A) : (forall x, f x = x) -> map f l = l.
Proof. intros H. induction l as [|x l IH]; cbn; [reflexivity|]. rewrite H, IH. reflexivity. Qed.

Lemma restoreFromHistory_scene (s s' : State) (e : HistoryEntry) :
  index (history s) (historyIndex s) = Some e ->
  restoreFromHistory s = Some s' ->
  scene s' = (entry_strokes e, entry_arrows e, entry_rectangles e,
              entry_ellipses e, entry_blurs e, entry_texts e) /\
  history s' = history s /\ historyIndex s' = historyIndex s.
Proof.
  unfold restoreFromHistory. cbn [history historyIndex clearSelection].
  change (history (clearSelection s)) with (history s).
  change (historyIndex (clearSelection s)) with (historyIndex s).
  intros ->. intros [= <-]. unfold scene. cbn.
  rewrite (map_copy_id _ _ copyStroke_id), (map_copy_id _ _ copyArrow_id),
    (map_copy_id _ _ copyRectangle_id), (map_copy_id _ _ copyEllipse_id),
    (map_copy_id _ _ copyBlur_id), (map_copy_id _ _ copyText_id).
  repeat split; reflexivity.
Qed.

Lemma restoreFromHistory_history (s s' : State) :
  restoreFromHistory s = Some s' ->
  history s' = history s /\ historyIndex s' = historyIndex s.
Proof.
  unfold restoreFromHistory.
  destruct (index (history (clearSelection s)) (historyIndex (clearSelection s)));
    [|discriminate].
  intros [= <-]. split; reflexivity.
Qed.

(** With the history in range, undo and redo do not throw. *)
Lemma undo_total (s : State) :
  (historyIndex s < Z.of_nat (length (history s)))%Z -> exists s', undo s = Some s'.
Proof.
  intros H. unfold undo. destruct (Z.ltb_spec 0 (historyIndex s)); [|eauto].
  unfold restoreFromHistory, index. cbn.
  destruct (Z.ltb_spec (historyIndex s - 1) 0); [lia|].
  destruct (history s !! Z.to_nat (historyIndex s - 1)) eqn:E; [eauto|].
  apply lookup_ge_None in E. lia.
Qed.

Lemma redo_total (s : State) :
  (-1 <= historyIndex s)%Z -> exists s', redo s = Some s'.
Proof.
  intros H. unfold redo.
  destruct (Z.ltb_spec (historyIndex s) (Z.of_nat (length (history s)) - 1)); [|eauto].
  unfold restoreFromHistory, index. cbn.
  destruct (Z.ltb_spec (historyIndex s + 1) 0); [lia|].
  destruct (history s !! Z.to_nat (historyIndex s + 1)) eqn:E; [eauto|].
  apply lookup_ge_None in E. lia.
Qed.

(** When the entry at [historyIndex] is the snapshot of the live lists,
    undo then redo gives the live lists back. *)
Lemma undo_redo_synced (s : State) :
  (0 < historyIndex s)%Z ->
  index (history s) (historyIndex s) = Some (snapshot s) ->
  exists s1 s2, undo s = Some s1 /\ redo s1 = Some s2 /\ scene s2 = scene s /\
                history s2 = history s /\ historyIndex s2 = historyIndex s.
Proof.
  intros Hpos Hcur.
  assert (Hlen : (historyIndex s < Z.of_nat (length (history s)))%Z).
  { unfold index in Hcur. destruct (Z.ltb_spec (historyIndex s) 0); [lia|].
    apply lookup_lt_Some in Hcur. lia. }
  destruct (undo_total s Hlen) as [s1 H1]. exists s1.
  assert (F1 : history s1 = history s /\ historyIndex s1 = (historyIndex s - 1)%Z).
  { unfold undo in H1. rewrite (proj2 (Z.ltb_lt _ _) Hpos) in H1.
    apply restoreFromHistory_history in H1. exact H1. }
  destruct F1 as [F1 F2].
  destruct (redo_total s1) as [s2 H2]; [lia|]. exists s2.
  split; [exact H1|]. split; [exact H2|].
  unfold redo in H2. rewrite F1, F2 in H2.
  rewrite (proj2 (Z.ltb_lt (historyIndex s - 1) (Z.of_nat (length (history s)) - 1)))
    in H2 by lia.
  destruct (restoreFromHistory_scene (setHistoryIndex (historyIndex s - 1 + 1) s1)
              s2 (snapshot s)) as (G1 & G2 & G3); [|exact H2|].
  - cbn. rewrite F1. replace (historyIndex s - 1 + 1)%Z with (historyIndex s) by lia.
    exact Hcur.
  - cbn in G2, G3. rewrite G1, G2, G3, F1.
    unfold snapshot, scene. cbn.
    rewrite (map_copy_id _ _ copyStroke_id), (map_copy_id _ _ copyArrow_id),
      (map_copy_id _ _ copyRectangle_id), (map_copy_id _ _ copyEllipse_id),
      (map_copy_id _ _ copyBlur_id), (map_copy_id _ _ copyText_id).
    split; [reflexivity|]. split; [reflexivity|lia].
Qed.

(** C2 fails after a move: the snapshot is taken when the drag starts, so
    the entry at [historyIndex] holds the rectangle before the move, and
    undo then redo puts it back there instead of where it was moved. *)
Theorem undo_redo_loses_move :
  exists s s1 s2,
    run rectangleMoved (loaded ctx0) = Some s /\
    (0 < historyIndex s)%Z /\
    undo s = Some s1 /\ redo s1 = Some s2 /\
    rectangles s = [rectangleAt 110 120] /\
    rectangles s1 = [rectangleAt 100 100] /\
    rectangles s2 = [rectangleAt 100 100] /\
    scene s2 <> scene s.
Proof.
  eexists _, _, _.
  split; [vm_compute; reflexivity|].
  split; [reflexivity|].
  split; [vm_compute; reflexivity|].
  split; [vm_compute; reflexivity|].
  split; [reflexivity|]. split; [reflexivity|]. split; [reflexivity|].
  intros H. vm_compute in H. discriminate H.
Qed.

(** ** The history cap *)

Lemma entryScene_snapshot (s : State) : entryScene (snapshot s) = scene s.
Proof.
  unfold entryScene, snapshot, scene. cbn.
  rewrite (map_copy_id _ _ copyStroke_id), (map_copy_id _ _ copyArrow_id),
    (map_copy_id _ _ copyRectangle_id), (map_copy_id _ _ copyEllipse_id),
    (map_copy_id _ _ copyBlur_id), (map_copy_id _ _ copyText_id).
  reflexivity.
Qed.

Lemma withScene_scene (sc : Scene) (s : State) : scene (withScene sc s) = sc.
Proof. destruct sc as [[[[[st ar] re] el] bl] te]. reflexivity. Qed.

Lemma withScene_history (sc : Scene) (s : State) :
  history (withScene sc s) = history s /\ historyIndex (withScene sc s) = historyIndex s.
Proof. destruct sc as [[[[[st ar] re] el] bl] te]. split; reflexivity. Qed.

Lemma withScene_same (s : State) : withScene (scene s) s = s.
Proof. destruct s. reflexivity. Qed.

Lemma savesOf_snoc (scs : list Scene) (sc : Scene) (s : State) :
  savesOf (scs ++ [sc]) s = saveToHistory (withScene sc (savesOf scs s)).
Proof. unfold savesOf. rewrite foldl_app. reflexivity. Qed.

(** Consecutive saves are saves of the same scene. *)
Lemma saves_savesOf (n : nat) (s : State) :
  saves n s = savesOf (replicate n (scene s)) s.
Proof.
  induction n as [|n IH]; [reflexivity|].
  replace (S n) with (n + 1)%nat at 2 by lia.
  rewrite replicate_add. cbn [replicate]. rewrite savesOf_snoc, <- IH.
  assert (E : withScene (scene s) (saves n s) = saves n s)
    by (rewrite <- (saves_scene n s); apply withScene_same).
  rewrite E. reflexivity.
Qed.

(** The scenes of the entries after saves from a history whose newest
    entry is the current one: the last 20 of those of the entries and of
    the scenes saved. *)
Lemma savesOf_history (scs : list Scene) : forall s,
  historyIndex s = (Z.of_nat (length (history s)) - 1)%Z ->
  (length (history s) <= HISTORY.maxEntries)%nat ->
  let all := map entryScene (history s) ++ scs in
  map entryScene (history (savesOf scs s))
  = drop (length all - HISTORY.maxEntries) all /\
  historyIndex (savesOf scs s)
  = (Z.of_nat (length (history (savesOf scs s))) - 1)%Z.
Proof.
  induction scs as [|sc scs IH]; intros s Hi Hl; cbn zeta.
  - rewrite app_nil_r, length_map.
    replace (length (history s) - HISTORY.maxEntries)%nat with 0%nat by lia.
    split; [reflexivity | exact Hi].
  - destruct (withScene_history sc s) as [Wh Wi].
    change (savesOf (sc :: scs) s) with (savesOf scs (saveToHistory (withScene sc s))).
    set (s1 := saveToHistory (withScene sc s)).
    assert (Hs : entryScene (snapshot (withScene sc s)) = sc)
      by (rewrite entryScene_snapshot; apply withScene_scene).
    destruct (decide (length (history s) < HISTORY.maxEntries)%nat) as [Hlt|Hge].
    + destruct (saveToHistory_append (withScene sc s)) as [E1 E2];
        [rewrite Wh, Wi; exact Hi | rewrite Wh; exact Hlt |].
      fold s1 in E1, E2. rewrite Wh in E1, E2.
      destruct (IH s1) as [G1 G2].
      * rewrite E1, E2, length_app. cbn [length]. lia.
      * rewrite E1, length_app. cbn [length]. lia.
      * cbn zeta in G1. rewrite E1, map_app in G1. cbn [map] in G1.
        rewrite Hs, <- app_assoc in G1. cbn [app] in G1.
        split; [exact G1 | exact G2].
    + assert (Heq : length (history s) = HISTORY.maxEntries) by lia.
      destruct (saveToHistory_evict (withScene sc s)) as [E1 E2];
        [rewrite Wh, Wi; exact Hi | rewrite Wh; exact Heq |].
      fold s1 in E1, E2. rewrite Wh in E1.
      destruct (history s) as [|e l] eqn:Eh; [discriminate Heq|].
      cbn [tail] in E1. cbn [length] in Heq.
      assert (Hl1 : length (history s1) = HISTORY.maxEntries).
      { rewrite E1, length_app. cbn [length]. lia. }
      destruct (IH s1) as [G1 G2].
      * rewrite E2, Hl1. reflexivity.
      * rewrite Hl1. lia.
      * cbn zeta in G1. rewrite E1, map_app in G1. cbn [map] in G1.
        rewrite Hs, <- app_assoc in G1. cbn [app] in G1.
        split; [|exact G2]. rewrite G1. cbn [map app].
        rewrite !length_app, length_map. cbn [length]. rewrite length_app, length_map.
        cbn [length].
        unfold HISTORY.maxEntries in *.
        match goal with
        | |- drop ?n _ = drop ?m (_ :: _) => replace m with (S n) by lia
        end.
        reflexivity.
Qed.

(** C5.  From an empty history, [N <= 20] consecutive saves leave exactly
    [N] entries with [historyIndex = N - 1].  Whatever the six lists are
    at each save, the entries hold the scenes saved, in the order of the
    saves, and only the last 20 of them: after a 21st save there are
    exactly 20 entries, the scene of the first save is gone, the scenes of
    the 2nd to the 21st save are at the places 0 to 19, so the 21st is the
    newest, and [historyIndex] is 19, one less than the place the 21st
    entry was pushed at. *)
Theorem saveToHistory_capped (s : State) (scs : list Scene) :
  history s = [] -> historyIndex s = (-1)%Z ->
  (forall N, (N <= 20)%nat ->
     saves N s = savesOf (replicate N (scene s)) s /\
     length (history (saves N s)) = N /\
     historyIndex (saves N s) = (Z.of_nat N - 1)%Z) /\
  map entryScene (history (savesOf scs s)) = drop (length scs - 20) scs /\
  length (history (savesOf scs s)) = Nat.min (length scs) 20 /\
  historyIndex (savesOf scs s) = (Z.of_nat (Nat.min (length scs) 20) - 1)%Z /\
  ((length scs <= 20)%nat -> map entryScene (history (savesOf scs s)) = scs) /\
  (forall first rest,
     scs = first :: rest -> length rest = 20%nat ->
     map entryScene (history (savesOf scs s)) = rest /\
     (forall i, (i < 20)%nat ->
        entryScene <$> history (savesOf scs s) !! i = scs !! S i) /\
     length (history (savesOf scs s)) = 20%nat /\
     historyIndex (savesOf scs s) = 19%Z).
Proof.
  intros Hh Hi.
  destruct (savesOf_history scs s) as [G1 G2];
    [rewrite Hh, Hi; reflexivity | rewrite Hh; cbn; lia |].
  cbn zeta in G1. rewrite Hh in G1. cbn [map app] in G1.
  unfold HISTORY.maxEntries in G1. unfold Scene in *.
  assert (Hlen : length (history (savesOf scs s)) = Nat.min (length scs) 20).
  { rewrite <- (length_map entryScene), G1, length_drop.
    generalize (length scs). intros n.
    destruct (Nat.min_spec n 20) as [[? ->]|[? ->]]; lia. }
  split; [|split; [exact G1|split; [exact Hlen|split; [rewrite G2, Hlen; reflexivity|]]]].
  - intros N HN. split; [apply saves_savesOf|].
    destruct (saves_history N s Hh Hi HN) as [E1 E2].
    rewrite E1, length_replicate. split; [reflexivity | exact E2].
  - split.
    + intros Hle. rewrite G1.
      replace (length scs - 20)%nat with 0%nat by lia. reflexivity.
    + intros first rest -> Hr. cbn [length] in *. rewrite Hr in *.
      assert (E : map entryScene (history (savesOf (first :: rest) s)) = rest)
        by (rewrite G1; reflexivity).
      split; [exact E|]. split; [|split; [exact Hlen | rewrite G2, Hlen; reflexivity]].
      intros i _. rewrite <- list_lookup_fmap.
      change (map entryScene (history (savesOf (first :: rest) s)) !! i = rest !! i).
      rewrite E. reflexivity.
Qed.

Lemma saveToHistory_capped_witness :
  history (initialState ctx0) = [] /\ historyIndex (initialState ctx0) = (-1)%Z /\
  map entryScene (history (savesOf (map sceneOf (map Z.of_nat (seq 1 21)))
                                   (initialState ctx0)))
  = map sceneOf (map Z.of_nat (seq 2 20)) /\
  entryScene <$> history (savesOf (map sceneOf (map Z.of_nat (seq 1 21)))
                                  (initialState ctx0)) !! 0%nat
  = Some (sceneOf 2) /\
  entryScene <$> history (savesOf (map sceneOf (map Z.of_nat (seq 1 21)))
                                  (initialState ctx0)) !! 19%nat
  = Some (sceneOf 21) /\
  historyIndex (savesOf (map sceneOf (map Z.of_nat (seq 1 21))) (initialState ctx0))
  = 19%Z.
Proof.
  split; [reflexivity|]. split; [reflexivity|].
  destruct (saveToHistory_capped (initialState ctx0)
              (map sceneOf (map Z.of_nat (seq 1 21))) eq_refl eq_refl)
    as (_ & _ & _ & _ & _ & H).
  destruct (H (sceneOf 1) (map sceneOf (map Z.of_nat (seq 2 20))) eq_refl eq_refl)
    as (E & L & _ & I).
  split; [exact E|]. split; [exact (L 0%nat ltac:(lia))|].
  split; [exact (L 19%nat ltac:(lia)) | exact I].
Defined.

(** ** The scenario of the specification *)

(** A rectangle drawn from [(100, 100)] to [(300, 250)] has bounds
    [{100, 100, 200, 150}]; dragging its south-east handle by [(50, 50)]
    gives [{100, 100, 250, 200}]; one undo gives the first bounds back. *)
Example scenario_resize_undo :
  exists s1 s2 s3,
    run (drag RECTANGLE 100 100 300 250 ++ [MouseUp]) (loaded ctx0) = Some s1 /\
    run [KeyTool SELECT; MouseDown (at_ 200 200); MouseUp;
         MouseDown (at_ 300 250); MouseMove (at_ 350 300); MouseUp] s1 = Some s2 /\
    run [KeyUndo] s2 = Some s3 /\
    (RectangleM.getBounds <$> rectangles s1) = [mkBounds 100 100 200 150] /\
    (RectangleM.getBounds <$> rectangles s2) = [mkBounds 100 100 250 200] /\
    (RectangleM.getBounds <$> rectangles s3) = [mkBounds 100 100 200 150].
Proof.
  eexists _, _, _.
  split; [vm_compute; reflexivity|].
  split; [vm_compute; reflexivity|].
  split; [vm_compute; reflexivity|].
  repeat split.
Qed.

(** ["resize-nw"] contains an ["e"] and an ["s"], so the north-west handle
    moves the box and keeps its size. *)
Example resizedBounds_nw (dx dy : Q) (B : Bounds) :
  10 <= b_width B -> 10 <= b_height B ->
  Bounds_eq (resizedBounds ResizeNW dx dy B)
            (mkBounds (b_x B + dx) (b_y B + dy) (b_width B) (b_height B)).
Proof.
  intros Hw Hh. unfold resizedBounds.
  change (includes ResizeNW "w") with true. change (includes ResizeNW "e") with true.
  change (includes ResizeNW "n") with true. change (includes ResizeNW "s") with true.
  cbn [b_x b_y b_width b_height].
  destruct (Qltb (b_width B - dx + dx) 10) eqn:F1; [apply Qltb_lt in F1; lra|].
  cbn [b_x b_y b_width b_height].
  destruct (Qltb (b_height B - dy + dy) 10) eqn:F2; [apply Qltb_lt in F2; lra|].
  unfold Bounds_eq. cbn [b_x b_y b_width b_height]. repeat split; ring.
Qed.

(** * Further properties *)

(** ** The history in every reachable state *)

Lemma slice0_take {A} (e : Z) (l : list A) :
  (0 <= e)%Z -> slice0 e l = take (Z.to_nat e) l.
Proof.
  intros H. unfold slice0. destruct (Z.ltb_spec e 0); [lia | reflexivity].
Qed.

(** The history after a save: the entries up to [historyIndex], then the
    snapshot, without the oldest entry when that makes 21. *)
Lemma saveToHistory_history (s : State) :
  (-1 <= historyIndex s < Z.of_nat (length (history s)))%Z ->
  let kept := take (Z.to_nat (historyIndex s + 1)) (history s) in
  history (saveToHistory s) =
    (if (HISTORY.maxEntries <? length kept + 1)%nat
     then tail (kept ++ [snapshot s]) else kept ++ [snapshot s]) /\
  historyIndex (saveToHistory s) = (Z.of_nat (length (history (saveToHistory s))) - 1)%Z.
Proof.
  intros H. cbn zeta. unfold saveToHistory.
  assert (E : (if (historyIndex s <? Z.of_nat (length (history s)) - 1)%Z
               then slice0 (historyIndex s + 1) (history s) else history s)
              = take (Z.to_nat (historyIndex s + 1)) (history s)).
  { destruct (Z.ltb_spec (historyIndex s) (Z.of_nat (length (history s)) - 1)).
    - apply slice0_take. lia.
    - rewrite take_ge; [reflexivity | lia]. }
  rewrite E. rewrite length_app. cbn [length].
  set (kept := take (Z.to_nat (historyIndex s + 1)) (history s)).
  destruct (HISTORY.maxEntries <? length kept + 1)%nat eqn:F; cbn.
  - split; [reflexivity|].
    apply Nat.ltb_lt in F.
    destruct kept as [|e kept']; cbn in *; [unfold HISTORY.maxEntries in F; lia|].
    rewrite length_app. cbn. lia.
  - split; [reflexivity|]. rewrite length_app. cbn. lia.
Qed.

Lemma saveToHistory_histOK (s : State) : histRange s -> histOK (saveToHistory s).
Proof.
  intros [H Hcap]. destruct (saveToHistory_history s H) as [E1 E2]. cbn zeta in E1.
  set (kept := take (Z.to_nat (historyIndex s + 1)) (history s)) in *.
  assert (Hk : length kept = Z.to_nat (historyIndex s + 1)).
  { subst kept. rewrite length_take. lia. }
  unfold histOK. rewrite E2.
  assert (Hlen : (1 <= length (history (saveToHistory s)) <= HISTORY.maxEntries)%nat).
  { rewrite E1. unfold HISTORY.maxEntries in *.
    destruct (20 <? length kept + 1)%nat eqn:F.
    - apply Nat.ltb_lt in F.
      destruct kept as [|e kept']; cbn in *; [lia|].
      rewrite length_app. cbn. lia.
    - apply Nat.ltb_ge in F. rewrite length_app. cbn. lia. }
  split; [exact Hlen | lia].
Qed.

Lemma histOK_histRange (s : State) : histOK s -> histRange s.
Proof. intros [[H1 H2] [H3 H4]]. split; [lia | exact H2]. Qed.

Lemma histStep_histOK (s s' : State) : histOK s -> histStep s s' -> histOK s'.
Proof.
  intros H [[E1 E2]|(t & E1 & E2 & E3 & E4)].
  - unfold histOK. rewrite E1, E2. exact H.
  - assert (Ht : histOK (saveToHistory t)).
    { apply saveToHistory_histOK, histOK_histRange.
      unfold histOK. rewrite E1, E2. exact H. }
    unfold histOK. rewrite E3, E4. exact Ht.
Qed.

Lemma histStep_same (s s' : State) :
  history s' = history s -> historyIndex s' = historyIndex s -> histStep s s'.
Proof. intros H1 H2. left. split; assumption. Qed.

Lemma histStep_save (s t s' : State) :
  history t = history s -> historyIndex t = historyIndex s ->
  history s' = history (saveToHistory t) ->
  historyIndex s' = historyIndex (saveToHistory t) -> histStep s s'.
Proof. intros H1 H2 H3 H4. right. exists t. repeat split; assumption. Qed.

Lemma confirmTextInput_histStep (s : State) : histStep s (confirmTextInput s).
Proof.
  unfold confirmTextInput.
  destruct (pendingText s) as [p|]; [destruct (nonEmpty _)|];
    try (apply histStep_same; reflexivity).
  eapply histStep_save; [| |reflexivity|reflexivity]; reflexivity.
Qed.

Lemma handleSelectMouseDown_histStep (c : Coords) (s : State) :
  histStep s (handleSelectMouseDown c s).
Proof.
  unfold handleSelectMouseDown.
  match goal with |- histStep _ (match ?h with _ => _ end) =>
    destruct h as [[handle bounds]|] end.
  - eapply histStep_save; [| |reflexivity|reflexivity]; reflexivity.
  - destruct (findAnnotationAtPoint s (c_x c) (c_y c)) as [hit|].
    + eapply histStep_save; [| |reflexivity|reflexivity]; reflexivity.
    + apply histStep_same; reflexivity.
Qed.

Lemma storeAnnotation_history (i : nat) (a : Annotation) (s : State) :
  history (storeAnnotation i a s) = history s /\
  historyIndex (storeAnnotation i a s) = historyIndex s.
Proof. destruct a; split; reflexivity. Qed.

Lemma handleSelectMouseMove_history (c : Coords) (s : State) :
  history (handleSelectMouseMove c s) = history s /\
  historyIndex (handleSelectMouseMove c s) = historyIndex s.
Proof.
  unfold handleSelectMouseMove.
  destruct (selectedAnnotation s) as [sel|]; [|split; reflexivity].
  destruct (selectedIndex s) as [i|]; [|split; reflexivity].
  destruct (dragMode s) as [[]|]; try (split; reflexivity);
    try (destruct (originalBounds s) as [ob|]; [|split; reflexivity];
         destruct (resizeAnnotation _ _ _ _ _ _) as [h a];
         apply (storeAnnotation_history i a (setHeap h s))).
  destruct (moveAnnotation _ _ _ _) as [h a].
  apply (storeAnnotation_history i a (setHeap h s)).
Qed.

Lemma handleMouseDown_histStep (c : Coords) (s : State) :
  histStep s (handleMouseDown c s).
Proof.
  unfold handleMouseDown. destruct (isEditingText s).
  - apply confirmTextInput_histStep.
  - destruct (currentTool s); try (apply histStep_same; reflexivity).
    apply handleSelectMouseDown_histStep.
Qed.

Lemma handleMouseMove_histStep (c : Coords) (s : State) :
  histStep s (handleMouseMove c s).
Proof.
  unfold handleMouseMove.
  destruct (_ && _); [apply histStep_same; apply handleSelectMouseMove_history|].
  destruct (negb (isDrawing s)); [apply histStep_same; reflexivity|].
  apply histStep_same;
    (destruct (currentTool s); try (unfold scheduleShapeRedraw; cbn;
       destruct (rafId s); reflexivity);
     destruct (currentStroke s); [reflexivity|];
     unfold scheduleShapeRedraw; cbn; destruct (rafId s); reflexivity).
Qed.

Lemma handleMouseUp_histStep (s : State) : histStep s (handleMouseUp s).
Proof.
  unfold handleMouseUp.
  set (s0 := setIsDrawing false
               (if rafId s then setPendingCoords None (setRafId false s) else s)).
  assert (H0 : history s0 = history s /\ historyIndex s0 = historyIndex s)
    by (subst s0; destruct (rafId s); split; reflexivity).
  destruct H0 as [H1 H2].
  destruct (currentTool s); [apply histStep_same; reflexivity|..];
    (destruct (negb (isDrawing s)); [apply histStep_same; reflexivity|]);
    clearbody s0;
    repeat case_match;
    first [ apply histStep_same; assumption
          | eapply histStep_save; [| |reflexivity|reflexivity]; assumption ].
Qed.

Lemma restoreFromHistory_histOK (s s' : State) :
  histOK s -> restoreFromHistory s = Some s' -> histOK s'.
Proof.
  intros H E. apply restoreFromHistory_history in E as [E1 E2].
  unfold histOK. rewrite E1, E2. exact H.
Qed.

Lemma undo_histOK (s : State) : histOK s -> exists s', undo s = Some s' /\ histOK s'.
Proof.
  intros H. destruct (undo_total s) as [s' E]; [destruct H as [_ H]; lia|].
  exists s'. split; [exact E|].
  unfold undo in E. destruct (Z.ltb_spec 0 (historyIndex s)).
  - eapply restoreFromHistory_histOK; [|exact E].
    destruct H as [H1 H2]. split; cbn; [exact H1 | lia].
  - injection E as <-. exact H.
Qed.

Lemma redo_histOK (s : State) : histOK s -> exists s', redo s = Some s' /\ histOK s'.
Proof.
  intros H. destruct (redo_total s) as [s' E]; [destruct H as [_ H]; lia|].
  exists s'. split; [exact E|].
  unfold redo in E.
  destruct (Z.ltb_spec (historyIndex s) (Z.of_nat (length (history s)) - 1)).
  - eapply restoreFromHistory_histOK; [|exact E].
    destruct H as [H1 H2]. split; cbn; [exact H1 | lia].
  - injection E as <-. exact H.
Qed.

Lemma toolbarClick_histOK (btn : ToolButton) (s : State) :
  histOK s -> exists s', toolbarClick btn s = Some s' /\ histOK s'.
Proof.
  intros H. destruct btn as [| |tool]; cbn [toolbarClick].
  - apply undo_histOK, H.
  - apply redo_histOK, H.
  - eexists. split; [reflexivity|].
    eapply histStep_histOK; [exact H|]. apply histStep_same;
      destruct (isEditingText s); destruct (_ && _); reflexivity.
Qed.

Lemma dispatch_histOK (e : Event) (s : State) :
  histOK s -> exists s', dispatch e s = Some s' /\ histOK s'.
Proof.
  intros H. destruct e; cbn [dispatch];
    try (eexists; split; [reflexivity|]; eapply histStep_histOK; [exact H|];
         first [ apply handleMouseDown_histStep
               | apply handleMouseMove_histStep
               | apply handleMouseUp_histStep
               | apply confirmTextInput_histStep
               | apply histStep_same; reflexivity ]).
  - eexists. split; [reflexivity|]. eapply histStep_histOK; [exact H|].
    apply histStep_same; (destruct (rafId s); [|reflexivity]);
      unfold shapeRedraw; repeat case_match; reflexivity.
  - apply toolbarClick_histOK, H.
  - destruct (isEditingText s); [eauto | apply undo_histOK, H].
  - destruct (isEditingText s); [eauto | apply redo_histOK, H].
  - destruct (isEditingText s); [eauto | apply toolbarClick_histOK, H].
  - eexists. split; [reflexivity|]. eapply histStep_histOK; [exact H|].
    apply histStep_same; destruct (isEditingText s); reflexivity.
  - eexists. split; [reflexivity|]. eapply histStep_histOK; [exact H|].
    destruct (isEditingText s); [apply confirmTextInput_histStep|].
    apply histStep_same; reflexivity.
Qed.

Lemma loaded_histOK (c : Ctx) : histOK (loaded c).
Proof.
  assert (E1 : history (loaded c) = [snapshot (initialState c)]) by reflexivity.
  assert (E2 : historyIndex (loaded c) = 0%Z) by reflexivity.
  unfold histOK. rewrite E1, E2. cbn [length]. unfold HISTORY.maxEntries. lia.
Qed.

(** X1.  From a state whose history is in range, every sequence of events
    runs to the end: undo and redo never read a missing entry; and in the
    state reached the history still holds between 1 and 20 entries, with
    [historyIndex] designating one of them. *)
Theorem run_history_in_range (events : list Event) (s : State) :
  histOK s ->
  exists s', run events s = Some s' /\
             (1 <= length (history s') <= 20)%nat /\
             (0 <= historyIndex s' < Z.of_nat (length (history s')))%Z /\
             is_Some (index (history s') (historyIndex s')).
Proof.
  revert s. induction events as [|e rest IH]; intros s H; cbn [run].
  - exists s. split; [reflexivity|]. destruct H as [H1 H2].
    split; [exact H1|]. split; [exact H2|].
    unfold index. destruct (Z.ltb_spec (historyIndex s) 0); [lia|].
    apply lookup_lt_is_Some. lia.
  - destruct (dispatch_histOK e s H) as (s1 & E & H1). rewrite E.
    apply IH, H1.
Qed.

Lemma run_history_in_range_witness :
  histOK (loaded ctx0) /\
  exists s', run (rectangleMoved ++ [KeyUndo; KeyUndo; KeyUndo; KeyRedo]) (loaded ctx0)
               = Some s' /\
             (1 <= length (history s') <= 20)%nat /\
             (0 <= historyIndex s' < Z.of_nat (length (history s')))%Z /\
             is_Some (index (history s') (historyIndex s')).
Proof.
  pose proof (loaded_histOK ctx0) as H.
  split; [exact H|].
  exact (run_history_in_range _ (loaded ctx0) H).
Defined.

(** ** Saving, undo and redo *)

(** Undo with an entry below [historyIndex] restores that entry. *)
Lemma undo_restores (s : State) (e : HistoryEntry) :
  (0 < historyIndex s)%Z ->
  index (history s) (historyIndex s - 1) = Some e ->
  exists s1, undo s = Some s1 /\ scene s1 = entryScene e /\
             history s1 = history s /\ historyIndex s1 = (historyIndex s - 1)%Z /\
             selectedType s1 = None.
Proof.
  intros Hpos He. unfold undo. rewrite (proj2 (Z.ltb_lt _ _) Hpos).
  assert (E : index (history (setHistoryIndex (historyIndex s - 1) s))
                    (historyIndex (setHistoryIndex (historyIndex s - 1) s)) = Some e)
    by exact He.
  destruct (restoreFromHistory (setHistoryIndex (historyIndex s - 1) s)) as [s1|] eqn:R.
  - exists s1. split; [reflexivity|].
    destruct (restoreFromHistory_scene _ s1 e E R) as (G1 & G2 & G3).
    split; [exact G1|]. split; [exact G2|]. split; [exact G3|].
    unfold restoreFromHistory in R.
    change (index (history (clearSelection (setHistoryIndex (historyIndex s - 1) s)))
                  (historyIndex (clearSelection (setHistoryIndex (historyIndex s - 1) s))))
      with (index (history (setHistoryIndex (historyIndex s - 1) s))
                  (historyIndex (setHistoryIndex (historyIndex s - 1) s))) in R.
    rewrite E in R. injection R as <-. reflexivity.
  - exfalso. unfold restoreFromHistory in R.
    change (index (history (clearSelection (setHistoryIndex (historyIndex s - 1) s)))
                  (historyIndex (clearSelection (setHistoryIndex (historyIndex s - 1) s))))
      with (index (history (setHistoryIndex (historyIndex s - 1) s))
                  (historyIndex (setHistoryIndex (historyIndex s - 1) s))) in R.
    rewrite E in R. discriminate.
Qed.

(** The history after a save from a state in range. *)
Lemma saveToHistory_kept (s : State) :
  histOK s ->
  let n := Z.to_nat (historyIndex s + 1) in
  history (saveToHistory s) =
    (if (n =? HISTORY.maxEntries)%nat then drop 1 (take n (history s))
     else take n (history s)) ++ [snapshot s] /\
  historyIndex (saveToHistory s) = (Z.of_nat (length (history (saveToHistory s))) - 1)%Z /\
  length (take n (history s)) = n /\ (1 <= n <= HISTORY.maxEntries)%nat.
Proof.
  intros [[H1 H2] [H3 H4]]. cbn zeta.
  destruct (saveToHistory_history s) as [E1 E2]; [lia|]. cbn zeta in E1.
  set (n := Z.to_nat (historyIndex s + 1)) in *.
  assert (Hn : length (take n (history s)) = n) by (rewrite length_take; lia).
  assert (Hr : (1 <= n <= HISTORY.maxEntries)%nat) by (unfold HISTORY.maxEntries in *; lia).
  split; [|split; [exact E2|split; [exact Hn|exact Hr]]].
  rewrite E1, Hn. unfold HISTORY.maxEntries in *.
  destruct (Nat.eqb_spec n 20) as [En|En].
  - replace (20 <? n + 1)%nat with true by (symmetry; apply Nat.ltb_lt; lia).
    destruct (take n (history s)) as [|e l] eqn:T; [cbn in Hn; lia|]. reflexivity.
  - replace (20 <? n + 1)%nat with false by (symmetry; apply Nat.ltb_ge; lia).
    reflexivity.
Qed.

(** X2.  A save keeps the entries up to [historyIndex] (without the oldest
    one when there are 20), drops the entries after it and appends the
    snapshot; after it redo does nothing, and the entry at [historyIndex]
    is the snapshot of the live lists. *)
Theorem saveToHistory_discards_redo (s : State) :
  histOK s ->
  let n := Z.to_nat (historyIndex s + 1) in
  history (saveToHistory s) =
    (if (n =? 20)%nat then drop 1 (take n (history s)) else take n (history s))
    ++ [snapshot s] /\
  redo (saveToHistory s) = Some (saveToHistory s) /\
  synced (saveToHistory s).
Proof.
  intros H. cbn zeta.
  destruct (saveToHistory_kept s H) as (E1 & E2 & E3 & E4). cbn zeta in E1.
  split; [exact E1|]. split.
  - unfold redo. rewrite E2, Z.ltb_irrefl. reflexivity.
  - unfold synced, index. rewrite E2.
    set (l := if (_ =? _)%nat then _ else _) in E1.
    rewrite E1, length_app. cbn [length].
    destruct (Z.ltb_spec (Z.of_nat (length l + 1) - 1) 0); [lia|].
    replace (Z.to_nat (Z.of_nat (length l + 1) - 1)) with (length l + 0)%nat by lia.
    rewrite lookup_app_r by lia.
    replace (length l + 0 - length l)%nat with 0%nat by lia. cbn.
    f_equal. apply snapshot_scene. symmetry. apply saveToHistory_scene.
Qed.

Lemma saveToHistory_discards_redo_witness :
  exists s, run (rectangleMoved ++ [KeyUndo; KeyUndo]) (loaded ctx0) = Some s /\
            histOK s /\ length (history s) = 3%nat /\ historyIndex s = 0%Z /\
            length (history (saveToHistory s)) = 2%nat /\
            redo (saveToHistory s) = Some (saveToHistory s).
Proof.
  eexists. split; [vm_compute; reflexivity|].
  match goal with |- histOK ?s /\ _ => assert (H : histOK s) end.
  { split; cbn; unfold HISTORY.maxEntries; lia. }
  split; [exact H|]. split; [reflexivity|]. split; [reflexivity|].
  destruct (saveToHistory_discards_redo _ H) as (E1 & E2 & _).
  split; [reflexivity | exact E2].
Defined.

(** After a save, undo gives the lists of the entry that was current
    before the save. *)
Lemma undo_after_save_entry (s t s' : State) (e : HistoryEntry) :
  histOK s -> index (history s) (historyIndex s) = Some e ->
  history t = history s -> historyIndex t = historyIndex s ->
  history s' = history (saveToHistory t) ->
  historyIndex s' = historyIndex (saveToHistory t) ->
  exists s1, undo s' = Some s1 /\ scene s1 = entryScene e /\ selectedType s1 = None.
Proof.
  intros H He Hh Hi Hh' Hi'.
  assert (Ht : histOK t) by (unfold histOK; rewrite Hh, Hi; exact H).
  destruct (saveToHistory_kept t Ht) as (E1 & E2 & E3 & E4). cbn zeta in E1.
  rewrite Hh, Hi in E1. rewrite Hh, Hi in E3. rewrite Hi in E4.
  set (n := Z.to_nat (historyIndex s + 1)) in *.
  set (l := if (n =? HISTORY.maxEntries)%nat then drop 1 (take n (history s))
            else take n (history s)) in *.
  assert (Hl : (1 <= length l)%nat /\
               l !! (length l - 1)%nat = history s !! (n - 1)%nat).
  { subst l. unfold HISTORY.maxEntries in *. destruct (Nat.eqb_spec n 20) as [En|En].
    - rewrite length_drop, E3. split; [lia|].
      rewrite lookup_drop, lookup_take_lt by lia. f_equal. lia.
    - rewrite E3. split; [lia|]. rewrite lookup_take_lt by lia. reflexivity. }
  destruct Hl as [Hl1 Hl2].
  destruct (undo_restores s' e) as (s1 & U & S1 & _ & _ & S2).
  - rewrite Hi', E2, E1, length_app. cbn [length]. lia.
  - rewrite Hh', Hi', E2, E1, length_app. cbn [length]. unfold index.
    destruct (Z.ltb_spec (Z.of_nat (length l + 1) - 1 - 1) 0); [lia|].
    replace (Z.to_nat (Z.of_nat (length l + 1) - 1 - 1)) with (length l - 1)%nat by lia.
    rewrite lookup_app_l by lia. rewrite Hl2.
    unfold index in He. destruct H as [_ [H3 H4]].
    destruct (Z.ltb_spec (historyIndex s) 0); [lia|].
    replace (n - 1)%nat with (Z.to_nat (historyIndex s)) by lia. exact He.
  - exists s1. split; [exact U|]. split; [exact S1 | exact S2].
Qed.

Lemma histOK_entry (s : State) :
  histOK s -> exists e, index (history s) (historyIndex s) = Some e.
Proof.
  intros [_ [H1 H2]]. unfold index.
  destruct (Z.ltb_spec (historyIndex s) 0); [lia|].
  destruct (history s !! Z.to_nat (historyIndex s)) as [e|] eqn:E; [exists e; reflexivity|].
  apply lookup_ge_None in E. lia.
Qed.

(** After a save of changed lists, undo gives the lists before the change. *)
Lemma undo_after_save (s t s' : State) :
  histOK s -> synced s ->
  history t = history s -> historyIndex t = historyIndex s ->
  history s' = history (saveToHistory t) ->
  historyIndex s' = historyIndex (saveToHistory t) ->
  exists s1, undo s' = Some s1 /\ scene s1 = scene s /\ selectedType s1 = None.
Proof.
  intros H Hsync Hh Hi Hh' Hi'.
  destruct (undo_after_save_entry s t s' (snapshot s) H Hsync Hh Hi Hh' Hi')
    as (s1 & U & S1 & S2).
  exists s1. split; [exact U|]. split; [|exact S2].
  rewrite S1. apply entryScene_snapshot.
Qed.

(** X3.  When the entry at [historyIndex] is the snapshot of the live
    lists, a shape committed on release, or a text committed on
    confirmation, is taken back by one undo: the lists are those before
    the commit, and nothing is selected. *)
Theorem undo_reverts_commit (s : State) :
  histOK s -> synced s ->
  (forall a, isDrawing s = true -> inProgress s = Some a -> crossesThreshold a ->
     scene (handleMouseUp s) = scene (push a s) /\
     exists s1, undo (handleMouseUp s) = Some s1 /\ scene s1 = scene s /\
                selectedType s1 = None) /\
  (forall p, pendingText s = Some p -> nonEmpty (trim (textInputValue s)) = true ->
     scene (confirmTextInput s) = scene (push (pendingAnnotation s p) s) /\
     exists s1, undo (confirmTextInput s) = Some s1 /\ scene s1 = scene s /\
                selectedType s1 = None).
Proof.
  intros H Hsync. split.
  - intros a Hd Hp Hc.
    destruct (release_iff s a Hd Hp) as [[_ Hcom] _].
    destruct (Hcom Hc) as (C1 & C2 & C3). split; [exact C1|].
    apply (undo_after_save s (push a s)); try assumption; destruct a; reflexivity.
  - intros p Hp Ht.
    destruct (confirmTextInput_commits s p Hp Ht) as (C1 & C2 & C3).
    split; [exact C1|].
    apply (undo_after_save s (push (pendingAnnotation s p) s)); try assumption;
      reflexivity.
Qed.

Lemma undo_reverts_commit_witness :
  histOK (drawingArrow 6 0) /\ synced (drawingArrow 6 0) /\
  exists s1, undo (handleMouseUp (drawingArrow 6 0)) = Some s1 /\
             scene s1 = scene (drawingArrow 6 0) /\ selectedType s1 = None.
Proof.
  assert (H : histOK (drawingArrow 6 0)) by exact (loaded_histOK ctx0).
  assert (Hs : synced (drawingArrow 6 0)) by reflexivity.
  split; [exact H|]. split; [exact Hs|].
  destruct (undo_reverts_commit (drawingArrow 6 0) H Hs) as [G _].
  destruct (G (AArrow (arrowTo 6 0))) as [_ G']; [reflexivity|reflexivity| |exact G'].
  vm_compute. reflexivity.
Defined.

(** ** Bounds of the annotation classes *)

Lemma Qle_bool_false (a b : Q) : Qle_bool a b = false <-> b < a.
Proof.
  split.
  - intros H. apply Qnot_le_lt. intros Hle. apply Qle_bool_iff in Hle. congruence.
  - intros H. destruct (Qle_bool a b) eqn:E; [|reflexivity].
    apply Qle_bool_iff in E. lra.
Qed.

(** The corner of a box of signed extent [w] from [x0]. *)
Lemma signed_origin (x0 x1 : Q) :
  (if Qle_bool 0 (x1 - x0) then x0 else x0 + (x1 - x0)) == Qmin x0 x1.
Proof.
  destruct (Qle_bool 0 (x1 - x0)) eqn:E.
  - apply Qle_bool_iff in E. rewrite Q.min_l by lra. reflexivity.
  - apply Qle_bool_false in E. rewrite Q.min_r by lra. ring.
Qed.

Lemma half_extent_origin (x0 x1 : Q) :
  (x0 + x1) / 2 - Qabs (x1 - x0) / 2 == Qmin x0 x1.
Proof.
  destruct (Qlt_le_dec x1 x0) as [H|H].
  - rewrite Q.min_r by lra. rewrite (Qabs_neg (x1 - x0)) by lra. field.
  - rewrite Q.min_l by lra. rewrite (Qabs_pos (x1 - x0)) by lra. field.
Qed.

(** X4.  A rectangle, a pixelation region, an ellipse and an arrow dragged
    from [(x0, y0)] to [(x1, y1)] all have the box spanned by the two
    points as bounds, in whatever direction the drag goes: its origin is
    the lesser coordinate on each axis and its extent is not negative. *)
Theorem drag_bounds (x0 y0 x1 y1 : Q) (color : string) (lineWidth : Q) (filled : bool) :
  Bounds_eq (RectangleM.getBounds
               (RectangleM.setEnd (RectangleM.new x0 y0 color lineWidth filled) x1 y1))
            (dragBox x0 y0 x1 y1) /\
  Bounds_eq (BlurRegionM.getBounds (BlurRegionM.setEnd (BlurRegionM.new x0 y0) x1 y1))
            (dragBox x0 y0 x1 y1) /\
  Bounds_eq (EllipseM.getBounds
               (EllipseM.setEnd (EllipseM.new x0 y0 color lineWidth filled) x1 y1))
            (dragBox x0 y0 x1 y1) /\
  Bounds_eq (ArrowM.getBounds (ArrowM.setEnd (ArrowM.new x0 y0 color lineWidth) x1 y1))
            (dragBox x0 y0 x1 y1) /\
  0 <= b_width (dragBox x0 y0 x1 y1) /\ 0 <= b_height (dragBox x0 y0 x1 y1).
Proof.
  unfold Bounds_eq, dragBox.
  cbn [RectangleM.getBounds RectangleM.setEnd RectangleM.new
       BlurRegionM.getBounds BlurRegionM.setEnd BlurRegionM.new
       EllipseM.getBounds EllipseM.setEnd EllipseM.new
       ArrowM.getBounds ArrowM.setEnd ArrowM.new
       rect_x rect_y rect_width rect_height blur_x blur_y blur_width blur_height
       ell_startX ell_startY ell_centerX ell_centerY ell_radiusX ell_radiusY
       arrow_startX arrow_startY arrow_endX arrow_endY b_x b_y b_width b_height].
  repeat split; try reflexivity; try apply signed_origin; try apply half_extent_origin;
    try apply Qabs_nonneg; field.
Qed.

Lemma foldl_extend_attained (ps : list Point) (a0 b0 c0 d0 : Q) :
  let '(a, b, c, d) := foldl StrokeM.extend (a0, b0, c0, d0) ps in
  (a == a0 \/ exists p, p ∈ ps /\ a == p_x p) /\
  (b == b0 \/ exists p, p ∈ ps /\ b == p_y p) /\
  (c == c0 \/ exists p, p ∈ ps /\ c == p_x p) /\
  (d == d0 \/ exists p, p ∈ ps /\ d == p_y p).
Proof.
  revert a0 b0 c0 d0.
  induction ps as [|q ps IH]; intros a0 b0 c0 d0; cbn [foldl].
  - repeat split; left; reflexivity.
  - cbn [StrokeM.extend].
    specialize (IH (Qmin a0 (p_x q)) (Qmin b0 (p_y q)) (Qmax c0 (p_x q)) (Qmax d0 (p_y q))).
    destruct (foldl StrokeM.extend _ ps) as [[[a b] c] d].
    destruct IH as (I1 & I2 & I3 & I4).
    assert (Hcons : forall (P : Point -> Prop),
              (exists p, p ∈ ps /\ P p) -> exists p, p ∈ q :: ps /\ P p).
    { intros P (p & Hp & HP). exists p. split; [right; exact Hp | exact HP]. }
    assert (Hq : forall (P : Point -> Prop), P q -> exists p, p ∈ q :: ps /\ P p).
    { intros P HP. exists q. split; [left | exact HP]. }
    repeat split.
    + destruct I1 as [E|E]; [|right; apply Hcons, E].
      destruct (Q.min_dec a0 (p_x q)) as [M|M]; rewrite M in E;
        [left; exact E | right; apply Hq; exact E].
    + destruct I2 as [E|E]; [|right; apply Hcons, E].
      destruct (Q.min_dec b0 (p_y q)) as [M|M]; rewrite M in E;
        [left; exact E | right; apply Hq; exact E].
    + destruct I3 as [E|E]; [|right; apply Hcons, E].
      destruct (Q.max_dec c0 (p_x q)) as [M|M]; rewrite M in E;
        [left; exact E | right; apply Hq; exact E].
    + destruct I4 as [E|E]; [|right; apply Hcons, E].
      destruct (Q.max_dec d0 (p_y q)) as [M|M]; rewrite M in E;
        [left; exact E | right; apply Hq; exact E].
Qed.

(** X5.  A stroke has bounds exactly when it has a point; the bounds
    contain every point of the stroke, their extent is not negative, and
    each of their four sides passes through a point of the stroke. *)
Theorem stroke_bounds_tight (h : list Point) (st : Stroke) :
  (StrokeM.getBounds h st = None <-> StrokeM.points h st = []) /\
  (forall B, StrokeM.getBounds h st = Some B ->
     0 <= b_width B /\ 0 <= b_height B /\
     (forall p, p ∈ StrokeM.points h st -> inside (p_x p) (p_y p) B) /\
     (exists p, p ∈ StrokeM.points h st /\ p_x p == b_x B) /\
     (exists p, p ∈ StrokeM.points h st /\ p_y p == b_y B) /\
     (exists p, p ∈ StrokeM.points h st /\ p_x p == b_x B + b_width B) /\
     (exists p, p ∈ StrokeM.points h st /\ p_y p == b_y B + b_height B)).
Proof.
  split.
  - unfold StrokeM.getBounds. destruct (StrokeM.points h st) as [|q ps].
    + split; reflexivity.
    + destruct (foldl StrokeM.extend _ ps) as [[[a b] c] d].
      split; discriminate.
  - intros B HB.
    assert (Hin : forall p, p ∈ StrokeM.points h st -> inside (p_x p) (p_y p) B).
    { intros p Hp. apply (StrokeM_getBounds_inside h st B p HB Hp). }
    unfold StrokeM.getBounds in HB.
    destruct (StrokeM.points h st) as [|q ps] eqn:E; [discriminate|].
    pose proof (foldl_extend_attained ps (p_x q) (p_y q) (p_x q) (p_y q)) as HA.
    pose proof (foldl_extend_bounds ps (p_x q) (p_y q) (p_x q) (p_y q)) as HBd.
    destruct (foldl StrokeM.extend _ ps) as [[[a b] c] d].
    destruct HA as (A1 & A2 & A3 & A4). destruct HBd as ((I1 & I2 & I3 & I4) & _).
    injection HB as <-. cbn [b_x b_y b_width b_height].
    assert (Hfix : forall (v v0 : Q) (f : Point -> Q),
              v0 = f q -> (v == v0 \/ exists p, p ∈ ps /\ v == f p) ->
              exists p, p ∈ q :: ps /\ f p == v).
    { intros v v0 f -> [Ev|(p & Hp & Ev)].
      - exists q. split; [left | symmetry; exact Ev].
      - exists p. split; [right; exact Hp | symmetry; exact Ev]. }
    split; [lra|]. split; [lra|]. split; [exact Hin|].
    split; [apply (Hfix a (p_x q) p_x eq_refl A1)|].
    split; [apply (Hfix b (p_y q) p_y eq_refl A2)|].
    split.
    + destruct (Hfix c (p_x q) p_x eq_refl A3) as (p & Hp & Ep).
      exists p. split; [exact Hp|]. rewrite Ep. ring.
    + destruct (Hfix d (p_y q) p_y eq_refl A4) as (p & Hp & Ep).
      exists p. split; [exact Hp|]. rewrite Ep. ring.
Qed.

(** ** Moving an annotation *)

(** The store after [forEach]: every point is updated once for each of its
    occurrences in the array. *)
Lemma forEachPoint_lookup (f : Point -> Point) (points : list nat) (h : list Point)
    (l : nat) :
  forEachPoint f points h !! l
  = Nat.iter (length (filter (fun l' => l' = l) points)) f <$> h !! l.
Proof.
  unfold forEachPoint. revert h.
  induction points as [|l' ls IH]; intros h; cbn [foldl].
  - cbn. destruct (h !! l); reflexivity.
  - rewrite IH. rewrite filter_cons. destruct (decide (l' = l)) as [->|Hne].
    + rewrite list_lookup_alter_eq. cbn [length].
      destruct (h !! l) as [p|]; cbn; [|reflexivity].
      rewrite <- Nat.iter_succ_r. reflexivity.
    + rewrite list_lookup_alter_ne by exact Hne. reflexivity.
Qed.

Lemma filter_eq_NoDup (points : list nat) (l : nat) :
  NoDup points -> l ∈ points -> length (filter (fun l' => l' = l) points) = 1%nat.
Proof.
  induction 1 as [|l' ls Hnot Hnd IH]; intros Hin; [inversion Hin|].
  rewrite filter_cons. destruct (decide (l' = l)) as [->|Hne].
  - cbn [length]. f_equal.
    assert (E : filter (fun l' => l' = l) ls = []).
    { clear -Hnot. induction ls as [|x xs IHxs]; [reflexivity|].
      rewrite filter_cons. destruct (decide (x = l)) as [->|_].
      - exfalso. apply Hnot. left.
      - apply IHxs. intros Hin. apply Hnot. right. exact Hin. }
    rewrite E. reflexivity.
  - apply IH. apply elem_of_cons in Hin as [->|Hin]; [congruence | exact Hin].
Qed.

(** With distinct point objects, the points of the stroke after [forEach]
    are the updated points. *)
Lemma points_forEachPoint (f : Point -> Point) (st : Stroke) (h : list Point) :
  NoDup (stroke_points st) ->
  StrokeM.points (forEachPoint f (stroke_points st) h) st = map f (StrokeM.points h st).
Proof.
  intros Hnd. unfold StrokeM.points.
  assert (G : forall ls, (forall l, l ∈ ls -> l ∈ stroke_points st) ->
            omap (fun l => forEachPoint f (stroke_points st) h !! l) ls
            = map f (omap (fun l => h !! l) ls)).
  { induction ls as [|l ls IH]; intros Hsub; [reflexivity|].
    cbn [omap list_omap]. rewrite forEachPoint_lookup.
    rewrite (filter_eq_NoDup _ l Hnd) by (apply Hsub; left).
    rewrite IH by (intros l' Hl'; apply Hsub; right; exact Hl').
    destruct (h !! l); reflexivity. }
  apply G. auto.
Qed.

Lemma foldl_extend_translate (dx dy : Q) (ps : list Point) (a0 b0 c0 d0 a1 b1 c1 d1 : Q) :
  a1 == a0 + dx -> b1 == b0 + dy -> c1 == c0 + dx -> d1 == d0 + dy ->
  let '(a, b, c, d) := foldl StrokeM.extend (a0, b0, c0, d0) ps in
  let '(a', b', c', d') := foldl StrokeM.extend (a1, b1, c1, d1)
                                 (map (movePoint dx dy) ps) in
  a' == a + dx /\ b' == b + dy /\ c' == c + dx /\ d' == d + dy.
Proof.
  revert a0 b0 c0 d0 a1 b1 c1 d1.
  induction ps as [|q ps IH]; intros a0 b0 c0 d0 a1 b1 c1 d1 Ha Hb Hc Hd;
    cbn [foldl map].
  - repeat split; assumption.
  - cbn [StrokeM.extend movePoint p_x p_y]. apply IH.
    + rewrite Ha. apply Q.plus_min_distr_r.
    + rewrite Hb. apply Q.plus_min_distr_r.
    + rewrite Hc. apply Q.plus_max_distr_r.
    + rewrite Hd. apply Q.plus_max_distr_r.
Qed.

Lemma Qabs_translate (a b d : Q) : Qabs ((b + d) - (a + d)) == Qabs (b - a).
Proof. apply Qabs_wd. ring. Qed.

Lemma move_stroke_bounds (h : list Point) (st : Stroke) (dx dy : Q) (B : Bounds) :
  NoDup (stroke_points st) -> StrokeM.getBounds h st = Some B ->
  hasBounds (StrokeM.getBounds (forEachPoint (movePoint dx dy) (stroke_points st) h) st)
            (translate dx dy B).
Proof.
  intros Hnd HB. unfold StrokeM.getBounds in *.
  rewrite (points_forEachPoint _ st h Hnd).
  destruct (StrokeM.points h st) as [|q ps]; [discriminate|]. cbn [map].
  pose proof (foldl_extend_translate dx dy ps (p_x q) (p_y q) (p_x q) (p_y q)
                (p_x (movePoint dx dy q)) (p_y (movePoint dx dy q))
                (p_x (movePoint dx dy q)) (p_y (movePoint dx dy q))) as H.
  destruct (foldl StrokeM.extend (p_x q, _, _, _) ps) as [[[a b] c] d].
  destruct (foldl StrokeM.extend _ (map (movePoint dx dy) ps)) as [[[a' b'] c'] d'].
  destruct H as (H1 & H2 & H3 & H4); try reflexivity.
  injection HB as <-. unfold hasBounds, Bounds_eq, translate.
  cbn [b_x b_y b_width b_height]. rewrite H1, H2, H3, H4.
  repeat split; ring.
Qed.

Lemma moveAnnotation_bounds (c : Ctx) (h : list Point) (a : Annotation)
    (dx dy : Q) (B : Bounds) :
  distinctPoints a -> getBounds c h a = Some B ->
  hasBounds (boundsAfter c (moveAnnotation h a dx dy)) (translate dx dy B).
Proof.
  intros Hnd HB. destruct a as [st|ar|r|e|t|b];
    cbn [getBounds moveAnnotation boundsAfter fst snd distinctPoints] in *.
  - apply move_stroke_bounds; assumption.
  - injection HB as <-. unfold hasBounds, Bounds_eq, translate, ArrowM.getBounds.
    cbn [b_x b_y b_width b_height arrow_startX arrow_startY arrow_endX arrow_endY].
    repeat split; try apply Q.plus_min_distr_r; apply Qabs_translate.
  - injection HB as <-. unfold hasBounds, Bounds_eq, translate, RectangleM.getBounds.
    cbn [b_x b_y b_width b_height rect_x rect_y rect_width rect_height].
    repeat split; try reflexivity.
    + destruct (Qle_bool 0 (rect_width r)); ring.
    + destruct (Qle_bool 0 (rect_height r)); ring.
  - injection HB as <-. unfold hasBounds, Bounds_eq, translate, EllipseM.getBounds.
    cbn [b_x b_y b_width b_height ell_centerX ell_centerY ell_radiusX ell_radiusY].
    repeat split; ring.
  - injection HB as <-. unfold hasBounds, Bounds_eq, translate, TextM.getBounds.
    cbn [b_x b_y b_width b_height text_x text_y text_text text_fontSize].
    repeat split; ring.
  - injection HB as <-. unfold hasBounds, Bounds_eq, translate, BlurRegionM.getBounds.
    cbn [b_x b_y b_width b_height blur_x blur_y blur_width blur_height].
    repeat split; try reflexivity.
    + destruct (Qle_bool 0 (blur_width b)); ring.
    + destruct (Qle_bool 0 (blur_height b)); ring.
Qed.

(** X6.  Moving an annotation by [(dx, dy)] moves its bounds by
    [(dx, dy)] and keeps their width and height, for every type (for a
    stroke, with its point objects distinct). *)
Theorem moveAnnotation_translates (c : Ctx) (h : list Point) (a : Annotation)
    (dx dy : Q) (B : Bounds) :
  distinctPoints a -> getBounds c h a = Some B ->
  hasBounds (boundsAfter c (moveAnnotation h a dx dy)) (translate dx dy B).
Proof. exact (moveAnnotation_bounds c h a dx dy B). Qed.

Lemma moveAnnotation_translates_witness :
  let st := mkStroke [0%nat; 1%nat] DEFAULTS.color DEFAULTS.lineWidth in
  let h := [mkPoint 10 10; mkPoint 60 30] in
  distinctPoints (AStroke st) /\
  getBounds ctx0 h (AStroke st) = Some (mkBounds 10 10 (60 - 10) (30 - 10)) /\
  hasBounds (boundsAfter ctx0 (moveAnnotation h (AStroke st) 5 (-7)))
            (translate 5 (-7) (mkBounds 10 10 (60 - 10) (30 - 10))).
Proof.
  cbn zeta.
  assert (Hnd : distinctPoints
                  (AStroke (mkStroke [0%nat; 1%nat] DEFAULTS.color DEFAULTS.lineWidth))).
  { cbn. apply (bool_decide_unpack _). vm_compute. exact I. }
  split; [exact Hnd|]. split; [reflexivity|].
  apply (moveAnnotation_translates ctx0 [mkPoint 10 10; mkPoint 60 30] _ 5 (-7));
    [exact Hnd | reflexivity].
Defined.

(** ** Dragging the selection *)

Lemma selectedAnnotation_inv (s : State) (a : Annotation) :
  selectedAnnotation s = Some a ->
  exists i, selectedType s = Some (typeOf a) /\ selectedIndex s = Some i /\
            annotationAt s (typeOf a) i = Some a.
Proof.
  unfold selectedAnnotation. intros H.
  destruct (selectedType s) as [ty|]; [|discriminate].
  destruct (selectedIndex s) as [i|]; [|discriminate].
  exists i.
  assert (ty = typeOf a) as ->.
  { destruct ty; cbn in H;
      match type of H with ?f <$> ?o = _ => destruct o; [|discriminate] end;
      injection H as <-; reflexivity. }
  auto.
Qed.

Lemma translate_compat (dx dy dx' dy' : Q) (B B' : Bounds) :
  dx == dx' -> dy == dy' -> Bounds_eq B B' ->
  Bounds_eq (translate dx dy B) (translate dx' dy' B').
Proof.
  intros Hx Hy (H1 & H2 & H3 & H4). unfold Bounds_eq, translate.
  cbn [b_x b_y b_width b_height]. rewrite Hx, Hy, H1, H2, H3, H4.
  repeat split; reflexivity.
Qed.

Lemma Bounds_eq_trans (A B C : Bounds) : Bounds_eq A B -> Bounds_eq B C -> Bounds_eq A C.
Proof.
  intros (H1 & H2 & H3 & H4) (G1 & G2 & G3 & G4).
  repeat split; etransitivity; eassumption.
Qed.

Lemma handleSelectMouseMove_move (coords : Coords) (s : State) (a : Annotation)
    (B : Bounds) :
  movingSelection s a -> distinctPoints a ->
  getBounds (ctx s) (heap s) a = Some B ->
  let s' := handleSelectMouseMove coords s in
  exists a' B',
    movingSelection s' a' /\ distinctPoints a' /\
    getBounds (ctx s') (heap s') a' = Some B' /\
    Bounds_eq B' (translate (c_x coords - dragStartX s) (c_y coords - dragStartY s) B) /\
    dragStartX s' = c_x coords /\ dragStartY s' = c_y coords /\
    history s' = history s /\ historyIndex s' = historyIndex s.
Proof.
  intros (Htool & Hmode & Hsel) Hnd HB. cbn zeta.
  destruct (selectedAnnotation_inv s a Hsel) as (i & Hty & Hi & Hat).
  pose proof (moveAnnotation_bounds (ctx s) (heap s) a
                (c_x coords - dragStartX s) (c_y coords - dragStartY s) B Hnd HB) as HT.
  unfold handleSelectMouseMove. rewrite Hsel, Hi, Hmode.
  unfold boundsAfter, hasBounds in HT.
  destruct (moveAnnotation (heap s) a _ _) as [h a'] eqn:Em.
  cbn [fst snd] in HT.
  destruct (getBounds (ctx s) h a') as [B'|] eqn:EB; [|contradiction].
  exists a', B'.
  assert (Hlt : forall A (l : list A) (x : A), l !! i = Some x -> (i < length l)%nat).
  { intros A l x E. apply lookup_lt_is_Some. eauto. }
  unfold movingSelection, selectedAnnotation.
  destruct a as [st|ar|r|e|t|b]; cbn [moveAnnotation] in Em; injection Em as <- <-;
    cbn [typeOf annotationAt] in Hat, Hty;
    match type of Hat with ?f <$> ?o = _ => destruct o eqn:E; [|discriminate] end;
    cbn; rewrite Hty, Hi; cbn;
    rewrite list_lookup_insert_eq by (eapply Hlt; exact E);
    cbn in EB |- *; repeat split; auto; apply HT.
Qed.


Lemma run_moves_step (c : Coords) (cs : list Coords) (s : State) (a : Annotation) :
  movingSelection s a ->
  run (map MouseMove (c :: cs)) s = run (map MouseMove cs) (handleSelectMouseMove c s).
Proof.
  intros (Htool & Hmode & Hsel). cbn [map run dispatch].
  unfold handleMouseMove. rewrite Htool, Hmode, Hsel. reflexivity.
Qed.

(** X7.  While the select tool drags its selection, the annotation
    follows the pointer: after any series of mouse moves its bounds are
    the bounds at the start of the series moved by the displacement of
    the pointer from the drag start to its last position, the drag start
    is that last position, and nothing is added to the history. *)
Theorem move_drag_follows_pointer (cs : list Coords) (s : State) (a : Annotation)
    (B : Bounds) :
  movingSelection s a -> distinctPoints a ->
  getBounds (ctx s) (heap s) a = Some B ->
  exists s' a',
    run (map MouseMove cs) s = Some s' /\
    movingSelection s' a' /\
    hasBounds (getBounds (ctx s') (heap s') a')
      (translate (c_x (lastCoords (dragStartX s) (dragStartY s) cs) - dragStartX s)
                 (c_y (lastCoords (dragStartX s) (dragStartY s) cs) - dragStartY s) B) /\
    dragStartX s' = c_x (lastCoords (dragStartX s) (dragStartY s) cs) /\
    dragStartY s' = c_y (lastCoords (dragStartX s) (dragStartY s) cs) /\
    history s' = history s /\ historyIndex s' = historyIndex s.
Proof.
  revert s a B. induction cs as [|c cs IH]; intros s a B Hm Hnd HB.
  - exists s, a. cbn [map run]. split; [reflexivity|]. split; [exact Hm|].
    rewrite HB. unfold lastCoords, hasBounds, Bounds_eq, translate.
    cbn [List.last c_x c_y b_x b_y b_width b_height].
    repeat split; try reflexivity; ring.
  - rewrite (run_moves_step c cs s a Hm).
    destruct (handleSelectMouseMove_move c s a B Hm Hnd HB)
      as (a1 & B1 & Hm1 & Hnd1 & HB1 & HE1 & Hx1 & Hy1 & Hh1 & Hi1).
    destruct (IH _ a1 B1 Hm1 Hnd1 HB1)
      as (s' & a' & Hrun & Hm' & HB' & Hx' & Hy' & Hh' & Hi').
    exists s', a'. split; [exact Hrun|]. split; [exact Hm'|].
    assert (EL : lastCoords (dragStartX s) (dragStartY s) (c :: cs)
                 = lastCoords (c_x c) (c_y c) cs).
    { unfold lastCoords. destruct c as [x y]. cbn [c_x c_y].
      clear. revert x y. induction cs as [|c' cs IHcs]; intros x y; [reflexivity|].
      cbn [List.last]. destruct cs as [|c'' cs]; [reflexivity|].
      specialize (IHcs x y). cbn [List.last] in IHcs |- *. exact IHcs. }
    rewrite EL. rewrite Hx1, Hy1 in HB', Hx', Hy'.
    split; [|rewrite Hh', Hi', Hh1, Hi1; repeat split; assumption].
    unfold hasBounds in HB' |- *.
    destruct (getBounds (ctx s') (heap s') a') as [B'|]; [|contradiction].
    eapply Bounds_eq_trans; [exact HB'|].
    unfold Bounds_eq, translate in HE1 |- *. cbn [b_x b_y b_width b_height] in HE1 |- *.
    destruct HE1 as (H1 & H2 & H3 & H4).
    rewrite H1, H2, H3, H4. repeat split; try reflexivity; ring.
Qed.

Lemma move_drag_follows_pointer_witness :
  exists st,
    movingSelection strokeHeld (AStroke st) /\ distinctPoints (AStroke st) /\
    getBounds (ctx strokeHeld) (heap strokeHeld) (AStroke st)
      = Some (mkBounds 10 10 50 0) /\
    exists s' a',
      run (map MouseMove [at_ 40 20; at_ 35 5]) strokeHeld = Some s' /\
      movingSelection s' a' /\
      hasBounds (getBounds (ctx s') (heap s') a')
                (translate (35 - 30) (5 - 10) (mkBounds 10 10 50 0)).
Proof.
  eexists.
  assert (Hm : movingSelection strokeHeld
                 (AStroke (mkStroke [0%nat; 1%nat] DEFAULTS.color DEFAULTS.lineWidth))).
  { split; [vm_compute; reflexivity|]. split; vm_compute; reflexivity. }
  assert (Hnd : distinctPoints
                  (AStroke (mkStroke [0%nat; 1%nat] DEFAULTS.color DEFAULTS.lineWidth))).
  { cbn. apply (bool_decide_unpack _). vm_compute. exact I. }
  split; [exact Hm|]. split; [exact Hnd|]. split; [vm_compute; reflexivity|].
  destruct (move_drag_follows_pointer [at_ 40 20; at_ 35 5] strokeHeld _
              (mkBounds 10 10 50 0) Hm Hnd)
    as (s' & a' & Hrun & Hm' & HB' & _); [vm_compute; reflexivity|].
  exists s', a'. split; [exact Hrun|]. split; [exact Hm'|]. exact HB'.
Defined.

(** ** Resizing *)

Lemma clamp10 (v : Q) : (if Qltb v 10 then 10 else v) == Qmax 10 v.
Proof.
  destruct (Qltb v 10) eqn:E.
  - apply Qltb_lt in E. rewrite Q.max_l by lra. reflexivity.
  - apply Qltb_ge in E. rewrite Q.max_r by lra. reflexivity.
Qed.

Lemma resizedBounds_box (mode : DragMode) (dx dy : Q) (B : Bounds) :
  Bounds_eq (resizedBounds mode dx dy B) (atLeast10 (handleBox mode dx dy B)).
Proof.
  unfold resizedBounds.
  destruct mode;
    match goal with
    | |- context [includes ?m _] =>
        let w := eval vm_compute in (includes m "w") in
        let e := eval vm_compute in (includes m "e") in
        let n := eval vm_compute in (includes m "n") in
        let s := eval vm_compute in (includes m "s") in
        change (includes m "w") with w; change (includes m "e") with e;
        change (includes m "n") with n; change (includes m "s") with s
    end; cbn iota zeta; cbn [b_x b_y b_width b_height];
    repeat match goal with
           | |- context [Qltb ?v 10] =>
               let H := fresh "H" in
               pose proof (clamp10 v) as H; destruct (Qltb v 10);
               cbn [b_x b_y b_width b_height]
           end;
    unfold Bounds_eq, atLeast10, handleBox; cbn [b_x b_y b_width b_height] in *;
    repeat split;
    first [ ring
          | match goal with
            | H : _ == Qmax 10 ?v |- _ =>
                transitivity (Qmax 10 v);
                [rewrite <- H; ring | apply Q.max_compat; [reflexivity | ring]]
            end ].
Qed.

Lemma resizedBounds_min (mode : DragMode) (dx dy : Q) (B : Bounds) :
  10 <= b_width (resizedBounds mode dx dy B) /\
  10 <= b_height (resizedBounds mode dx dy B).
Proof.
  destruct (resizedBounds_box mode dx dy B) as (_ & _ & Hw & Hh).
  rewrite Hw, Hh. unfold atLeast10. cbn [b_width b_height]. split; apply Q.le_max_l.
Qed.

(** X8.  The box a resize computes from the dragged handle: the south-east
    handle changes width and height; the north-east handle changes the
    width and moves the box vertically, keeping its height; the south-west
    handle changes the height and moves the box horizontally, keeping its
    width; the north-west handle moves the box and keeps its size
    (["resize-..."] contains an ["e"] and an ["s"]).  Afterwards a width or
    height below 10 is raised to 10, so the box is never smaller than 10
    by 10. *)
Theorem resizedBounds_handle (mode : DragMode) (dx dy : Q) (B : Bounds) :
  Bounds_eq (resizedBounds mode dx dy B) (atLeast10 (handleBox mode dx dy B)) /\
  10 <= b_width (resizedBounds mode dx dy B) /\
  10 <= b_height (resizedBounds mode dx dy B).
Proof.
  split; [apply resizedBounds_box | apply resizedBounds_min].
Qed.

Lemma applyBounds_box (c : Ctx) (h : list Point) (nb original : Bounds) :
  0 <= b_width nb -> 0 <= b_height nb ->
  (forall r, hasBounds (boundsAfter c (applyBoundsToAnnotation h (ARectangle r) nb original)) nb) /\
  (forall b, hasBounds (boundsAfter c (applyBoundsToAnnotation h (ABlur b) nb original)) nb) /\
  (forall e, hasBounds (boundsAfter c (applyBoundsToAnnotation h (AEllipse e) nb original)) nb) /\
  (forall t, hasBounds (boundsAfter c (applyBoundsToAnnotation h (AText t) nb original))
               (mkBounds (b_x nb) (b_y nb)
                         (measureText c (text_fontSize t) (text_text t) + 8)
                         (text_fontSize t + 8))).
Proof.
  intros Hw Hh.
  assert (Ew : Qle_bool 0 (b_width nb) = true) by (apply Qle_bool_iff; exact Hw).
  assert (Eh : Qle_bool 0 (b_height nb) = true) by (apply Qle_bool_iff; exact Hh).
  repeat split; intros;
    cbn [applyBoundsToAnnotation boundsAfter fst snd getBounds hasBounds];
    unfold Bounds_eq, RectangleM.getBounds, BlurRegionM.getBounds, EllipseM.getBounds,
      TextM.getBounds;
    cbn [b_x b_y b_width b_height rect_x rect_y rect_width rect_height
         blur_x blur_y blur_width blur_height
         ell_centerX ell_centerY ell_radiusX ell_radiusY
         text_x text_y text_text text_fontSize];
    rewrite ?Ew, ?Eh; repeat split;
    try (apply Qabs_pos; assumption); try reflexivity; try field; try ring.
Qed.

(** X9.  A resize gives a rectangle, a pixelation region and an ellipse
    exactly the box computed from the handle, whatever their shape before
    (so they are never smaller than 10 by 10 afterwards), and leaves the
    store of points alone; a text is not resized: it is placed so that its
    box starts at the corner of the computed box and keeps its own size. *)
Theorem resizeAnnotation_box (c : Ctx) (h : list Point) (mode : DragMode) (dx dy : Q)
    (original : Bounds) :
  let nb := resizedBounds mode dx dy original in
  (forall r, hasBounds (boundsAfter c (resizeAnnotation h (ARectangle r) mode dx dy original)) nb) /\
  (forall b, hasBounds (boundsAfter c (resizeAnnotation h (ABlur b) mode dx dy original)) nb) /\
  (forall e, hasBounds (boundsAfter c (resizeAnnotation h (AEllipse e) mode dx dy original)) nb) /\
  (forall t, hasBounds (boundsAfter c (resizeAnnotation h (AText t) mode dx dy original))
               (mkBounds (b_x nb) (b_y nb)
                         (measureText c (text_fontSize t) (text_text t) + 8)
                         (text_fontSize t + 8))) /\
  (forall a, typeOf a <> TStroke -> fst (resizeAnnotation h a mode dx dy original) = h).
Proof.
  cbn zeta. destruct (resizedBounds_min mode dx dy original) as [Hw Hh].
  destruct (applyBounds_box c h (resizedBounds mode dx dy original) original)
    as (H1 & H2 & H3 & H4); [lra | lra |].
  unfold resizeAnnotation.
  split; [exact H1|]. split; [exact H2|]. split; [exact H3|]. split; [exact H4|].
  intros a Ha. destruct a; try reflexivity. contradiction Ha. reflexivity.
Qed.
Lemma orOne_pos (w : Q) : 0 <= w -> 0 < orOne w.
Proof.
  intros H. destruct (Qeq_dec w 0) as [Hz|Hnz].
  - rewrite (orOne_zero w Hz). reflexivity.
  - rewrite (orOne_nonzero w Hnz). lra.
Qed.

Lemma scale_nonneg (nw w : Q) : 0 <= nw -> 0 <= w -> 0 <= nw / orOne w.
Proof.
  intros Hn Hw. apply Qle_shift_div_l; [apply orOne_pos; exact Hw|]. lra.
Qed.

Lemma rescale_compat (a b nlo nw lo w : Q) :
  a == b -> rescale a nlo nw lo w == rescale b nlo nw lo w.
Proof. intros H. unfold rescale. cbn zeta. rewrite H. reflexivity. Qed.

Lemma rescale_mono (a b nlo nw lo w : Q) :
  0 <= nw / orOne w -> a <= b -> rescale a nlo nw lo w <= rescale b nlo nw lo w.
Proof.
  intros Hk H. unfold rescale. cbn zeta.
  assert ((a - lo) * (nw / orOne w) <= (b - lo) * (nw / orOne w)).
  { apply Qmult_le_compat_r; [lra | exact Hk]. }
  lra.
Qed.

Lemma rescale_min (a b nlo nw lo w : Q) :
  0 <= nw / orOne w ->
  Qmin (rescale a nlo nw lo w) (rescale b nlo nw lo w) == rescale (Qmin a b) nlo nw lo w.
Proof.
  intros Hk. destruct (Qlt_le_dec b a) as [H|H].
  - rewrite Q.min_r by (apply rescale_mono; [exact Hk | lra]).
    apply rescale_compat. symmetry. apply Q.min_r. lra.
  - rewrite Q.min_l by (apply rescale_mono; assumption).
    apply rescale_compat. symmetry. apply Q.min_l. exact H.
Qed.

Lemma rescale_max (a b nlo nw lo w : Q) :
  0 <= nw / orOne w ->
  Qmax (rescale a nlo nw lo w) (rescale b nlo nw lo w) == rescale (Qmax a b) nlo nw lo w.
Proof.
  intros Hk. destruct (Qlt_le_dec b a) as [H|H].
  - rewrite Q.max_l by (apply rescale_mono; [exact Hk | lra]).
    apply rescale_compat. symmetry. apply Q.max_l. lra.
  - rewrite Q.max_r by (apply rescale_mono; assumption).
    apply rescale_compat. symmetry. apply Q.max_r. exact H.
Qed.

Lemma rescale_diff (a b nlo nw lo w : Q) :
  rescale b nlo nw lo w - rescale a nlo nw lo w == (b - a) * (nw / orOne w).
Proof. unfold rescale. cbn zeta. ring. Qed.

Lemma foldl_extend_rescale (nb ob : Bounds) (ps : list Point)
    (a0 b0 c0 d0 a1 b1 c1 d1 : Q) :
  let rx v := rescale v (b_x nb) (b_width nb) (b_x ob) (b_width ob) in
  let ry v := rescale v (b_y nb) (b_height nb) (b_y ob) (b_height ob) in
  0 <= b_width nb / orOne (b_width ob) -> 0 <= b_height nb / orOne (b_height ob) ->
  a1 == rx a0 -> b1 == ry b0 -> c1 == rx c0 -> d1 == ry d0 ->
  let '(a, b, c, d) := foldl StrokeM.extend (a0, b0, c0, d0) ps in
  let '(a', b', c', d') := foldl StrokeM.extend (a1, b1, c1, d1)
                                 (map (rescalePoint nb ob) ps) in
  a' == rx a /\ b' == ry b /\ c' == rx c /\ d' == ry d.
Proof.
  intros rx ry Hkx Hky. revert a0 b0 c0 d0 a1 b1 c1 d1.
  induction ps as [|q ps IH]; intros a0 b0 c0 d0 a1 b1 c1 d1 Ha Hb Hc Hd;
    cbn [foldl map].
  - repeat split; assumption.
  - cbn [StrokeM.extend rescalePoint p_x p_y]. apply IH.
    + rewrite Ha. apply rescale_min. exact Hkx.
    + rewrite Hb. apply rescale_min. exact Hky.
    + rewrite Hc. apply rescale_max. exact Hkx.
    + rewrite Hd. apply rescale_max. exact Hky.
Qed.

Lemma applyBounds_scaled_stroke (c : Ctx) (h : list Point) (st : Stroke)
    (nb ob A : Bounds) :
  NoDup (stroke_points st) -> StrokeM.getBounds h st = Some A ->
  0 <= b_width nb / orOne (b_width ob) -> 0 <= b_height nb / orOne (b_height ob) ->
  hasBounds (boundsAfter c (applyBoundsToAnnotation h (AStroke st) nb ob))
            (scaledBox nb ob A).
Proof.
  intros Hnd HA Hkx Hky.
  cbn [applyBoundsToAnnotation boundsAfter fst snd getBounds].
  unfold StrokeM.getBounds in *.
  rewrite (points_forEachPoint _ st h Hnd).
  destruct (StrokeM.points h st) as [|q ps]; [discriminate|]. cbn [map].
  pose proof (foldl_extend_rescale nb ob ps (p_x q) (p_y q) (p_x q) (p_y q)
                (p_x (rescalePoint nb ob q)) (p_y (rescalePoint nb ob q))
                (p_x (rescalePoint nb ob q)) (p_y (rescalePoint nb ob q)) Hkx Hky) as H.
  destruct (foldl StrokeM.extend (p_x q, _, _, _) ps) as [[[a b] c'] d].
  destruct (foldl StrokeM.extend _ (map (rescalePoint nb ob) ps)) as [[[a' b'] c''] d'].
  destruct H as (H1 & H2 & H3 & H4); try reflexivity.
  injection HA as <-. unfold hasBounds, Bounds_eq, scaledBox.
  cbn [b_x b_y b_width b_height]. rewrite H1, H2, H3, H4.
  split; [reflexivity|]. split; [reflexivity|]. split; apply rescale_diff.
Qed.

Lemma applyBounds_scaled_arrow (c : Ctx) (h : list Point) (a : Arrow) (nb ob : Bounds) :
  0 <= b_width nb / orOne (b_width ob) -> 0 <= b_height nb / orOne (b_height ob) ->
  hasBounds (boundsAfter c (applyBoundsToAnnotation h (AArrow a) nb ob))
            (scaledBox nb ob (ArrowM.getBounds a)).
Proof.
  intros Hkx Hky.
  cbn [applyBoundsToAnnotation boundsAfter fst snd getBounds hasBounds].
  unfold Bounds_eq, scaledBox, ArrowM.getBounds.
  cbn [b_x b_y b_width b_height arrow_startX arrow_startY arrow_endX arrow_endY].
  split; [apply rescale_min; exact Hkx|]. split; [apply rescale_min; exact Hky|].
  split.
  - rewrite (Qabs_wd _ _ (rescale_diff _ _ _ _ _ _)), Qabs_Qmult.
    rewrite (Qabs_pos (b_width nb / _)) by exact Hkx. reflexivity.
  - rewrite (Qabs_wd _ _ (rescale_diff _ _ _ _ _ _)), Qabs_Qmult.
    rewrite (Qabs_pos (b_height nb / _)) by exact Hky. reflexivity.
Qed.

Lemma scaledBox_same (nb B : Bounds) :
  0 < b_width B -> 0 < b_height B -> Bounds_eq (scaledBox nb B B) nb.
Proof.
  intros Hw Hh. unfold Bounds_eq, scaledBox, rescale. cbn [b_x b_y b_width b_height].
  rewrite (orOne_nonzero (b_width B)) by lra.
  rewrite (orOne_nonzero (b_height B)) by lra.
  repeat split; field; lra.
Qed.

(** X10.  Resizing an arrow or a stroke (with distinct point objects) of
    bounds [A] rescales it from the original bounds to the box computed
    from the handle: its corner is rescaled and its width and height are
    multiplied by the scale factors [new / (original || 1)].  When [A] is
    the original box and that has a positive width and height, the result
    has exactly the computed box; a zero width or height stays zero. *)
Theorem resizeAnnotation_scales (c : Ctx) (h : list Point) (a : Annotation)
    (mode : DragMode) (dx dy : Q) (original A : Bounds) :
  proportional a -> distinctPoints a -> getBounds c h a = Some A ->
  0 <= b_width original -> 0 <= b_height original ->
  let nb := resizedBounds mode dx dy original in
  let after := boundsAfter c (resizeAnnotation h a mode dx dy original) in
  hasBounds after (scaledBox nb original A) /\
  (A = original -> 0 < b_width A -> 0 < b_height A -> hasBounds after nb) /\
  (b_width A == 0 -> exists B', after = Some B' /\ b_width B' == 0) /\
  (b_height A == 0 -> exists B', after = Some B' /\ b_height B' == 0).
Proof.
  intros Hp Hnd HA Hw Hh. cbn zeta.
  destruct (resizedBounds_min mode dx dy original) as [Hnw Hnh].
  set (nb := resizedBounds mode dx dy original) in *.
  assert (Hkx : 0 <= b_width nb / orOne (b_width original))
    by (apply scale_nonneg; lra).
  assert (Hky : 0 <= b_height nb / orOne (b_height original))
    by (apply scale_nonneg; lra).
  assert (G : hasBounds (boundsAfter c (resizeAnnotation h a mode dx dy original))
                        (scaledBox nb original A)).
  { unfold resizeAnnotation. fold nb.
    destruct a as [st|ar| | | |]; try contradiction; cbn [getBounds distinctPoints] in *.
    - apply applyBounds_scaled_stroke; assumption.
    - injection HA as <-. apply applyBounds_scaled_arrow; assumption. }
  split; [exact G|].
  unfold hasBounds in G |- *.
  destruct (boundsAfter c (resizeAnnotation h a mode dx dy original)) as [B'|];
    [|contradiction].
  split; [|split].
  - intros -> Hw' Hh'. eapply Bounds_eq_trans; [exact G|]. apply scaledBox_same; assumption.
  - intros Hz. exists B'. split; [reflexivity|].
    destruct G as (_ & _ & G3 & _). rewrite G3. unfold scaledBox. cbn [b_width].
    rewrite Hz. ring.
  - intros Hz. exists B'. split; [reflexivity|].
    destruct G as (_ & _ & _ & G4). rewrite G4. unfold scaledBox. cbn [b_height].
    rewrite Hz. ring.
Qed.

Lemma resizeAnnotation_scales_witness :
  let a := AArrow (arrowTo 40 20) in
  proportional a /\ distinctPoints a /\
  getBounds ctx0 [] a = Some (mkBounds 0 0 40 20) /\
  0 <= b_width (mkBounds 0 0 40 20) /\ 0 <= b_height (mkBounds 0 0 40 20) /\
  hasBounds (boundsAfter ctx0
               (resizeAnnotation [] a ResizeSE 10 5 (mkBounds 0 0 40 20)))
            (scaledBox (resizedBounds ResizeSE 10 5 (mkBounds 0 0 40 20))
                       (mkBounds 0 0 40 20) (mkBounds 0 0 40 20)).
Proof.
  cbn zeta.
  split; [exact I|]. split; [exact I|]. split; [reflexivity|].
  split; [discriminate|]. split; [discriminate|].
  destruct (resizeAnnotation_scales ctx0 [] (AArrow (arrowTo 40 20)) ResizeSE 10 5
              (mkBounds 0 0 40 20) (mkBounds 0 0 40 20)) as [H _];
    [exact I | exact I | reflexivity | discriminate | discriminate | exact H].
Defined.

(** ** Dragging a handle *)

Lemma selectedAnnotation_store (s : State) (h : list Point) (i : nat)
    (a a' : Annotation) :
  selectedAnnotation s = Some a -> selectedIndex s = Some i ->
  typeOf a' = typeOf a ->
  selectedAnnotation (storeAnnotation i a' (setHeap h s)) = Some a'.
Proof.
  intros Hsel Hi Hty.
  destruct (selectedAnnotation_inv s a Hsel) as (i' & Hsty & Hi' & Hat).
  rewrite Hi in Hi'. injection Hi' as <-.
  assert (Hlt : forall A (l : list A) (x : A), l !! i = Some x -> (i < length l)%nat).
  { intros A l x E. apply lookup_lt_is_Some. eauto. }
  unfold selectedAnnotation.
  destruct a; destruct a'; try discriminate Hty;
    cbn [typeOf annotationAt] in Hat, Hsty;
    match type of Hat with ?f <$> ?o = _ => destruct o eqn:E; [|discriminate] end;
    cbn; rewrite Hsty, Hi; cbn;
    rewrite list_lookup_insert_eq by (eapply Hlt; exact E); reflexivity.
Qed.

Lemma storeAnnotation_frame (s : State) (h : list Point) (i : nat) (a : Annotation) :
  let s' := storeAnnotation i a (setHeap h s) in
  heap s' = h /\ ctx s' = ctx s /\ currentTool s' = currentTool s /\
  dragMode s' = dragMode s /\ originalBounds s' = originalBounds s /\
  dragStartX s' = dragStartX s /\ dragStartY s' = dragStartY s /\
  selectedIndex s' = selectedIndex s /\
  history s' = history s /\ historyIndex s' = historyIndex s.
Proof. destruct a; cbn; repeat split; reflexivity. Qed.

Lemma handleSelectMouseMove_resize (coords : Coords) (s : State) (a : Annotation)
    (mode : DragMode) (ob : Bounds) :
  resizingSelection s a mode ob ->
  let s' := handleSelectMouseMove coords s in
  let r := resizeAnnotation (heap s) a mode (c_x coords - dragStartX s)
                            (c_y coords - dragStartY s) ob in
  resizingSelection s' (snd r) mode ob /\
  heap s' = fst r /\ ctx s' = ctx s /\
  dragStartX s' = dragStartX s /\ dragStartY s' = dragStartY s /\
  history s' = history s /\ historyIndex s' = historyIndex s.
Proof.
  intros (Htool & Hmode & Hnm & Hsel & Hob). cbn zeta.
  destruct (selectedAnnotation_inv s a Hsel) as (i & Hty & Hi & Hat).
  unfold handleSelectMouseMove. rewrite Hsel, Hi, Hmode, Hob.
  set (r := resizeAnnotation (heap s) a mode _ _ ob).
  assert (Hr : typeOf (snd r) = typeOf a)
    by (apply (applyBoundsToAnnotation_type (heap s) a)).
  destruct r as [h a'] eqn:Er. cbn [fst snd] in *.
  assert (E : (match mode with
               | Move =>
                   let '(h0, a0) := moveAnnotation (heap s) a
                                      (c_x coords - dragStartX s)
                                      (c_y coords - dragStartY s) in
                   setDragStartY (c_y coords)
                     (setDragStartX (c_x coords) (storeAnnotation i a0 (setHeap h0 s)))
               | _ => storeAnnotation i a' (setHeap h s)
               end) = storeAnnotation i a' (setHeap h s)).
  { destruct mode; try reflexivity. contradiction Hnm. reflexivity. }
  rewrite E.
  destruct (storeAnnotation_frame s h i a')
    as (F1 & F2 & F3 & F4 & F5 & F6 & F7 & F8 & F9 & F10).
  unfold resizingSelection.
  rewrite F1, F2, F3, F4, F5, F6, F7, F9, F10.
  repeat split; try assumption; try reflexivity.
  apply (selectedAnnotation_store s h i a a'); assumption.
Qed.

Lemma run_app (l1 l2 : list Event) (s : State) :
  run (l1 ++ l2) s = match run l1 s with Some s1 => run l2 s1 | None => None end.
Proof.
  revert s. induction l1 as [|e l1 IH]; intros s; cbn [app run]; [reflexivity|].
  destruct (dispatch e s); [apply IH | reflexivity].
Qed.

Lemma dispatch_move_resize (c : Coords) (s : State) (a : Annotation) (mode : DragMode)
    (ob : Bounds) :
  resizingSelection s a mode ob ->
  dispatch (MouseMove c) s = Some (handleSelectMouseMove c s).
Proof.
  intros (Htool & Hmode & _ & Hsel & _). cbn [dispatch].
  unfold handleMouseMove. rewrite Htool, Hmode, Hsel. reflexivity.
Qed.

Lemma resize_moves_inv (cs : list Coords) (s : State) (a : Annotation)
    (mode : DragMode) (ob : Bounds) :
  resizingSelection s a mode ob ->
  exists s1 a1,
    run (map MouseMove cs) s = Some s1 /\ resizingSelection s1 a1 mode ob /\
    typeOf a1 = typeOf a /\
    dragStartX s1 = dragStartX s /\ dragStartY s1 = dragStartY s /\
    history s1 = history s /\ historyIndex s1 = historyIndex s.
Proof.
  revert s a. induction cs as [|c cs IH]; intros s a Hr.
  - exists s, a. cbn [map run]. repeat split; try reflexivity; apply Hr.
  - cbn [map run]. rewrite (dispatch_move_resize c s a mode ob Hr).
    destruct (handleSelectMouseMove_resize c s a mode ob Hr)
      as (Hr1 & _ & _ & Hx & Hy & Hh & Hi).
    destruct (IH _ _ Hr1) as (s1 & a1 & Hrun & Hr' & Hty & Hx' & Hy' & Hh' & Hi').
    exists s1, a1. split; [exact Hrun|]. split; [exact Hr'|].
    rewrite Hty, Hx', Hy', Hh', Hi', Hx, Hy, Hh, Hi.
    split; [apply (applyBoundsToAnnotation_type (heap s) a)|].
    repeat split; reflexivity.
Qed.

(** X11.  While the select tool drags a handle of a rectangle, an ellipse
    or a pixelation region, the box of the selection after a series of
    mouse moves is the box computed from the handle, the bounds recorded
    at the start of the drag and the last pointer position alone; the moves
    before the last leave no trace, and nothing is added to the history. *)
Theorem resize_drag_box (cs : list Coords) (c : Coords) (s : State) (a : Annotation)
    (mode : DragMode) (ob : Bounds) :
  resizingSelection s a mode ob -> boxShaped a ->
  exists s' a',
    run (map MouseMove (cs ++ [c])) s = Some s' /\
    resizingSelection s' a' mode ob /\ boxShaped a' /\
    hasBounds (getBounds (ctx s') (heap s') a')
              (resizedBounds mode (c_x c - dragStartX s) (c_y c - dragStartY s) ob) /\
    history s' = history s /\ historyIndex s' = historyIndex s.
Proof.
  intros Hr Hb.
  destruct (resize_moves_inv cs s a mode ob Hr)
    as (s1 & a1 & Hrun & Hr1 & Hty & Hx & Hy & Hh & Hi).
  destruct (handleSelectMouseMove_resize c s1 a1 mode ob Hr1)
    as (Hr2 & Hheap & Hctx & _ & _ & Hh2 & Hi2).
  exists (handleSelectMouseMove c s1),
         (snd (resizeAnnotation (heap s1) a1 mode (c_x c - dragStartX s1)
                                (c_y c - dragStartY s1) ob)).
  split.
  { rewrite map_app, run_app, Hrun. cbn [map run].
    rewrite (dispatch_move_resize c s1 a1 mode ob Hr1). reflexivity. }
  split; [exact Hr2|].
  rewrite Hheap, Hctx, Hh2, Hi2, Hh, Hi, Hx, Hy.
  destruct (resizedBounds_min mode (c_x c - dragStartX s) (c_y c - dragStartY s) ob)
    as [Hw Hhh].
  destruct (applyBounds_box (ctx s1) (heap s1)
              (resizedBounds mode (c_x c - dragStartX s) (c_y c - dragStartY s) ob) ob)
    as (H1 & H2 & H3 & _); [lra | lra |].
  unfold resizeAnnotation.
  destruct a1 as [| |r|e| |b]; destruct a; try discriminate Hty; try (exfalso; exact Hb);
    (split; [exact I|]); (split; [|split; reflexivity]).
  - exact (H1 r).
  - exact (H3 e).
  - exact (H2 b).
Qed.

Lemma resize_drag_box_witness :
  resizingSelection rectangleGrabbed (ARectangle (rectangleAt 100 100)) ResizeSE
                    (mkBounds 100 100 200 150) /\
  boxShaped (ARectangle (rectangleAt 100 100)) /\
  exists s' a',
    run (map MouseMove ([at_ 400 90] ++ [at_ 322 239])) rectangleGrabbed = Some s' /\
    hasBounds (getBounds (ctx s') (heap s') a')
              (resizedBounds ResizeSE (322 - 302) (239 - 249) (mkBounds 100 100 200 150)).
Proof.
  assert (Hr : resizingSelection rectangleGrabbed (ARectangle (rectangleAt 100 100))
                 ResizeSE (mkBounds 100 100 200 150)).
  { split; [vm_compute; reflexivity|]. split; [vm_compute; reflexivity|].
    split; [discriminate|]. split; vm_compute; reflexivity. }
  split; [exact Hr|]. split; [exact I|].
  destruct (resize_drag_box [at_ 400 90] (at_ 322 239) rectangleGrabbed _ _ _ Hr I)
    as (s' & a' & Hrun & _ & _ & HB & _).
  exists s', a'. split; [exact Hrun | exact HB].
Defined.

Lemma scaledBox_compat (nb ob A A' : Bounds) :
  Bounds_eq A A' -> Bounds_eq (scaledBox nb ob A) (scaledBox nb ob A').
Proof.
  intros (H1 & H2 & H3 & H4). unfold Bounds_eq, scaledBox.
  cbn [b_x b_y b_width b_height].
  split; [apply rescale_compat; exact H1|]. split; [apply rescale_compat; exact H2|].
  rewrite H3, H4. split; reflexivity.
Qed.

Lemma rescaledAlong_compat (mode : DragMode) (ob : Bounds) (x0 y0 : Q)
    (cs : list Coords) (A A' : Bounds) :
  Bounds_eq A A' ->
  Bounds_eq (rescaledAlong mode ob x0 y0 cs A) (rescaledAlong mode ob x0 y0 cs A').
Proof.
  unfold rescaledAlong. revert A A'.
  induction cs as [|c cs IH]; intros A A' H; cbn [foldl]; [exact H|].
  apply IH, scaledBox_compat, H.
Qed.

Lemma resize_step_scales (c : Coords) (s : State) (a : Annotation) (mode : DragMode)
    (ob A : Bounds) :
  resizingSelection s a mode ob -> proportional a -> distinctPoints a ->
  getBounds (ctx s) (heap s) a = Some A ->
  0 <= b_width ob -> 0 <= b_height ob ->
  let s' := handleSelectMouseMove c s in
  exists a' A',
    resizingSelection s' a' mode ob /\ proportional a' /\ distinctPoints a' /\
    getBounds (ctx s') (heap s') a' = Some A' /\
    Bounds_eq A' (scaledBox (resizedBounds mode (c_x c - dragStartX s)
                                           (c_y c - dragStartY s) ob) ob A) /\
    dragStartX s' = dragStartX s /\ dragStartY s' = dragStartY s /\
    history s' = history s /\ historyIndex s' = historyIndex s.
Proof.
  intros Hr Hp Hnd HA Hw Hh. cbn zeta.
  destruct (handleSelectMouseMove_resize c s a mode ob Hr)
    as (Hr1 & Hheap & Hctx & Hx & Hy & Hh1 & Hi1).
  set (dx := c_x c - dragStartX s) in *. set (dy := c_y c - dragStartY s) in *.
  destruct (resizedBounds_min mode dx dy ob) as [Hnw Hnh].
  assert (Hkx : 0 <= b_width (resizedBounds mode dx dy ob) / orOne (b_width ob))
    by (apply scale_nonneg; lra).
  assert (Hky : 0 <= b_height (resizedBounds mode dx dy ob) / orOne (b_height ob))
    by (apply scale_nonneg; lra).
  assert (G : hasBounds (boundsAfter (ctx s) (resizeAnnotation (heap s) a mode dx dy ob))
                        (scaledBox (resizedBounds mode dx dy ob) ob A)).
  { unfold resizeAnnotation.
    destruct a as [st|ar| | | |]; try (exfalso; exact Hp);
      cbn [getBounds distinctPoints] in *.
    - apply applyBounds_scaled_stroke; assumption.
    - injection HA as <-. apply applyBounds_scaled_arrow; assumption. }
  unfold boundsAfter, hasBounds in G.
  destruct (getBounds (ctx s) (fst (resizeAnnotation (heap s) a mode dx dy ob))
                      (snd (resizeAnnotation (heap s) a mode dx dy ob)))
    as [A'|] eqn:EA; [|contradiction].
  exists (snd (resizeAnnotation (heap s) a mode dx dy ob)), A'.
  rewrite Hheap, Hctx.
  split; [exact Hr1|].
  split; [destruct a; try (exfalso; exact Hp); exact I|].
  split; [destruct a; try (exfalso; exact Hp); [exact Hnd | exact I]|].
  split; [exact EA|]. split; [exact G|].
  repeat split; assumption.
Qed.

(** X12.  While the select tool drags a handle of an arrow or of a stroke,
    every mouse move rescales the annotation as it is then, from the
    bounds recorded at the start of the drag to the box computed for the
    pointer: after a series of moves the bounds are the bounds before
    rescaled once for every move.  With a recorded box of positive width
    and height that the annotation fills, one move gives it the computed
    box, and a second move to the same point rescales it again: its width
    becomes the square of the computed width over the original width. *)
Theorem resize_drag_compounds (cs : list Coords) (s : State) (a : Annotation)
    (mode : DragMode) (ob A : Bounds) :
  resizingSelection s a mode ob -> proportional a -> distinctPoints a ->
  getBounds (ctx s) (heap s) a = Some A ->
  0 <= b_width ob -> 0 <= b_height ob ->
  (exists s' a',
     run (map MouseMove cs) s = Some s' /\
     resizingSelection s' a' mode ob /\
     hasBounds (getBounds (ctx s') (heap s') a')
               (rescaledAlong mode ob (dragStartX s) (dragStartY s) cs A) /\
     history s' = history s /\ historyIndex s' = historyIndex s) /\
  (A = ob -> 0 < b_width ob -> 0 < b_height ob ->
   forall c,
     let nb := resizedBounds mode (c_x c - dragStartX s) (c_y c - dragStartY s) ob in
     Bounds_eq (rescaledAlong mode ob (dragStartX s) (dragStartY s) [c] A) nb /\
     b_width (rescaledAlong mode ob (dragStartX s) (dragStartY s) [c; c] A)
       == b_width nb * b_width nb / b_width ob /\
     b_height (rescaledAlong mode ob (dragStartX s) (dragStartY s) [c; c] A)
       == b_height nb * b_height nb / b_height ob).
Proof.
  intros Hr Hp Hnd HA Hw Hh. split.
  - assert (G : forall x0 y0, x0 = dragStartX s -> y0 = dragStartY s ->
              exists s' a' A',
                run (map MouseMove cs) s = Some s' /\
                resizingSelection s' a' mode ob /\
                getBounds (ctx s') (heap s') a' = Some A' /\
                Bounds_eq A' (rescaledAlong mode ob x0 y0 cs A) /\
                history s' = history s /\ historyIndex s' = historyIndex s).
    { intros x0 y0. revert s a A Hr Hp Hnd HA.
      induction cs as [|c cs IH]; intros s a A Hr Hp Hnd HA Ex Ey.
      - exists s, a, A. cbn [map run]. unfold rescaledAlong. cbn [foldl].
        split; [reflexivity|]. split; [exact Hr|]. split; [exact HA|].
        split; [apply Bounds_eq_refl|]. split; reflexivity.
      - cbn [map run]. rewrite (dispatch_move_resize c s a mode ob Hr).
        destruct (resize_step_scales c s a mode ob A Hr Hp Hnd HA Hw Hh)
          as (a1 & A1 & Hr1 & Hp1 & Hnd1 & HA1 & HE1 & Hx1 & Hy1 & Hh1 & Hi1).
        destruct (IH _ a1 A1 Hr1 Hp1 Hnd1 HA1)
          as (s' & a' & A' & Hrun & Hr' & HA' & HE' & Hh' & Hi');
          [congruence | congruence |].
        exists s', a', A'. split; [exact Hrun|]. split; [exact Hr'|].
        split; [exact HA'|]. split; [|split; congruence].
        eapply Bounds_eq_trans; [exact HE'|].
        unfold rescaledAlong. cbn [foldl]. apply rescaledAlong_compat.
        rewrite Ex, Ey. exact HE1. }
    destruct (G _ _ eq_refl eq_refl) as (s' & a' & A' & Hrun & Hr' & HA' & HE' & Hhi).
    exists s', a'. split; [exact Hrun|]. split; [exact Hr'|].
    rewrite HA'. split; [exact HE' | exact Hhi].
  - intros -> Hw' Hh' c. cbn zeta. unfold rescaledAlong. cbn [foldl].
    set (nb := resizedBounds mode _ _ ob).
    split; [apply scaledBox_same; assumption|].
    unfold scaledBox. cbn [b_width b_height].
    rewrite (orOne_nonzero (b_width ob)) by lra.
    rewrite (orOne_nonzero (b_height ob)) by lra.
    split; field; lra.
Qed.

Lemma resize_drag_compounds_witness :
  let a := AArrow (arrowTo 40 20) in
  let ob := mkBounds 0 0 40 20 in
  resizingSelection arrowGrabbed a ResizeSE ob /\
  proportional a /\ distinctPoints a /\
  getBounds (ctx arrowGrabbed) (heap arrowGrabbed) a = Some ob /\
  0 <= b_width ob /\ 0 <= b_height ob /\
  exists s' a',
    run (map MouseMove [at_ 60 30; at_ 60 30]) arrowGrabbed = Some s' /\
    hasBounds (getBounds (ctx s') (heap s') a')
              (rescaledAlong ResizeSE ob 40 20 [at_ 60 30; at_ 60 30] ob).
Proof.
  cbn zeta.
  assert (Hr : resizingSelection arrowGrabbed (AArrow (arrowTo 40 20)) ResizeSE
                 (mkBounds 0 0 40 20)).
  { split; [vm_compute; reflexivity|]. split; [vm_compute; reflexivity|].
    split; [discriminate|]. split; vm_compute; reflexivity. }
  split; [exact Hr|]. split; [exact I|]. split; [exact I|].
  split; [reflexivity|]. split; [discriminate|]. split; [discriminate|].
  destruct (resize_drag_compounds [at_ 60 30; at_ 60 30] arrowGrabbed _ _ _
              (mkBounds 0 0 40 20) Hr I I)
    as [(s' & a' & Hrun & _ & HB & _) _];
    [reflexivity | discriminate | discriminate |].
  exists s', a'. split; [exact Hrun | exact HB].
Defined.

(** The arrow of the witness after the two moves: 90 by 45, where the
    pointer asks for 60 by 30. *)
Example arrow_resized_twice :
  exists s' ar,
    run (map MouseMove [at_ 60 30; at_ 60 30]) arrowGrabbed = Some s' /\
    arrows s' = [ar] /\ Bounds_eq (ArrowM.getBounds ar) (mkBounds 0 0 90 45).
Proof.
  eexists. eexists. split; [vm_compute; reflexivity|].
  split; [vm_compute; reflexivity|]. vm_compute. repeat split.
Qed.

(** ** Handles *)

Lemma handleAt_spec (x y hx hy : Q) :
  handleAt x y hx hy = true <->
  Qabs (x - hx) <= SELECTION.handleSize /\ Qabs (y - hy) <= SELECTION.handleSize.
Proof.
  unfold handleAt. rewrite andb_true_iff, !Qle_bool_iff. reflexivity.
Qed.

Lemma getHandleAtPoint_near (x y : Q) (B : Bounds) (m : DragMode) :
  getHandleAtPoint x y B = Some m -> nearCorner x y m B.
Proof.
  unfold getHandleAtPoint.
  destruct (handleAt x y (b_x B) (b_y B)) eqn:E1;
    [intros [= <-]; apply handleAt_spec, E1|].
  destruct (handleAt x y (b_x B + b_width B) (b_y B)) eqn:E2;
    [intros [= <-]; apply handleAt_spec, E2|].
  destruct (handleAt x y (b_x B) (b_y B + b_height B)) eqn:E3;
    [intros [= <-]; apply handleAt_spec, E3|].
  destruct (handleAt x y (b_x B + b_width B) (b_y B + b_height B)) eqn:E4;
    [intros [= <-]; apply handleAt_spec, E4|].
  discriminate.
Qed.

Lemma handleAt_false (x y hx hy : Q) :
  handleAt x y hx hy = false <->
  ~ (Qabs (x - hx) <= SELECTION.handleSize /\ Qabs (y - hy) <= SELECTION.handleSize).
Proof.
  rewrite <- handleAt_spec. destruct (handleAt x y hx hy); split; intros H;
    try reflexivity; try discriminate; try (intros H'; discriminate).
  exfalso. apply H. reflexivity.
Qed.

Lemma Qabs_apart (x a b : Q) :
  2 * SELECTION.handleSize < b - a ->
  Qabs (x - a) <= SELECTION.handleSize -> Qabs (x - b) <= SELECTION.handleSize -> False.
Proof.
  intros Hd Ha Hb. apply Qabs_Qle_condition in Ha, Hb. lra.
Qed.

Lemma getHandleAtPoint_complete (x y : Q) (B : Bounds) (m : DragMode) :
  2 * SELECTION.handleSize < b_width B -> 2 * SELECTION.handleSize < b_height B ->
  nearCorner x y m B -> getHandleAtPoint x y B = Some m.
Proof.
  intros Hw Hh. revert m.
  intros m Hm. unfold getHandleAtPoint.
  assert (Ax : forall P, Qabs (x - b_x B) <= SELECTION.handleSize ->
               Qabs (x - (b_x B + b_width B)) <= SELECTION.handleSize -> P).
  { intros P H1 H2. exfalso. apply (Qabs_apart x (b_x B) (b_x B + b_width B)); [lra|assumption..]. }
  assert (Ay : forall P, Qabs (y - b_y B) <= SELECTION.handleSize ->
               Qabs (y - (b_y B + b_height B)) <= SELECTION.handleSize -> P).
  { intros P H1 H2. exfalso. apply (Qabs_apart y (b_y B) (b_y B + b_height B)); [lra|assumption..]. }
  destruct (handleAt x y (b_x B) (b_y B)) eqn:E1.
  { apply handleAt_spec in E1 as [X1 Y1].
    destruct m; cbn [nearCorner] in Hm; try contradiction; destruct Hm as [X Y];
      first [reflexivity | exact (Ax _ X1 X) | exact (Ay _ Y1 Y)]. }
  destruct (handleAt x y (b_x B + b_width B) (b_y B)) eqn:E2.
  { apply handleAt_spec in E2 as [X1 Y1]. apply handleAt_false in E1.
    destruct m; cbn [nearCorner] in Hm; try contradiction; destruct Hm as [X Y];
      first [reflexivity | exfalso; apply E1; split; assumption
            | exact (Ax _ X X1) | exact (Ay _ Y1 Y)]. }
  destruct (handleAt x y (b_x B) (b_y B + b_height B)) eqn:E3.
  { apply handleAt_spec in E3 as [X1 Y1]. apply handleAt_false in E1, E2.
    destruct m; cbn [nearCorner] in Hm; try contradiction; destruct Hm as [X Y];
      first [reflexivity | exfalso; apply E1; split; assumption
            | exfalso; apply E2; split; assumption
            | exact (Ax _ X1 X) | exact (Ay _ Y Y1)]. }
  apply handleAt_false in E1, E2, E3.
  destruct (handleAt x y (b_x B + b_width B) (b_y B + b_height B)) eqn:E4.
  { destruct m; cbn [nearCorner] in Hm; try contradiction;
      first [reflexivity | exfalso; apply E1; exact Hm
            | exfalso; apply E2; exact Hm | exfalso; apply E3; exact Hm]. }
  apply handleAt_false in E4.
  destruct m; cbn [nearCorner] in Hm; try contradiction; exfalso;
    first [apply E1; exact Hm | apply E2; exact Hm | apply E3; exact Hm
          | apply E4; exact Hm].
Qed.

(** X13.  [getHandleAtPoint] returns a handle only when the pointer is
    within the handle size (8) of its corner, never [move], and nothing
    exactly when the pointer is near no corner.  On a box wider and higher
    than twice the handle size the corners are apart, and the handle
    returned is the one whose corner the pointer is near. *)
Theorem getHandleAtPoint_corner (x y : Q) (B : Bounds) :
  2 * SELECTION.handleSize < b_width B -> 2 * SELECTION.handleSize < b_height B ->
  (forall m, getHandleAtPoint x y B = Some m <-> nearCorner x y m B) /\
  (getHandleAtPoint x y B = None <-> forall m, ~ nearCorner x y m B).
Proof.
  intros Hw Hh.
  pose proof (fun m => getHandleAtPoint_complete x y B m Hw Hh) as G.
  split.
  - intros m. split; [apply getHandleAtPoint_near | apply G].
  - split.
    + intros HN m Hm. rewrite (G m Hm) in HN. discriminate.
    + intros HN. destruct (getHandleAtPoint x y B) as [m|] eqn:E; [|reflexivity].
      exfalso. exact (HN m (getHandleAtPoint_near x y B m E)).
Qed.

Lemma getHandleAtPoint_corner_witness :
  2 * SELECTION.handleSize < b_width (mkBounds 100 100 200 150) /\
  2 * SELECTION.handleSize < b_height (mkBounds 100 100 200 150) /\
  (getHandleAtPoint 305 243 (mkBounds 100 100 200 150) = Some ResizeSE <->
   nearCorner 305 243 ResizeSE (mkBounds 100 100 200 150)).
Proof.
  split; [reflexivity|]. split; [reflexivity|].
  destruct (getHandleAtPoint_corner 305 243 (mkBounds 100 100 200 150)) as [H _];
    [reflexivity | reflexivity | exact (H ResizeSE)].
Defined.

(** ** The preview of a shape *)

Lemma handleMouseMove_shape (c : Coords) (s : State) :
  drawingShape s -> handleMouseMove c s = scheduleShapeRedraw c s.
Proof.
  intros (Hd & Hs & Hp). unfold handleMouseMove. rewrite Hd.
  destruct (currentTool s); try reflexivity; contradiction.
Qed.

Lemma scheduleShapeRedraw_drawingShape (c : Coords) (s : State) :
  drawingShape s -> drawingShape (scheduleShapeRedraw c s).
Proof.
  intros H. unfold scheduleShapeRedraw, drawingShape in *.
  cbn. destruct (rafId s); cbn; exact H.
Qed.

Lemma scheduleShapeRedraw_twice (c1 c2 : Coords) (s : State) :
  scheduleShapeRedraw c2 (scheduleShapeRedraw c1 s) = scheduleShapeRedraw c2 s.
Proof.
  unfold scheduleShapeRedraw. cbn. destruct (rafId s) eqn:E; cbn; rewrite ?E; reflexivity.
Qed.

Lemma run_moves_shape (cs : list Coords) (c : Coords) (s : State) :
  drawingShape s ->
  run (map MouseMove (cs ++ [c])) s = Some (scheduleShapeRedraw c s).
Proof.
  revert s. induction cs as [|c' cs IH]; intros s H; cbn [app map run dispatch].
  - rewrite (handleMouseMove_shape c s H). reflexivity.
  - rewrite (handleMouseMove_shape c' s H).
    change (run (map MouseMove (cs ++ [c])) (scheduleShapeRedraw c' s)
            = Some (scheduleShapeRedraw c s)).
    rewrite (IH _ (scheduleShapeRedraw_drawingShape c' s H)).
    rewrite scheduleShapeRedraw_twice. reflexivity.
Qed.

Lemma handleMouseUp_unrendered (c : Coords) (s : State) :
  drawingShape s -> rafId s = false -> pendingCoords s = None ->
  handleMouseUp (scheduleShapeRedraw c s) = handleMouseUp s.
Proof.
  intros (Hd & Hs & Hp) Hr Hc. unfold scheduleShapeRedraw, handleMouseUp.
  destruct s; cbn in *. subst.
  match goal with H : ?t <> SELECT |- _ => destruct t end;
    try contradiction; reflexivity.
Qed.

(** X14.  While a shape is drawn, mouse moves only record the pointer:
    the shape follows at the next animation frame, and only to the last
    position recorded; a series of moves then a frame has the effect of
    the last move then the frame.  A release cancels the frame that is
    due: moves since the last frame are lost, and the release commits, or
    drops, the shape as it was at that frame. *)
Theorem preview_coalesces (cs : list Coords) (c : Coords) (s : State) :
  drawingShape s ->
  run (map MouseMove (cs ++ [c]) ++ [AnimationFrame]) s
    = run [MouseMove c; AnimationFrame] s /\
  run (map MouseMove (cs ++ [c]) ++ [AnimationFrame]) s
    = Some (shapeRedraw (scheduleShapeRedraw c s)) /\
  (rafId s = false -> pendingCoords s = None ->
   run (map MouseMove (cs ++ [c]) ++ [MouseUp]) s = run [MouseUp] s).
Proof.
  intros H.
  assert (E : run (map MouseMove (cs ++ [c]) ++ [AnimationFrame]) s
              = Some (shapeRedraw (scheduleShapeRedraw c s))).
  { rewrite run_app, (run_moves_shape cs c s H). cbn [run dispatch].
    assert (R : rafId (scheduleShapeRedraw c s) = true).
    { unfold scheduleShapeRedraw. cbn. destruct (rafId s) eqn:Er; cbn; [exact Er | reflexivity]. }
    rewrite R. reflexivity. }
  split; [|split; [exact E|]].
  - rewrite E. symmetry.
    change [MouseMove c; AnimationFrame] with (map MouseMove ([] ++ [c]) ++ [AnimationFrame]).
    rewrite run_app, (run_moves_shape [] c s H). cbn [run dispatch].
    assert (R : rafId (scheduleShapeRedraw c s) = true).
    { unfold scheduleShapeRedraw. cbn. destruct (rafId s) eqn:Er; cbn; [exact Er | reflexivity]. }
    rewrite R. reflexivity.
  - intros Hr Hc. rewrite run_app, (run_moves_shape cs c s H). cbn [run dispatch].
    rewrite (handleMouseUp_unrendered c s H Hr Hc). reflexivity.
Qed.

Lemma preview_coalesces_witness :
  drawingShape (drawingArrow 6 0) /\
  run (map MouseMove ([at_ 1 1; at_ 2 9] ++ [at_ 50 50]) ++ [AnimationFrame])
      (drawingArrow 6 0)
    = run [MouseMove (at_ 50 50); AnimationFrame] (drawingArrow 6 0).
Proof.
  assert (H : drawingShape (drawingArrow 6 0)).
  { split; [reflexivity|]. split; discriminate. }
  split; [exact H|].
  destruct (preview_coalesces [at_ 1 1; at_ 2 9] (at_ 50 50) (drawingArrow 6 0) H)
    as [E _].
  exact E.
Defined.

(** ** The pen *)

Lemma addPoint_points (h : list Point) (st : Stroke) (x y : Q) :
  (forall l, l ∈ stroke_points st -> (l < length h)%nat) ->
  let r := StrokeM.addPoint h st x y in
  StrokeM.points (fst r) (snd r) = StrokeM.points h st ++ [mkPoint x y] /\
  stroke_points (snd r) = stroke_points st ++ [length h] /\
  fst r = h ++ [mkPoint x y] /\
  stroke_color (snd r) = stroke_color st /\
  stroke_lineWidth (snd r) = stroke_lineWidth st.
Proof.
  intros Hlt. cbn zeta. unfold StrokeM.addPoint, alloc, StrokeM.points. cbn.
  repeat split; try reflexivity.
  rewrite omap_app. cbn [omap list_omap].
  rewrite lookup_app_r by lia. rewrite Nat.sub_diag. cbn. f_equal.
  assert (G : forall ls, (forall l, l ∈ ls -> (l < length h)%nat) ->
            omap (M := list) (fun l => (h ++ [mkPoint x y]) !! l) ls
            = omap (M := list) (fun l => h !! l) ls).
  { induction ls as [|l ls IH]; intros Hls; [reflexivity|].
    cbn [omap list_omap]. rewrite lookup_app_l by (apply Hls; left).
    rewrite IH by (intros l' Hl'; apply Hls; right; exact Hl'). reflexivity. }
  apply G, Hlt.
Qed.

Lemma points_seq (h ps : list Point) (col : string) (lw : Q) :
  StrokeM.points (h ++ ps) (mkStroke (seq (length h) (length ps)) col lw) = ps.
Proof.
  unfold StrokeM.points. cbn [stroke_points]. revert h.
  induction ps as [|p ps IH]; intros h; [reflexivity|].
  cbn [length seq omap list_omap].
  rewrite list_lookup_middle by reflexivity. f_equal.
  specialize (IH (h ++ [p])). rewrite length_app, <- app_assoc in IH.
  cbn [length app] in IH. rewrite Nat.add_1_r in IH. exact IH.
Qed.

Lemma pen_moves (cs : list Coords) (t : State) (n : nat) (base : nat) (col : string)
    (lw : Q) :
  currentTool t = PEN -> isDrawing t = true ->
  currentStroke t = Some (mkStroke (seq base n) col lw) ->
  length (heap t) = (base + n)%nat ->
  exists t',
    run (map MouseMove cs) t = Some t' /\
    currentTool t' = PEN /\ isDrawing t' = true /\
    currentStroke t' = Some (mkStroke (seq base (n + length cs)) col lw) /\
    heap t' = heap t ++ map coordsPoint cs /\
    untouched t t'.
Proof.
  revert t n. induction cs as [|c cs IH]; intros t n Ht Hd Hs Hl.
  - exists t. cbn [map run length]. rewrite Nat.add_0_r, app_nil_r.
    repeat split; try assumption; reflexivity.
  - cbn [map run dispatch].
    assert (E : handleMouseMove c t
                = setCurrentStroke (Some (mkStroke (seq base (S n)) col lw))
                    (setHeap (heap t ++ [coordsPoint c]) t)).
    { unfold handleMouseMove. rewrite Ht, Hd, Hs. cbn [Tool_eqb andb negb].
      unfold StrokeM.addPoint, alloc. cbn [stroke_points stroke_color stroke_lineWidth].
      rewrite Hl, seq_S. reflexivity. }
    rewrite E.
    destruct (IH (setCurrentStroke (Some (mkStroke (seq base (S n)) col lw))
                    (setHeap (heap t ++ [coordsPoint c]) t)) (S n))
      as (t' & Hrun & Ht' & Hd' & Hs' & Hh' & Hu'); try assumption; try reflexivity.
    { cbn. rewrite length_app, Hl. cbn [length]. lia. }
    exists t'. split; [exact Hrun|]. split; [exact Ht'|]. split; [exact Hd'|].
    split.
    { rewrite Hs'. cbn [length].
      replace (n + S (length cs))%nat with (S n + length cs)%nat by lia. reflexivity. }
    split; [rewrite Hh'; cbn; rewrite <- app_assoc; reflexivity|].
    eapply untouched_trans; [|exact Hu']. repeat split; reflexivity.
Qed.

Lemma saveToHistory_isDrawing (s : State) : isDrawing (saveToHistory s) = isDrawing s.
Proof. unfold saveToHistory. repeat case_match; reflexivity. Qed.

Lemma committedOnce_after (a : Annotation) (s s0 s2 : State) :
  untouched s s0 -> committedOnce a s0 s2 -> committedOnce a s s2.
Proof.
  intros Hu (H1 & H2 & H3).
  apply (committedOnce_intro a s s0 (push a s0) s2); try assumption;
    try (destruct a; reflexivity).
  repeat split; try assumption. rewrite saveToHistory_scene. exact H1.
Qed.

(** X15.  With the pen, a press, any series of moves and the release
    commit one stroke that has one point for the press and one for every
    move, in order: the pen records every pointer position, on new point
    objects at the end of the store, all distinct; the points of the other
    strokes are not touched, and the history is saved once. *)
Theorem pen_records_every_move (c0 : Coords) (cs : list Coords) (s : State) :
  currentTool s = PEN -> isEditingText s = false ->
  let st := penStroke s (S (length cs)) in
  exists s',
    run (MouseDown c0 :: map MouseMove cs ++ [MouseUp]) s = Some s' /\
    committedOnce (AStroke st) s s' /\
    strokes s' = strokes s ++ [st] /\
    heap s' = heap s ++ map coordsPoint (c0 :: cs) /\
    StrokeM.points (heap s') st = map coordsPoint (c0 :: cs) /\
    NoDup (stroke_points st) /\
    currentStroke s' = None /\ isDrawing s' = false.
Proof.
  intros Ht He. cbn zeta.
  set (s1 := handleMouseDown c0 s).
  assert (E1 : s1 = setCurrentStroke (Some (mkStroke (seq (length (heap s)) 1)
                                                     (color s) (lineWidth s)))
                      (setHeap (heap s ++ [coordsPoint c0]) (setIsDrawing true s))).
  { subst s1. unfold handleMouseDown. rewrite He, Ht. reflexivity. }
  destruct (pen_moves cs s1 1 (length (heap s)) (color s) (lineWidth s))
    as (t & Hrun & Htt & Hdt & Hst & Hht & Hut).
  { rewrite E1. exact Ht. } { rewrite E1. reflexivity. } { rewrite E1. reflexivity. }
  { rewrite E1. cbn. rewrite length_app. reflexivity. }
  assert (Hus : untouched s s1) by (rewrite E1; repeat split; reflexivity).
  assert (Hpt : inProgress t = Some (AStroke (penStroke s (S (length cs))))).
  { unfold inProgress. rewrite Htt, Hst. reflexivity. }
  destruct (handleMouseUp_release t _ Hdt Hpt) as [[_ Hc]|[Hn _]].
  2:{ exfalso. apply Hn. cbn. rewrite length_seq. lia. }
  exists (handleMouseUp t). split.
  { change (MouseDown c0 :: map MouseMove cs ++ [MouseUp])
      with ([MouseDown c0] ++ (map MouseMove cs ++ [MouseUp])).
    rewrite run_app. cbn [run dispatch]. fold s1.
    rewrite run_app, Hrun. reflexivity. }
  assert (Hheap : heap (handleMouseUp t) = heap s ++ map coordsPoint (c0 :: cs)).
  { rewrite handleMouseUp_heap, Hht, E1. cbn. rewrite <- app_assoc. reflexivity. }
  split; [apply (committedOnce_after _ s t); [exact (untouched_trans _ _ _ Hus Hut) | exact Hc]|].
  split.
  { destruct Hc as (Hsc & _). destruct Hut as (Hsc' & _). destruct Hus as (Hsc'' & _).
    unfold scene in *. cbn [push] in Hsc. cbn in Hsc.
    injection Hsc as -> _ _ _ _ _. injection Hsc' as -> _ _ _ _ _.
    injection Hsc'' as -> _ _ _ _ _. reflexivity. }
  split; [exact Hheap|].
  split.
  { rewrite Hheap. unfold penStroke.
    replace (S (length cs)) with (length (map coordsPoint (c0 :: cs)))
      by (rewrite length_map; reflexivity).
    apply points_seq. }
  split; [apply NoDup_seq|].
  unfold handleMouseUp. rewrite Htt, Hdt. cbn [negb].
  set (t0 := setIsDrawing false _).
  assert (F : currentTool t0 = PEN /\ currentStroke t0 = Some (penStroke s (S (length cs)))).
  { subst t0. destruct (rafId t); cbn; rewrite Htt, Hst; split; reflexivity. }
  destruct F as [F1 F2]. rewrite F1, F2.
  cbn [penStroke stroke_points]. rewrite length_seq. cbn [Nat.ltb Nat.leb].
  split; [reflexivity|].
  change (isDrawing (saveToHistory
            (setStrokes (strokes t0 ++ [penStroke s (S (length cs))]) t0)) = false).
  rewrite saveToHistory_isDrawing. reflexivity.
Qed.

Lemma pen_records_every_move_witness :
  currentTool (setCurrentTool PEN (loaded ctx0)) = PEN /\
  isEditingText (setCurrentTool PEN (loaded ctx0)) = false /\
  exists s',
    run (MouseDown (at_ 10 10) :: map MouseMove [at_ 20 15; at_ 30 5] ++ [MouseUp])
        (setCurrentTool PEN (loaded ctx0)) = Some s' /\
    StrokeM.points (heap s') (penStroke (setCurrentTool PEN (loaded ctx0)) 3)
      = map coordsPoint [at_ 10 10; at_ 20 15; at_ 30 5].
Proof.
  split; [reflexivity|]. split; [reflexivity|].
  destruct (pen_records_every_move (at_ 10 10) [at_ 20 15; at_ 30 5]
              (setCurrentTool PEN (loaded ctx0)) eq_refl eq_refl)
    as (s' & Hrun & _ & _ & _ & Hp & _).
  exists s'. split; [exact Hrun | exact Hp].
Defined.

(** ** The text tool *)

Lemma run_typed (vs : list string) (v : string) (s : State) :
  isEditingText s = true ->
  run (map TextTyped (vs ++ [v])) s = Some (setTextInputValue v s).
Proof.
  revert s. induction vs as [|w vs IH]; intros s He; cbn [app map run dispatch];
    rewrite He.
  - reflexivity.
  - change (run (map TextTyped (vs ++ [v])) (setTextInputValue w s)
            = Some (setTextInputValue v s)).
    rewrite (IH (setTextInputValue w s)) by exact He.
    reflexivity.
Qed.

Lemma run_typed_any (vs : list string) (s : State) :
  isEditingText s = true ->
  exists s', run (map TextTyped vs) s = Some s' /\
             isEditingText s' = true /\ untouched s s' /\ pendingText s' = pendingText s.
Proof.
  intros He. destruct vs as [|w vs0] using rev_ind.
  - exists s. repeat split; try reflexivity. exact He.
  - clear IHvs0. rename vs0 into vs', w into v. exists (setTextInputValue v s). rewrite (run_typed vs' v s He).
    repeat split; try reflexivity. exact He.
Qed.

(** X16.  With the text tool, a click, any typing and Enter commit one
    text annotation: its text is the last typed value, trimmed; it stands
    at the click, lowered by 0.8 times the font size, with the font size
    and colour of the click; the blur that follows Enter commits nothing
    more.  A value of white space only commits nothing, and Escape commits
    nothing whatever was typed; in each case the entry is closed. *)
Theorem text_gesture (c : Coords) (vs : list string) (v : string) (s : State) :
  currentTool s = TEXT -> isEditingText s = false ->
  (exists s',
     run (MouseDown c :: map TextTyped (vs ++ [v]) ++ [TextEnter; TextBlurTimeout]) s
       = Some s' /\
     isEditingText s' = false /\ pendingText s' = None /\
     (nonEmpty (trim v) = true -> committedOnce (AText (typedText s c v)) s s') /\
     (nonEmpty (trim v) = false -> untouched s s')) /\
  (exists s',
     run (MouseDown c :: map TextTyped vs ++ [TextEscape]) s = Some s' /\
     isEditingText s' = false /\ pendingText s' = None /\ untouched s s').
Proof.
  intros Ht He.
  assert (E0 : handleMouseDown c s = showTextInput c s).
  { unfold handleMouseDown. rewrite He, Ht. reflexivity. }
  assert (He1 : isEditingText (showTextInput c s) = true) by reflexivity.
  assert (Hu1 : untouched s (showTextInput c s)) by (repeat split; reflexivity).
  split.
  - set (s2 := setTextInputValue v (showTextInput c s)).
    exists (confirmTextInput s2). split.
    { change (MouseDown c :: map TextTyped (vs ++ [v]) ++ [TextEnter; TextBlurTimeout])
        with ([MouseDown c] ++ (map TextTyped (vs ++ [v]) ++ [TextEnter; TextBlurTimeout])).
      rewrite run_app. cbn [run dispatch]. rewrite E0.
      rewrite run_app, (run_typed vs v _ He1). fold s2. cbn [run dispatch].
      assert (F : isEditingText (confirmTextInput s2) = false) by reflexivity.
      rewrite F. reflexivity. }
    split; [reflexivity|]. split; [reflexivity|].
    assert (Hu2 : untouched s s2) by (repeat split; reflexivity).
    split.
    + intros Hn. apply (committedOnce_after _ s s2 _ Hu2).
      exact (confirmTextInput_commits s2 _ eq_refl Hn).
    + intros Hn. apply (untouched_trans _ s2 _ Hu2).
      apply confirmTextInput_empty. exact Hn.
  - destruct (run_typed_any vs (showTextInput c s) He1) as (s2 & Hrun & He2 & Hu2 & Hp2).
    exists (cancelTextInput s2). split.
    { change (MouseDown c :: map TextTyped vs ++ [TextEscape])
        with ([MouseDown c] ++ (map TextTyped vs ++ [TextEscape])).
      rewrite run_app. cbn [run dispatch]. rewrite E0.
      rewrite run_app, Hrun. reflexivity. }
    split; [reflexivity|]. split; [reflexivity|].
    apply (untouched_trans _ _ _ Hu1). apply (untouched_trans _ _ _ Hu2).
    apply hideTextInput_untouched.
Qed.

Lemma text_gesture_witness :
  currentTool (setCurrentTool TEXT (loaded ctx0)) = TEXT /\
  isEditingText (setCurrentTool TEXT (loaded ctx0)) = false /\
  exists s',
    run (MouseDown (at_ 10 10) :: map TextTyped (["h"%string; "he"%string] ++ [" hey "%string])
           ++ [TextEnter; TextBlurTimeout])
        (setCurrentTool TEXT (loaded ctx0)) = Some s' /\
    committedOnce (AText (typedText (setCurrentTool TEXT (loaded ctx0)) (at_ 10 10) " hey "))
                  (setCurrentTool TEXT (loaded ctx0)) s'.
Proof.
  split; [reflexivity|]. split; [reflexivity|].
  destruct (text_gesture (at_ 10 10) ["h"%string; "he"%string] " hey "
              (setCurrentTool TEXT (loaded ctx0)) eq_refl eq_refl)
    as [(s' & Hrun & _ & _ & Hc & _) _].
  exists s'. split; [exact Hrun | exact (Hc eq_refl)].
Defined.

(** ** Selecting *)

Lemma saveToHistory_frame (s : State) :
  isEditingText (saveToHistory s) = isEditingText s /\
  currentTool (saveToHistory s) = currentTool s /\
  selectedType (saveToHistory s) = selectedType s /\
  selectedIndex (saveToHistory s) = selectedIndex s /\
  dragMode (saveToHistory s) = dragMode s.
Proof. unfold saveToHistory. repeat case_match; repeat split; reflexivity. Qed.

(** X17.  With the select tool and nothing selected, a press on an
    annotation selects the topmost match, starts a move and saves the
    history at once, though no list has changed; so after a mere click
    one undo restores the lists of the entry that was current before the
    click, and drops the selection: these are the live lists when that
    entry was their snapshot, and older ones when the lists had changed
    since, as after a move, the release of which saves nothing.  A press
    on empty canvas clears the selection and saves nothing. *)
Theorem select_click (c : Coords) (s : State) :
  histOK s ->
  currentTool s = SELECT -> isEditingText s = false -> selectedAnnotation s = None ->
  (forall hit,
     findAnnotationAtPoint s (c_x c) (c_y c) = Some hit ->
     let s1 := handleMouseDown c s in
     selectedType s1 = Some (hit_type hit) /\
     selectedIndex s1 = Some (hit_index hit) /\
     dragMode s1 = Some Move /\
     scene s1 = scene s /\
     history s1 = history (saveToHistory s) /\
     historyIndex s1 = historyIndex (saveToHistory s) /\
     exists e s2, index (history s) (historyIndex s) = Some e /\
                  run [MouseDown c; MouseUp; KeyUndo] s = Some s2 /\
                  scene s2 = entryScene e /\ selectedType s2 = None /\
                  (synced s -> scene s2 = scene s)) /\
  (findAnnotationAtPoint s (c_x c) (c_y c) = None ->
   handleMouseDown c s = clearSelection s).
Proof.
  intros Hok Ht He Hsel.
  assert (E0 : handleMouseDown c s = handleSelectMouseDown c s).
  { unfold handleMouseDown. rewrite He, Ht. reflexivity. }
  split.
  - intros hit Hhit. cbn zeta. rewrite E0.
    unfold handleSelectMouseDown. rewrite Hsel, Hhit.
    set (t := startDrag Move c _ _).
    assert (Hth : history t = history s /\ historyIndex t = historyIndex s /\
                  scene t = scene s) by (repeat split; reflexivity).
    destruct Hth as (Hth & Hti & Hts).
    assert (Htt : currentTool t = SELECT) by exact Ht.
    destruct (saveToHistory_frame t) as (F1 & F2 & F3 & F4 & F5).
    destruct (saveToHistory_ext t s Hth Hti Hts) as [G1 G2].
    split; [rewrite F3; reflexivity|]. split; [rewrite F4; reflexivity|].
    split; [rewrite F5; reflexivity|].
    split; [rewrite saveToHistory_scene; exact Hts|].
    split; [exact G1|]. split; [exact G2|].
    destruct (histOK_entry s Hok) as [e Hentry].
    destruct (undo_after_save_entry s t (handleMouseUp (saveToHistory t)) e
                Hok Hentry Hth Hti)
      as (s2 & Hu & Hs2 & Hn).
    { unfold handleMouseUp. rewrite F2, Htt. reflexivity. }
    { unfold handleMouseUp. rewrite F2, Htt. reflexivity. }
    exists e, s2. split; [exact Hentry|]. split; [|split; [exact Hs2|split; [exact Hn|]]].
    + cbn [run dispatch]. rewrite E0. unfold handleSelectMouseDown.
      rewrite Hsel, Hhit. fold t.
      assert (F : isEditingText (handleMouseUp (saveToHistory t)) = false).
      { unfold handleMouseUp. rewrite F2, Htt. cbn. rewrite F1. exact He. }
      rewrite F, Hu. reflexivity.
    + intros Hsync. unfold synced in Hsync. rewrite Hentry in Hsync.
      injection Hsync as ->. rewrite Hs2. apply entryScene_snapshot.
  - intros Hmiss. rewrite E0. unfold handleSelectMouseDown. rewrite Hsel, Hmiss.
    reflexivity.
Qed.

Lemma select_click_witness :
  histOK rectangleNudged /\
  currentTool rectangleNudged = SELECT /\ isEditingText rectangleNudged = false /\
  selectedAnnotation rectangleNudged = None /\
  findAnnotationAtPoint rectangleNudged 200 200 = Some (mkHit TRectangle 0) /\
  map rect_x (rectangles rectangleNudged) = [110] /\
  map rect_y (rectangles rectangleNudged) = [120] /\
  exists s2, run [MouseDown (at_ 200 200); MouseUp; KeyUndo] rectangleNudged = Some s2 /\
             rectangles s2 = [rectangleAt 100 100] /\ selectedType s2 = None.
Proof.
  assert (Hl : length (history rectangleNudged) = 3%nat) by (vm_compute; reflexivity).
  assert (Hi : historyIndex rectangleNudged = 2%Z) by (vm_compute; reflexivity).
  assert (Hok : histOK rectangleNudged).
  { unfold histOK. rewrite Hl, Hi. unfold HISTORY.maxEntries. lia. }
  assert (Hhit : findAnnotationAtPoint rectangleNudged 200 200 = Some (mkHit TRectangle 0))
    by (vm_compute; reflexivity).
  split; [exact Hok|].
  split; [vm_compute; reflexivity|]. split; [vm_compute; reflexivity|].
  split; [vm_compute; reflexivity|]. split; [exact Hhit|].
  split; [vm_compute; reflexivity|]. split; [vm_compute; reflexivity|].
  destruct (select_click (at_ 200 200) rectangleNudged Hok) as [H _];
    [vm_compute; reflexivity | vm_compute; reflexivity | vm_compute; reflexivity |].
  destruct (H _ Hhit) as (_ & _ & _ & _ & _ & _ & e & s2 & He & Hrun & Hs & Hn & _).
  exists s2. split; [exact Hrun|]. split; [|exact Hn].
  assert (Ee : e = snapshot rectangleDrawn).
  { assert (X : index (history rectangleNudged) (historyIndex rectangleNudged)
                = Some (snapshot rectangleDrawn)) by (vm_compute; reflexivity).
    rewrite X in He. injection He as <-. reflexivity. }
  rewrite Ee, entryScene_snapshot in Hs.
  unfold scene in Hs. injection Hs as _ _ -> _ _ _. vm_compute. reflexivity.
Defined.

(** ** Drafts *)

(** Objects allocated in a row are read back through their addresses. *)
Lemma read_seq (ps : list Point) : forall (h more : list Point),
  omap (M := list) (fun l => (h ++ ps ++ more) !! l) (seq (length h) (length ps)) = ps.
Proof.
  induction ps as [|p ps IH]; intros h more; [reflexivity|].
  change ((p :: ps) ++ more) with (p :: (ps ++ more)).
  cbn [length seq]. cbn [omap list_omap].
  rewrite (list_lookup_middle h (ps ++ more) p (length h) eq_refl). f_equal.
  specialize (IH (h ++ [p]) more).
  rewrite length_app, <- app_assoc in IH. cbn [length app] in IH.
  replace (length h + 1)%nat with (S (length h)) in IH by lia.
  exact IH.
Qed.

Lemma restoreStrokes_spec (datas : list DraftStroke) : forall h h' sts,
  restoreStrokes h datas = (h', sts) ->
  h' = h ++ concat (map ds_points datas) /\
  concat (map stroke_points sts)
  = seq (length h) (length (concat (map ds_points datas))) /\
  forall more, strokeValues (h' ++ more) sts = datas.
Proof.
  induction datas as [|d datas IH]; intros h h' sts R; cbn [restoreStrokes] in R.
  - injection R as <- <-. cbn. rewrite app_nil_r. repeat split; reflexivity.
  - unfold restoreStroke in R.
    destruct (restoreStrokes (h ++ ds_points d) datas) as [h2 sts'] eqn:R'.
    injection R as <- <-.
    destruct (IH _ _ _ R') as (-> & E2 & E3).
    cbn [map concat]. split; [rewrite app_assoc; reflexivity|]. split.
    + cbn [stroke_points]. rewrite E2, !length_app, seq_app. reflexivity.
    + intros more. unfold strokeValues. cbn [map]. fold (strokeValues
        (((h ++ ds_points d) ++ concat (map ds_points datas)) ++ more) sts').
      rewrite E3. f_equal.
      unfold StrokeM.points. cbn [stroke_points stroke_color stroke_lineWidth StrokeM.new].
      rewrite <- !app_assoc. rewrite read_seq. destruct d; reflexivity.
Qed.

(** What [restoreAnnotations] leaves alone, and the lists without
    objects of their own. *)
Lemma restoreAnnotations_frame (d : DraftAnnotations) (s0 : State) :
  let s' := restoreAnnotations d s0 in
  arrows s' = orEmpty (draft_arrows d) /\
  rectangles s' = orEmpty (draft_rectangles d) /\
  ellipses s' = orEmpty (draft_ellipses d) /\
  blurs s' = orEmpty (draft_blurs d) /\
  texts s' = orEmpty (draft_texts d) /\
  history s' = history s0 /\ historyIndex s' = historyIndex s0 /\
  selectedType s' = selectedType s0 /\ selectedIndex s' = selectedIndex s0 /\
  (heap s', strokes s') = restoreStrokes (heap s0) (orEmpty (draft_strokes d)).
Proof.
  cbn zeta. unfold restoreAnnotations.
  destruct (restoreStrokes (heap s0) (orEmpty (draft_strokes d))) as [h sts].
  cbn.
  rewrite (map_copy_id _ (orEmpty (draft_arrows d))) by (intros []; reflexivity).
  rewrite (map_copy_id _ (orEmpty (draft_rectangles d))) by (intros []; reflexivity).
  rewrite (map_copy_id _ (orEmpty (draft_ellipses d))) by (intros []; reflexivity).
  rewrite (map_copy_id _ (orEmpty (draft_blurs d))) by (intros []; reflexivity).
  rewrite (map_copy_id _ (orEmpty (draft_texts d))) by (intros []; reflexivity).
  repeat split; reflexivity.
Qed.

Lemma restoreAnnotations_strokes (d : DraftAnnotations) (s0 : State) :
  let s' := restoreAnnotations d s0 in
  let points := concat (map ds_points (orEmpty (draft_strokes d))) in
  strokeValues (heap s') (strokes s') = orEmpty (draft_strokes d) /\
  heap s' = heap s0 ++ points /\
  concat (map stroke_points (strokes s')) = seq (length (heap s0)) (length points).
Proof.
  cbn zeta.
  destruct (restoreAnnotations_frame d s0) as (_ & _ & _ & _ & _ & _ & _ & _ & _ & R).
  cbn zeta in R. symmetry in R.
  destruct (restoreStrokes_spec _ _ _ _ R) as (E1 & E2 & E3).
  split; [|split; [exact E1 | exact E2]].
  rewrite <- (app_nil_r (heap (restoreAnnotations d s0))). apply E3.
Qed.

Lemma serializeAnnotations_lists (s : State) :
  orEmpty (draft_strokes (serializeAnnotations s)) = strokeValues (heap s) (strokes s) /\
  orEmpty (draft_arrows (serializeAnnotations s)) = arrows s /\
  orEmpty (draft_rectangles (serializeAnnotations s)) = rectangles s /\
  orEmpty (draft_ellipses (serializeAnnotations s)) = ellipses s /\
  orEmpty (draft_blurs (serializeAnnotations s)) = blurs s /\
  orEmpty (draft_texts (serializeAnnotations s)) = texts s.
Proof.
  unfold serializeAnnotations.
  cbn [draft_strokes draft_arrows draft_rectangles draft_ellipses draft_blurs
       draft_texts orEmpty].
  rewrite (map_copy_id _ (arrows s)) by (intros []; reflexivity).
  rewrite (map_copy_id _ (rectangles s)) by (intros []; reflexivity).
  rewrite (map_copy_id _ (ellipses s)) by (intros []; reflexivity).
  rewrite (map_copy_id _ (blurs s)) by (intros []; reflexivity).
  rewrite (map_copy_id _ (texts s)) by (intros []; reflexivity).
  repeat split; reflexivity.
Qed.

(** X18.  A draft holds the strokes by value, each with the coordinates of
    its points, its colour and its line width, and the five other lists
    field by field.  Restoring a draft gives strokes with these values,
    on point objects of their own: new ones, after those of the store, all
    distinct; and it gives back the other lists; the history and the
    selection are not touched.  So restoring what [serializeAnnotations]
    wrote gives back the six lists, the strokes with the coordinates of
    their points.  A list missing from the draft is restored empty.  An
    editor opened from a draft has its strokes with their points, and the
    restored lists as its only history entry: undo and redo leave it as it
    is, so what a draft restored cannot be undone. *)
Theorem draft_round_trip :
  (forall d s0,
     let s' := restoreAnnotations d s0 in
     let points := concat (map ds_points (orEmpty (draft_strokes d))) in
     strokeValues (heap s') (strokes s') = orEmpty (draft_strokes d) /\
     arrows s' = orEmpty (draft_arrows d) /\
     rectangles s' = orEmpty (draft_rectangles d) /\
     ellipses s' = orEmpty (draft_ellipses d) /\
     blurs s' = orEmpty (draft_blurs d) /\
     texts s' = orEmpty (draft_texts d) /\
     heap s' = heap s0 ++ points /\
     concat (map stroke_points (strokes s')) = seq (length (heap s0)) (length points) /\
     NoDup (concat (map stroke_points (strokes s'))) /\
     history s' = history s0 /\ historyIndex s' = historyIndex s0 /\
     selectedType s' = selectedType s0 /\ selectedIndex s' = selectedIndex s0) /\
  (forall s s0,
     let s' := restoreAnnotations (serializeAnnotations s) s0 in
     strokeValues (heap s') (strokes s') = strokeValues (heap s) (strokes s) /\
     arrows s' = arrows s /\ rectangles s' = rectangles s /\
     ellipses s' = ellipses s /\ blurs s' = blurs s /\ texts s' = texts s) /\
  (forall s0,
     scene (restoreAnnotations (mkDraft None None None None None None) s0)
     = ([], [], [], [], [], []) /\
     heap (restoreAnnotations (mkDraft None None None None None None) s0) = heap s0) /\
  (forall c d,
     let s' := loadedFromDraft c d in
     strokeValues (heap s') (strokes s') = orEmpty (draft_strokes d) /\
     heap s' = concat (map ds_points (orEmpty (draft_strokes d))) /\
     scene s' = scene (restoreAnnotations d (initialState c)) /\
     history s' = [snapshot s'] /\ historyIndex s' = 0%Z /\
     undo s' = Some s' /\ redo s' = Some s').
Proof.
  split; [|split; [|split]].
  - intros d s0. cbn zeta.
    destruct (restoreAnnotations_frame d s0)
      as (A1 & A2 & A3 & A4 & A5 & A6 & A7 & A8 & A9 & _).
    destruct (restoreAnnotations_strokes d s0) as (B1 & B2 & B3).
    cbn zeta in *.
    split; [exact B1|]. split; [exact A1|]. split; [exact A2|]. split; [exact A3|].
    split; [exact A4|]. split; [exact A5|]. split; [exact B2|]. split; [exact B3|].
    split; [rewrite B3; apply NoDup_ListNoDup, List.seq_NoDup|].
    repeat split; assumption.
  - intros s s0. cbn zeta.
    destruct (restoreAnnotations_frame (serializeAnnotations s) s0)
      as (A1 & A2 & A3 & A4 & A5 & _).
    destruct (restoreAnnotations_strokes (serializeAnnotations s) s0) as (B1 & _).
    cbn zeta in *.
    destruct (serializeAnnotations_lists s) as (C0 & C1 & C2 & C3 & C4 & C5).
    rewrite C0 in B1. rewrite C1 in A1. rewrite C2 in A2. rewrite C3 in A3.
    rewrite C4 in A4. rewrite C5 in A5.
    split; [exact B1|]. repeat split; assumption.
  - intros s0. split; reflexivity.
  - intros c d. cbn zeta. unfold loadedFromDraft.
    set (t := restoreAnnotations d (initialState c)).
    destruct (restoreAnnotations_frame d (initialState c))
      as (_ & _ & _ & _ & _ & A6 & A7 & _).
    destruct (restoreAnnotations_strokes d (initialState c)) as (B1 & B2 & _).
    cbn zeta in *. fold t in A6, A7, B1, B2.
    change (history (initialState c)) with (@nil HistoryEntry) in A6.
    change (historyIndex (initialState c)) with (-1)%Z in A7.
    destruct (saveToHistory_append t) as [E1 E2];
      [rewrite A6, A7; reflexivity | rewrite A6; cbn; unfold HISTORY.maxEntries; lia |].
    rewrite A6 in E1, E2. cbn [app length] in E1, E2.
    assert (Hs : snapshot (saveToHistory t) = snapshot t)
      by (apply snapshot_scene, saveToHistory_scene).
    assert (Hh : history (saveToHistory t) = [snapshot (saveToHistory t)])
      by (rewrite Hs; exact E1).
    assert (Hi : historyIndex (saveToHistory t) = 0%Z) by exact E2.
    split; [|split; [|split; [apply saveToHistory_scene|]]].
    + assert (X : strokes (saveToHistory t) = strokes t).
      { pose proof (saveToHistory_scene t) as S. unfold scene in S.
        injection S as -> _ _ _ _ _. reflexivity. }
      rewrite saveToHistory_heap, X. exact B1.
    + rewrite saveToHistory_heap. exact B2.
    + split; [exact Hh|]. split; [exact Hi|].
      unfold undo, redo. rewrite Hi, Hh. split; reflexivity.
Qed.

Lemma draft_round_trip_witness :
  exists s, run (strokePicked ++ [MouseUp]) (loaded ctx0) = Some s /\
            strokeValues (heap s) (strokes s)
            = [mkDraftStroke [mkPoint 10 10; mkPoint 60 10]
                             DEFAULTS.color DEFAULTS.lineWidth] /\
            strokeValues (heap (loadedFromDraft ctx0 (serializeAnnotations s)))
                         (strokes (loadedFromDraft ctx0 (serializeAnnotations s)))
            = [mkDraftStroke [mkPoint 10 10; mkPoint 60 10]
                             DEFAULTS.color DEFAULTS.lineWidth].
Proof.
  eexists. split; [vm_compute; reflexivity|].
  split; [vm_compute; reflexivity|].
  destruct draft_round_trip as (_ & _ & _ & H).
  destruct (H ctx0 (serializeAnnotations
                      (setDragMode None
                         (match run strokePicked (loaded ctx0) with
                          | Some s => s
                          | None => loaded ctx0
                          end)))) as (E & _).
  vm_compute in E. vm_compute. exact E.
Defined.

(** ** The pixelated region *)

Lemma blurArea_axis (cw : Z) (x0 w0 : Q) (x w : Z) :
  Qltb (if Qltb w0 0 then Qabs w0 else w0) 1 = false ->
  x = Z.max 0 (Qfloor (if Qltb w0 0 then x0 + w0 else x0)) ->
  w = Z.min (Qfloor (if Qltb w0 0 then Qabs w0 else w0)) (cw - x) ->
  (w <? 1)%Z = false ->
  let bx := if Qle_bool 0 w0 then x0 else x0 + w0 in
  let bw := Qabs w0 in
  (0 <= x /\ 1 <= w /\ x + w <= cw)%Z /\
  (0 <= bx -> bx - 1 < inject_Z x /\ inject_Z x <= bx /\ inject_Z (x + w) <= bx + bw) /\
  (bx <= -1 -> bx + bw < inject_Z cw -> x = 0%Z /\ bx + bw < inject_Z (x + w)).
Proof.
  intros H1 Hx Hw H2. cbn zeta.
  apply Qltb_ge in H1. apply Z.ltb_ge in H2.
  set (v := if Qltb w0 0 then Qabs w0 else w0) in *.
  assert (E : (if Qltb w0 0 then x0 + w0 else x0) = (if Qle_bool 0 w0 then x0 else x0 + w0)
              /\ v == Qabs w0).
  { subst v. destruct (Qltb w0 0) eqn:E1.
    - apply Qltb_lt in E1. destruct (Qle_bool 0 w0) eqn:E2.
      + apply Qle_bool_iff in E2. lra.
      + split; reflexivity.
    - apply Qltb_ge in E1. rewrite (proj2 (Qle_bool_iff 0 w0) E1).
      split; [reflexivity|]. rewrite Qabs_pos by exact E1. reflexivity. }
  destruct E as [E1 E2]. rewrite E1 in Hx. clearbody v.
  set (bx := if Qle_bool 0 w0 then x0 else x0 + w0) in *.
  set (fw := Qfloor v) in *.
  assert (Fw : inject_Z fw <= v /\ v < inject_Z (fw + 1))
    by (subst fw; split; [apply Qfloor_le | apply Qlt_floor]).
  assert (Fx : inject_Z (Qfloor bx) <= bx /\ bx < inject_Z (Qfloor bx + 1))
    by (split; [apply Qfloor_le | apply Qlt_floor]).
  rewrite inject_Z_plus in Fw, Fx. change (inject_Z 1) with 1 in Fw, Fx.
  split; [lia|]. split.
  - intros Hb.
    assert (0 <= Qfloor bx)%Z.
    { apply Z.lt_succ_r. rewrite Zlt_Qlt. unfold Z.succ. rewrite inject_Z_plus.
      change (inject_Z 0) with 0. change (inject_Z 1) with 1. lra. }
    assert (Ex : x = Qfloor bx) by lia. rewrite Ex in *.
    split; [lra|]. split; [lra|].
    assert (w <= fw)%Z by lia.
    rewrite inject_Z_plus. rewrite Zle_Qle in H0. lra.
  - intros Hb Hc.
    assert (Qfloor bx < 0)%Z.
    { rewrite Zlt_Qlt. change (inject_Z 0) with 0. lra. }
    assert (Ex : x = 0%Z) by lia. split; [exact Ex|]. rewrite Ex in *.
    rewrite Z.add_0_l, Z.sub_0_r in *.
    destruct (Z.min_spec fw cw) as [[_ Em]|[_ Em]]; rewrite Em in Hw; rewrite Hw.
    + lra.
    + exact Hc.
Qed.

(** X19.  The rectangle of pixels [drawBlur] reads and writes back lies
    within the canvas and is at least one pixel wide and high.  Where the
    box of the region starts inside the canvas, the rectangle starts at
    the pixel of the corner of the box and ends within the box.  Where
    the box starts a pixel or more before the canvas, the rectangle
    starts at 0 with the width of the whole box, not of the part inside
    the canvas: it ends beyond the box, whenever the box ends inside the
    canvas. *)
Theorem blurArea_inside (canvasWidth canvasHeight : Z) (blur : BlurRegion)
    (x y w h : Z) :
  blurArea canvasWidth canvasHeight blur = Some (x, y, w, h) ->
  let B := BlurRegionM.getBounds blur in
  (0 <= x /\ 0 <= y /\ 1 <= w /\ 1 <= h /\
   x + w <= canvasWidth /\ y + h <= canvasHeight)%Z /\
  (0 <= b_x B ->
   b_x B - 1 < inject_Z x /\ inject_Z x <= b_x B /\
   inject_Z (x + w) <= b_x B + b_width B) /\
  (0 <= b_y B ->
   b_y B - 1 < inject_Z y /\ inject_Z y <= b_y B /\
   inject_Z (y + h) <= b_y B + b_height B) /\
  (b_x B <= -1 -> b_x B + b_width B < inject_Z canvasWidth ->
   x = 0%Z /\ b_x B + b_width B < inject_Z (x + w)) /\
  (b_y B <= -1 -> b_y B + b_height B < inject_Z canvasHeight ->
   y = 0%Z /\ b_y B + b_height B < inject_Z (y + h)).
Proof.
  unfold blurArea. cbn zeta.
  destruct blur as [x0 y0 w0 h0]. cbn [blur_x blur_y blur_width blur_height].
  intros H.
  assert (G : exists wq hq xq yq,
             wq = (if Qltb w0 0 then Qabs w0 else w0) /\
             hq = (if Qltb h0 0 then Qabs h0 else h0) /\
             xq = (if Qltb w0 0 then x0 + w0 else x0) /\
             yq = (if Qltb h0 0 then y0 + h0 else y0) /\
             Qltb wq 1 = false /\ Qltb hq 1 = false /\
             x = Z.max 0 (Qfloor xq) /\ y = Z.max 0 (Qfloor yq) /\
             w = Z.min (Qfloor wq) (canvasWidth - x) /\
             h = Z.min (Qfloor hq) (canvasHeight - y) /\
             (w <? 1)%Z = false /\ (h <? 1)%Z = false).
  { exists (if Qltb w0 0 then Qabs w0 else w0), (if Qltb h0 0 then Qabs h0 else h0),
           (if Qltb w0 0 then x0 + w0 else x0), (if Qltb h0 0 then y0 + h0 else y0).
    destruct (Qltb w0 0); destruct (Qltb h0 0);
      match type of H with
      | (if ?a || ?b then _ else _) = _ =>
          destruct a eqn:A; [discriminate|]; destruct b eqn:B'; [discriminate|]
      end; cbn [orb] in H;
      match type of H with
      | (if ?a || ?b then _ else _) = _ =>
          destruct a eqn:A2; [discriminate|]; destruct b eqn:B2; [discriminate|]
      end; cbn [orb] in H; injection H as <- <- <- <-;
      repeat split; assumption || reflexivity. }
  destruct G as (wq & hq & xq & yq & -> & -> & -> & -> & A & B' & Ex & Ey & Ew & Eh & A2 & B2).
  destruct (blurArea_axis canvasWidth x0 w0 x w A Ex Ew A2) as (X1 & X2 & X3).
  destruct (blurArea_axis canvasHeight y0 h0 y h B' Ey Eh B2) as (Y1 & Y2 & Y3).
  unfold BlurRegionM.getBounds. cbn [b_x b_y b_width b_height blur_x blur_y blur_width blur_height].
  split; [lia|]. split; [exact X2|]. split; [exact Y2|]. split; [exact X3 | exact Y3].
Qed.

Lemma blurArea_inside_witness :
  blurArea 800 600 (mkBlur 50 10 (-100) 40) = Some (0, 10, 100, 40)%Z /\
  (0%Z = 0%Z /\
   b_x (BlurRegionM.getBounds (mkBlur 50 10 (-100) 40))
   + b_width (BlurRegionM.getBounds (mkBlur 50 10 (-100) 40)) < inject_Z (0 + 100)).
Proof.
  split; [reflexivity|].
  destruct (blurArea_inside 800 600 (mkBlur 50 10 (-100) 40) 0 10 100 40 eq_refl)
    as (_ & _ & _ & H & _).
  apply H; [vm_compute; discriminate | vm_compute; reflexivity].
Defined.

(** ** The mosaic *)

Lemma foldl_bind {A B C} (f : A -> C -> A) (g : B -> list C) (l : list B) (a : A) :
  foldl f a (l ≫= g) = foldl (fun a x => foldl f a (g x)) a l.
Proof.
  revert a. induction l as [|x l IH]; intros a; [reflexivity|].
  rewrite bind_cons, foldl_app. cbn [foldl]. apply IH.
Qed.

Lemma foldl_ext_in {A B} (f g : A -> B -> A) (l : list B) (a : A) :
  (forall a x, f a x = g a x) -> foldl f a l = foldl g a l.
Proof.
  intros H. revert a. induction l as [|x l IH]; intros a; cbn [foldl]; [reflexivity|].
  rewrite H. apply IH.
Qed.

(** The four nested loops are one loop over the blocks, each painted from
    its sample. *)
Lemma pixelate_blocks (width height : nat) (data : list nat) :
  pixelate width height data = foldl (mosaicStep width height) data (blocks width height).
Proof.
  unfold pixelate, blocks. cbn zeta. rewrite foldl_bind.
  apply foldl_ext_in. intros d py. rewrite foldl_bind.
  apply foldl_ext_in. intros d' px. cbn [foldl].
  unfold mosaicStep, paint, cells. rewrite foldl_bind.
  apply foldl_ext_in. intros d1 by_. rewrite foldl_bind.
  apply foldl_ext_in. intros d2 bx. reflexivity.
Qed.

Lemma write4_length (i : nat) (c : Colour) (data : list nat) :
  length (write4 i c data) = length data.
Proof. destruct c as [[[r g] b] a]. unfold write4. rewrite !length_insert. reflexivity. Qed.

Lemma write4_lookup (i j : nat) (c : Colour) (data : list nat) :
  (j < length data)%nat ->
  write4 i c data !! j
  = if decide (i <= j < i + 4)%nat then Some (chan c (j - i)) else data !! j.
Proof.
  intros Hj. destruct c as [[[r g] b] a]. unfold write4, chan.
  destruct (decide (i <= j < i + 4)%nat) as [H|H].
  - destruct (decide (j = i + 3)%nat) as [->|N3].
    { rewrite list_lookup_insert_eq by (rewrite !length_insert; exact Hj).
      replace (i + 3 - i)%nat with 3%nat by lia. reflexivity. }
    rewrite list_lookup_insert_ne by lia.
    destruct (decide (j = i + 2)%nat) as [->|N2].
    { rewrite list_lookup_insert_eq by (rewrite !length_insert; exact Hj).
      replace (i + 2 - i)%nat with 2%nat by lia. reflexivity. }
    rewrite list_lookup_insert_ne by lia.
    destruct (decide (j = i + 1)%nat) as [->|N1].
    { rewrite list_lookup_insert_eq by (rewrite !length_insert; exact Hj).
      replace (i + 1 - i)%nat with 1%nat by lia. reflexivity. }
    rewrite list_lookup_insert_ne by lia.
    assert (j = i) as -> by lia.
    rewrite list_lookup_insert_eq by exact Hj.
    rewrite Nat.sub_diag. reflexivity.
  - rewrite !list_lookup_insert_ne by lia. reflexivity.
Qed.

Lemma pixel_index_inj (w x y x' y' k k' : nat) :
  (x < w)%nat -> (x' < w)%nat -> (k < 4)%nat -> (k' < 4)%nat ->
  ((y * w + x) * 4 + k = (y' * w + x') * 4 + k')%nat -> x = x' /\ y = y' /\ k = k'.
Proof.
  intros Hx Hx' Hk Hk' E.
  assert (E1 : (y * w + x = y' * w + x')%nat /\ k = k') by lia.
  destruct E1 as [E1 ->].
  destruct (lt_eq_lt_dec y y') as [[L | ->] | L].
  - exfalso. assert ((y + 1) * w <= y' * w)%nat by (apply Nat.mul_le_mono_r; lia). lia.
  - split; [lia | split; reflexivity].
  - exfalso. assert ((y' + 1) * w <= y * w)%nat by (apply Nat.mul_le_mono_r; lia). lia.
Qed.

Lemma paint_length (w : nat) (c : Colour) (cs : list (nat * nat)) (data : list nat) :
  length (paint w c cs data) = length data.
Proof.
  unfold paint. revert data. induction cs as [|[x y] cs IH]; intros data; cbn [foldl];
    [reflexivity|].
  rewrite IH. apply write4_length.
Qed.

Lemma paint_channel (w : nat) (c : Colour) (cs : list (nat * nat)) (data : list nat)
    (x y k : nat) :
  (x < w)%nat -> (k < 4)%nat -> (forall p, p ∈ cs -> (p.1 < w)%nat) ->
  ((y * w + x) * 4 + k < length data)%nat ->
  channel w (paint w c cs data) x y k
  = if decide ((x, y) ∈ cs) then Some (chan c k) else channel w data x y k.
Proof.
  intros Hx Hk. unfold paint, channel. revert data.
  induction cs as [|[x1 y1] cs IH]; intros data Hcs Hj; cbn [foldl].
  - destruct (decide ((x, y) ∈ [])) as [H|_]; [inversion H | reflexivity].
  - rewrite IH; [| intros p Hp; apply Hcs; right; exact Hp
                 | rewrite write4_length; exact Hj].
    assert (Hx1 : (x1 < w)%nat) by (apply (Hcs (x1, y1)); left).
    destruct (decide ((x, y) ∈ cs)) as [Hin|Hnin].
    + rewrite decide_True by (right; exact Hin). reflexivity.
    + rewrite write4_lookup by exact Hj.
      destruct (decide ((y1 * w + x1) * 4 <= (y * w + x) * 4 + k
                        < (y1 * w + x1) * 4 + 4)%nat) as [Hr|Hr].
      * assert (E : ((y * w + x) * 4 + k
                     = (y1 * w + x1) * 4 + ((y * w + x) * 4 + k - (y1 * w + x1) * 4))%nat)
          by lia.
        apply pixel_index_inj in E; [|assumption|assumption|assumption|lia].
        destruct E as (-> & -> & E).
        rewrite decide_True by left. rewrite <- E. reflexivity.
      * rewrite decide_False; [reflexivity|].
        intros Hin. apply elem_of_cons in Hin as [[= -> ->]|Hin]; [|contradiction].
        apply Hr. lia.
Qed.

Lemma pixel_in_range (w h x y k : nat) :
  (x < w)%nat -> (y < h)%nat -> (k < 4)%nat -> ((y * w + x) * 4 + k < w * h * 4)%nat.
Proof.
  intros Hx Hy Hk.
  assert ((y + 1) * w <= h * w)%nat by (apply Nat.mul_le_mono_r; lia).
  lia.
Qed.

Lemma elem_of_steps (n v : nat) :
  v ∈ steps n BLUR.pixelSize <-> exists i, v = (i * 8)%nat /\ (i * 8 < n)%nat.
Proof.
  unfold steps, BLUR.pixelSize. rewrite list_elem_of_fmap.
  pose proof (Nat.div_mod_eq (n + 8 - 1) 8) as E.
  pose proof (Nat.mod_upper_bound (n + 8 - 1) 8) as M.
  split.
  - intros (i & -> & Hi). apply elem_of_seq in Hi. exists i. split; [reflexivity|]. lia.
  - intros (i & -> & Hi). exists i. split; [reflexivity|]. apply elem_of_seq. lia.
Qed.

Lemma elem_of_cells (w h px py x y : nat) :
  (x, y) ∈ cells w h px py <->
  (px <= x < px + 8)%nat /\ (x < w)%nat /\ (py <= y < py + 8)%nat /\ (y < h)%nat.
Proof.
  unfold cells, whileBoth, BLUR.pixelSize. rewrite list_elem_of_bind. split.
  - intros (by_ & Hin & Hby). apply list_elem_of_bind in Hin as (bx & Hin & Hbx).
    apply list_elem_of_singleton in Hin. injection Hin as -> ->.
    apply elem_of_seq in Hby, Hbx. lia.
  - intros (Hx & Hxw & Hy & Hyh). exists (y - py)%nat. split.
    + apply list_elem_of_bind. exists (x - px)%nat. split.
      * apply list_elem_of_singleton. f_equal; lia.
      * apply elem_of_seq. lia.
    + apply elem_of_seq. lia.
Qed.

Lemma elem_of_blocks (w h px py : nat) :
  (px, py) ∈ blocks w h <->
  (exists i, px = (i * 8)%nat /\ (px < w)%nat) /\
  (exists j, py = (j * 8)%nat /\ (py < h)%nat).
Proof.
  unfold blocks. rewrite list_elem_of_bind. split.
  - intros (py' & Hin & Hpy). apply list_elem_of_bind in Hin as (px' & Hin & Hpx).
    apply list_elem_of_singleton in Hin. injection Hin as -> ->.
    apply elem_of_steps in Hpy as (j & -> & Hj), Hpx as (i & -> & Hi).
    split; eauto.
  - intros [(i & -> & Hi) (j & -> & Hj)]. exists (j * 8)%nat. split.
    + apply list_elem_of_bind. exists (i * 8)%nat. split.
      * apply list_elem_of_singleton. reflexivity.
      * apply elem_of_steps. eauto.
    + apply elem_of_steps. eauto.
Qed.

Lemma blockOf_spec (v i : nat) :
  (i * 8 <= v < i * 8 + 8)%nat <-> blockOf v = (i * 8)%nat.
Proof.
  unfold blockOf, BLUR.pixelSize.
  pose proof (Nat.div_mod_eq v 8) as E. pose proof (Nat.mod_upper_bound v 8) as M.
  lia.
Qed.

Lemma blockOf_le (v : nat) : (blockOf v <= v < blockOf v + 8)%nat.
Proof.
  unfold blockOf, BLUR.pixelSize.
  pose proof (Nat.div_mod_eq v 8) as E. pose proof (Nat.mod_upper_bound v 8) as M.
  lia.
Qed.

Lemma sampleOf_block (n v : nat) :
  (v < n)%nat ->
  sampleOf n v = Nat.min (blockOf v + 4) (n - 1) /\
  (sampleOf n v < n)%nat /\ blockOf (sampleOf n v) = blockOf v.
Proof.
  intros Hv. unfold sampleOf. fold (blockOf v). unfold BLUR.pixelSize.
  change (8 / 2)%nat with 4%nat.
  pose proof (blockOf_le v) as B.
  split; [reflexivity|]. split; [lia|].
  unfold blockOf at 2, BLUR.pixelSize.
  apply (blockOf_spec _ (v / 8)). fold (blockOf v). unfold blockOf, BLUR.pixelSize in *. lia.
Qed.

Lemma NoDup_steps (n : nat) : NoDup (steps n BLUR.pixelSize).
Proof.
  unfold steps. apply NoDup_fmap_2; [|apply NoDup_seq].
  intros a b E. unfold BLUR.pixelSize in E. lia.
Qed.

Lemma NoDup_blocks (w h : nat) : NoDup (blocks w h).
Proof.
  unfold blocks. apply NoDup_bind; [| |apply NoDup_steps].
  - intros py1 py2 [px py] _ _ H1 H2.
    apply list_elem_of_bind in H1 as (? & H1 & _), H2 as (? & H2 & _).
    apply list_elem_of_singleton in H1, H2. congruence.
  - intros py _. apply NoDup_bind; [| |apply NoDup_steps].
    + intros px1 px2 p _ _ H1 H2.
      apply list_elem_of_singleton in H1, H2. congruence.
    + intros px _. apply NoDup_singleton.
Qed.

Lemma read4_chan (data : list nat) (idx k : nat) (v : nat) :
  (k < 4)%nat -> data !! (idx + k)%nat = Some v -> chan (read4 data idx) k = v.
Proof.
  intros Hk E. unfold read4, chan, byteAt.
  destruct k as [|[|[|[|k]]]]; try lia.
  - rewrite Nat.add_0_r in E. rewrite E. reflexivity.
  - rewrite E. reflexivity.
  - rewrite E. reflexivity.
  - rewrite E. reflexivity.
Qed.

(** One block: its pixels take the colour the sample has then, the other
    pixels keep theirs. *)
Lemma mosaicStep_channel (w h : nat) (cur : list nat) (i j x y k : nat) :
  length cur = (w * h * 4)%nat -> (i * 8 < w)%nat -> (j * 8 < h)%nat ->
  (x < w)%nat -> (y < h)%nat -> (k < 4)%nat ->
  channel w (mosaicStep w h cur ((i * 8)%nat, (j * 8)%nat)) x y k
  = if decide ((blockOf x, blockOf y) = ((i * 8)%nat, (j * 8)%nat))
    then channel w cur (sampleOf w x) (sampleOf h y) k
    else channel w cur x y k.
Proof.
  intros Hlen Hi Hj Hx Hy Hk. unfold mosaicStep.
  unfold BLUR.pixelSize at 1 2. change (8 / 2)%nat with 4%nat.
  set (sx := Nat.min (i * 8 + 4) (w - 1)). set (sy := Nat.min (j * 8 + 4) (h - 1)).
  rewrite paint_channel; [|exact Hx|exact Hk| |rewrite Hlen; apply pixel_in_range; assumption].
  2:{ intros [x1 y1] Hp. apply elem_of_cells in Hp. cbn. lia. }
  destruct (decide ((x, y) ∈ cells w h (i * 8) (j * 8))) as [Hin|Hnin].
  - apply elem_of_cells in Hin. destruct Hin as (Bx & _ & By & _).
    apply blockOf_spec in Bx, By.
    rewrite decide_True by (rewrite Bx, By; reflexivity).
    destruct (sampleOf_block w x Hx) as (Ex & _ & _).
    destruct (sampleOf_block h y Hy) as (Ey & _ & _).
    rewrite Ex, Ey, Bx, By. fold sx sy.
    assert (Hr : ((sy * w + sx) * 4 + k < length cur)%nat)
      by (rewrite Hlen; apply pixel_in_range; subst sx sy; lia).
    unfold channel. destruct (cur !! ((sy * w + sx) * 4 + k)%nat) as [v|] eqn:E.
    + f_equal. apply read4_chan; assumption.
    + apply lookup_ge_None in E. lia.
  - rewrite decide_False; [reflexivity|].
    intros [= Bx By]. apply Hnin, elem_of_cells.
    apply blockOf_spec in Bx, By. lia.
Qed.

Lemma mosaicStep_length (w h : nat) (cur : list nat) (p : nat * nat) :
  length (mosaicStep w h cur p) = length cur.
Proof. destruct p as [px py]. unfold mosaicStep. apply paint_length. Qed.

Lemma mosaic_fold (w h : nat) (data : list nat) (bs : list (nat * nat)) :
  length data = (w * h * 4)%nat ->
  forall (cur : list nat) (S : list (nat * nat)),
    length cur = length data ->
    (forall x y k, (x < w)%nat -> (y < h)%nat -> (k < 4)%nat ->
       channel w cur x y k
       = if decide ((blockOf x, blockOf y) ∈ S)
         then channel w data (sampleOf w x) (sampleOf h y) k
         else channel w data x y k) ->
    (forall b, b ∈ bs -> (b ∉ S) /\ (b ∈ blocks w h)) -> NoDup bs ->
    length (foldl (mosaicStep w h) cur bs) = length data /\
    (forall x y k, (x < w)%nat -> (y < h)%nat -> (k < 4)%nat ->
       channel w (foldl (mosaicStep w h) cur bs) x y k
       = if decide ((blockOf x, blockOf y) ∈ S ++ bs)
         then channel w data (sampleOf w x) (sampleOf h y) k
         else channel w data x y k).
Proof.
  intros Hdata. induction bs as [|b bs IH]; intros cur S Hlen Hinv Hbs Hnd; cbn [foldl].
  - rewrite app_nil_r. split; assumption.
  - inversion Hnd as [|? ? Hnotin Hnd']; subst. clear Hnd. rename Hnd' into Hnd.
    destruct (Hbs b) as [HbS Hb]; [left|]. destruct b as [px py].
    apply elem_of_blocks in Hb as [(i & -> & Hi) (j & -> & Hj)].
    destruct (IH (mosaicStep w h cur ((i * 8)%nat, (j * 8)%nat))
                 (S ++ [((i * 8)%nat, (j * 8)%nat)])) as [L R].
    + rewrite mosaicStep_length. exact Hlen.
    + intros x y k Hx Hy Hk.
      rewrite mosaicStep_channel by (try assumption; rewrite Hlen; exact Hdata).
      destruct (decide ((blockOf x, blockOf y) = ((i * 8)%nat, (j * 8)%nat))) as [E|N].
      * rewrite decide_True by (apply elem_of_app; right; rewrite E; left).
        destruct (sampleOf_block w x Hx) as (_ & Sx & Bx).
        destruct (sampleOf_block h y Hy) as (_ & Sy & By).
        rewrite (Hinv _ _ _ Sx Sy Hk), Bx, By, E.
        rewrite decide_False by exact HbS. reflexivity.
      * rewrite (Hinv _ _ _ Hx Hy Hk).
        destruct (decide ((blockOf x, blockOf y) ∈ S)) as [Hin|Hnin].
        -- rewrite decide_True by (apply elem_of_app; left; exact Hin). reflexivity.
        -- rewrite decide_False; [reflexivity|].
           intros H. apply elem_of_app in H as [H|H]; [contradiction|].
           apply list_elem_of_singleton in H. contradiction.
    + intros b Hb. destruct (Hbs b) as [H1 H2]; [right; exact Hb|].
      split; [|exact H2]. intros H. apply elem_of_app in H as [H|H]; [contradiction|].
      apply list_elem_of_singleton in H. subst b. contradiction.
    + exact Hnd.
    + split; [exact L|]. intros x y k Hx Hy Hk. rewrite (R x y k Hx Hy Hk).
      rewrite <- app_assoc. reflexivity.
Qed.

Lemma pixelate_channel (w h : nat) (data : list nat) :
  length data = (w * h * 4)%nat ->
  length (pixelate w h data) = length data /\
  (forall x y k, (x < w)%nat -> (y < h)%nat -> (k < 4)%nat ->
     channel w (pixelate w h data) x y k
     = channel w data (sampleOf w x) (sampleOf h y) k).
Proof.
  intros Hdata. rewrite pixelate_blocks.
  destruct (mosaic_fold w h data (blocks w h) Hdata data []) as [L R].
  - reflexivity.
  - intros x y k _ _ _. rewrite decide_False by (intros H; inversion H). reflexivity.
  - intros b Hb. split; [intros H; inversion H | exact Hb].
  - apply NoDup_blocks.
  - split; [exact L|]. intros x y k Hx Hy Hk. rewrite (R x y k Hx Hy Hk).
    rewrite decide_True; [reflexivity|].
    cbn [app]. apply elem_of_blocks.
    pose proof (blockOf_le x). pose proof (blockOf_le y).
    split; [exists (x / 8)%nat | exists (y / 8)%nat]; (split; [reflexivity | lia]).
Qed.

Lemma sampleOf_idem (n v : nat) : (v < n)%nat -> sampleOf n (sampleOf n v) = sampleOf n v.
Proof.
  intros Hv. destruct (sampleOf_block n v Hv) as (E & Hs & B).
  destruct (sampleOf_block n _ Hs) as (E' & _ & _).
  rewrite E', B, <- E. reflexivity.
Qed.

Lemma pixel_of_index (w h j : nat) :
  (j < w * h * 4)%nat ->
  exists x y k, (x < w)%nat /\ (y < h)%nat /\ (k < 4)%nat /\
                j = ((y * w + x) * 4 + k)%nat.
Proof.
  intros Hj. assert (Hw : w <> 0%nat) by (intros ->; lia).
  pose proof (Nat.div_mod_eq j 4) as E4. pose proof (Nat.mod_upper_bound j 4) as M4.
  pose proof (Nat.div_mod_eq (j / 4) w) as Ew.
  pose proof (Nat.mod_upper_bound (j / 4) w Hw) as Mw.
  exists ((j / 4) mod w)%nat, (j / 4 / w)%nat, (j mod 4)%nat.
  split; [exact Mw|]. split.
  - apply Nat.Div0.div_lt_upper_bound. lia.
  - split; [lia|]. rewrite (Nat.mul_comm (j / 4 / w) w). lia.
Qed.

(** X20.  The loops of [drawBlur] turn the image data of a region into a
    mosaic: the array keeps its length, and every pixel takes the four
    bytes that the pixel at the centre of its 8 by 8 block had in the
    image as read, or the last pixel of the row or column where the block
    is cut by the border; no sample is read after it was overwritten.
    Pixelating twice gives the same bytes as pixelating once. *)
Theorem pixelate_mosaic (width height : nat) (data : list nat) :
  length data = (width * height * 4)%nat ->
  length (pixelate width height data) = length data /\
  (forall x y k, (x < width)%nat -> (y < height)%nat -> (k < 4)%nat ->
     channel width (pixelate width height data) x y k
     = channel width data (sampleOf width x) (sampleOf height y) k) /\
  pixelate width height (pixelate width height data) = pixelate width height data.
Proof.
  intros Hdata. destruct (pixelate_channel width height data Hdata) as [L R].
  split; [exact L|]. split; [exact R|].
  assert (Hdata' : length (pixelate width height data) = (width * height * 4)%nat)
    by (rewrite L; exact Hdata).
  destruct (pixelate_channel width height _ Hdata') as [L' R'].
  apply list_eq. intros j.
  destruct (decide (j < width * height * 4)%nat) as [Hj|Hj].
  - destruct (pixel_of_index width height j Hj) as (x & y & k & Hx & Hy & Hk & ->).
    change (channel width (pixelate width height (pixelate width height data)) x y k
            = channel width (pixelate width height data) x y k).
    destruct (sampleOf_block width x Hx) as (_ & Sx & _).
    destruct (sampleOf_block height y Hy) as (_ & Sy & _).
    rewrite (R' x y k Hx Hy Hk), (R x y k Hx Hy Hk), (R _ _ k Sx Sy Hk).
    rewrite (sampleOf_idem width x Hx), (sampleOf_idem height y Hy). reflexivity.
  - rewrite !(proj2 (lookup_ge_None _ _)); [reflexivity | lia | lia].
Qed.

Lemma pixelate_mosaic_witness :
  length (seq 0 (9 * 2 * 4)) = (9 * 2 * 4)%nat /\
  channel 9 (pixelate 9 2 (seq 0 (9 * 2 * 4))) 3 0 2
    = channel 9 (seq 0 (9 * 2 * 4)) (sampleOf 9 3) (sampleOf 2 0) 2 /\
  channel 9 (pixelate 9 2 (seq 0 (9 * 2 * 4))) 8 1 0
    = channel 9 (seq 0 (9 * 2 * 4)) (sampleOf 9 8) (sampleOf 2 1) 0.
Proof.
  split; [reflexivity|].
  destruct (pixelate_mosaic 9 2 (seq 0 (9 * 2 * 4)) eq_refl) as (_ & H & _).
  split.
  - apply (H 3%nat 0%nat 2%nat); lia.
  - apply (H 8%nat 1%nat 0%nat); lia.
Defined.

(** ** Drawing a shape *)

Lemma selectTool_idle (tool : Tool) (s : State) :
  isEditingText s = false ->
  exists s1, dispatch (KeyTool tool) s = Some s1 /\
             currentTool s1 = tool /\ isEditingText s1 = false /\
             color s1 = color s /\ lineWidth s1 = lineWidth s /\ filled s1 = filled s /\
             heap s1 = heap s /\ untouched s s1.
Proof.
  intros He. cbn [dispatch]. rewrite He. unfold selectTool, toolbarClick. rewrite He.
  eexists. split; [reflexivity|].
  destruct (Tool_eqb (currentTool s) SELECT && negb (Tool_eqb tool SELECT));
    cbn; repeat split; try reflexivity; exact He.
Qed.

Lemma scheduleShapeRedraw_frame (c : Coords) (s : State) :
  let s' := scheduleShapeRedraw c s in
  rafId s' = true /\ pendingCoords s' = Some c /\ isDrawing s' = isDrawing s /\
  currentTool s' = currentTool s /\ currentArrow s' = currentArrow s /\
  currentRectangle s' = currentRectangle s /\ currentEllipse s' = currentEllipse s /\
  currentBlur s' = currentBlur s /\ heap s' = heap s /\ untouched s s'.
Proof.
  cbn zeta. unfold scheduleShapeRedraw. cbn.
  destruct (rafId s) eqn:E; cbn; rewrite ?E; repeat split; reflexivity.
Qed.

(** A drag with a shape tool, up to the release: the shape in progress
    is the one spanned from the press to the pointer of the last frame. *)
Lemma drag_inProgress (tool : Tool) (s : State) (x0 y0 x1 y1 : Q) (a : Annotation) :
  isEditingText s = false -> dragged tool s x0 y0 x1 y1 = Some a ->
  exists t, run (drag tool x0 y0 x1 y1) s = Some t /\
            isDrawing t = true /\ inProgress t = Some a /\ untouched s t /\
            heap t = heap s.
Proof.
  intros He Ha. unfold drag. cbn [run].
  destruct (selectTool_idle tool s He)
    as (s1 & -> & Ht & He1 & Hc & Hl & Hf & Hh & Hu).
  cbn [dispatch]. unfold handleMouseDown. rewrite He1, Ht.
  destruct tool; try discriminate Ha; cbn in Ha; injection Ha as <-;
    match goal with
    | |- context [handleMouseMove ?c ?s2] =>
        assert (D : drawingShape s2)
          by (split; [reflexivity | split; cbn; rewrite Ht; discriminate]);
        rewrite (handleMouseMove_shape c s2 D);
        destruct (scheduleShapeRedraw_frame c s2)
          as (F1 & F2 & F3 & F4 & F5 & F6 & F7 & F8 & F9 & F10);
        set (s3 := scheduleShapeRedraw c s2) in *
    end;
    cbn in F3, F4, F5, F6, F7, F8, F9; rewrite Ht in F4;
    rewrite F1; unfold shapeRedraw; rewrite F2, F3, F4, ?F5, ?F6, ?F7, ?F8; cbn iota;
    (eexists; split; [reflexivity|]);
    (split; [cbn; exact F3|]);
    (split; [unfold inProgress; cbn; rewrite F4, ?Hc, ?Hl, ?Hf; reflexivity|]);
    (split; [|cbn; rewrite F9; exact Hh]);
    (eapply untouched_trans; [exact Hu|]);
    (eapply untouched_trans; [|eapply untouched_trans; [exact F10|]]);
    repeat split; reflexivity.
Qed.

Lemma drag_release (tool : Tool) (s : State) (x0 y0 x1 y1 : Q) (a : Annotation) :
  isEditingText s = false -> dragged tool s x0 y0 x1 y1 = Some a ->
  exists s', run (drag tool x0 y0 x1 y1 ++ [MouseUp]) s = Some s' /\
             (crossesThreshold a -> committedOnce a s s') /\
             (~ crossesThreshold a -> untouched s s').
Proof.
  intros He Ha.
  destruct (drag_inProgress tool s x0 y0 x1 y1 a He Ha) as (t & Hrun & Hd & Hp & Hu & _).
  exists (handleMouseUp t). split; [rewrite run_app, Hrun; reflexivity|].
  destruct (release_iff t a Hd Hp) as [[_ Hc] [_ Hn]].
  split.
  - intros H. apply (committedOnce_after a s t _ Hu). exact (Hc H).
  - intros H. apply (untouched_trans _ t _ Hu). exact (Hn H).
Qed.

(** X21.  A drag of more than 10 along one axis and less than 1 along the
    other commits an ellipse and a pixelation region that are never
    rendered: the ellipse has a radius below 1, for which [drawEllipse]
    draws nothing, and the region is lower than one pixel, for which
    [drawBlur] leaves every canvas untouched; both are in their lists and
    in the history all the same.  The rectangle of the same drag is
    drawn. *)
Theorem thin_shapes_unseen (s : State) (x0 y0 x1 y1 : Q) :
  isEditingText s = false ->
  Qabs (y1 - y0) < 1 -> 10 < Qabs (x1 - x0) + Qabs (y1 - y0) ->
  let e := EllipseM.setEnd (EllipseM.new x0 y0 (color s) (lineWidth s) (filled s)) x1 y1 in
  let b := BlurRegionM.setEnd (BlurRegionM.new x0 y0) x1 y1 in
  let r := RectangleM.setEnd (RectangleM.new x0 y0 (color s) (lineWidth s) (filled s))
                             x1 y1 in
  (exists s', run (drag CIRCLE x0 y0 x1 y1 ++ [MouseUp]) s = Some s' /\
              committedOnce (AEllipse e) s s') /\
  drawEllipse (Some e) = [] /\
  (exists s', run (drag BLUR x0 y0 x1 y1 ++ [MouseUp]) s = Some s' /\
              committedOnce (ABlur b) s s') /\
  (forall canvasWidth canvasHeight, blurArea canvasWidth canvasHeight b = None) /\
  (exists s', run (drag RECTANGLE x0 y0 x1 y1 ++ [MouseUp]) s = Some s' /\
              committedOnce (ARectangle r) s s') /\
  drawRectangle (Some r) <> [].
Proof.
  intros He Hy Hxy. cbn zeta.
  assert (Hy0 : 0 <= Qabs (y1 - y0)) by apply Qabs_nonneg.
  split; [|split; [|split; [|split; [|split]]]].
  - destruct (drag_release CIRCLE s x0 y0 x1 y1 _ He eq_refl) as (s' & Hrun & Hc & _).
    exists s'. split; [exact Hrun|]. apply Hc.
    cbn [crossesThreshold EllipseM.setEnd EllipseM.new ell_radiusX ell_radiusY ell_startX
         ell_startY].
    assert (E : Qabs (x1 - x0) / 2 + Qabs (y1 - y0) / 2
                == (Qabs (x1 - x0) + Qabs (y1 - y0)) / 2) by field.
    rewrite E. apply Qlt_shift_div_l; lra.
  - unfold drawEllipse. cbn [EllipseM.setEnd EllipseM.new ell_radiusX ell_radiusY ell_startX
                             ell_startY].
    assert (F : Qltb (Qabs (y1 - y0) / 2) 1 = true).
    { apply Qltb_lt. apply Qlt_shift_div_r; lra. }
    rewrite F, orb_true_r. reflexivity.
  - destruct (drag_release BLUR s x0 y0 x1 y1 _ He eq_refl) as (s' & Hrun & Hc & _).
    exists s'. split; [exact Hrun|]. apply Hc.
    cbn [crossesThreshold BlurRegionM.setEnd BlurRegionM.new blur_width blur_height
         blur_x blur_y]. exact Hxy.
  - intros cw ch. unfold blurArea.
    cbn [BlurRegionM.setEnd BlurRegionM.new blur_width blur_height blur_x blur_y].
    assert (F : Qltb (if Qltb (y1 - y0) 0 then Qabs (y1 - y0) else y1 - y0) 1 = true).
    { apply Qltb_lt. destruct (Qltb (y1 - y0) 0) eqn:E; [exact Hy|].
      apply Qltb_ge in E. rewrite Qabs_pos in Hy by exact E. exact Hy. }
    destruct (Qltb (x1 - x0) 0); destruct (Qltb (y1 - y0) 0);
      cbn zeta iota; rewrite F, orb_true_r; reflexivity.
  - destruct (drag_release RECTANGLE s x0 y0 x1 y1 _ He eq_refl) as (s' & Hrun & Hc & _).
    exists s'. split; [exact Hrun|]. apply Hc.
    cbn [crossesThreshold RectangleM.setEnd RectangleM.new rect_width rect_height
         rect_x rect_y]. exact Hxy.
  - unfold drawRectangle. destruct (rect_filled _); discriminate.
Qed.

Lemma thin_shapes_unseen_witness :
  isEditingText (loaded ctx0) = false /\
  Qabs (100 - 100) < 1 /\ 10 < Qabs (30 - 10) + Qabs (100 - 100) /\
  (exists s', run (drag CIRCLE 10 100 30 100 ++ [MouseUp]) (loaded ctx0) = Some s' /\
              length (ellipses s') = 1%nat) /\
  drawEllipse (Some (EllipseM.setEnd
                       (EllipseM.new 10 100 DEFAULTS.color DEFAULTS.lineWidth DEFAULTS.filled)
                       30 100)) = [].
Proof.
  split; [reflexivity|]. split; [reflexivity|]. split; [reflexivity|].
  destruct (thin_shapes_unseen (loaded ctx0) 10 100 30 100)
    as ((s' & Hrun & Hc & _) & Hd & _); [reflexivity | reflexivity | reflexivity |].
  split; [|exact Hd].
  exists s'. split; [exact Hrun|].
  unfold scene in Hc. cbn [push] in Hc. injection Hc as _ _ _ -> _ _. reflexivity.
Defined.

(** ** Whole gestures *)

Lemma setEndOf_twice (b : Annotation) (x y x' y' : Q) :
  setEndOf (setEndOf b x y) x' y' = setEndOf b x' y'.
Proof. destruct b; reflexivity. Qed.

(** The press of a shape tool starts a shape that is below its threshold. *)
Lemma press_shape (tool : Tool) (s : State) (x0 y0 : Q) (a : Annotation) :
  isEditingText s = false -> dragged tool s x0 y0 x0 y0 = Some a ->
  exists s2, run [KeyTool tool; MouseDown (at_ x0 y0)] s = Some s2 /\
             previewing tool s x0 y0 s2 /\ untouched s s2 /\
             exists b, inProgress s2 = Some b /\ ~ crossesThreshold b.
Proof.
  intros He Ha. cbn [run].
  destruct (selectTool_idle tool s He)
    as (s1 & -> & Ht & He1 & Hc & Hl & Hf & Hh & Hu).
  cbn [dispatch]. unfold handleMouseDown. rewrite He1, Ht.
  destruct tool; try discriminate Ha; clear Ha;
    (eexists; split; [reflexivity|]);
    (split; [split; [split; [reflexivity | split; cbn; rewrite Ht; discriminate]|];
             split; [cbn; exact Ht|];
             eexists; split; [unfold inProgress; cbn; rewrite Ht; reflexivity|];
             intros x y; cbn; rewrite ?Hc, ?Hl, ?Hf; reflexivity|]);
    (split; [eapply untouched_trans; [exact Hu | repeat split; reflexivity]|]);
    (eexists; split; [unfold inProgress; cbn; rewrite Ht; reflexivity|]);
    cbn; intros H.
  - vm_compute in H. discriminate.
  - vm_compute in H. discriminate.
  - assert (E : (x0 - x0) * (x0 - x0) + (y0 - y0) * (y0 - y0) == 0) by ring.
    rewrite E in H. lra.
  - vm_compute in H. discriminate.
Qed.

Lemma scheduleShapeRedraw_inProgress (c : Coords) (t : State) :
  inProgress (scheduleShapeRedraw c t) = inProgress t.
Proof.
  unfold scheduleShapeRedraw, inProgress. cbn. destruct (rafId t); reflexivity.
Qed.

(** What the animation frame does to the shape in progress. *)
Lemma shapeRedraw_previewing (tool : Tool) (s : State) (x0 y0 : Q) (t : State) :
  previewing tool s x0 y0 t ->
  previewing tool s x0 y0 (shapeRedraw t) /\ untouched t (shapeRedraw t) /\
  rafId (shapeRedraw t) = false /\ pendingCoords (shapeRedraw t) = None /\
  (forall pc, pendingCoords t = Some pc ->
     inProgress (shapeRedraw t) = dragged tool s x0 y0 (c_x pc) (c_y pc)).
Proof.
  intros ((Hd & Hs & Hp) & Ht & b & Hb & Hall).
  unfold shapeRedraw. destruct (pendingCoords t) as [pc|] eqn:P.
  - rewrite Hd. unfold inProgress in Hb. rewrite Ht in Hb, Hs, Hp.
    destruct tool; try discriminate (Hall 0 0); rewrite Ht.
    + destruct (currentRectangle t) as [r|] eqn:C; [|discriminate].
      injection Hb as <-. cbn iota.
      split; [|split; [repeat split; reflexivity|split; [reflexivity|split; [reflexivity|]]]].
      * split; [split; [exact Hd | split; cbn; rewrite Ht; discriminate]|].
        split; [exact Ht|]. eexists.
        split; [unfold inProgress; cbn; rewrite Ht; reflexivity|].
        intros x y. rewrite (Hall x y). reflexivity.
      * intros pc' E. injection E as <-. rewrite (Hall (c_x pc) (c_y pc)).
        unfold inProgress. cbn. rewrite Ht. reflexivity.
    + destruct (currentEllipse t) as [r|] eqn:C; [|discriminate].
      injection Hb as <-. cbn iota.
      split; [|split; [repeat split; reflexivity|split; [reflexivity|split; [reflexivity|]]]].
      * split; [split; [exact Hd | split; cbn; rewrite Ht; discriminate]|].
        split; [exact Ht|]. eexists.
        split; [unfold inProgress; cbn; rewrite Ht; reflexivity|].
        intros x y. rewrite (Hall x y). reflexivity.
      * intros pc' E. injection E as <-. rewrite (Hall (c_x pc) (c_y pc)).
        unfold inProgress. cbn. rewrite Ht. reflexivity.
    + destruct (currentArrow t) as [r|] eqn:C; [|discriminate].
      injection Hb as <-. cbn iota.
      split; [|split; [repeat split; reflexivity|split; [reflexivity|split; [reflexivity|]]]].
      * split; [split; [exact Hd | split; cbn; rewrite Ht; discriminate]|].
        split; [exact Ht|]. eexists.
        split; [unfold inProgress; cbn; rewrite Ht; reflexivity|].
        intros x y. rewrite (Hall x y). reflexivity.
      * intros pc' E. injection E as <-. rewrite (Hall (c_x pc) (c_y pc)).
        unfold inProgress. cbn. rewrite Ht. reflexivity.
    + destruct (currentBlur t) as [r|] eqn:C; [|discriminate].
      injection Hb as <-. cbn iota.
      split; [|split; [repeat split; reflexivity|split; [reflexivity|split; [reflexivity|]]]].
      * split; [split; [exact Hd | split; cbn; rewrite Ht; discriminate]|].
        split; [exact Ht|]. eexists.
        split; [unfold inProgress; cbn; rewrite Ht; reflexivity|].
        intros x y. rewrite (Hall x y). reflexivity.
      * intros pc' E. injection E as <-. rewrite (Hall (c_x pc) (c_y pc)).
        unfold inProgress. cbn. rewrite Ht. reflexivity.
  - split; [|split; [repeat split; reflexivity|split; [reflexivity|split; [reflexivity|discriminate]]]].
    split; [split; [exact Hd | split; [exact Hs | exact Hp]]|].
    split; [exact Ht|]. exists b. split; [exact Hb | exact Hall].
Qed.

Lemma preview_dispatch (tool : Tool) (s : State) (x0 y0 : Q) (e : Event) (t : State) :
  isPreview e -> previewing tool s x0 y0 t ->
  exists t', dispatch e t = Some t' /\ previewing tool s x0 y0 t' /\ untouched t t'.
Proof.
  intros He H. destruct e; try contradiction; cbn [dispatch].
  - destruct H as (D & Ht & b & Hb & Hall).
    rewrite (handleMouseMove_shape coords t D).
    destruct (scheduleShapeRedraw_frame coords t)
      as (_ & _ & _ & F4 & _ & _ & _ & _ & _ & F10).
    eexists. split; [reflexivity|]. split; [|exact F10].
    split; [apply scheduleShapeRedraw_drawingShape; exact D|].
    split; [rewrite F4; exact Ht|].
    exists b. split; [rewrite scheduleShapeRedraw_inProgress; exact Hb | exact Hall].
  - destruct (rafId t).
    + destruct (shapeRedraw_previewing tool s x0 y0 t H) as (G1 & G2 & _).
      eexists. split; [reflexivity|]. split; assumption.
    + eexists. split; [reflexivity|]. split; [exact H | repeat split; reflexivity].
Qed.

Lemma preview_run (tool : Tool) (s : State) (x0 y0 : Q) (mid : list Event) :
  Forall isPreview mid -> forall t,
  previewing tool s x0 y0 t ->
  exists t', run mid t = Some t' /\ previewing tool s x0 y0 t' /\ untouched t t'.
Proof.
  induction 1 as [|e mid He _ IH]; intros t H.
  - exists t. split; [reflexivity|]. split; [exact H | repeat split; reflexivity].
  - destruct (preview_dispatch tool s x0 y0 e t He H) as (t1 & E1 & H1 & U1).
    destruct (IH t1 H1) as (t2 & E2 & H2 & U2).
    exists t2. cbn [run]. rewrite E1. split; [exact E2|].
    split; [exact H2 | exact (untouched_trans _ _ _ U1 U2)].
Qed.

(** The move to the last position rendered, and its frame. *)
Lemma preview_last (tool : Tool) (s : State) (x0 y0 x1 y1 : Q) (t : State) :
  previewing tool s x0 y0 t ->
  exists t', run [MouseMove (at_ x1 y1); AnimationFrame] t = Some t' /\
             previewing tool s x0 y0 t' /\ untouched t t' /\
             rafId t' = false /\ pendingCoords t' = None /\
             inProgress t' = dragged tool s x0 y0 x1 y1.
Proof.
  intros H. cbn [run dispatch].
  assert (D : drawingShape t) by exact (proj1 H).
  rewrite (handleMouseMove_shape _ t D).
  destruct (scheduleShapeRedraw_frame (at_ x1 y1) t)
    as (F1 & F2 & _ & F4 & _ & _ & _ & _ & _ & F10).
  assert (H1 : previewing tool s x0 y0 (scheduleShapeRedraw (at_ x1 y1) t)).
  { destruct H as (_ & Ht & b & Hb & Hall).
    split; [apply scheduleShapeRedraw_drawingShape; exact D|].
    split; [rewrite F4; exact Ht|].
    exists b. split; [rewrite scheduleShapeRedraw_inProgress; exact Hb | exact Hall]. }
  rewrite F1.
  destruct (shapeRedraw_previewing tool s x0 y0 _ H1) as (G1 & G2 & G3 & G4 & G5).
  eexists. split; [reflexivity|]. split; [exact G1|].
  split; [exact (untouched_trans _ _ _ F10 G2)|].
  split; [exact G3|]. split; [exact G4|]. exact (G5 _ F2).
Qed.

(** Moves the release comes before the frame of are lost. *)
Lemma release_late (late : list Coords) (t : State) :
  drawingShape t -> rafId t = false -> pendingCoords t = None ->
  run (map MouseMove late ++ [MouseUp]) t = Some (handleMouseUp t).
Proof.
  intros D Hr Hc. destruct late as [|c cs _] using rev_ind; [reflexivity|].
  rewrite run_app, (run_moves_shape cs c t D). cbn [run dispatch].
  rewrite (handleMouseUp_unrendered c t D Hr Hc). reflexivity.
Qed.

(** Without a frame the moves leave the shape as the press made it. *)
Lemma moves_keep (cs : list Coords) : forall t,
  drawingShape t ->
  exists t', run (map MouseMove cs) t = Some t' /\ drawingShape t' /\
             inProgress t' = inProgress t /\ untouched t t'.
Proof.
  induction cs as [|c cs IH]; intros t D.
  - exists t. split; [reflexivity|]. split; [exact D|]. split; [reflexivity|].
    repeat split; reflexivity.
  - cbn [map run dispatch]. rewrite (handleMouseMove_shape c t D).
    destruct (IH _ (scheduleShapeRedraw_drawingShape c t D)) as (t' & E & D' & P & U).
    exists t'. split; [exact E|]. split; [exact D'|].
    split; [rewrite P; apply scheduleShapeRedraw_inProgress|].
    destruct (scheduleShapeRedraw_frame c t) as (_ & _ & _ & _ & _ & _ & _ & _ & _ & F10).
    exact (untouched_trans _ _ _ F10 U).
Qed.

Lemma dragged_anywhere (tool : Tool) (s : State) (x0 y0 x1 y1 x y : Q) (a : Annotation) :
  dragged tool s x0 y0 x1 y1 = Some a -> exists a', dragged tool s x0 y0 x y = Some a'.
Proof. destruct tool; try discriminate; intros _; eexists; reflexivity. Qed.

(** C6.  On release the annotation in progress is pushed into its list,
    with exactly one history save, if and only if it crosses its commit
    threshold, and otherwise no list and no history entry changes; the
    annotation in progress of a shape tool is the one spanned from the
    press to the pointer of the last animation frame.  So a whole gesture
    commits if and only if the shape up to the last position a frame has
    rendered crosses the threshold, whatever the moves after that frame;
    and a gesture released before any frame commits nothing, however far
    the pointer went. *)
Theorem release_commits_iff_threshold :
  (forall s a,
     isDrawing s = true -> inProgress s = Some a ->
     (committedOnce a s (handleMouseUp s) <-> crossesThreshold a) /\
     (untouched s (handleMouseUp s) <-> ~ crossesThreshold a)) /\
  (forall s tool x0 y0 mid x1 y1 late a,
     isEditingText s = false -> Forall isPreview mid ->
     dragged tool s x0 y0 x1 y1 = Some a ->
     exists s', run (gesture tool x0 y0 mid x1 y1 late) s = Some s' /\
                (committedOnce a s s' <-> crossesThreshold a) /\
                (untouched s s' <-> ~ crossesThreshold a)) /\
  (forall s tool x0 y0 moves a,
     isEditingText s = false -> dragged tool s x0 y0 x0 y0 = Some a ->
     exists s', run (unrendered tool x0 y0 moves) s = Some s' /\ untouched s s').
Proof.
  split; [exact release_iff|]. split.
  - intros s tool x0 y0 mid x1 y1 late a He Hmid Ha.
    destruct (dragged_anywhere tool s x0 y0 x1 y1 x0 y0 a Ha) as [a0 Ha0].
    destruct (press_shape tool s x0 y0 a0 He Ha0) as (s2 & E2 & P2 & U2 & _).
    destruct (preview_run tool s x0 y0 mid Hmid s2 P2) as (s3 & E3 & P3 & U3).
    destruct (preview_last tool s x0 y0 x1 y1 s3 P3)
      as (s4 & E4 & P4 & U4 & R4 & C4 & I4).
    assert (D4 : drawingShape s4) by exact (proj1 P4).
    exists (handleMouseUp s4). split.
    { unfold gesture. rewrite run_app, E2, run_app, E3, run_app, E4.
      apply release_late; assumption. }
    assert (U : untouched s s4)
      by exact (untouched_trans _ _ _ U2 (untouched_trans _ _ _ U3 U4)).
    rewrite Ha in I4.
    destruct (handleMouseUp_release s4 a (proj1 D4) I4) as [[Hc Hm]|[Hc Hu]].
    + assert (Hm' : committedOnce a s (handleMouseUp s4))
        by exact (committedOnce_after a s s4 _ U Hm).
      split; split; intros H; try assumption; try contradiction.
      exfalso. exact (committedOnce_not_untouched _ _ _ Hm' H).
    + assert (Hu' : untouched s (handleMouseUp s4))
        by exact (untouched_trans _ _ _ U Hu).
      split; split; intros H; try assumption; try contradiction.
      exfalso. exact (committedOnce_not_untouched _ _ _ H Hu').
  - intros s tool x0 y0 moves a He Ha.
    destruct (press_shape tool s x0 y0 a He Ha) as (s2 & E2 & P2 & U2 & b & Hb & Hn).
    destruct (moves_keep moves s2 (proj1 P2)) as (s3 & E3 & D3 & P3 & U3).
    exists (handleMouseUp s3). split.
    { unfold unrendered. rewrite run_app, E2, run_app, E3. reflexivity. }
    rewrite <- P3 in Hb.
    destruct (handleMouseUp_release s3 b (proj1 D3) Hb) as [[Hc _]|[_ Hu]];
      [contradiction|].
    exact (untouched_trans _ _ _ U2 (untouched_trans _ _ _ U3 Hu)).
Qed.

Lemma release_commits_iff_threshold_witness :
  (exists s', run (gesture ARROW 0 0 [MouseMove (at_ 50 50); AnimationFrame] 6 0
                           [at_ 3 0])
                  (loaded ctx0) = Some s' /\
              arrows s' = [arrowTo 6 0] /\ length (history s') = 2%nat) /\
  (exists s', run (gesture ARROW 0 0 [MouseMove (at_ 50 50); AnimationFrame] 4 0
                           [at_ 90 0])
                  (loaded ctx0) = Some s' /\
              arrows s' = [] /\ history s' = history (loaded ctx0)) /\
  (exists s', run (unrendered ARROW 0 0 [at_ 6 0; at_ 100 0]) (loaded ctx0) = Some s' /\
              arrows s' = [] /\ history s' = history (loaded ctx0)).
Proof.
  destruct release_commits_iff_threshold as (_ & G & N).
  assert (Hm : Forall isPreview [MouseMove (at_ 50 50); AnimationFrame])
    by (repeat constructor).
  split; [|split].
  - destruct (G (loaded ctx0) ARROW 0 0 _ 6 0 [at_ 3 0] (AArrow (arrowTo 6 0))
                eq_refl Hm eq_refl) as (s' & E & [_ C] & _).
    exists s'. split; [exact E|].
    destruct C as (C1 & C2 & _); [vm_compute; reflexivity|].
    split.
    + unfold scene in C1. cbn [push] in C1. injection C1 as _ -> _ _ _ _. reflexivity.
    + rewrite C2. reflexivity.
  - destruct (G (loaded ctx0) ARROW 0 0 _ 4 0 [at_ 90 0] (AArrow (arrowTo 4 0))
                eq_refl Hm eq_refl) as (s' & E & _ & [_ C]).
    exists s'. split; [exact E|].
    destruct C as (C1 & C2 & _); [vm_compute; discriminate|].
    split; [|exact C2].
    unfold scene in C1. injection C1 as _ -> _ _ _ _. reflexivity.
  - destruct (N (loaded ctx0) ARROW 0 0 [at_ 6 0; at_ 100 0] (AArrow (arrowTo 0 0))
                eq_refl eq_refl) as (s' & E & C1 & C2 & _).
    exists s'. split; [exact E|]. split; [|exact C2].
    unfold scene in C1. injection C1 as _ -> _ _ _ _. reflexivity.
Defined.

(** An arrow dragged 6px, and further, and released before the animation
    frame of its moves is discarded: the arrow in progress is still the
    one of the press, of length 0. *)
Lemma unrendered_drag_discarded :
  crossesThreshold (AArrow (arrowTo 6 0)) /\
  (exists s, run [KeyTool ARROW; MouseDown (at_ 0 0); MouseMove (at_ 6 0); MouseUp]
                 (loaded ctx0) = Some s /\
             arrows s = [] /\ history s = history (loaded ctx0) /\
             historyIndex s = historyIndex (loaded ctx0)) /\
  (exists s, run [KeyTool ARROW; MouseDown (at_ 0 0); MouseMove (at_ 6 0);
                  MouseMove (at_ 100 0); MouseUp]
                 (loaded ctx0) = Some s /\
             arrows s = [] /\ history s = history (loaded ctx0) /\
             historyIndex s = historyIndex (loaded ctx0)).
Proof.
  split; [vm_compute; reflexivity|].
  split; eexists; (split; [reflexivity|]); repeat split; reflexivity.
Qed.

(** ** The hit test after a move *)

Lemma Qle_bool_compat (a b a' b' : Q) : a' == a -> b' == b -> Qle_bool a' b' = Qle_bool a b.
Proof.
  intros Ha Hb. destruct (Qle_bool a b) eqn:E.
  - apply Qle_bool_iff. apply Qle_bool_iff in E. rewrite Ha, Hb. exact E.
  - destruct (Qle_bool a' b') eqn:E'; [|reflexivity].
    apply Qle_bool_iff in E'. rewrite Ha, Hb in E'. apply Qle_bool_iff in E'. congruence.
Qed.

Lemma Qeq_bool_compat (a a' : Q) : a' == a -> Qeq_bool a' 0 = Qeq_bool a 0.
Proof.
  intros Ha. destruct (Qeq_bool a 0) eqn:E.
  - apply Qeq_bool_iff. apply Qeq_bool_iff in E. rewrite Ha. exact E.
  - destruct (Qeq_bool a' 0) eqn:E'; [|reflexivity].
    apply Qeq_bool_iff in E'. rewrite Ha in E'. apply Qeq_bool_iff in E'. congruence.
Qed.

Lemma Qltb_compat (a b a' b' : Q) : a' == a -> b' == b -> Qltb a' b' = Qltb a b.
Proof.
  intros Ha Hb. unfold Qltb. f_equal. apply Qle_bool_compat; assumption.
Qed.

Lemma pointInBounds_translate (x y dx dy : Q) (B B' : Bounds) :
  Bounds_eq B' (translate dx dy B) ->
  pointInBounds (x + dx) (y + dy) B' = pointInBounds x y B.
Proof.
  intros (H1 & H2 & H3 & H4). unfold translate in *. cbn [b_x b_y b_width b_height] in *.
  unfold pointInBounds.
  assert (E1 : Qle_bool (b_x B') (x + dx) = Qle_bool (b_x B) x).
  { destruct (Qle_bool (b_x B) x) eqn:E.
    - apply Qle_bool_iff. apply Qle_bool_iff in E. lra.
    - destruct (Qle_bool (b_x B') (x + dx)) eqn:E'; [|reflexivity].
      apply Qle_bool_iff in E'. assert (b_x B <= x) by lra.
      apply Qle_bool_iff in H. congruence. }
  assert (E2 : Qle_bool (x + dx) (b_x B' + b_width B') = Qle_bool x (b_x B + b_width B)).
  { destruct (Qle_bool x (b_x B + b_width B)) eqn:E.
    - apply Qle_bool_iff. apply Qle_bool_iff in E. lra.
    - destruct (Qle_bool (x + dx) (b_x B' + b_width B')) eqn:E'; [|reflexivity].
      apply Qle_bool_iff in E'. assert (x <= b_x B + b_width B) by lra.
      apply Qle_bool_iff in H. congruence. }
  assert (E3 : Qle_bool (b_y B') (y + dy) = Qle_bool (b_y B) y).
  { destruct (Qle_bool (b_y B) y) eqn:E.
    - apply Qle_bool_iff. apply Qle_bool_iff in E. lra.
    - destruct (Qle_bool (b_y B') (y + dy)) eqn:E'; [|reflexivity].
      apply Qle_bool_iff in E'. assert (b_y B <= y) by lra.
      apply Qle_bool_iff in H. congruence. }
  assert (E4 : Qle_bool (y + dy) (b_y B' + b_height B') = Qle_bool y (b_y B + b_height B)).
  { destruct (Qle_bool y (b_y B + b_height B)) eqn:E.
    - apply Qle_bool_iff. apply Qle_bool_iff in E. lra.
    - destruct (Qle_bool (y + dy) (b_y B' + b_height B')) eqn:E'; [|reflexivity].
      apply Qle_bool_iff in E'. assert (y <= b_y B + b_height B) by lra.
      apply Qle_bool_iff in H. congruence. }
  rewrite E1, E2, E3, E4. reflexivity.
Qed.

Lemma distanceToLineSq_translate (px py x1 y1 x2 y2 dx dy : Q) :
  distanceToLineSq (px + dx) (py + dy) (x1 + dx) (y1 + dy) (x2 + dx) (y2 + dy)
  == distanceToLineSq px py x1 y1 x2 y2.
Proof.
  unfold distanceToLineSq. cbn zeta.
  assert (EA : px + dx - (x1 + dx) == px - x1) by ring.
  assert (EB : py + dy - (y1 + dy) == py - y1) by ring.
  assert (EC : x2 + dx - (x1 + dx) == x2 - x1) by ring.
  assert (ED : y2 + dy - (y1 + dy) == y2 - y1) by ring.
  set (A' := px + dx - (x1 + dx)) in *. set (B' := py + dy - (y1 + dy)) in *.
  set (C' := x2 + dx - (x1 + dx)) in *. set (D' := y2 + dy - (y1 + dy)) in *.
  set (A := px - x1) in *. set (B := py - y1) in *.
  set (C := x2 - x1) in *. set (D := y2 - y1) in *.
  assert (EL : C' * C' + D' * D' == C * C + D * D) by (rewrite EC, ED; reflexivity).
  assert (Et : (if Qeq_bool (C' * C' + D' * D') 0 then - (1)
                else (A' * C' + B' * D') / (C' * C' + D' * D'))
               == (if Qeq_bool (C * C + D * D) 0 then - (1)
                   else (A * C + B * D) / (C * C + D * D))).
  { rewrite (Qeq_bool_compat _ _ EL). destruct (Qeq_bool (C * C + D * D) 0);
      [reflexivity|]. rewrite EL, EA, EB, EC, ED. reflexivity. }
  set (t' := if Qeq_bool (C' * C' + D' * D') 0 then _ else _) in *.
  set (t := if Qeq_bool (C * C + D * D) 0 then _ else _) in *.
  assert (Ec : Qmax 0 (Qmin 1 t') == Qmax 0 (Qmin 1 t)).
  { apply Q.max_compat; [reflexivity|]. apply Q.min_compat; [reflexivity | exact Et]. }
  set (u' := Qmax 0 (Qmin 1 t')) in *. set (u := Qmax 0 (Qmin 1 t)) in *.
  rewrite Ec, EC, ED. ring.
Qed.

Lemma nearLine_translate (px py x1 y1 x2 y2 dx dy tol : Q) :
  nearLine (px + dx) (py + dy) (x1 + dx) (y1 + dy) (x2 + dx) (y2 + dy) tol
  = nearLine px py x1 y1 x2 y2 tol.
Proof.
  unfold nearLine. apply Qltb_compat; [apply distanceToLineSq_translate | reflexivity].
Qed.

Lemma anySegment_translate (x y dx dy : Q) (ps : list Point) :
  anySegment (fun p1 p2 => nearLine (x + dx) (y + dy) (p_x p1) (p_y p1) (p_x p2) (p_y p2)
                                    SELECTION.hitTolerance)
             (map (movePoint dx dy) ps)
  = anySegment (fun p1 p2 => nearLine x y (p_x p1) (p_y p1) (p_x p2) (p_y p2)
                                      SELECTION.hitTolerance) ps.
Proof.
  induction ps as [|p1 [|p2 ps] IH]; [reflexivity | reflexivity |].
  cbn [map anySegment] in *. rewrite IH.
  cbn [movePoint p_x p_y]. rewrite nearLine_translate. reflexivity.
Qed.

(** X22.  The hit test follows a move: after an annotation is moved by
    [(dx, dy)], a point displaced by [(dx, dy)] hits it exactly when the
    point hit it before the move, for every type (for a stroke, with its
    point objects distinct). *)
Theorem hit_follows_move (s : State) (h : list Point) (a : Annotation)
    (dx dy x y : Q) :
  distinctPoints a ->
  let r := moveAnnotation h a dx dy in
  hitBy s (fst r) (x + dx) (y + dy) (snd r) = hitBy s h x y a.
Proof.
  intros Hnd. cbn zeta.
  destruct a as [st|ar|r|e|t|b]; cbn [moveAnnotation fst snd hitBy distinctPoints] in *.
  - unfold hitStroke. rewrite (points_forEachPoint _ st h Hnd).
    apply anySegment_translate.
  - unfold hitArrow. cbn [arrow_startX arrow_startY arrow_endX arrow_endY].
    apply nearLine_translate.
  - unfold hitRectangle. apply pointInBounds_translate.
    exact (moveAnnotation_bounds (ctx s) h (ARectangle r) dx dy _ I eq_refl).
  - unfold hitEllipse. apply pointInBounds_translate.
    exact (moveAnnotation_bounds (ctx s) h (AEllipse e) dx dy _ I eq_refl).
  - unfold hitText. apply pointInBounds_translate.
    exact (moveAnnotation_bounds (ctx s) h (AText t) dx dy _ I eq_refl).
  - unfold hitBlur. apply pointInBounds_translate.
    exact (moveAnnotation_bounds (ctx s) h (ABlur b) dx dy _ I eq_refl).
Qed.

Lemma hit_follows_move_witness :
  let st := mkStroke [0%nat; 1%nat] DEFAULTS.color DEFAULTS.lineWidth in
  let h := [mkPoint 10 10; mkPoint 60 30] in
  distinctPoints (AStroke st) /\
  hitBy (loaded ctx0) (fst (moveAnnotation h (AStroke st) 100 50)) (35 + 100) (22 + 50)
        (snd (moveAnnotation h (AStroke st) 100 50))
  = hitBy (loaded ctx0) h 35 22 (AStroke st).
Proof.
  cbn zeta.
  assert (Hnd : distinctPoints
                  (AStroke (mkStroke [0%nat; 1%nat] DEFAULTS.color DEFAULTS.lineWidth))).
  { cbn. apply (bool_decide_unpack _). vm_compute. exact I. }
  split; [exact Hnd|].
  exact (hit_follows_move (loaded ctx0) [mkPoint 10 10; mkPoint 60 30] _ 100 50 35 22 Hnd).
Defined.

(** ** Grabbing a handle *)

Lemma saveToHistory_selected (s : State) :
  selectedAnnotation (saveToHistory s) = selectedAnnotation s /\
  originalBounds (saveToHistory s) = originalBounds s /\
  dragStartX (saveToHistory s) = dragStartX s /\
  dragStartY (saveToHistory s) = dragStartY s.
Proof. unfold saveToHistory. repeat case_match; repeat split; reflexivity. Qed.

(** X23.  With the select tool, a press within the handle size of a
    corner of the selection, on a box wider and higher than 16, starts a
    resize by that handle: the bounds of the selection are recorded as the
    original bounds, the press as the drag start, the history is saved
    once and the selection is kept, whatever other annotation lies under
    the pointer. *)
Theorem handle_grab (c : Coords) (s : State) (a : Annotation) (B : Bounds)
    (m : DragMode) :
  currentTool s = SELECT -> isEditingText s = false ->
  selectedAnnotation s = Some a -> getBounds (ctx s) (heap s) a = Some B ->
  2 * SELECTION.handleSize < b_width B -> 2 * SELECTION.handleSize < b_height B ->
  nearCorner (c_x c) (c_y c) m B ->
  let s' := handleMouseDown c s in
  resizingSelection s' a m B /\
  dragStartX s' = c_x c /\ dragStartY s' = c_y c /\
  scene s' = scene s /\ heap s' = heap s /\
  history s' = history (saveToHistory s) /\
  historyIndex s' = historyIndex (saveToHistory s).
Proof.
  intros Ht He Hsel HB Hw Hh Hm. cbn zeta.
  assert (E0 : handleMouseDown c s = saveToHistory (startDrag m c (Some B) s)).
  { unfold handleMouseDown. rewrite He, Ht. unfold handleSelectMouseDown.
    rewrite Hsel, HB, (getHandleAtPoint_complete _ _ B m Hw Hh Hm). reflexivity. }
  rewrite E0. set (t := startDrag m c (Some B) s).
  destruct (saveToHistory_frame t) as (F1 & F2 & F3 & F4 & F5).
  destruct (saveToHistory_selected t) as (G1 & G2 & G3 & G4).
  destruct (saveToHistory_ext t s) as [K1 K2]; try reflexivity.
  split.
  - unfold resizingSelection. rewrite F2, F5, G1, G2.
    split; [exact Ht|]. split; [reflexivity|].
    split; [intros ->; exact Hm|]. split; [exact Hsel | reflexivity].
  - rewrite G3, G4, saveToHistory_scene, saveToHistory_heap.
    repeat split; try reflexivity; assumption.
Qed.

Lemma handle_grab_witness :
  exists s,
    run (drag RECTANGLE 100 100 300 250 ++
         [MouseUp; KeyTool SELECT; MouseDown (at_ 200 200); MouseUp]) (loaded ctx0)
      = Some s /\
    currentTool s = SELECT /\ isEditingText s = false /\
    selectedAnnotation s = Some (ARectangle (rectangleAt 100 100)) /\
    getBounds (ctx s) (heap s) (ARectangle (rectangleAt 100 100))
      = Some (mkBounds 100 100 200 150) /\
    nearCorner 302 249 ResizeSE (mkBounds 100 100 200 150) /\
    resizingSelection (handleMouseDown (at_ 302 249) s)
                      (ARectangle (rectangleAt 100 100)) ResizeSE
                      (mkBounds 100 100 200 150).
Proof.
  eexists. split; [vm_compute; reflexivity|].
  match goal with |- currentTool ?s = _ /\ _ => set (s0 := s) end.
  assert (Hn : nearCorner 302 249 ResizeSE (mkBounds 100 100 200 150)).
  { split; vm_compute; discriminate. }
  split; [reflexivity|]. split; [reflexivity|]. split; [reflexivity|].
  split; [reflexivity|]. split; [exact Hn|].
  destruct (handle_grab (at_ 302 249) s0 (ARectangle (rectangleAt 100 100))
              (mkBounds 100 100 200 150) ResizeSE) as [H _];
    [reflexivity | reflexivity | reflexivity | reflexivity
    | reflexivity | reflexivity | exact Hn | exact H].
Defined.
